(* ===== verification/_CoqProject ===== *)
-Q . S2P
Prelude.v
Prog.v
State.v
Fixture.v
Linked.v
Hardware.v
Exec.v
Interleave.v
Priority.v
Ipq.v
Spsc.v
Sched.v
ReadyQueue.v
Buckets.v
Dispatch.v
Mutex.v
Memory.v
Heap.v
AltState.v
Calm.v
Locked.v
HeapShared.v
Timer.v
TimerQueue.v
Expire.v
Comm.v
Rendezvous.v
Alt.v
Select.v
Timed.v
Fair.v
Interrupt.v
Proc.v
Par.v
Handlers.v
Signals.v
Boot.v
Libc.v
Clients.v
Machine.v
Adequacy.v
Meeting.v
Receive.v
Remote.v
Life.v
Spawn.v
Placed.v
Join.v
Across.v
Start.v
Pingpong.v
Runs.v
Types.v
Typing.v
Typed.v
