(* ===== verification/Prelude.v ===== *)
(** * CXP, a C eXecutive Program: a verification development

    CXP (README, src/) is a small executive for embedded systems: processes
    created by [par] constructs, synchronous channels, alternation, timeouts and
    preemptive priority scheduling on several processors that share memory.  The
    prototype runs each processor as a POSIX thread.  This development models
    the executive as it is written and proves what its parts promise.

    ** How the code is modelled

    - [Prog]: a C function is a value of [prog St A], a tree of atomic actions.
      One action is one access to a shared variable or one atomic instruction
      of the C code; loops, [swapcontext] ([Switch]), [setcontext] ([Resume])
      and the saving of an interrupted context ([SaveCtx]) are constructors.  A
      null or dangling pointer and an index out of range are [Fault]; [plotz]
      (exit with a message) is [Exit].  [eval] runs a program of one thread with
      fuel.  [exec c p s o] says that some fuel gives outcome [o]: a statement
      [exec ...] includes that the code returns (or reaches the context switch
      [o] names).
    - [State]: the structures and static variables of all modules as one record
      [sys]; [Hardware]: hardware.c, with signal masks, [pthread_kill] and
      interval timers as POSIX describes them.  C integers are [Z] with the
      wrap-around written out where the code computes ([uint16], [int64], ...).
    - [Machine]: the processors together.  A step is one action of one thread,
      the delivery of a signal a thread does not block, the start of a thread,
      or the passing of time.  [Adequacy] turns every [exec] into steps of the
      machine.
    - [Exec]: the rules and tactics that run programs symbolically; [Linked]:
      the linked lists that ready queues, timeout queues and free lists share,
      behind the class [LinkedNode]; [Interleave]: two threads whose actions
      interleave, with a rely/guarantee logic; [Calm]: programs that leave all
      data but the scheduler's alone; [Locked]: any number of threads around a
      mutex, and why what it guards is atomic; [Types]: what it means that the
      data is well formed, and a program logic for keeping it so; [Fixture]: a
      sample state.

    ** Which file models what

    - sched.c, sched.h: [Sched] (current process, ready queues, [schedule],
      [relinquish], [yield], preemption), [Proc] (process creation, [idle],
      termination), [Handlers] ([handle_interrupt] and the handlers), [Boot]
      ([initialize]), [Priority] (the priority macros).
    - ipq.m: [Ipq].  mutex.c: [Mutex], whose class [LockSpec] is what its
      clients rely on.  memory.c: [Memory].  comm.c: [Comm].  alt.c: [AltState],
      [Alt].  timer.c: [Timer].  interrupt.c: [Interrupt].  run.c,
      par_barrier.m: [Par].  hardware.c: [Hardware], [Handlers], [Boot].
    - examples/*.c: [Clients], programs over the same state; what they use of C
      ([int]s and strings in memory, [printf]) is in [Libc].

    Definitions keep the names of the C functions (but for [in], a keyword of
    Rocq, which is [in_]).  Where a C function is split, its loop or its critical
    section is a definition of its own.

    ** What the theorems show

    - Data ([Types], [Typing], [Typed]): in every state the machine can reach the
      fields have the widths of their C types, the arrays have their sizes, and
      the indices into them are in bounds.
    - Ready queues ([ReadyQueue], [Buckets]): [enqueue0] is stable insertion;
      [take] serves one first-in first-out queue per priority value.
    - Scheduling ([Dispatch]): [sched_ok] (the running process is not outranked
      by a queued one, and the queue is sorted) is kept by making ready,
      waiting, yielding and preemption, on every branch.
    - Interprocessor queues ([Ipq], [Spsc]): alone, adding and removing are
      those of a bounded queue, and adding to a full one spins for ever; with
      the two processors' actions interleaved in any order the queue is still
      first-in first-out, and nothing is lost or duplicated.  The handler of the
      interprocessor interrupt on every branch, and the whole way of a wake-up
      from one processor to the other on the machine ([Remote]); a child that
      ends too early can make its parent's processor lose a process.
    - Memory ([Heap]): the blocks in use are disjoint, an allocated block is
      fresh and large enough, a released one is the next one allocated; and what
      happens when the memory is exhausted.
    - The lock of the allocator ([Locked], [HeapShared]): however the actions of
      any number of processes interleave, the calls of [allocate_mem] and
      [release_mem] have the effects and the results of some sequence of them,
      and blocks allocated concurrently do not overlap.
    - Time ([TimerQueue], [Expire]): the timeout queues are sorted lists,
      [After] and the timeout interrupt on every branch; two races and a wrong
      release are shown.  The clock goes backwards at a tick, and the second
      processor has none of its own ([Runs]).
    - Channels ([Rendezvous], [Meeting]): every branch of [in], [out] and the
      wake-up protocol, no lost wake-up, and the whole rendezvous as a run of
      the machine.
    - Alternation ([Select], [Timed], [Fair], and the state machine in
      [Rendezvous]): what [priSelect] and [fairSelect] choose, with and without
      waiting, and [priSelect] with a timeout among its guards; no guard that
      stays ready is passed over for ever.
    - Interrupts ([Signals], [Receive]): a signal reaches the handler of its
      interrupt; [transmit] on every branch.
    - Processes ([Life], [Spawn], [Placed], [Join], [Across]): the end of a
      process, its creation, a [par] from the call to what follows it, with all
      its children run and gone, the same for a child that [placed_par] gives to
      the other processor, over both processors' interrupts, and [par_pri],
      [placed_par] and [placed_par_pri] on every branch of the call.
    - Priorities ([Priority]): the intervals [par_pri] gives the children.
    - The run ([Start]): from power on, the machine reaches the application with
      the invariants above.
    - Applications ([Pingpong], [Runs]): ring0arg2.c, from power on, exchanges
      its message any number of times, until its counter overflows; other
      applications run from power on to the end and print what they should.

    Each theorem with hypotheses has a witness, which applies it at a concrete
    state ([Fixture] or a variation of it).

    ** Bounds

    [NPUN] is 2, as in sched.h, and a process record has 16 bytes, as with the
    32-bit pointers the Makefile asks for.  Fuel appears in [eval] and [run_all]
    only.  [eval_mono] and [exec_det] make the choice of fuel in [exec]
    irrelevant.  [Start] runs the start of the system for 551 rounds, which is
    exactly as many as take the first processor to the application;
    [Pingpong] runs ring0arg2.c for 744 rounds, to the first exchange, and goes
    on by induction; the fuel of [run_out] in [Runs] is more than the runs take.

    ** Not modelled

    - The stack areas: a process's stack is represented by the context saved at
      its start, named by the address of its record.  [set_stack] and
      [build_context] establish contexts without a stack pointer in them.
    - Weak memory: every atomic access is sequentially consistent; the
      [memory_order] arguments are left out.  Plain accesses are as atomic as
      the atomic ones.
    - dbg.c, [print_set] and the calls of [dbg]: debugging output.
    - Floating point: the rates that ring.c and timing.c print are a parameter
      of [Clients].  Functions that an example for two processors repeats from
      the one for one processor are represented once; [sleeper], which nobody
      calls, is left out.

    The executive is parametric in the application's functions (the argument
    [user] of the machine), and the theorems on whole runs hold for any, but for
    those of [Pingpong] and [Runs]. *)

From stdpp Require Export base tactics option list gmap strings sorting relations.
From Stdlib Require Export ZArith Lia.

#[global] Open Scope Z_scope.

(** ** Scopes *)

Declare Scope prog_scope.
Delimit Scope prog_scope with prog.

(** ** Hints

    [cxp] holds the side conditions that the execution rules leave: which
    processor a thread is, what a state update leaves alone. *)

Create HintDb cxp.

(** ** Machine-width integers (types.h) *)

Definition wrapU (w z : Z) : Z := z mod 2 ^ w.
Definition wrapS (w z : Z) : Z := (z + 2 ^ (w - 1)) mod 2 ^ w - 2 ^ (w - 1).

Definition uint8 (z : Z) : Z := wrapU 8 z.
Definition uint16 (z : Z) : Z := wrapU 16 z.
Definition uint32 (z : Z) : Z := wrapU 32 z.
Definition uint64 (z : Z) : Z := wrapU 64 z.
Definition int64 (z : Z) : Z := wrapS 64 z.
Definition int32 (z : Z) : Z := wrapS 32 z.

(** ** Lists *)

(** Splitting a list where a test first fails. *)
Fixpoint span {A} (keep : A -> bool) (l : list A) : list A * list A :=
  match l with
  | [] => ([], [])
  | x :: l' => if keep x then (x :: (span keep l').1, (span keep l').2) else ([], x :: l')
  end.

Lemma span_app {A} (keep : A -> bool) (k : list A) : (span keep k).1 ++ (span keep k).2 = k.
Proof. induction k as [|x k IH]; simpl; [done|]. destruct (keep x); simpl; by rewrite ?IH. Qed.

Lemma span_keep {A} (keep : A -> bool) (k : list A) : Forall (fun x => keep x = true) (span keep k).1.
Proof.
  induction k as [|x k IH]; simpl; [done|]. destruct (keep x) eqn:E; simpl; auto.
Qed.

Lemma span_stop {A} (keep : A -> bool) (k : list A) x k2 :
  (span keep k).2 = x :: k2 -> keep x = false.
Proof.
  induction k as [|y k IH]; simpl; [done|]. destruct (keep y) eqn:E; simpl; [done|].
  intros [= -> ->]. done.
Qed.

Lemma span_app_keep {A} (keep : A -> bool) (k1 k2 : list A) :
  Forall (fun x => keep x = true) k1 ->
  span keep (k1 ++ k2) = (k1 ++ (span keep k2).1, (span keep k2).2).
Proof.
  induction 1 as [|x k1 Hx _ IH]; simpl; [by destruct (span keep k2)|]. by rewrite Hx, IH.
Qed.

Lemma span_none {A} (keep : A -> bool) (k : list A) :
  Forall (fun x => keep x = false) k -> span keep k = ([], k).
Proof. destruct 1 as [|x k Hx _]; simpl; [done|]. by rewrite Hx. Qed.

Lemma span_ext {A} (f g : A -> bool) (k : list A) :
  (forall x, x ∈ k -> f x = g x) -> span f k = span g k.
Proof.
  induction k as [|x k IH]; intros Hfg; [done|]. simpl.
  rewrite (Hfg x) by set_solver. rewrite IH by set_solver. done.
Qed.


(** Inserting where the test first fails keeps a list sorted, when the test
    decides on which side of the new element an element belongs. *)
Lemma span_insert_sorted {A} (R : A -> A -> Prop) `{!Transitive R} (keep : A -> bool) p l :
  (forall x, x ∈ l -> if keep x then R x p else R p x) ->
  StronglySorted R l -> StronglySorted R ((span keep l).1 ++ p :: (span keep l).2).
Proof.
  induction l as [|x l IH]; intros Hp Hs; simpl; [by repeat constructor|].
  apply StronglySorted_inv in Hs as [Hs Hx]. pose proof (Hp x ltac:(left)) as Hxp.
  destruct (keep x) eqn:E; simpl.
  - constructor; [apply IH; [intros y Hy; apply Hp; by right|done]|].
    rewrite Forall_app, Forall_cons. rewrite <-(span_app keep l), Forall_app in Hx. tauto.
  - constructor; [by constructor|]. constructor; [done|].
    eapply Forall_impl; [exact Hx|]. intros y Hy. by transitivity x.
Qed.

(** In a sorted list, everything from the place where the test fails on is on
    the far side. *)
Lemma span_rest {A} (R : A -> A -> Prop) (keep : A -> bool) (Q : A -> Prop) l :
  (forall x, x ∈ l -> keep x = false -> Q x) -> (forall x y, Q x -> R x y -> Q y) ->
  StronglySorted R l -> Forall Q (span keep l).2.
Proof.
  intros Hq Hr. induction l as [|x l IH]; intros Hs; simpl; [constructor|].
  apply StronglySorted_inv in Hs as [Hs Hx].
  destruct (keep x) eqn:E; simpl; [apply IH; [|done]; intros y Hy; apply Hq; by right|].
  assert (Q x) by (apply Hq; [left|done]). constructor; [done|].
  eapply Forall_impl; [exact Hx|]. intros y Hy. by eapply Hr.
Qed.

Lemma lookup_nth {A} (l : list A) i d : (i < length l)%nat -> l !! i = Some (nth i l d).
Proof. intros Hi. destruct (nth_lookup_or_length l i d); [done|lia]. Qed.

Lemma filter_fmap {A B} (f : A -> B) (P : B -> Prop) `{!forall x, Decision (P x)} (l : list A) :
  filter P (f <$> l) = f <$> filter (fun x => P (f x)) l.
Proof.
  induction l as [|x l IH]; [done|]. cbn [fmap list_fmap]. rewrite !filter_cons, IH. by case_decide.
Qed.
