(* ===== verification/Prog.v ===== *)
(** * Prog: the effects of the C code

    A C function is a value of [prog St A]: a tree of atomic actions on the
    shared state [St], with a constructor for loops and one for each way the
    code manipulates execution contexts ([swapcontext], [setcontext] and the
    saving of the interrupted context).  [eval] runs a program with fuel on one
    processor; [exec] forgets the fuel; [wp] is the total-correctness judgement
    the other files use. *)

From Stdlib Require Import FunctionalExtensionality.
From S2P Require Import Prelude.

Section Prog.
Context {St : Type}.

(** Result of one atomic action: a value and the next state, the end of the
    whole program (the code's [plotz], which calls [exit]), or undefined
    behaviour (a null or dangling pointer, an index out of range). *)
Inductive res (B : Type) : Type :=
| Ok (b : B) (s : St)
| Exit (msg : string)
| Fault.

(** Programs.  [c] below is the thread (processor) that runs the action. *)
Inductive prog (A : Type) : Type :=
| Ret (a : A)
| Act {B : Type} (f : Z -> St -> res B) (k : B -> prog A)
| Loop {X B : Type} (body : X -> prog (X + B)) (x : X) (k : B -> prog A)
| Switch (old new : Z) (k : prog A)
| Resume (new : Z)
| SaveCtx (p : Z) (ctx : prog unit) (k : prog A).

(** Where a run of one processor stops. *)
Inductive outcome (A : Type) : Type :=
| Done (a : A) (s : St)
| Switched (old new : Z) (k : prog A) (s : St)
| Resumed (new : Z) (s : St)
| Saved (p : Z) (ctx : prog unit) (k : prog A) (s : St)
| Exited (msg : string) (s : St)
| Faulted.

End Prog.

Arguments res St B : clear implicits.
Arguments prog St A : clear implicits.
Arguments outcome St A : clear implicits.
Arguments Ok {St B} b s.
Arguments Exit {St B} msg.
Arguments Fault {St B}.
Arguments Ret {St A} a.
Arguments Act {St A B} f k.
Arguments Loop {St A X B} body x k.
Arguments Switch {St A} old new k.
Arguments Resume {St A} new.
Arguments SaveCtx {St A} p ctx k.
Arguments Done {St A} a s.
Arguments Switched {St A} old new k s.
Arguments Resumed {St A} new s.
Arguments Saved {St A} p ctx k s.
Arguments Exited {St A} msg s.
Arguments Faulted {St A}.

Fixpoint bind {St A B} (p : prog St A) (g : A -> prog St B) : prog St B :=
  match p with
  | Ret a => g a
  | Act f k => Act f (fun b => bind (k b) g)
  | Loop body x k => Loop body x (fun b => bind (k b) g)
  | Switch o n k => Switch o n (bind k g)
  | Resume n => Resume n
  | SaveCtx q ctx k => SaveCtx q ctx (bind k g)
  end.

Notation "x <- p ;; q" := (bind p (fun x => q))
  (at level 100, p at next level, right associativity) : prog_scope.
Notation "p ;; q" := (bind p (fun _ => q))
  (at level 100, q at level 200, right associativity) : prog_scope.
Bind Scope prog_scope with prog.

(** One atomic action; a loop whose body says [inl x] to go round again with
    [x] and [inr b] to leave with [b]. *)
Definition act {St B} (f : Z -> St -> res St B) : prog St B := Act f Ret.
Definition loop {St X B} (body : X -> prog St (X + B)) (x : X) : prog St B :=
  Loop body x Ret.
Definition ret {St A} (a : A) : prog St A := Ret a.

(** What follows one iteration of a loop. *)
Definition loop_k {St A X B} (body : X -> prog St (X + B)) (k : B -> prog St A)
    (r : X + B) : prog St A :=
  match r with inl x => Loop body x k | inr b => k b end.

(** Sequencing of outcomes: only [Done] goes on; a context switch keeps the
    rest of the program as the suspended continuation. *)
Definition bind_out {St A B} (o : outcome St A) (kp : A -> prog St B)
    (run : A -> St -> option (outcome St B)) : option (outcome St B) :=
  match o with
  | Done a s => run a s
  | Switched old new k s => Some (Switched old new (bind k kp) s)
  | Resumed new s => Some (Resumed new s)
  | Saved q ctx k s => Some (Saved q ctx (bind k kp) s)
  | Exited m s => Some (Exited m s)
  | Faulted => Some Faulted
  end.

Fixpoint eval {St} (n : nat) {A} (c : Z) (p : prog St A) (s : St)
    : option (outcome St A) :=
  match n with
  | O => None
  | S n =>
    match p with
    | Ret a => Some (Done a s)
    | Act f k =>
        match f c s with
        | Ok b s' => eval n c (k b) s'
        | Exit m => Some (Exited m s)
        | Fault => Some Faulted
        end
    | Loop body x k =>
        match eval n c (body x) s with
        | Some o => bind_out o (loop_k body k)
                      (fun r s' => eval n c (loop_k body k r) s')
        | None => None
        end
    | Switch old new k => Some (Switched old new k s)
    | Resume new => Some (Resumed new s)
    | SaveCtx q ctx k => Some (Saved q ctx k s)
    end
  end.

Definition exec {St A} (c : Z) (p : prog St A) (s : St) (o : outcome St A) : Prop :=
  exists n, eval n c p s = Some o.

(** Total correctness: the run of [p] stops, with an outcome in [Q]. *)
Definition wp {St A} (c : Z) (p : prog St A) (s : St) (Q : outcome St A -> Prop) : Prop :=
  exists o, exec c p s o /\ Q o.

(** Postconditions for a program that returns, and for one that stops at a
    context switch. *)
Definition returns {St A} (R : A -> St -> Prop) (o : outcome St A) : Prop :=
  match o with Done a s => R a s | _ => False end.
Definition switches {St A} (R : Z -> Z -> prog St A -> St -> Prop) (o : outcome St A) : Prop :=
  match o with Switched old new k s => R old new k s | _ => False end.

Section Laws.
Context {St : Type}.

Lemma bind_ret_r {A} (p : prog St A) : bind p Ret = p.
Proof.
  induction p; simpl; f_equal; try done; extensionality b; done.
Qed.

Lemma bind_ret_tt (p : prog St unit) : bind p (fun _ => ret tt) = p.
Proof. rewrite <-(bind_ret_r p) at 2. f_equal. by extensionality u; destruct u. Qed.

Lemma bind_assoc {A B C} (p : prog St A) (g : A -> prog St B) (h : B -> prog St C) :
  bind (bind p g) h = bind p (fun a => bind (g a) h).
Proof.
  induction p; simpl; f_equal; try done; extensionality b; done.
Qed.

Lemma bind_loop_k {A B X Y} (body : X -> prog St (X + Y)) (k : Y -> prog St A)
    (g : A -> prog St B) (r : X + Y) :
  bind (loop_k body k r) g = loop_k body (fun b => bind (k b) g) r.
Proof. by destruct r. Qed.

(** More fuel does not change the result. *)
Lemma eval_mono n m {A} c (p : prog St A) s o :
  eval n c p s = Some o -> (n <= m)%nat -> eval m c p s = Some o.
Proof.
  revert m A p s o. induction n as [|n IH]; intros m A p s o He Hle; [done|].
  destruct m as [|m]; [lia|]. assert (Hle' : (n <= m)%nat) by lia.
  destruct p as [|B f k|X B body x k| | |]; simpl in *; try done.
  - destruct (f c s); try done. by eapply IH.
  - destruct (eval n c (body x) s) as [o1|] eqn:E1; [|done].
    rewrite (IH m _ _ _ _ E1 Hle').
    destruct o1; simpl in *; try done. by eapply IH.
Qed.

(** The outcome of a program is unique. *)
Theorem exec_det {A} c (p : prog St A) s o1 o2 :
  exec c p s o1 -> exec c p s o2 -> o1 = o2.
Proof.
  intros [n Hn] [m Hm].
  pose proof (eval_mono n (n `max` m) c p s o1 Hn ltac:(lia)) as H1.
  pose proof (eval_mono m (n `max` m) c p s o2 Hm ltac:(lia)) as H2.
  congruence.
Qed.

Lemma exec_ret {A} c (a : A) s : exec c (Ret a : prog St A) s (Done a s).
Proof. by exists 1%nat. Qed.

Lemma exec_act {A B} c f (k : B -> prog St A) s b s' o :
  f c s = Ok b s' -> exec c (k b) s' o -> exec c (Act f k) s o.
Proof. intros Hf [n Hn]. exists (S n). simpl. by rewrite Hf. Qed.

Lemma exec_act_exit {A B} c f (k : B -> prog St A) s m :
  f c s = Exit m -> exec c (Act f k) s (Exited m s).
Proof. intros Hf. exists 1%nat. simpl. by rewrite Hf. Qed.

Lemma exec_act_fault {A B} c f (k : B -> prog St A) s :
  f c s = Fault -> exec c (Act f k) s Faulted.
Proof. intros Hf. exists 1%nat. simpl. by rewrite Hf. Qed.

Lemma exec_switch {A} c old new (k : prog St A) s :
  exec c (Switch old new k) s (Switched old new k s).
Proof. by exists 1%nat. Qed.

Lemma exec_resume {A} c new s : exec c (Resume new : prog St A) s (Resumed new s).
Proof. by exists 1%nat. Qed.

(** One iteration, then either the loop again or what follows it. *)
Lemma exec_loop {A X B} c (body : X -> prog St (X + B)) x (k : B -> prog St A) s r s' o :
  exec c (body x) s (Done r s') -> exec c (loop_k body k r) s' o ->
  exec c (Loop body x k) s o.
Proof.
  intros [n Hn] [m Hm]. exists (S (n `max` m)). simpl.
  rewrite (eval_mono n (n `max` m) _ _ _ _ Hn) by lia. simpl.
  eapply eval_mono; [exact Hm|lia].
Qed.

(** A loop whose body stops before it returns stops there too. *)
Lemma exec_loop_stop {A X B} c (body : X -> prog St (X + B)) x (k : B -> prog St A) s ob o :
  exec c (body x) s ob ->
  bind_out ob (loop_k body k) (fun _ _ => None) = Some o ->
  exec c (Loop body x k) s o.
Proof.
  intros [n Hn] Ho. exists (S n). simpl. rewrite Hn. by destruct ob.
Qed.

(** The outcome of [bind p g] from the outcome of [p]. *)
Definition after {A B} (c : Z) (g : A -> prog St B) (o1 : outcome St A)
    (o2 : outcome St B) : Prop :=
  match o1 with
  | Done a s => exec c (g a) s o2
  | Switched old new k s => o2 = Switched old new (bind k g) s
  | Resumed new s => o2 = Resumed new s
  | Saved q ctx k s => o2 = Saved q ctx (bind k g) s
  | Exited m s => o2 = Exited m s
  | Faulted => o2 = Faulted
  end.

Theorem exec_bind {A B} c (p : prog St A) (g : A -> prog St B) s o1 o2 :
  exec c p s o1 -> after c g o1 o2 -> exec c (bind p g) s o2.
Proof.
  intros [n Hn]. revert A B p g s o1 o2 Hn.
  induction n as [|n IH]; intros A B p g s o1 o2 Hn Ha; [done|].
  destruct p as [a|Y f k|X Y body x k|old new k|new|q ctx k]; cbn [eval] in Hn; simpl.
  - by simplify_eq.
  - destruct (f c s) as [b s1|m|] eqn:Ef; simplify_eq; simpl in *; subst.
    + eapply exec_act; [done|]. eapply IH; eauto.
    + by apply exec_act_exit.
    + by apply exec_act_fault.
  - destruct (eval n c (body x) s) as [ob|] eqn:Eb; [|done].
    assert (Hb : exec c (body x) s ob) by (by exists n).
    destruct ob as [r s1| | | | |]; simpl in Hn; simplify_eq; simpl in Ha; subst;
      try by (eapply exec_loop_stop; [exact Hb|]).
    + eapply exec_loop; [exact Hb|]. rewrite <-bind_loop_k. eapply IH; eauto.
    + eapply exec_loop_stop; [exact Hb|]. simpl. rewrite bind_assoc.
      do 2 f_equal. f_equal. extensionality r. by rewrite bind_loop_k.
    + eapply exec_loop_stop; [exact Hb|]. simpl. rewrite bind_assoc.
      do 2 f_equal. f_equal. extensionality r. by rewrite bind_loop_k.
  - simplify_eq. simpl in Ha. subst. apply exec_switch.
  - simplify_eq. simpl in Ha. subst. apply exec_resume.
  - simplify_eq. simpl in Ha. subst. by exists 1%nat.
Qed.

Lemma exec_bind_done {A B} c (p : prog St A) (g : A -> prog St B) s a s' o :
  exec c p s (Done a s') -> exec c (g a) s' o -> exec c (bind p g) s o.
Proof. intros. by eapply exec_bind. Qed.

Theorem exec_bind_inv {A B} c (p : prog St A) (g : A -> prog St B) s o2 :
  exec c (bind p g) s o2 -> exists o1, exec c p s o1 /\ after c g o1 o2.
Proof.
  intros [n Hn]. revert A p g s Hn. induction n as [|n IH]; intros A p g s Hn; [done|].
  destruct p as [a|Y f k|X Y body x k|old new k|new|q ctx k]; cbn [bind eval] in Hn.
  - exists (Done a s). split; [apply exec_ret|by exists (S n)].
  - destruct (f c s) as [b s1|m|] eqn:Ef; simplify_eq.
    + destruct (IH _ _ _ _ Hn) as (o1 & H1 & H2). exists o1. split; [by eapply exec_act|done].
    + exists (Exited m s). split; [by apply exec_act_exit|done].
    + exists Faulted. split; [by apply exec_act_fault|done].
  - destruct (eval n c (body x) s) as [ob|] eqn:Eb; [|done].
    assert (Hb : exec c (body x) s ob) by (by exists n).
    assert (Hk : loop_k body (fun b => bind (k b) g) = fun r => bind (loop_k body k r) g)
      by (extensionality r; by rewrite bind_loop_k).
    destruct ob as [r s1|o w q s1|w s1|q ctx p1 s1|m s1|]; simpl in Hn; simplify_eq; rewrite ?Hk in *.
    + destruct (IH _ _ _ _ Hn) as (o1 & H1 & H2). exists o1. split; [by eapply exec_loop|done].
    + eexists. split; [by eapply exec_loop_stop|]. simpl. by rewrite bind_assoc.
    + eexists. split; [by eapply exec_loop_stop|done].
    + eexists. split; [by eapply exec_loop_stop|]. simpl. by rewrite bind_assoc.
    + eexists. split; [by eapply exec_loop_stop|done].
    + eexists. split; [by eapply exec_loop_stop|done].
  - simplify_eq. eexists. split; [apply exec_switch|done].
  - simplify_eq. eexists. split; [apply exec_resume|done].
  - simplify_eq. eexists. split; [by exists 1%nat|done].
Qed.

(** A loop is its first turn, followed by the loop or by what follows it. *)
Lemma exec_unroll {A X B} c (body : X -> prog St (X + B)) x (k : B -> prog St A) s o :
  exec c (bind (body x) (loop_k body k)) s o -> exec c (Loop body x k) s o.
Proof.
  intros He. destruct (exec_bind_inv _ _ _ _ _ He) as (ob & Hb & Ha).
  destruct ob; simpl in Ha; subst; [by eapply exec_loop|by eapply exec_loop_stop..].
Qed.

(** ** Rules of [wp] *)

Lemma wp_mono {A} c (p : prog St A) s (Q Q' : outcome St A -> Prop) :
  wp c p s Q -> (forall o, Q o -> Q' o) -> wp c p s Q'.
Proof. intros (o & Ho & HQ) HQQ. exists o. auto. Qed.

Lemma wp_ret {A} c (a : A) s (Q : outcome St A -> Prop) : Q (Done a s) -> wp c (Ret a : prog St A) s Q.
Proof. intros HQ. exists (Done a s). split; [apply exec_ret|done]. Qed.

Lemma wp_act {A B} c f (k : B -> prog St A) s b s' Q :
  f c s = Ok b s' -> wp c (k b) s' Q -> wp c (Act f k) s Q.
Proof. intros Hf (o & Ho & HQ). exists o. split; [by eapply exec_act|done]. Qed.

Lemma wp_exit {A B} c f (k : B -> prog St A) s m (Q : outcome St A -> Prop) :
  f c s = Exit m -> Q (Exited m s) -> wp c (Act f k) s Q.
Proof. intros Hf HQ. eexists. split; [by eapply exec_act_exit|done]. Qed.

Lemma wp_switch {A} c old new (k : prog St A) s (Q : outcome St A -> Prop) :
  Q (Switched old new k s) -> wp c (Switch old new k) s Q.
Proof. intros HQ. eexists. split; [apply exec_switch|done]. Qed.

Lemma wp_resume {A} c new s (Q : outcome St A -> Prop) :
  Q (Resumed new s) -> wp c (Resume new) s Q.
Proof. intros HQ. eexists. split; [apply exec_resume|done]. Qed.

Lemma wp_bind {A B} c (p : prog St A) (g : A -> prog St B) s R Q :
  wp c p s (returns R) -> (forall a s', R a s' -> wp c (g a) s' Q) ->
  wp c (bind p g) s Q.
Proof.
  intros (o & Ho & HR) Hg. destruct o as [a s'| | | | |]; try done.
  destruct (Hg a s' HR) as (o2 & Ho2 & HQ). exists o2.
  split; [by eapply exec_bind|done].
Qed.

(** A program that stops at a context switch: what follows it is part of the
    suspended continuation. *)
Lemma wp_bind_switch {A B} c (p : prog St A) (g : A -> prog St B) s R Q :
  wp c p s (switches R) ->
  (forall old new k s', R old new k s' -> Q (Switched old new (bind k g) s')) ->
  wp c (bind p g) s Q.
Proof.
  intros (o & Ho & HR) HQ. destruct o as [|old new k s'| | | |]; try done.
  eexists. split; [by eapply exec_bind|]. by apply HQ.
Qed.

Lemma wp_bind_stop {A B} c (p : prog St A) (g : A -> prog St B) s m s' (Q : outcome St B -> Prop) :
  exec c p s (Exited m s') -> Q (Exited m s') -> wp c (bind p g) s Q.
Proof. intros Hp HQ. eexists. split; [by eapply exec_bind|done]. Qed.

(** One turn of a loop. *)
Lemma wp_loop {A X B} c (body : X -> prog St (X + B)) x (k : B -> prog St A) s R Q :
  wp c (body x) s (returns R) ->
  (forall r s', R r s' -> wp c (loop_k body k r) s' Q) ->
  wp c (Loop body x k) s Q.
Proof.
  intros (o & Ho & HR) Hk. destruct o as [r s'| | | | |]; try done.
  destruct (Hk r s' HR) as (o2 & Ho2 & HQ). exists o2.
  split; [by eapply exec_loop|done].
Qed.

(** A total-correctness rule for loops: an invariant and a measure that every
    turn decreases. *)
Lemma wp_loop_inv {A X B} c (body : X -> prog St (X + B)) (k : B -> prog St A)
    (I : nat -> X -> St -> Prop) (Q : outcome St A -> Prop) n x s :
  I n x s ->
  (forall n x s, I n x s ->
     wp c (body x) s (returns (fun r s' =>
       match r with
       | inl x' => exists m, (m < n)%nat /\ I m x' s'
       | inr b => wp c (k b) s' Q
       end))) ->
  wp c (Loop body x k) s Q.
Proof.
  intros HI Hbody. revert x s HI.
  induction (lt_wf n) as [n _ IH]. intros x s HI.
  eapply wp_loop; [by apply (Hbody n)|]. intros [x'|b] s' Hr; simpl; [|done].
  destruct Hr as (m & Hm & HI'). by eapply IH.
Qed.

(** Loops that come back to the same state, or whose body never returns,
    never return. *)
Lemma loop_diverges {A X B} c (body : X -> prog St (X + B)) x (k : B -> prog St A) s :
  exec c (body x) s (Done (inl x) s) -> forall n, eval n c (Loop body x k) s = None.
Proof.
  intros Hb n. induction n as [|n IH]; [done|]. cbn [eval].
  destruct (eval n c (body x) s) as [o|] eqn:E; [|done].
  assert (o = Done (inl x) s) as -> by (eapply exec_det; [by exists n|done]).
  exact IH.
Qed.

Lemma loop_body_diverges {A X B} c (body : X -> prog St (X + B)) x (k : B -> prog St A) s :
  (forall n, eval n c (body x) s = None) -> forall n, eval n c (Loop body x k) s = None.
Proof. intros Hb [|n]; [done|]. cbn [eval]. by rewrite Hb. Qed.

Lemma wp_exec {A} c (p : prog St A) s (Q : outcome St A -> Prop) o :
  exec c p s o -> wp c p s Q -> Q o.
Proof. intros Ho (o' & Ho' & HQ). by rewrite (exec_det _ _ _ _ _ Ho Ho'). Qed.

Lemma wp_returns {A} c (p : prog St A) s R :
  wp c p s (returns R) <-> exists a s', exec c p s (Done a s') /\ R a s'.
Proof.
  split.
  - intros ([a s'| | | | |] & Ho & HR); try done. eauto.
  - intros (a & s' & Ho & HR). by exists (Done a s').
Qed.
End Laws.

(** ** Runs on concrete inputs

    How a run of at most [n] steps ends, and the state in which it ends. *)
Inductive ending := Returned | Left (old new : Z) | Gone (new : Z).
Definition end_of {St A} (n : nat) (c : Z) (p : prog St A) (s : St) : option (ending * St) :=
  match eval n c p s with
  | Some (Done _ s') => Some (Returned, s')
  | Some (Switched old new _ s') => Some (Left old new, s')
  | Some (Resumed new s') => Some (Gone new, s')
  | _ => None
  end.
Definition end_state {St A} (n : nat) (c : Z) (p : prog St A) (s : St) : St :=
  from_option snd s (end_of n c p s).

Lemma end_spec {St A} n c (p : prog St A) s e :
  fst <$> end_of n c p s = Some e ->
  let s' := end_state n c p s in
  match e with
  | Returned => exists a, exec c p s (Done a s')
  | Left old new => exists k, exec c p s (Switched old new k s')
  | Gone new => exec c p s (Resumed new s')
  end.
Proof.
  unfold end_state, end_of. destruct (eval n c p s) as [[]|] eqn:E; intros [= <-]; simpl.
  all: first [by exists n|eexists; by exists n].
Qed.

Lemma end_done {St} n c (p : prog St unit) s :
  fst <$> end_of n c p s = Some Returned -> exec c p s (Done tt (end_state n c p s)).
Proof. by intros [[] H]%end_spec. Qed.
