(* ===== verification/State.v ===== *)
(** * State: the data of the executive

    The C structures ([sched.h], [alt.h], [comm.h], [timer.c], [memory.c],
    [interrupt.h], [par_barrier.h], [ipq.m], [hardware.c]) as records, and the
    static variables of all modules as the fields of one record [sys].  Objects
    the code reaches through pointers live in one typed heap per structure,
    keyed by address; reading through a null or dangling pointer is [Fault].
    A fixed array is a map from index to value: a missing index is out of
    bounds, hence [Fault] too. *)

From S2P Require Import Prelude Prog.

(** ** Addresses *)

Abbreviation addr := Z (only parsing).
Definition NULL : addr := 0.

(** number of processing units *)
Definition NPUN : Z := 2.

(** ** Process descriptors (sched.h) *)

(** process scheduling states *)
Definition PROC_READY : Z := 0.
Definition PROC_PREPARING_TO_WAIT : Z := 1.
Definition PROC_WAITING : Z := 2.

(** alt states (alt.h) *)
Definition ALT_NONE : Z := 0.
Definition ALT_ENABLING : Z := 1.
Definition ALT_WAITING : Z := 2.
Definition ALT_READY : Z := 3.

(** [p_stackptr] holds the address of the context saved at the start of the
    process's stack; that address stands for [&proc->stack] and is named by the
    address of the process record itself. *)
Record Process := mkProcess {
  p_stackptr : addr;
  p_next : addr;
  p_index : Z;
  p_pri : Z;
  p_pun : Z;
  p_alt_state : Z;
  p_sched_state : Z }.

Definition set_stackptr (v : addr) (p : Process) : Process :=
  mkProcess v (p_next p) (p_index p) (p_pri p) (p_pun p) (p_alt_state p) (p_sched_state p).
Definition set_next (v : addr) (p : Process) : Process :=
  mkProcess (p_stackptr p) v (p_index p) (p_pri p) (p_pun p) (p_alt_state p) (p_sched_state p).
Definition set_alt_state (v : Z) (p : Process) : Process :=
  mkProcess (p_stackptr p) (p_next p) (p_index p) (p_pri p) (p_pun p) v (p_sched_state p).
Definition set_sched_state (v : Z) (p : Process) : Process :=
  mkProcess (p_stackptr p) (p_next p) (p_index p) (p_pri p) (p_pun p) (p_alt_state p) v.

(** Function pointers the executive itself passes around, and the user's. *)
Inductive code_p :=
| CNull
| CIdle
| CRunInPar
| CFinishTermination
| CUser (n : Z).

#[export] Instance code_p_eq_dec : EqDecision code_p.
Proof. solve_decision. Defined.

(** ** Mutexes (mutex.h): the ones the code declares *)

Inductive mutex_p :=
| mutex_mem                    (* memory.c *)
| term_mutex (pun : Z)         (* termination[pun].mutex, sched.c *)
| chan_mutex (chan : addr).    (* chan->mutex, comm.h *)

#[export] Instance mutex_p_eq_dec : EqDecision mutex_p.
Proof. solve_decision. Defined.

#[export] Instance mutex_p_countable : Countable mutex_p.
Proof.
  refine (inj_countable'
    (fun m => match m with
              | mutex_mem => inl tt
              | term_mutex p => inr (inl p)
              | chan_mutex a => inr (inr a)
              end)
    (fun v => match v with
              | inl _ => mutex_mem
              | inr (inl p) => term_mutex p
              | inr (inr a) => chan_mutex a
              end) _).
  by intros [].
Defined.

(** ** Channels (comm.h); the union of [src] and [dest] is one field *)

Record Channel := mkChannel { ch_waiting : addr; ch_ptr : addr; ch_len : Z }.

(** ** Alternation (alt.h) *)

Definition GUARD_CHAN : Z := 0.
Definition GUARD_SKIP : Z := 1.
Definition GUARD_TIMER : Z := 2.
Definition GUARD_INTERRUPT : Z := 3.

Inductive guard_union :=
| UNone
| UChannel (chan : addr)
| UTime (time : Z)
| UInterrupt (intr : addr).

Record Guard := mkGuard { g_type : Z; g_union : guard_union }.

Record Alternation := mkAlternation {
  a_favorite : Z;
  a_nrGuards : Z;
  a_guards : addr }.

(** ** Timer queue entries (timer.c) *)

Definition TMO_AFTER : Z := 0.
Definition TMO_ALTING : Z := 1.

Record TimeoutDesc := mkTimeoutDesc {
  td_time : Z;
  td_proc : addr;
  td_next : addr;
  td_type : Z }.

(** ** Interprocessor queues (ipq.m): slot pointers as slot numbers *)

Record IPQueue := mkIPQueue {
  nextAdd : Z;
  nextRem : Z;
  que : gmap Z addr }.

(** ** Barriers of the par constructs (par_barrier.h) *)

Record ParBarrier := mkParBarrier { pb_children : Z; pb_parent : addr }.

(** ** The emulated hardware (hardware.c) *)

(** Signal sets: the signals of [g], or all signals but those of [g]. *)
Inductive sigset :=
| SigSet (g : gset Z)
| SigAllBut (g : gset Z).

Definition sigfillset : sigset := SigAllBut ∅.
Definition sigemptyset : sigset := SigSet ∅.
Definition sigismember (m : sigset) (signo : Z) : bool :=
  match m with
  | SigSet g => bool_decide (signo ∈ g)
  | SigAllBut g => negb (bool_decide (signo ∈ g))
  end.
Definition sigaddset (m : sigset) (signo : Z) : sigset :=
  match m with
  | SigSet g => SigSet ({[signo]} ∪ g)
  | SigAllBut g => SigAllBut (g ∖ {[signo]})
  end.
Definition sigdelset (m : sigset) (signo : Z) : sigset :=
  match m with
  | SigSet g => SigSet (g ∖ {[signo]})
  | SigAllBut g => SigAllBut ({[signo]} ∪ g)
  end.

(** What a saved context resumes: a function not yet entered (after
    [makecontext]), with the signal mask of the [getcontext] before it, or a
    computation suspended by a context switch or an interrupt. *)
Inductive uctx :=
| Fresh (mask : sigset) (code : code_p) (arg1 : code_p) (arg2 : addr) (userArgs : addr)
| Suspended.

(** A POSIX timer: the signal it sends, the time to its next expiration
    (0: disarmed) and its reload value. *)
Record ptimer := mkTimer { pt_signo : Z; pt_value : Z; pt_interval : Z }.

(** Interrupt descriptor: processing unit and interrupt number *)
Record IntrDesc := mkIntrDesc { id_pun : Z; id_intr : Z }.

(** The static variables of hardware.c and the part of the operating system
    they stand on.  A thread is named by the processor it represents. *)
Record hardware := mkHardware {
  cpu_key : gmap Z Z  (* thread-local cpu number, plus one *);
  thread_mask : gmap Z sigset  (* signals each thread blocks now *);
  sigmask : gmap Z sigset  (* sigmask[NPUN] *);
  SIGBASE : Z;
  next_signo : Z;
  intr_desc : gmap Z IntrDesc  (* interrupt[NPUN*NINTR] *);
  signal_no : gmap (Z * Z) Z  (* signal_no[NPUN][NINTR] *);
  thread_id : gmap Z Z;
  sigactions : gset Z  (* signals handle_signal is installed for *);
  timer : gmap (Z * Z) Z  (* timer[NPUN][NTIMER]: timer ids *);
  ptimers : gmap Z ptimer  (* the operating system's timers *);
  next_timer : Z  (* next id timer_create gives *);
  pending : gmap Z (list Z)  (* signals sent to each thread *);
  barrier : Z;
  procArg : gmap Z (Z * addr);
  uctxs : gmap addr uctx  (* contexts saved in process records *);
  sigrtmin : Z;
  sigrtmax : Z;
  heap_base : addr  (* what malloc returns; 0 if it fails *) }.

Definition set_cpu_key (v : gmap Z Z) (h : hardware) : hardware :=
  mkHardware v (thread_mask h) (sigmask h) (SIGBASE h) (next_signo h) (intr_desc h) (signal_no h) (thread_id h) (sigactions h) (timer h) (ptimers h) (next_timer h) (pending h) (barrier h) (procArg h) (uctxs h) (sigrtmin h) (sigrtmax h) (heap_base h).
Definition set_thread_mask (v : gmap Z sigset) (h : hardware) : hardware :=
  mkHardware (cpu_key h) v (sigmask h) (SIGBASE h) (next_signo h) (intr_desc h) (signal_no h) (thread_id h) (sigactions h) (timer h) (ptimers h) (next_timer h) (pending h) (barrier h) (procArg h) (uctxs h) (sigrtmin h) (sigrtmax h) (heap_base h).
Definition set_sigmask (v : gmap Z sigset) (h : hardware) : hardware :=
  mkHardware (cpu_key h) (thread_mask h) v (SIGBASE h) (next_signo h) (intr_desc h) (signal_no h) (thread_id h) (sigactions h) (timer h) (ptimers h) (next_timer h) (pending h) (barrier h) (procArg h) (uctxs h) (sigrtmin h) (sigrtmax h) (heap_base h).
Definition set_SIGBASE (v : Z) (h : hardware) : hardware :=
  mkHardware (cpu_key h) (thread_mask h) (sigmask h) v (next_signo h) (intr_desc h) (signal_no h) (thread_id h) (sigactions h) (timer h) (ptimers h) (next_timer h) (pending h) (barrier h) (procArg h) (uctxs h) (sigrtmin h) (sigrtmax h) (heap_base h).
Definition set_next_signo (v : Z) (h : hardware) : hardware :=
  mkHardware (cpu_key h) (thread_mask h) (sigmask h) (SIGBASE h) v (intr_desc h) (signal_no h) (thread_id h) (sigactions h) (timer h) (ptimers h) (next_timer h) (pending h) (barrier h) (procArg h) (uctxs h) (sigrtmin h) (sigrtmax h) (heap_base h).
Definition set_intr_desc (v : gmap Z IntrDesc) (h : hardware) : hardware :=
  mkHardware (cpu_key h) (thread_mask h) (sigmask h) (SIGBASE h) (next_signo h) v (signal_no h) (thread_id h) (sigactions h) (timer h) (ptimers h) (next_timer h) (pending h) (barrier h) (procArg h) (uctxs h) (sigrtmin h) (sigrtmax h) (heap_base h).
Definition set_signal_no (v : gmap (Z * Z) Z) (h : hardware) : hardware :=
  mkHardware (cpu_key h) (thread_mask h) (sigmask h) (SIGBASE h) (next_signo h) (intr_desc h) v (thread_id h) (sigactions h) (timer h) (ptimers h) (next_timer h) (pending h) (barrier h) (procArg h) (uctxs h) (sigrtmin h) (sigrtmax h) (heap_base h).
Definition set_thread_id (v : gmap Z Z) (h : hardware) : hardware :=
  mkHardware (cpu_key h) (thread_mask h) (sigmask h) (SIGBASE h) (next_signo h) (intr_desc h) (signal_no h) v (sigactions h) (timer h) (ptimers h) (next_timer h) (pending h) (barrier h) (procArg h) (uctxs h) (sigrtmin h) (sigrtmax h) (heap_base h).
Definition set_sigactions (v : gset Z) (h : hardware) : hardware :=
  mkHardware (cpu_key h) (thread_mask h) (sigmask h) (SIGBASE h) (next_signo h) (intr_desc h) (signal_no h) (thread_id h) v (timer h) (ptimers h) (next_timer h) (pending h) (barrier h) (procArg h) (uctxs h) (sigrtmin h) (sigrtmax h) (heap_base h).
Definition set_timer (v : gmap (Z * Z) Z) (h : hardware) : hardware :=
  mkHardware (cpu_key h) (thread_mask h) (sigmask h) (SIGBASE h) (next_signo h) (intr_desc h) (signal_no h) (thread_id h) (sigactions h) v (ptimers h) (next_timer h) (pending h) (barrier h) (procArg h) (uctxs h) (sigrtmin h) (sigrtmax h) (heap_base h).
Definition set_ptimers (v : gmap Z ptimer) (h : hardware) : hardware :=
  mkHardware (cpu_key h) (thread_mask h) (sigmask h) (SIGBASE h) (next_signo h) (intr_desc h) (signal_no h) (thread_id h) (sigactions h) (timer h) v (next_timer h) (pending h) (barrier h) (procArg h) (uctxs h) (sigrtmin h) (sigrtmax h) (heap_base h).
Definition set_next_timer (v : Z) (h : hardware) : hardware :=
  mkHardware (cpu_key h) (thread_mask h) (sigmask h) (SIGBASE h) (next_signo h) (intr_desc h) (signal_no h) (thread_id h) (sigactions h) (timer h) (ptimers h) v (pending h) (barrier h) (procArg h) (uctxs h) (sigrtmin h) (sigrtmax h) (heap_base h).
Definition set_pending (v : gmap Z (list Z)) (h : hardware) : hardware :=
  mkHardware (cpu_key h) (thread_mask h) (sigmask h) (SIGBASE h) (next_signo h) (intr_desc h) (signal_no h) (thread_id h) (sigactions h) (timer h) (ptimers h) (next_timer h) v (barrier h) (procArg h) (uctxs h) (sigrtmin h) (sigrtmax h) (heap_base h).
Definition set_barrier (v : Z) (h : hardware) : hardware :=
  mkHardware (cpu_key h) (thread_mask h) (sigmask h) (SIGBASE h) (next_signo h) (intr_desc h) (signal_no h) (thread_id h) (sigactions h) (timer h) (ptimers h) (next_timer h) (pending h) v (procArg h) (uctxs h) (sigrtmin h) (sigrtmax h) (heap_base h).
Definition set_procArg (v : gmap Z (Z * addr)) (h : hardware) : hardware :=
  mkHardware (cpu_key h) (thread_mask h) (sigmask h) (SIGBASE h) (next_signo h) (intr_desc h) (signal_no h) (thread_id h) (sigactions h) (timer h) (ptimers h) (next_timer h) (pending h) (barrier h) v (uctxs h) (sigrtmin h) (sigrtmax h) (heap_base h).
Definition set_uctxs (v : gmap addr uctx) (h : hardware) : hardware :=
  mkHardware (cpu_key h) (thread_mask h) (sigmask h) (SIGBASE h) (next_signo h) (intr_desc h) (signal_no h) (thread_id h) (sigactions h) (timer h) (ptimers h) (next_timer h) (pending h) (barrier h) (procArg h) v (sigrtmin h) (sigrtmax h) (heap_base h).

(** ** All static variables of the executive, and the typed heaps *)

Record sys := mkSys {
  hw : hardware;
  procs : gmap addr Process  (* process records *);
  current : gmap Z addr  (* current[NPUN] *);
  current_pri : gmap Z Z  (* current_pri[NPUN] *);
  rdyQues : gmap Z addr  (* rdyQues[NPUN].head *);
  mutexes : gmap mutex_p bool;
  ipQues : gmap Z IPQueue  (* ipQues[NPUN] *);
  procmemlist : gmap Z addr  (* procmemlist[NALLOC] *);
  chain : gmap addr addr  (* next of each released block *);
  tail : addr;
  taillen : Z;
  currentTime : Z;
  timeQue : gmap Z addr  (* timeQue[NPUN].head *);
  timeouts : gmap addr TimeoutDesc  (* timeout descriptors *);
  chans : gmap addr Channel  (* channels *);
  guards : gmap addr (list Guard)  (* guard arrays *);
  alts : gmap addr Alternation  (* alternations *);
  bars : gmap addr ParBarrier  (* par barriers *);
  interrupts : gmap (Z * Z) addr  (* interrupts[NPUN][NINTR].waiting *);
  bytes : gmap addr Z  (* user data the channels copy *);
  stdout : list string  (* what the application has printed *) }.

Definition set_hw (v : hardware) (s : sys) : sys :=
  mkSys v (procs s) (current s) (current_pri s) (rdyQues s) (mutexes s) (ipQues s) (procmemlist s) (chain s) (tail s) (taillen s) (currentTime s) (timeQue s) (timeouts s) (chans s) (guards s) (alts s) (bars s) (interrupts s) (bytes s) (stdout s).
Definition set_procs (v : gmap addr Process) (s : sys) : sys :=
  mkSys (hw s) v (current s) (current_pri s) (rdyQues s) (mutexes s) (ipQues s) (procmemlist s) (chain s) (tail s) (taillen s) (currentTime s) (timeQue s) (timeouts s) (chans s) (guards s) (alts s) (bars s) (interrupts s) (bytes s) (stdout s).
Definition set_current (v : gmap Z addr) (s : sys) : sys :=
  mkSys (hw s) (procs s) v (current_pri s) (rdyQues s) (mutexes s) (ipQues s) (procmemlist s) (chain s) (tail s) (taillen s) (currentTime s) (timeQue s) (timeouts s) (chans s) (guards s) (alts s) (bars s) (interrupts s) (bytes s) (stdout s).
Definition set_current_pri (v : gmap Z Z) (s : sys) : sys :=
  mkSys (hw s) (procs s) (current s) v (rdyQues s) (mutexes s) (ipQues s) (procmemlist s) (chain s) (tail s) (taillen s) (currentTime s) (timeQue s) (timeouts s) (chans s) (guards s) (alts s) (bars s) (interrupts s) (bytes s) (stdout s).
Definition set_rdyQues (v : gmap Z addr) (s : sys) : sys :=
  mkSys (hw s) (procs s) (current s) (current_pri s) v (mutexes s) (ipQues s) (procmemlist s) (chain s) (tail s) (taillen s) (currentTime s) (timeQue s) (timeouts s) (chans s) (guards s) (alts s) (bars s) (interrupts s) (bytes s) (stdout s).
Definition set_mutexes (v : gmap mutex_p bool) (s : sys) : sys :=
  mkSys (hw s) (procs s) (current s) (current_pri s) (rdyQues s) v (ipQues s) (procmemlist s) (chain s) (tail s) (taillen s) (currentTime s) (timeQue s) (timeouts s) (chans s) (guards s) (alts s) (bars s) (interrupts s) (bytes s) (stdout s).
Definition set_ipQues (v : gmap Z IPQueue) (s : sys) : sys :=
  mkSys (hw s) (procs s) (current s) (current_pri s) (rdyQues s) (mutexes s) v (procmemlist s) (chain s) (tail s) (taillen s) (currentTime s) (timeQue s) (timeouts s) (chans s) (guards s) (alts s) (bars s) (interrupts s) (bytes s) (stdout s).
Definition set_procmemlist (v : gmap Z addr) (s : sys) : sys :=
  mkSys (hw s) (procs s) (current s) (current_pri s) (rdyQues s) (mutexes s) (ipQues s) v (chain s) (tail s) (taillen s) (currentTime s) (timeQue s) (timeouts s) (chans s) (guards s) (alts s) (bars s) (interrupts s) (bytes s) (stdout s).
Definition set_chain (v : gmap addr addr) (s : sys) : sys :=
  mkSys (hw s) (procs s) (current s) (current_pri s) (rdyQues s) (mutexes s) (ipQues s) (procmemlist s) v (tail s) (taillen s) (currentTime s) (timeQue s) (timeouts s) (chans s) (guards s) (alts s) (bars s) (interrupts s) (bytes s) (stdout s).
Definition set_tail (v : addr) (s : sys) : sys :=
  mkSys (hw s) (procs s) (current s) (current_pri s) (rdyQues s) (mutexes s) (ipQues s) (procmemlist s) (chain s) v (taillen s) (currentTime s) (timeQue s) (timeouts s) (chans s) (guards s) (alts s) (bars s) (interrupts s) (bytes s) (stdout s).
Definition set_taillen (v : Z) (s : sys) : sys :=
  mkSys (hw s) (procs s) (current s) (current_pri s) (rdyQues s) (mutexes s) (ipQues s) (procmemlist s) (chain s) (tail s) v (currentTime s) (timeQue s) (timeouts s) (chans s) (guards s) (alts s) (bars s) (interrupts s) (bytes s) (stdout s).
Definition set_currentTime (v : Z) (s : sys) : sys :=
  mkSys (hw s) (procs s) (current s) (current_pri s) (rdyQues s) (mutexes s) (ipQues s) (procmemlist s) (chain s) (tail s) (taillen s) v (timeQue s) (timeouts s) (chans s) (guards s) (alts s) (bars s) (interrupts s) (bytes s) (stdout s).
Definition set_timeQue (v : gmap Z addr) (s : sys) : sys :=
  mkSys (hw s) (procs s) (current s) (current_pri s) (rdyQues s) (mutexes s) (ipQues s) (procmemlist s) (chain s) (tail s) (taillen s) (currentTime s) v (timeouts s) (chans s) (guards s) (alts s) (bars s) (interrupts s) (bytes s) (stdout s).
Definition set_timeouts (v : gmap addr TimeoutDesc) (s : sys) : sys :=
  mkSys (hw s) (procs s) (current s) (current_pri s) (rdyQues s) (mutexes s) (ipQues s) (procmemlist s) (chain s) (tail s) (taillen s) (currentTime s) (timeQue s) v (chans s) (guards s) (alts s) (bars s) (interrupts s) (bytes s) (stdout s).
Definition set_chans (v : gmap addr Channel) (s : sys) : sys :=
  mkSys (hw s) (procs s) (current s) (current_pri s) (rdyQues s) (mutexes s) (ipQues s) (procmemlist s) (chain s) (tail s) (taillen s) (currentTime s) (timeQue s) (timeouts s) v (guards s) (alts s) (bars s) (interrupts s) (bytes s) (stdout s).
Definition set_guards (v : gmap addr (list Guard)) (s : sys) : sys :=
  mkSys (hw s) (procs s) (current s) (current_pri s) (rdyQues s) (mutexes s) (ipQues s) (procmemlist s) (chain s) (tail s) (taillen s) (currentTime s) (timeQue s) (timeouts s) (chans s) v (alts s) (bars s) (interrupts s) (bytes s) (stdout s).
Definition set_alts (v : gmap addr Alternation) (s : sys) : sys :=
  mkSys (hw s) (procs s) (current s) (current_pri s) (rdyQues s) (mutexes s) (ipQues s) (procmemlist s) (chain s) (tail s) (taillen s) (currentTime s) (timeQue s) (timeouts s) (chans s) (guards s) v (bars s) (interrupts s) (bytes s) (stdout s).
Definition set_bars (v : gmap addr ParBarrier) (s : sys) : sys :=
  mkSys (hw s) (procs s) (current s) (current_pri s) (rdyQues s) (mutexes s) (ipQues s) (procmemlist s) (chain s) (tail s) (taillen s) (currentTime s) (timeQue s) (timeouts s) (chans s) (guards s) (alts s) v (interrupts s) (bytes s) (stdout s).
Definition set_interrupts (v : gmap (Z * Z) addr) (s : sys) : sys :=
  mkSys (hw s) (procs s) (current s) (current_pri s) (rdyQues s) (mutexes s) (ipQues s) (procmemlist s) (chain s) (tail s) (taillen s) (currentTime s) (timeQue s) (timeouts s) (chans s) (guards s) (alts s) (bars s) v (bytes s) (stdout s).
Definition set_bytes (v : gmap addr Z) (s : sys) : sys :=
  mkSys (hw s) (procs s) (current s) (current_pri s) (rdyQues s) (mutexes s) (ipQues s) (procmemlist s) (chain s) (tail s) (taillen s) (currentTime s) (timeQue s) (timeouts s) (chans s) (guards s) (alts s) (bars s) (interrupts s) v (stdout s).
Definition set_stdout (v : list string) (s : sys) : sys :=
  mkSys (hw s) (procs s) (current s) (current_pri s) (rdyQues s) (mutexes s) (ipQues s) (procmemlist s) (chain s) (tail s) (taillen s) (currentTime s) (timeQue s) (timeouts s) (chans s) (guards s) (alts s) (bars s) (interrupts s) (bytes s) v.

(** ** The initial state *)

(** The static variables before [main] runs, on a system whose real-time
    signals are [rtmin..rtmax], whose allocator returns [base] and whose next
    timer is [tid]. *)
Definition zeros {V} (n : nat) (v : V) : gmap Z V :=
  list_to_map ((fun i => (Z.of_nat i, v)) <$> seq 0 n).
Definition zeros2 {V} (n k : nat) (v : V) : gmap (Z * Z) V :=
  list_to_map (i ← seq 0 n; (fun j => (Z.of_nat i, Z.of_nat j, v)) <$> seq 0 k).

Definition power_on (rtmin rtmax base tid : Z) : sys :=
  mkSys
    (mkHardware ∅ {[0 := sigemptyset]} (zeros 2 sigemptyset) 0 0 (zeros 10 (mkIntrDesc 0 0))
       (zeros2 2 5 0) (zeros 2 0) ∅ (zeros2 2 2 0) ∅ tid {[0 := []]} NPUN (zeros 2 (0, NULL))
       ∅ rtmin rtmax base)
    ∅ (zeros 2 NULL) (zeros 2 0) (zeros 2 NULL) {[mutex_mem := false]}
    (zeros 2 (mkIPQueue 0 0 (zeros 5 NULL))) (zeros 24 NULL) ∅ NULL 0 0 (zeros 2 NULL) ∅ ∅ ∅ ∅ ∅
    (zeros2 2 5 NULL) ∅ [].

Abbreviation cprog := (prog sys).

(** ** Primitive actions *)

(** Reads and writes of the state; [None] is an invalid pointer or index. *)
Definition fetch {B} (f : sys -> option B) : cprog B :=
  act (fun _ s => match f s with Some b => Ok b s | None => Fault end).
Definition store (f : sys -> option sys) : cprog unit :=
  act (fun _ s => match f s with Some s' => Ok tt s' | None => Fault end).
Definition modify (f : sys -> sys) : cprog unit := act (fun _ s => Ok tt (f s)).

(** The number of the thread that runs. *)
Definition self : cprog Z := act (fun c s => Ok c s).

(** Ends the whole program with a message ([plotz], sched.c). *)
Definition plotz {A} (what : string) : cprog A := act (fun _ _ => Exit what).

(** Fields of the process record at [p]. *)
Definition pget {B} (p : addr) (fld : Process -> B) : cprog B :=
  fetch (fun s => fld <$> procs s !! p).
Definition upd_proc (p : addr) (f : Process -> Process) (s : sys) : sys :=
  set_procs (alter f p (procs s)) s.
Definition pset (p : addr) (f : Process -> Process) : cprog unit :=
  store (fun s => match procs s !! p with
                  | Some _ => Some (upd_proc p f s)
                  | None => None
                  end).

(** [atomic_exchange] on a field of the process record: the old value. *)
Definition xchg_sched_state (p : addr) (v : Z) : cprog Z :=
  act (fun _ s => match procs s !! p with
                  | Some P => Ok (p_sched_state P) (upd_proc p (set_sched_state v) s)
                  | None => Fault
                  end).

(** [atomic_compare_exchange_strong]: success, and the actual (old) value. *)
Definition cas_sched_state (p : addr) (expected desired : Z) : cprog (bool * Z) :=
  act (fun _ s => match procs s !! p with
                  | Some P =>
                      if p_sched_state P =? expected
                      then Ok (true, expected) (upd_proc p (set_sched_state desired) s)
                      else Ok (false, p_sched_state P) s
                  | None => Fault
                  end).
Definition cas_alt_state (p : addr) (expected desired : Z) : cprog (bool * Z) :=
  act (fun _ s => match procs s !! p with
                  | Some P =>
                      if p_alt_state P =? expected
                      then Ok (true, expected) (upd_proc p (set_alt_state desired) s)
                      else Ok (false, p_alt_state P) s
                  | None => Fault
                  end).
