(* ===== verification/Fixture.v ===== *)
(** * Fixture: a sample state

    A small state of the running system, at which the theorems are applied to
    concrete inputs: two processors; processor 0 runs [pA], with [pB] and its
    idle process ready; processor 1 runs [pR], with its idle process ready;
    the others wait. *)

From S2P Require Import Prelude Prog State.

Definition pA : addr := 0x100.
Definition pB : addr := 0x200.
Definition idle0 : addr := 0x300.
Definition pR : addr := 0x400.
Definition idle1 : addr := 0x500.
Definition pH : addr := 0x600.
Definition pL : addr := 0x700.
Definition pS : addr := 0x800.

(** A process of level 1, of value [val]. *)
Definition sample_proc (a next val pun st : Z) : Process :=
  mkProcess a next 6 (0x2000 + val) pun ALT_NONE st.

Definition sample_procs : gmap addr Process :=
  list_to_map
    [(pA, sample_proc pA NULL 1024 0 PROC_READY);
     (pB, sample_proc pB idle0 1024 0 PROC_READY);
     (idle0, mkProcess idle0 NULL 6 0xfff 0 ALT_NONE PROC_WAITING);
     (pR, sample_proc pR NULL 1024 1 PROC_READY);
     (idle1, mkProcess idle1 NULL 6 0xfff 1 ALT_NONE PROC_WAITING);
     (pH, sample_proc pH NULL 512 0 PROC_WAITING);
     (pL, sample_proc pL NULL 1536 0 PROC_WAITING);
     (pS, sample_proc pS NULL 1024 1 PROC_WAITING)].

(** Interrupt [i] of processor [p] is signal [41 + 5 * p + i]; the timer of
    each processor's timeouts exists and is disarmed. *)
Definition sample_hw : hardware :=
  mkHardware {[0 := 1; 1 := 2]} {[0 := sigemptyset; 1 := sigemptyset]}
    {[0 := sigemptyset; 1 := sigemptyset]} 41 50
    (list_to_map ((fun i => (Z.of_nat i, mkIntrDesc (Z.of_nat i / 5) (Z.of_nat i mod 5))) <$> seq 0 10))
    (list_to_map (i ← seq 0 2; (fun j => (Z.of_nat i, Z.of_nat j, 41 + 5 * Z.of_nat i + Z.of_nat j)) <$> seq 0 5))
    {[0 := 0; 1 := 1]} (list_to_set (seqZ 41 10))
    (list_to_map [((0, 0), 0); ((0, 1), 1); ((1, 1), 2)])
    {[0 := mkTimer 41 600 1000000000; 1 := mkTimer 42 0 0; 2 := mkTimer 47 0 0]} 3
    {[0 := []; 1 := []]} 0 (zeros 2 (0, NULL)) ∅ 41 72 0x100000.

Definition sample : sys :=
  mkSys sample_hw sample_procs {[0 := pA; 1 := pR]} {[0 := 0x2400; 1 := 0x2400]}
    {[0 := pB; 1 := idle1]}
    {[mutex_mem := false; term_mutex 0 := false; term_mutex 1 := false]}
    (zeros 2 (mkIPQueue 0 0 (zeros 5 NULL)))
    (zeros 24 NULL) ∅ 0x100000 5000 0 (zeros 2 NULL) ∅ ∅ ∅ ∅ ∅
    (zeros2 2 5 NULL) ∅ [].
