(* ===== verification/Linked.v ===== *)
(** * Linked: singly linked lists in a typed heap

    The ready queues, the timer queues and the free lists of the allocator are
    all singly linked lists threaded through a [next] field.  The class
    [LinkedNode] is what such a structure provides; the representation
    predicate [linked], the search loop [walk] and the lemmas on insertion and
    removal are shared by all of them. *)

From S2P Require Import Prelude Prog State.

(** ** The interface of a node *)

Class LinkedNode (Nd : Type) := {
  node_next : Nd -> addr;
  node_set_next : addr -> Nd -> Nd;
  node_next_set v n : node_next (node_set_next v n) = v }.

#[export] Program Instance Process_node : LinkedNode Process :=
  {| node_next := p_next; node_set_next := set_next |}.
Next Obligation. done. Qed.

Definition set_td_next (v : addr) (d : TimeoutDesc) : TimeoutDesc :=
  mkTimeoutDesc (td_time d) (td_proc d) v (td_type d).

#[export] Program Instance TimeoutDesc_node : LinkedNode TimeoutDesc :=
  {| node_next := td_next; node_set_next := set_td_next |}.
Next Obligation. done. Qed.

(** A block of a free list holds nothing but the pointer. *)
#[export] Program Instance Block_node : LinkedNode addr :=
  {| node_next := fun n => n; node_set_next := fun v _ => v |}.
Next Obligation. done. Qed.

(** ** Representation: the list [l] of node addresses starting at [a] *)

Fixpoint linked `{LinkedNode Nd} (h : gmap addr Nd) (a : addr) (l : list addr) : Prop :=
  match l with
  | [] => a = NULL
  | x :: l' => a = x /\ x <> NULL /\
      exists n, h !! x = Some n /\ linked h (node_next n) l'
  end.

(** The first node of a list, the last node before a place. *)
Definition first (l : list addr) : addr := match l with [] => NULL | x :: _ => x end.
Definition last_or (d : addr) (l : list addr) : addr := List.last l d.

(** The search loop of the code:
    [while (curr != NULL && test(curr)) { prev = curr; curr = curr->next; }] *)
Definition walk (test : addr -> cprog bool) (next : addr -> cprog addr)
    (prev curr : addr) : cprog (addr * addr) :=
  loop (fun pc : addr * addr =>
    if pc.2 =? NULL then ret (inr pc)
    else (b <- test pc.2;;
          if b then (n <- next pc.2;; ret (inl (pc.2, n)))
          else ret (inr pc))%prog) (prev, curr).

Section Linked.
Context `{LinkedNode Nd}.
Implicit Types (h : gmap addr Nd) (l : list addr) (a x p : addr).

Lemma linked_first h a l : linked h a l -> a = first l.
Proof. by destruct l; simpl; [|intros [-> _]]. Qed.

Lemma linked_det h a l l' : linked h a l -> linked h a l' -> l = l'.
Proof.
  revert a l'. induction l as [|x l IH]; intros a [|y l'] H1 H2; simpl in *; [done|..].
  - by destruct H2 as (-> & ? & _).
  - by destruct H1 as (-> & ? & _).
  - destruct H1 as (-> & _ & n & Hn & Hl), H2 as (-> & _ & m & Hm & Hl'). simplify_eq.
    f_equal. by eapply IH.
Qed.

Lemma linked_app_inv h a l1 l2 :
  linked h a (l1 ++ l2) -> linked h (first (l1 ++ l2)) (l1 ++ l2) /\ linked h (first l2) l2.
Proof.
  revert a. induction l1 as [|x l1 IH]; intros a Hl; simpl in *.
  - by rewrite <-(linked_first _ _ _ Hl).
  - destruct Hl as (-> & Hx & n & Hn & Hl). split; [eauto|]. by apply IH in Hl as [_ ?].
Qed.

Lemma linked_suffix h a l1 l2 : linked h a (l1 ++ l2) -> linked h (first l2) l2.
Proof. intros Hl. by apply linked_app_inv in Hl as [_ ?]. Qed.

Lemma linked_elem h a l x : linked h a l -> x ∈ l -> x <> NULL /\ exists n, h !! x = Some n.
Proof.
  intros Hl (l1 & l2 & ->)%list_elem_of_split.
  apply linked_suffix in Hl. destruct Hl as (_ & Hx & n & Hn & _). eauto.
Qed.

Lemma linked_not_null h a l : linked h a l -> NULL ∉ l.
Proof. intros Hl Hin. by destruct (linked_elem _ _ _ _ Hl Hin) as [? _]. Qed.

(** A list that ends never visits a node twice. *)
Lemma linked_NoDup h a l : linked h a l -> NoDup l.
Proof.
  revert a. induction l as [|x l IH]; intros a Hl; [constructor|].
  pose proof Hl as Hl0. destruct Hl as (-> & Hx & n & Hn & Hl).
  constructor; [|by eapply IH].
  intros (l1 & l2 & ->)%list_elem_of_split.
  pose proof (linked_suffix h _ (x :: l1) (x :: l2) Hl0) as H2. simpl in H2.
  assert (Heq : x :: l1 ++ x :: l2 = x :: l2).
  { eapply linked_det; [|exact H2]. exact Hl0. }
  apply (f_equal length) in Heq. simpl in Heq. rewrite length_app in Heq. simpl in Heq. lia.
Qed.

(** Changing other nodes, or this node's other fields, keeps the list. *)
Lemma linked_agree h h' a l :
  (forall x, x ∈ l -> node_next <$> h' !! x = node_next <$> h !! x) ->
  linked h a l -> linked h' a l.
Proof.
  revert a. induction l as [|x l IH]; intros a Hag Hl; [done|].
  destruct Hl as (-> & Hx & n & Hn & Hl). simpl.
  pose proof (Hag x ltac:(left)) as Hx'. rewrite Hn in Hx'. simpl in Hx'.
  destruct (h' !! x) as [n'|] eqn:Hn'; simpl in Hx'; [|done]. injection Hx' as Hnn.
  split_and!; [done..|]. exists n'. split; [done|]. rewrite Hnn.
  apply IH; [|done]. intros y Hy. apply Hag. by right.
Qed.

Lemma linked_insert_ne h a l x n : x ∉ l -> linked h a l -> linked (<[x:=n]> h) a l.
Proof.
  intros Hx. apply linked_agree. intros y Hy. rewrite lookup_insert_ne; [done|set_solver].
Qed.

Lemma linked_delete_ne h a l x : x ∉ l -> linked h a l -> linked (delete x h) a l.
Proof.
  intros Hx. apply linked_agree. intros y Hy. rewrite lookup_delete_ne; [done|set_solver].
Qed.

(** Replacing the end of a list: the last node of [l1] is made to point to
    [a2], the start of a list that avoids [l1]. *)
Lemma linked_splice h a l1 p l2 l2' a2 :
  linked h a (l1 ++ p :: l2) -> linked h a2 l2' -> p ∉ l2' ->
  linked (alter (node_set_next a2) p h) a (l1 ++ p :: l2').
Proof.
  revert a. induction l1 as [|x l1 IH]; intros a Hl Hl2 Hp; simpl in *.
  - destruct Hl as (-> & Hx & n & Hn & Hl). split_and!; [done..|].
    exists (node_set_next a2 n). rewrite lookup_alter_eq, Hn, node_next_set.
    split; [done|]. eapply linked_agree; [|exact Hl2].
    intros y Hy. rewrite lookup_alter_ne; [done|set_solver].
  - pose proof (linked_NoDup h a (x :: l1 ++ p :: l2) Hl) as Hnd.
    destruct Hl as (-> & Hx & n & Hn & Hl). split_and!; [done..|].
    exists n. apply NoDup_cons in Hnd as [Hxl _]. rewrite lookup_alter_ne by set_solver.
    split; [done|]. by apply IH.
Qed.

(** Insertion, in the two shapes the code distinguishes. *)
Lemma linked_insert_head h a l x n :
  linked h a l -> h !! x = Some n -> x <> NULL -> x ∉ l ->
  linked (alter (node_set_next a) x h) x (x :: l).
Proof.
  intros Hl Hn Hx Hxl. split_and!; [done..|].
  exists (node_set_next a n). rewrite lookup_alter_eq, Hn, node_next_set. split; [done|].
  eapply linked_agree; [|exact Hl]. intros y Hy. rewrite lookup_alter_ne; [done|set_solver].
Qed.

Lemma linked_insert_after h a l1 p l2 x n :
  linked h a (l1 ++ p :: l2) -> h !! x = Some n -> x <> NULL -> x ∉ l1 ++ p :: l2 ->
  linked (alter (node_set_next (first l2)) x (alter (node_set_next x) p h)) a
         (l1 ++ p :: x :: l2).
Proof.
  intros Hl Hn Hx Hxl. rewrite alter_alter_ne by set_solver.
  pose proof (linked_NoDup _ _ _ Hl) as Hnd.
  apply linked_splice with (l2 := l2).
  - eapply linked_agree; [|exact Hl]. intros y Hy.
    rewrite lookup_alter_ne; [done|set_solver].
  - eapply linked_insert_head; [|done..|set_solver].
    eapply (linked_suffix _ _ (l1 ++ [p])). by rewrite <-app_assoc.
  - apply NoDup_app in Hnd as (_ & _ & Hnd). apply NoDup_cons in Hnd as [? _]. set_solver.
Qed.

(** Removal of the node after [p]. *)
Lemma linked_remove_after h a l1 p x n l2 :
  linked h a (l1 ++ p :: x :: l2) -> h !! x = Some n ->
  linked (alter (node_set_next (node_next n)) p h) a (l1 ++ p :: l2).
Proof.
  intros Hl Hn. pose proof (linked_NoDup _ _ _ Hl) as Hnd.
  eapply linked_splice; [exact Hl| |].
  - pose proof (linked_suffix h a (l1 ++ [p]) (x :: l2)) as Hs.
    rewrite <-app_assoc in Hs. destruct (Hs Hl) as (_ & _ & m & Hm & Hl2). by simplify_eq.
  - apply NoDup_app in Hnd as (_ & _ & Hnd). apply NoDup_cons in Hnd as [? _]. set_solver.
Qed.

Lemma linked_tail h x n l : linked h x (x :: l) -> h !! x = Some n -> linked h (node_next n) l.
Proof. intros (_ & _ & m & Hm & Hl) Hn. by simplify_eq. Qed.

(** ** The search loop stops where [span] splits the list *)

Lemma walk_spec c (test : addr -> cprog bool) (next : addr -> cprog addr)
    (keep : addr -> bool) h s prev curr l :
  linked h curr l ->
  (forall x n, x ∈ l -> h !! x = Some n ->
     exec c (test x) s (Done (keep x) s) /\ exec c (next x) s (Done (node_next n) s)) ->
  exec c (walk test next prev curr) s
    (Done (last_or prev (span keep l).1, first (span keep l).2) s).
Proof.
  revert prev curr. induction l as [|x l IH]; intros prev curr Hl Hr.
  - simpl in Hl. subst. eapply exec_loop; [apply exec_ret|apply exec_ret].
  - destruct Hl as (-> & Hx & n & Hn & Hl). unfold walk, loop.
    destruct (Hr x n ltac:(left) Hn) as [Ht Hnx].
    apply Z.eqb_neq in Hx. simpl. destruct (keep x) eqn:Ek.
    + eapply exec_loop.
      { cbn [snd]. rewrite Hx. eapply exec_bind_done; [exact Ht|]. cbv iota.
        eapply exec_bind_done; [exact Hnx|]. apply exec_ret. }
      cbn [loop_k fst snd]. replace (last_or prev (x :: (span keep l).1))
        with (last_or x (span keep l).1).
      2:{ unfold last_or. clear. generalize ((span keep l).1). intros k.
          by destruct k as [|y k] using rev_ind; [|rewrite app_comm_cons, !List.last_last]. }
      apply IH; [done|]. intros y m Hy. apply Hr. by right.
    + eapply exec_loop.
      { cbn [snd]. rewrite Hx. eapply exec_bind_done; [exact Ht|]. apply exec_ret. }
      apply exec_ret.
Qed.
End Linked.
