(* ===== verification/Hardware.v ===== *)
(** * Hardware: hardware.c

    The module that emulates bare hardware over POSIX: processor numbers
    (thread-local storage), interrupt masking (signal masks), interrupt numbers
    (signal numbers), contexts ([ucontext]) and interval timers.  Signal masks,
    timers and [pthread_kill] follow their POSIX descriptions.  The parts that
    start processors are in [Boot], with the code they call. *)

From S2P Require Import Prelude Prog State.

#[local] Open Scope prog_scope.

Definition NS_PER_SEC : Z := 1000000000.

Definition INTR_ELAPSED : Z := 0.
Definition INTR_TIMEOUT : Z := 1.
Definition INTR_INTERPROC : Z := 2.
Definition INTR_USER0 : Z := 3.
Definition INTR_USER1 : Z := 4.
Definition NINTR : Z := 5.

Definition TIMER_ELAPSED : Z := 0.
Definition TIMER_TIMEOUT : Z := 1.

(** A field of the hardware state. *)
Definition hget {B} (f : hardware -> B) : cprog B := fetch (fun s => Some (f (hw s))).
Definition hfetch {B} (f : hardware -> option B) : cprog B := fetch (fun s => f (hw s)).
Definition hset (f : hardware -> hardware) : cprog unit := modify (fun s => set_hw (f (hw s)) s).

(** A store into an array: the index must be one of the array's. *)
Definition hstore (f : hardware -> option hardware) : cprog unit :=
  store (fun s => match f (hw s) with Some h => Some (set_hw h s) | None => None end).
Definition array_set {K V} `{Countable K} (m : gmap K V) (i : K) (v : V) : option (gmap K V) :=
  match m !! i with Some _ => Some (<[i := v]> m) | None => None end.

(** Returns the processor number (0..NPUN-1) *)
Definition getcpu : cprog Z :=
  cpu <- act (fun c s => Ok (default 0 (cpu_key (hw s) !! c)) s);;
  if cpu =? 0 then plotz "getcpu getspecifiic" else ret (cpu - 1).

(** [pthread_sigmask(SIG_SETMASK, &m, NULL)] on the calling thread *)
Definition set_own_mask (m : sigset) : cprog unit :=
  act (fun c s => Ok tt (set_hw (set_thread_mask (<[c := m]> (thread_mask (hw s))) (hw s)) s)).

(** The signal mask of the calling thread *)
Definition own_mask : cprog sigset :=
  act (fun c s => match thread_mask (hw s) !! c with Some m => Ok m s | None => Fault end).

(** Disables interrupts on the current thread *)
Definition disable : cprog unit := set_own_mask sigfillset.

(** Enables interrupts on the current thread *)
Definition enable : cprog unit :=
  pun <- getcpu;;
  m <- hfetch (fun h => sigmask h !! pun);;
  set_own_mask m.

Definition phantom_enable : cprog unit := enable.

(** Sets handler for given interrupt number on this processing unit *)
Definition define_handler (intr : Z) : cprog unit :=
  signo <- act (fun _ s => Ok (next_signo (hw s))
                  (set_hw (set_next_signo (int32 (next_signo (hw s) + 1)) (hw s)) s));;
  pun <- getcpu;;
  base <- hget SIGBASE;;
  hstore (fun h => v ← array_set (intr_desc h) (signo - base)
                         (mkIntrDesc (uint16 pun) (uint16 intr)); Some (set_intr_desc v h));;
  hstore (fun h => v ← array_set (signal_no h) (pun, intr) signo; Some (set_signal_no v h));;
  hstore (fun h => m ← sigmask h !! pun;
                   Some (set_sigmask (<[pun := sigdelset m signo]> (sigmask h)) h));;
  hset (fun h => set_sigactions ({[signo]} ∪ sigactions h) h).

(** Sets up process to begin executing with the given code and argument *)
Definition build_context (proc : addr) (stacksize : Z) (code : code_p) (arg1 : code_p)
    (arg2 userArgs : addr) : cprog unit :=
  pset proc (set_stackptr proc);;
  m <- own_mask;;
  hset (fun h => set_uctxs (<[proc := Fresh m code arg1 arg2 userArgs]> (uctxs h)) h).

(** Restores the context of a process, giving it the processor *)
Definition restore_context (proc : addr) : cprog unit := Resume proc.

(** Enables interrupts then resumes given process *)
Definition enable_and_resume (curr : addr) : cprog unit := enable;; Resume curr.

(** Switches the processor from one process to another *)
Definition switch_context (oldproc newproc : addr) : cprog unit :=
  o <- pget oldproc p_stackptr;;
  n <- pget newproc p_stackptr;;
  hset (fun h => set_uctxs (<[o := Suspended]> (uctxs h)) h);;
  Switch o n (Ret tt).

(** Switches the processor from one process to another, where the process
    losing the processor is in an interrupt handler. *)
Definition switch_interrupt_context (interrupted preempting : addr) : cprog unit :=
  Resume preempting.

(** Make current (terminating) process use a given stack (the stack area itself
    is not part of the model). *)
Definition set_stack (proc : addr) (code : code_p) : cprog unit :=
  context <- pget proc p_stackptr;;
  m <- own_mask;;
  hset (fun h => set_uctxs (<[context := Fresh m code CNull NULL NULL]> (uctxs h)) h);;
  Resume context.

(** Returns the address of a region of memory of the specified length *)
Definition acquire_memory (nbytes : Z) : cprog addr :=
  p <- hget heap_base;;
  if p =? NULL then plotz "acquire_memory malloc" else ret p.

(** Synchronize at barrier (all processors synch here) *)
Definition synchronize_processors : cprog unit :=
  hset (fun h => set_barrier (int32 (barrier h - 1)) h);;
  loop (fun _ : unit => b <- hget barrier;;
          if b >? 0 then ret (inl tt) else ret (inr tt)) tt.

(** Halts processor, waiting for an interrupt. *)
Definition halt_processor : cprog unit :=
  loop (fun _ : unit => ret (inl tt)) tt.

(** [pthread_kill]: signal 0 only tests the thread. *)
Definition pthread_kill (target signo : Z) (what : string) : cprog unit :=
  act (fun _ s =>
    match pending (hw s) !! target with
    | Some l => if signo =? 0 then Ok tt s
                else Ok tt (set_hw (set_pending (<[target := l ++ [signo]]> (pending (hw s))) (hw s)) s)
    | None => Exit what
    end).

(** Send interprocessor interrupt to given processor *)
Definition send_interprocessor_interrupt (pun : Z) : cprog unit :=
  target <- hfetch (fun h => thread_id h !! pun);;
  signo <- hfetch (fun h => signal_no h !! (pun, INTR_INTERPROC));;
  pthread_kill target signo "send_interprocessor_interrupt pthread_kill".

(** Initialize a given timer *)
Definition init_timer (timerType : Z) : cprog unit :=
  pun <- getcpu;;
  intr <- (if timerType =? TIMER_ELAPSED then ret INTR_ELAPSED
           else if timerType =? TIMER_TIMEOUT then ret INTR_TIMEOUT
           else plotz "init_timer no such timer");;
  signo <- hfetch (fun h => signal_no h !! (pun, intr));;
  hstore (fun h => v ← array_set (timer h) (pun, timerType) (next_timer h);
            Some (set_timer v
                   (set_ptimers (<[next_timer h := mkTimer signo 0 0]> (ptimers h))
                     (set_next_timer (next_timer h + 1) h)))).

(** [struct timespec], with the 32-bit [time_t] of the target *)
Record timespec := mkTimespec { tv_sec : Z; tv_nsec : Z }.
Definition to_timespec (t : Z) : timespec :=
  mkTimespec (int32 (Z.quot t NS_PER_SEC)) (int32 (Z.rem t NS_PER_SEC)).
Definition timespec_ns (ts : timespec) : Z := tv_sec ts * NS_PER_SEC + tv_nsec ts.
Definition timespec_valid (ts : timespec) : bool :=
  (0 <=? tv_sec ts) && (0 <=? tv_nsec ts) && (tv_nsec ts <? NS_PER_SEC).

(** [timer_settime]: an unknown timer or an invalid time is an error; a zero
    value disarms the timer. *)
Definition timer_settime (id : Z) (value interval : timespec) (what : string) : cprog unit :=
  act (fun _ s =>
    match ptimers (hw s) !! id with
    | Some t =>
        if timespec_valid value && timespec_valid interval
        then Ok tt (set_hw (set_ptimers
               (<[id := mkTimer (pt_signo t) (timespec_ns value) (timespec_ns interval)]>
                  (ptimers (hw s))) (hw s)) s)
        else Exit what
    | None => Exit what
    end).

(** Set interval timer for a single interval. *)
Definition set_timer_single (timerType : Z) (time : Z) : cprog unit :=
  pun <- getcpu;;
  timerId <- hfetch (fun h => timer h !! (pun, timerType));;
  let time := if time >? 0 then time else 0 in
  timer_settime timerId (to_timespec time) (mkTimespec 0 0) "set_timer_single timer_settime".

(** Set interval timer for a repeating interval. *)
Definition set_timer_repeating (timerType : Z) (time : Z) : cprog unit :=
  pun <- getcpu;;
  timerId <- hfetch (fun h => timer h !! (pun, timerType));;
  timer_settime timerId (to_timespec time) (to_timespec time)
    "set_timer_repeating timer_settime".

(** Read timer: [timer_gettime], then nanoseconds as a [Time]. *)
Definition read_timer (timerType : Z) : cprog Z :=
  pun <- getcpu;;
  timerId <- hfetch (fun h => timer h !! (pun, timerType));;
  v <- act (fun _ s => match ptimers (hw s) !! timerId with
                       | Some t => Ok (pt_value t) s
                       | None => Exit "read_timer timer_gettime"
                       end);;
  ret (int64 (timespec_ns (to_timespec v))).

(** Send application-level interrupt as software interrupt. *)
Definition send_interrupt (intr : Z) : cprog unit :=
  (if intr <? INTR_USER0 then plotz "send_interrupt not user interrupt" else ret tt);;
  pun <- getcpu;;
  signo <- hfetch (fun h => signal_no h !! (pun, intr));;
  me <- self;;
  pthread_kill me signo "send interrupt pthread_kill".

(** Initializes this module *)
Definition hardware_init : cprog unit :=
  hset (fun h => set_SIGBASE (sigrtmin h) (set_cpu_key ∅ h));;
  hset (fun h => set_next_signo (SIGBASE h) h).
