(* ===== verification/Exec.v ===== *)
(** * Exec: running the primitive actions

    One rule per primitive of [State] and [Hardware], in the form "to run the
    action and then [g], run [g] on its result", the tactics that apply them,
    and the frame relations between states that the specifications use. *)

From S2P Require Import Prelude Prog State Hardware.

#[local] Open Scope prog_scope.

(** The thread [c] represents processor [c]. *)
Definition on_cpu (c : Z) (s : sys) : Prop :=
  0 <= c < NPUN /\ cpu_key (hw s) !! c = Some (c + 1).

(** Effects of [disable] and [enable] on thread [c]. *)
Definition masked (c : Z) (m : sigset) (s : sys) : sys :=
  set_hw (set_thread_mask (<[c := m]> (thread_mask (hw s))) (hw s)) s.

Section Rules.
Context (c : Z) {B : Type}.
Implicit Types (s : sys) (o : outcome sys B).

Lemma exec_fetch {A} (f : sys -> option A) (g : A -> cprog B) s a o :
  f s = Some a -> exec c (g a) s o -> exec c (bind (fetch f) g) s o.
Proof. intros Hf. eapply exec_act. by rewrite Hf. Qed.

Lemma exec_store (f : sys -> option sys) (g : unit -> cprog B) s s' o :
  f s = Some s' -> exec c (g tt) s' o -> exec c (bind (store f) g) s o.
Proof. intros Hf. eapply exec_act. by rewrite Hf. Qed.

Lemma exec_modify f (g : unit -> cprog B) s o :
  exec c (g tt) (f s) o -> exec c (bind (modify f) g) s o.
Proof. by eapply exec_act. Qed.

Lemma exec_self (g : Z -> cprog B) s o :
  exec c (g c) s o -> exec c (bind self g) s o.
Proof. by eapply exec_act. Qed.

Lemma exec_action {A} (f : Z -> sys -> res sys A) (g : A -> cprog B) s a s' o :
  f c s = Ok a s' -> exec c (g a) s' o -> exec c (bind (act f) g) s o.
Proof. by eapply exec_act. Qed.

Lemma exec_plotz {A} what (g : A -> cprog B) s :
  exec c (bind (plotz what) g) s (Exited what s).
Proof. by apply exec_act_exit. Qed.

Lemma exec_pget {A} p (fld : Process -> A) (g : A -> cprog B) s P o :
  procs s !! p = Some P -> exec c (g (fld P)) s o -> exec c (bind (pget p fld) g) s o.
Proof. intros HP. apply exec_fetch. by rewrite HP. Qed.

Lemma exec_pset p f (g : unit -> cprog B) s P o :
  procs s !! p = Some P -> exec c (g tt) (upd_proc p f s) o ->
  exec c (bind (pset p f) g) s o.
Proof. intros HP. apply exec_store. by rewrite HP. Qed.

Lemma exec_xchg_sched p v (g : Z -> cprog B) s P o :
  procs s !! p = Some P ->
  exec c (g (p_sched_state P)) (upd_proc p (set_sched_state v) s) o ->
  exec c (bind (xchg_sched_state p v) g) s o.
Proof. intros HP. apply exec_action. by rewrite HP. Qed.

Lemma exec_cas_sched_ok p e d (g : bool * Z -> cprog B) s P o :
  procs s !! p = Some P -> p_sched_state P = e ->
  exec c (g (true, e)) (upd_proc p (set_sched_state d) s) o ->
  exec c (bind (cas_sched_state p e d) g) s o.
Proof. intros HP He. apply exec_action. by rewrite HP, He, Z.eqb_refl. Qed.

Lemma exec_cas_sched_fail p e d (g : bool * Z -> cprog B) s P o :
  procs s !! p = Some P -> p_sched_state P <> e ->
  exec c (g (false, p_sched_state P)) s o ->
  exec c (bind (cas_sched_state p e d) g) s o.
Proof. intros HP He%Z.eqb_neq. apply exec_action. by rewrite HP, He. Qed.

Lemma exec_cas_alt_ok p e d (g : bool * Z -> cprog B) s P o :
  procs s !! p = Some P -> p_alt_state P = e ->
  exec c (g (true, e)) (upd_proc p (set_alt_state d) s) o ->
  exec c (bind (cas_alt_state p e d) g) s o.
Proof. intros HP He. apply exec_action. by rewrite HP, He, Z.eqb_refl. Qed.

Lemma exec_cas_alt_fail p e d (g : bool * Z -> cprog B) s P o :
  procs s !! p = Some P -> p_alt_state P <> e ->
  exec c (g (false, p_alt_state P)) s o ->
  exec c (bind (cas_alt_state p e d) g) s o.
Proof. intros HP He%Z.eqb_neq. apply exec_action. by rewrite HP, He. Qed.

Lemma exec_getcpu (g : Z -> cprog B) s o :
  on_cpu c s -> exec c (g c) s o -> exec c (bind getcpu g) s o.
Proof.
  intros [Hc Hk] Hg. unfold getcpu. rewrite bind_assoc.
  eapply exec_action; [by rewrite Hk|]. simpl.
  replace (c + 1 =? 0) with false by (symmetry; apply Z.eqb_neq; lia).
  cbn [ret bind]. by replace (c + 1 - 1) with c by lia.
Qed.

Lemma exec_disable (g : unit -> cprog B) s o :
  exec c (g tt) (masked c sigfillset s) o -> exec c (bind disable g) s o.
Proof. by eapply exec_action. Qed.

Lemma exec_enable (g : unit -> cprog B) s m o :
  on_cpu c s -> sigmask (hw s) !! c = Some m ->
  exec c (g tt) (masked c m s) o -> exec c (bind enable g) s o.
Proof.
  intros Hc Hm Hg. unfold enable. rewrite bind_assoc. apply exec_getcpu; [done|].
  rewrite bind_assoc. eapply exec_fetch; [exact Hm|]. by eapply exec_action.
Qed.

Lemma exec_hget {A} (f : hardware -> A) (g : A -> cprog B) s o :
  exec c (g (f (hw s))) s o -> exec c (bind (hget f) g) s o.
Proof. intros Hg. unfold hget. by eapply exec_fetch. Qed.

Lemma exec_hfetch {A} (f : hardware -> option A) (g : A -> cprog B) s a o :
  f (hw s) = Some a -> exec c (g a) s o -> exec c (bind (hfetch f) g) s o.
Proof. intros Hf Hg. unfold hfetch. by eapply exec_fetch. Qed.

Lemma exec_hset f (g : unit -> cprog B) s o :
  exec c (g tt) (set_hw (f (hw s)) s) o -> exec c (bind (hset f) g) s o.
Proof. intros Hg. unfold hset. by apply exec_modify. Qed.

Lemma exec_bind_ret {A} (a : A) (g : A -> cprog B) s o :
  exec c (g a) s o -> exec c (bind (ret a) g) s o.
Proof. done. Qed.
End Rules.

Lemma on_cpu_masked c d m s : on_cpu c s -> on_cpu c (masked d m s).
Proof. done. Qed.
#[export] Hint Resolve on_cpu_masked : cxp.

(** ** Tactics *)

(** Evaluates lookups with the equations of the context. *)
Ltac lk :=
  repeat (cbn;
    first
      [ match goal with H : ?m !! ?k = _ |- context [?m !! ?k] => rewrite H end
      | rewrite lookup_insert_eq
      | rewrite lookup_alter_eq
      | rewrite lookup_insert_ne by (done || lia || congruence)
      | rewrite lookup_alter_ne by (done || lia || congruence) ]).

(** Decides boolean tests on integers. *)
Ltac zb :=
  repeat match goal with
  | |- context [?a =? ?b] =>
      first [ replace (a =? b) with true by (symmetry; apply Z.eqb_eq; (lia || congruence))
            | replace (a =? b) with false by (symmetry; apply Z.eqb_neq; (lia || congruence)) ]
  | |- context [?a <? ?b] =>
      first [ replace (a <? b) with true by (symmetry; apply Z.ltb_lt; lia)
            | replace (a <? b) with false by (symmetry; apply Z.ltb_ge; lia) ]
  | |- context [?a <=? ?b] =>
      first [ replace (a <=? b) with true by (symmetry; apply Z.leb_le; lia)
            | replace (a <=? b) with false by (symmetry; apply Z.leb_gt; lia) ]
  | |- context [?a >? ?b] => rewrite (Z.gtb_ltb a b)
  | |- context [?a >=? ?b] => rewrite (Z.geb_leb a b)
  end; cbn [negb andb orb];
  repeat match goal with
  | |- context [if true then ?a else ?b] => change (if true then a else b) with a
  | |- context [if false then ?a else ?b] => change (if false then a else b) with b
  end.

Ltac xside := lk; zb; lk.

(** One primitive action of the program under execution. *)
Ltac xstep1 :=
  lazymatch goal with
  | |- exec _ (bind (bind _ _) _) _ _ => rewrite bind_assoc
  | |- exec _ (bind (ret _) _) _ _ => apply exec_bind_ret
  | |- exec _ (bind (Ret _) _) _ _ => apply exec_bind_ret
  | |- exec _ (bind (pget _ _) _) _ _ => eapply exec_pget; [by xside|]
  | |- exec _ (bind (pset _ _) _) _ _ => eapply exec_pset; [by xside|]
  | |- exec _ (bind (xchg_sched_state _ _) _) _ _ => eapply exec_xchg_sched; [by xside|]
  | |- exec _ (bind getcpu _) _ _ => apply exec_getcpu; [by auto with cxp|]
  | |- exec _ (bind disable _) _ _ => apply exec_disable
  | |- exec _ (bind (fetch _) _) _ _ => eapply exec_fetch; [by xside|]
  | |- exec _ (bind (store _) _) _ _ => eapply exec_store; [by xside|]
  | |- exec _ (bind (modify _) _) _ _ => apply exec_modify
  | |- exec _ (bind (hget _) _) _ _ => apply exec_hget
  | |- exec _ (bind (hfetch _) _) _ _ => eapply exec_hfetch; [by xside|]
  | |- exec _ (bind (hset _) _) _ _ => apply exec_hset
  | |- exec _ (bind self _) _ _ => apply exec_self
  | |- exec _ (bind (act _) _) _ _ => eapply exec_action; [by xside|]
  | |- exec _ (bind (plotz _) _) _ _ => apply exec_plotz
  | |- exec _ (ret _) _ _ => apply exec_ret
  | |- exec _ (Ret _) _ _ => apply exec_ret
  | |- exec _ (Switch _ _ _) _ _ => apply exec_switch
  | |- exec _ (Resume _) _ _ => apply exec_resume
  | |- exec _ (bind _ _) _ _ => fail "no rule"
  | |- exec _ (?f) _ _ => rewrite <-(bind_ret_r f)
  end; cbv beta.
Ltac xstep := zb; repeat (xstep1; zb).
