(* ===== verification/Interleave.v ===== *)
(** * Interleave: two threads that share the state

    The atomic actions of two programs, interleaved in any order, and a
    rely/guarantee logic for them: [safe] is the judgement for one thread,
    [inter_safe] composes two of them.  The ghost state [W] records what each
    thread has done; the invariant [I] ties it to the shared state. *)

From S2P Require Import Prelude Prog.

#[local] Open Scope prog_scope.

(** One action of a program: of thread [t], on state [s]. *)
Definition pstep {St A} (t : Z) (p : prog St A) (s : St) : option (prog St A * St) :=
  match p with
  | Act f k => match f t s with Ok b s' => Some (k b, s') | _ => None end
  | Loop body x k => Some (bind (body x) (loop_k body k), s)
  | _ => None
  end.

(** The thread has returned, or can go on. *)
Definition goes_on {St A} (t : Z) (p : prog St A) (s : St) : Prop :=
  (exists a, p = Ret a) \/ is_Some (pstep t p s).

Inductive inter {St A B} (t1 t2 : Z) :
    prog St A * prog St B * St -> prog St A * prog St B * St -> Prop :=
| inter_left p1 p2 s p1' s' : pstep t1 p1 s = Some (p1', s') -> inter t1 t2 (p1, p2, s) (p1', p2, s')
| inter_right p1 p2 s p2' s' : pstep t2 p2 s = Some (p2', s') -> inter t1 t2 (p1, p2, s) (p1, p2', s').

(** An interleaving given as a list of turns; a thread that cannot go on passes. *)
Definition one_turn {St A B} (t1 t2 : Z) (left : bool) (c : prog St A * prog St B * St) :
    prog St A * prog St B * St :=
  let '(p1, p2, s) := c in
  if left then match pstep t1 p1 s with Some (p1', s') => (p1', p2, s') | None => c end
  else match pstep t2 p2 s with Some (p2', s') => (p1, p2', s') | None => c end.
Definition turns {St A B} (t1 t2 : Z) (ls : list bool) (c : prog St A * prog St B * St) :=
  foldl (fun c left => one_turn t1 t2 left c) c ls.

(** The results of two threads that have returned. *)
Definition results {St A B} (c : prog St A * prog St B * St) : option (A * B) :=
  match c with (Ret a, Ret b, _) => Some (a, b) | _ => None end.

Lemma turns_inter {St A B} t1 t2 ls (c : prog St A * prog St B * St) :
  rtc (inter t1 t2) c (turns t1 t2 ls c).
Proof.
  revert c. induction ls as [|left ls IH]; intros c; [done|]. simpl.
  etransitivity; [|apply IH]. destruct c as [[p1 p2] s]. simpl. destruct left.
  - destruct (pstep t1 p1 s) as [[p s']|] eqn:E; [|done]. by apply rtc_once, inter_left.
  - destruct (pstep t2 p2 s) as [[p s']|] eqn:E; [|done]. by apply rtc_once, inter_right.
Qed.

Lemma results_ret {St A B} (c : prog St A * prog St B * St) a b :
  results c = Some (a, b) -> c = (Ret a, Ret b, c.2).
Proof. destruct c as [[[] []] s]; intros; by simplify_eq/=. Qed.

Lemma bind_loop_all {St A B X Y} (body : X -> prog St (X + Y)) (q : Y -> prog St A)
    (k : A -> prog St B) p :
  bind (bind p (loop_k body q)) k = bind p (loop_k body (fun b => bind (q b) k)).
Proof.
  rewrite bind_assoc. f_equal. apply FunctionalExtensionality.functional_extensionality.
  intros r. apply bind_loop_k.
Qed.

Section Logic.
Context {St W : Type} (I : W -> St -> Prop).

Section Thread.
Context (t : Z) (R G : W -> W -> Prop) `{!PreOrder R}.

(** For [n] more steps, whatever the other thread does within the rely [R], the
    thread does not get stuck, keeps [I] and its guarantee [G], and its result
    satisfies [Q]. *)
Fixpoint safe (n : nat) {A} (p : prog St A) (Q : A -> W -> Prop) (w : W) : Prop :=
  match n with
  | O => True
  | S n =>
    forall w1 s1, R w w1 -> I w1 s1 ->
    match p with
    | Ret a => Q a w1
    | Act f k => exists b s' w2, f t s1 = Ok b s' /\ G w1 w2 /\ I w2 s' /\ safe n (k b) Q w2
    | Loop body x k => safe n (bind (body x) (loop_k body k)) Q w1
    | _ => False
    end
  end.

Lemma safe_le n m {A} (p : prog St A) Q w : safe n p Q w -> (m <= n)%nat -> safe m p Q w.
Proof.
  revert m p w. induction n as [|n IH]; intros [|m] p w Hs Hle; simpl; try done; [lia|].
  intros w1 s1 HR HI. specialize (Hs w1 s1 HR HI). destruct p; try done.
  - destruct Hs as (b & s' & w2 & ? & ? & ? & Hk). exists b, s', w2. split_and!; try done.
    apply IH; [done|lia].
  - apply IH; [done|lia].
Qed.

Lemma safe_rely n {A} (p : prog St A) Q w w' : safe n p Q w -> R w w' -> safe n p Q w'.
Proof. destruct n; [done|]. intros Hs HR w1 s1 HR1 HI. apply Hs; [by etransitivity|done]. Qed.

Lemma safe_wait n {A} (p : prog St A) Q w w' : safe (S n) p Q w -> R w w' -> safe n p Q w'.
Proof. intros Hs HR. eapply safe_rely; [|exact HR]. eapply safe_le; [exact Hs|lia]. Qed.

Lemma safe_ret n {A} (a : A) (Q : A -> W -> Prop) w :
  (forall w', R w w' -> Q a w') -> safe n (Ret a) Q w.
Proof. destruct n; simpl; eauto. Qed.

Lemma safe_act n {A B} (f : Z -> St -> res St B) (k : B -> prog St A) Q w :
  (forall w1 s1, R w w1 -> I w1 s1 -> exists b s' w2, f t s1 = Ok b s' /\
     G w1 w2 /\ I w2 s' /\ forall m, (m <= n)%nat -> safe m (k b) Q w2) ->
  safe n (bind (act f) k) Q w.
Proof.
  destruct n as [|n]; [done|]. intros Hf w1 s1 HR HI.
  destruct (Hf w1 s1 HR HI) as (b & s' & w2 & ? & ? & ? & Hk). exists b, s', w2.
  split_and!; try done. apply Hk. lia.
Qed.

Lemma safe_bind n {A B} (p : prog St A) (k : A -> prog St B) Q Q' w :
  safe n p Q' w ->
  (forall m a w', (m <= n)%nat -> Q' a w' -> safe m (k a) Q w') -> safe n (bind p k) Q w.
Proof.
  revert A p k Q' w. induction n as [|n IH]; intros A p k Q' w Hs Hk; [done|].
  intros w1 s1 HR HI. specialize (Hs w1 s1 HR HI).
  destruct p as [a|Y f q|X Y body x q| | |]; simpl bind; try done.
  - exact (Hk (S n) a w1 ltac:(lia) Hs w1 s1 ltac:(reflexivity) HI).
  - destruct Hs as (b & s' & w2 & ? & ? & ? & Hq). exists b, s', w2. split_and!; try done.
    eapply IH; [exact Hq|]. intros m a w' Hm. apply Hk. lia.
  - cbn [bind]. rewrite <-(bind_loop_all body q k). eapply IH; [exact Hs|]. intros m a w' Hm. apply Hk. lia.
Qed.

(** A loop with an invariant on the ghost state; it need not terminate. *)
Lemma safe_loop n {A X B} (body : X -> prog St (X + B)) (k : B -> prog St A)
    (J : X -> W -> Prop) (Q' : B -> W -> Prop) Q x w :
  (forall m x w, J x w ->
     safe m (body x) (fun r w' => match r with inl x' => J x' w' | inr b => Q' b w' end) w) ->
  (forall m b w', (m <= n)%nat -> Q' b w' -> safe m (k b) Q w') ->
  (forall x w w', J x w -> R w w' -> J x w') ->
  J x w -> safe n (Loop body x k) Q w.
Proof.
  intros Hbody Hk HJR. revert x w. induction n as [|n IH]; intros x w HJ; [done|].
  intros w1 s1 HR HI. eapply safe_bind; [apply Hbody; by eapply HJR|].
  intros m [x'|b] w' Hm HQ; simpl.
  - eapply safe_le; [|exact Hm]. apply IH; [|done]. intros m' b w'' Hm'. apply Hk. lia.
  - apply Hk; [lia|done].
Qed.

Lemma safe_loop_ret n {X B} (body : X -> prog St (X + B)) (J : X -> W -> Prop)
    (Q : B -> W -> Prop) x w :
  (forall m x w, J x w ->
     safe m (body x) (fun r w' => match r with inl x' => J x' w' | inr b => Q b w' end) w) ->
  (forall x w w', J x w -> R w w' -> J x w') ->
  (forall b w w', Q b w -> R w w' -> Q b w') ->
  J x w -> safe n (loop body x) Q w.
Proof.
  intros Hbody HJ HQ Hx. eapply (safe_loop _ _ _ J Q); [exact Hbody| |exact HJ|exact Hx].
  intros m b w' _ Hb. apply safe_ret. intros w'' HR. by eapply HQ.
Qed.
End Thread.

(** Two safe threads, each keeping what the other relies on: every
    interleaving keeps the invariant, no thread gets stuck, and the results
    satisfy the postconditions. *)
Section Compose.
Context (t1 t2 : Z) (G1 G2 : W -> W -> Prop) `{!PreOrder G1, !PreOrder G2}.
Context {A B : Type} (Q1 : A -> W -> Prop) (Q2 : B -> W -> Prop).

Definition both (n : nat) (c : prog St A * prog St B * St) : Prop :=
  exists w, I w c.2 /\ safe t1 G2 G1 n c.1.1 Q1 w /\ safe t2 G1 G2 n c.1.2 Q2 w.

Lemma both_step n c c' : both (S n) c -> inter t1 t2 c c' -> both n c'.
Proof.
  intros (w & HI & H1 & H2) Hstep. destruct Hstep as [p1 p2 s p' s' Hp|p1 p2 s p' s' Hp];
    cbn [fst snd] in HI, H1, H2.
  - pose proof (H1 w s ltac:(reflexivity) HI) as H. unfold pstep in Hp.
    destruct p1 as [|Y f k|X Y body x k| | |]; try done.
    + destruct H as (b & s1 & w2 & Hf & HG & HI' & Hk). rewrite Hf in Hp. simplify_eq.
      exists w2. split_and!; try done. by eapply safe_wait.
    + simplify_eq. exists w. split_and!; try done. by eapply safe_wait.
  - pose proof (H2 w s ltac:(reflexivity) HI) as H. unfold pstep in Hp.
    destruct p2 as [|Y f k|X Y body x k| | |]; try done.
    + destruct H as (b & s1 & w2 & Hf & HG & HI' & Hk). rewrite Hf in Hp. simplify_eq.
      exists w2. split_and!; try done. by eapply safe_wait.
    + simplify_eq. exists w. split_and!; try done. by eapply safe_wait.
Qed.

Lemma safe_goes_on t R G C (p : prog St C) (Q : C -> W -> Prop) w s :
  Reflexive R -> safe t R G 1 p Q w -> I w s -> goes_on t p s.
Proof.
  intros HR Hs HI. specialize (Hs w s (HR w) HI). unfold goes_on, pstep.
  destruct p; try done; eauto. destruct Hs as (b & s' & ? & -> & _). eauto.
Qed.

Lemma inter_safe p1 p2 s w p1' p2' s' :
  I w s -> (forall n, safe t1 G2 G1 n p1 Q1 w) -> (forall n, safe t2 G1 G2 n p2 Q2 w) ->
  rtc (inter t1 t2) (p1, p2, s) (p1', p2', s') ->
  goes_on t1 p1' s' /\ goes_on t2 p2' s' /\
  exists w', I w' s' /\ (forall a, p1' = Ret a -> Q1 a w') /\ (forall b, p2' = Ret b -> Q2 b w').
Proof.
  intros HI H1 H2 Hr. apply rtc_nsteps_1 in Hr as [k Hk].
  assert (Hb : both (k + 1) (p1, p2, s)) by (exists w; auto).
  assert (Hb' : both 1 (p1', p2', s')).
  { clear -Hk Hb PreOrder0 PreOrder1. remember (p1, p2, s) as c. remember (p1', p2', s') as c'.
    clear Heqc Heqc'. induction Hk as [c|k c c1 c' Hs _ IH]; [done|].
    apply IH. by eapply both_step. }
  destruct Hb' as (w' & HI' & H1' & H2'). cbn [fst snd] in HI', H1', H2'.
  split_and!; [eapply safe_goes_on; [|exact H1'|done]; apply _|eapply safe_goes_on; [|exact H2'|done]; apply _|].
  exists w'. split_and!; [done| |].
  - intros a ->. by apply (H1' w' s' ltac:(reflexivity) HI').
  - intros b ->. by apply (H2' w' s' ltac:(reflexivity) HI').
Qed.
End Compose.
End Logic.
