(* ===== verification/Priority.v ===== *)
(** * Priority: the priority field (sched.h)

    A process's priority is a 16-bit word: the level of the enclosing [par_pri]
    in the three high-order bits and a 12-bit value, a smaller value being a
    higher priority.  The theorems say what the assignment of values by
    [par_pri] is for: every process owns an interval of values, its children
    own disjoint parts of it, and the order of the children is the order of
    everything their descendants can ever get. *)

From S2P Require Import Prelude Prog State.

Definition PRI_LVL_MASK : Z := 0xe000.
Definition PRI_VAL_MASK : Z := 0x0fff.
Definition pri_gt (p1 p2 : Z) : bool := Z.land p1 PRI_VAL_MASK <? Z.land p2 PRI_VAL_MASK.
Definition pri_lt (p1 p2 : Z) : bool := Z.land p1 PRI_VAL_MASK >? Z.land p2 PRI_VAL_MASK.
Definition pri_le (p1 p2 : Z) : bool := Z.land p1 PRI_VAL_MASK >=? Z.land p2 PRI_VAL_MASK.
Definition pri_ge (p1 p2 : Z) : bool := Z.land p1 PRI_VAL_MASK <=? Z.land p2 PRI_VAL_MASK.
Definition pri_eq (p1 p2 : Z) : bool := Z.land p1 PRI_VAL_MASK =? Z.land p2 PRI_VAL_MASK.
Definition priority (lvl val : Z) : Z := Z.lor (Z.shiftl lvl 13) (Z.land val PRI_VAL_MASK).
Definition pri_level (p : Z) : Z := Z.shiftr (uint16 p) 13.
Definition pri_value (p : Z) : Z := Z.land p PRI_VAL_MASK.
Definition PRI_LEVELS : Z := 4.
Definition PRI_PROCS : Z := 8.
Definition PRI_LOW : Z := 0x0fff.
Definition PRI_HIGH : Z := 0.
Definition pri_delta (lvl : Z) : Z := Z.quot (PRI_VAL_MASK + 1) (Z.shiftl 1 (3 * lvl)).

Definition INIT_PRI : Z := PRI_HIGH.
Definition IDLE_PRI : Z := PRI_LOW.
Definition IDLE_STACK_SIZE : Z := 8192.

(** The priority [par_pri] gives child [i] of a process of priority [parent]
    (the loop of run.c adds [delta] once per child; the value is stored in the
    16-bit field of the process record). *)
Definition child_pri (parent i : Z) : Z :=
  let level := pri_level parent + 1 in
  uint16 (priority level (parent + i * pri_delta level)).

(** The values a process and its descendants can be given. *)
Definition owns (p v : Z) : Prop :=
  pri_value p <= v < pri_value p + pri_delta (pri_level p).

(** A priority that nested [par_pri]s produce: the level fits and the value is
    a multiple of the level's gap. *)
Definition pri_ok (p : Z) : Prop :=
  0 <= p < 2 ^ 16 /\ pri_level p <= PRI_LEVELS /\
  (pri_delta (pri_level p) | pri_value p).

Lemma pri_value_mod p : pri_value p = p mod 4096.
Proof. unfold pri_value. change PRI_VAL_MASK with (Z.ones 12). by rewrite Z.land_ones. Qed.

Lemma pri_level_div p : 0 <= p < 2 ^ 16 -> pri_level p = p / 8192.
Proof.
  intros Hp. unfold pri_level, uint16, wrapU. rewrite Z.mod_small by done.
  by rewrite Z.shiftr_div_pow2.
Qed.

Lemma priority_add lvl val : 0 <= lvl -> priority lvl val = lvl * 8192 + val mod 4096.
Proof.
  intros Hl. unfold priority. change PRI_VAL_MASK with (Z.ones 12).
  rewrite Z.land_ones by done. change (2 ^ 12) with 4096.
  rewrite Z.shiftl_mul_pow2 by done. change (2 ^ 13) with 8192.
  pose proof (Z.add_lor_land (lvl * 8192) (val mod 4096)) as Hs.
  enough (Z.land (lvl * 8192) (val mod 4096) = 0) by lia.
  apply Z.bits_inj'. intros n Hn. rewrite Z.bits_0, Z.land_spec.
  destruct (Z.lt_ge_cases n 13) as [H|H].
  - change 8192 with (2 ^ 13). rewrite Z.mul_pow2_bits_low; [done|lia].
  - rewrite andb_comm. change 4096 with (2 ^ 12). rewrite Z.mod_pow2_bits_high; [done|lia].
Qed.

Lemma priority_bits lvl val :
  0 <= lvl < 8 ->
  0 <= priority lvl val < 2 ^ 16 /\ pri_level (priority lvl val) = lvl /\
  pri_value (priority lvl val) = val mod 4096.
Proof.
  intros Hl. rewrite priority_add by lia.
  pose proof (Z.mod_pos_bound val 4096 ltac:(lia)) as Hv.
  assert (Hr : 0 <= lvl * 8192 + val mod 4096 < 2 ^ 16) by lia.
  split; [done|]. rewrite pri_level_div by done. rewrite pri_value_mod.
  generalize dependent (val mod 4096). intros v Hv Hr.
  split; [symmetry; apply Z.div_unique with v; lia|].
  symmetry. apply Z.mod_unique with (lvl * 2); lia.
Qed.

Lemma pri_delta_cases lvl :
  0 <= lvl <= PRI_LEVELS ->
  lvl = 0 /\ pri_delta lvl = 4096 \/ lvl = 1 /\ pri_delta lvl = 512 \/
  lvl = 2 /\ pri_delta lvl = 64 \/ lvl = 3 /\ pri_delta lvl = 8 \/
  lvl = 4 /\ pri_delta lvl = 1.
Proof.
  unfold PRI_LEVELS. intros H.
  assert (lvl = 0 \/ lvl = 1 \/ lvl = 2 \/ lvl = 3 \/ lvl = 4)
    as [->|[->|[->|[->| ->]]]] by lia; vm_compute; intuition congruence.
Qed.

(** The gaps of two consecutive levels: [PRI_PROCS] children fit exactly. *)
Lemma pri_delta_step lvl :
  0 <= lvl < PRI_LEVELS -> pri_delta lvl = PRI_PROCS * pri_delta (lvl + 1) /\ 0 < pri_delta (lvl + 1).
Proof.
  unfold PRI_LEVELS. intros H.
  assert (lvl = 0 \/ lvl = 1 \/ lvl = 2 \/ lvl = 3) as [->|[->|[->| ->]]] by lia; by vm_compute.
Qed.

Lemma pri_level_range p : 0 <= p < 2 ^ 16 -> 0 <= pri_level p < 8.
Proof.
  intros Hp. rewrite pri_level_div by done.
  split; [apply Z.div_pos; lia|apply Z.div_lt_upper_bound; lia].
Qed.

(** [pri_le] is a total preorder, and [pri_gt] its complement: the two tests
    the scheduler uses decide the same order. *)
Lemma pri_le_gt p q : pri_le p q = negb (pri_gt p q).
Proof. unfold pri_le, pri_gt. rewrite Z.geb_leb, Z.leb_antisym. done. Qed.

Lemma pri_le_trans p q r : pri_le p q = true -> pri_le q r = true -> pri_le p r = true.
Proof. unfold pri_le. rewrite !Z.geb_leb, !Z.leb_le. lia. Qed.

Lemma pri_le_refl p : pri_le p p = true.
Proof. unfold pri_le. rewrite Z.geb_leb, Z.leb_le. lia. Qed.

Lemma pri_gt_le p q : pri_gt p q = true -> pri_le q p = true.
Proof. unfold pri_gt, pri_le. rewrite Z.geb_leb, Z.ltb_lt, Z.leb_le. lia. Qed.

(** The value of child [i]: no carry out of the 12 bits. *)
Lemma child_pri_fields p i :
  pri_ok p -> pri_level p < PRI_LEVELS -> 0 <= i < PRI_PROCS ->
  0 <= child_pri p i < 2 ^ 16 /\
  pri_level (child_pri p i) = pri_level p + 1 /\
  pri_value (child_pri p i) = pri_value p + i * pri_delta (pri_level p + 1).
Proof.
  intros (Hp & _ & Hd) Hl Hi.
  pose proof (pri_level_range p Hp) as Hlv. unfold child_pri, PRI_LEVELS, PRI_PROCS in *.
  set (dv := pri_delta (pri_level p + 1)).
  destruct (priority_bits (pri_level p + 1) (p + i * dv) ltac:(lia)) as (Hr & Hl' & Hv').
  unfold uint16, wrapU. rewrite Z.mod_small by done. split_and!; [lia..|done|].
  rewrite Hv'. rewrite pri_value_mod in *.
  destruct (pri_delta_step (pri_level p)) as [Hs Hpos]; [unfold PRI_LEVELS; lia|].
  fold dv in Hs, Hpos. unfold PRI_PROCS in Hs.
  assert (Hb : 0 <= p mod 4096 < 4096) by (apply Z.mod_pos_bound; lia).
  assert (Hup : p mod 4096 + pri_delta (pri_level p) <= 4096).
  { destruct (pri_delta_cases (pri_level p)) as [[_ E]|[[_ E]|[[_ E]|[[_ E]|[_ E]]]]];
      [unfold PRI_LEVELS; lia|..]; rewrite E in *; destruct Hd as [z Hz]; lia. }
  rewrite <-Zplus_mod_idemp_l. apply Z.mod_small. nia.
Qed.

Lemma child_pri_ok p i :
  pri_ok p -> pri_level p < PRI_LEVELS -> 0 <= i < PRI_PROCS -> pri_ok (child_pri p i).
Proof.
  intros Hok Hl Hi. destruct (child_pri_fields p i Hok Hl Hi) as (Hr & Hlv & Hv).
  split_and!; [lia..|]. rewrite Hlv, Hv.
  destruct Hok as (Hp & _ & Hd). pose proof (pri_level_range p Hp).
  destruct (pri_delta_step (pri_level p)) as [Hs _]; [unfold PRI_LEVELS in *; lia|].
  apply Z.divide_add_r; [|by exists i].
  etrans; [|exact Hd]. rewrite Hs. by exists PRI_PROCS.
Qed.

(** C32: [par_pri] divides the priority interval of the parent: the children get
    well-formed priorities, everything a child or its descendants can be given
    lies in the parent's interval, and whatever the descendants of an earlier
    child get outranks whatever the descendants of a later child get. *)
Theorem par_pri_intervals p i j :
  pri_ok p -> pri_level p < PRI_LEVELS -> 0 <= i < j -> j < PRI_PROCS ->
  pri_ok (child_pri p i) /\
  (forall v, owns (child_pri p j) v -> owns p v) /\
  (forall q r, owns (child_pri p i) (pri_value q) -> owns (child_pri p j) (pri_value r) ->
     pri_gt q r = true).
Proof.
  intros Hok Hl Hi Hj. split; [apply child_pri_ok; [done..|lia]|].
  destruct (child_pri_fields p i Hok Hl) as (_ & Hli & Hvi); [lia|].
  destruct (child_pri_fields p j Hok Hl) as (_ & Hlj & Hvj); [lia|].
  pose proof (pri_level_range p (proj1 Hok)).
  destruct (pri_delta_step (pri_level p)) as [Hs Hpos]; [unfold PRI_LEVELS in *; lia|].
  unfold owns. rewrite Hli, Hlj, Hvi, Hvj, Hs. unfold PRI_PROCS in *.
  split; [intros v; nia|]. intros q r Hq Hr. unfold pri_gt.
  apply Z.ltb_lt. fold (pri_value q) (pri_value r). nia.
Qed.

Lemma par_pri_intervals_witness :
  pri_ok (child_pri 0x2400 1) /\ pri_gt (child_pri 0x2400 1) (child_pri 0x2400 2) = true.
Proof.
  destruct (par_pri_intervals 0x2400 1 2) as (H1 & _ & H2).
  - split; [lia|]. split; [by vm_compute|]. by exists 2.
  - by vm_compute.
  - lia.
  - by vm_compute.
  - split; [exact H1|]. apply H2; unfold owns; vm_compute; split; congruence.
Defined.

(** ** Nested [par_pri] and the idle process *)

(** The priority reached from the initial process through the children of the
    given indices. *)
Definition nested (path : list Z) : Z := fold_left child_pri path INIT_PRI.

(** What is left between the interval of a priority and the lowest value. *)
Definition slack (p : Z) : Z := PRI_VAL_MASK + 1 - pri_delta (pri_level p) - pri_value p.

Lemma child_slack p i :
  pri_ok p -> pri_level p < PRI_LEVELS -> 0 <= i < PRI_PROCS ->
  slack (child_pri p i) = slack p + (PRI_PROCS - 1 - i) * pri_delta (pri_level p + 1).
Proof.
  intros Hok Hl Hi. destruct (child_pri_fields p i Hok Hl Hi) as (_ & Hlv & Hv).
  pose proof (pri_level_range p (proj1 Hok)).
  destruct (pri_delta_step (pri_level p)) as [Hs _]; [unfold PRI_LEVELS in *; lia|].
  unfold slack. rewrite Hlv, Hv, Hs. unfold PRI_PROCS. lia.
Qed.

Lemma nested_slack path p :
  pri_ok p -> pri_level p + Z.of_nat (length path) <= PRI_LEVELS -> 0 <= slack p ->
  Forall (fun i => 0 <= i < PRI_PROCS) path ->
  let q := fold_left child_pri path p in
  pri_ok q /\ pri_level q = pri_level p + Z.of_nat (length path) /\ slack p <= slack q /\
  (slack q = slack p <-> Forall (fun i => i = PRI_PROCS - 1) path).
Proof.
  revert p. induction path as [|i path IH]; intros p Hok Hlen Hs Hp; cbn [fold_left length] in *.
  - split_and!; [done|lia|lia|]. split; [by constructor|done].
  - apply Forall_cons in Hp as [Hi Hp].
    assert (Hl : pri_level p < PRI_LEVELS) by lia.
    pose proof (child_pri_ok p i Hok Hl Hi) as Hok'.
    destruct (child_pri_fields p i Hok Hl Hi) as (_ & Hlv & _).
    pose proof (child_slack p i Hok Hl Hi) as Hsl.
    pose proof (pri_level_range p (proj1 Hok)).
    destruct (pri_delta_step (pri_level p)) as [_ Hpos]; [unfold PRI_LEVELS in *; lia|].
    unfold PRI_PROCS in *.
    destruct (IH (child_pri p i) Hok') as (H1 & H2 & H3 & H4); [lia|nia|done|].
    split_and!; [done|lia|nia|]. rewrite Forall_cons. rewrite <-H4. split; [intros; nia|].
    intros [-> Hq]. nia.
Qed.

(** Every priority nested [par_pri]s can produce outranks the idle process
    except one: the last child of four nested levels of full [par_pri]s has
    exactly the value of the idle process, which it therefore never preempts. *)
Theorem nested_outranks_idle path :
  Z.of_nat (length path) <= PRI_LEVELS -> Forall (fun i => 0 <= i < PRI_PROCS) path ->
  pri_gt (nested path) IDLE_PRI = bool_decide (path <> [7; 7; 7; 7]).
Proof.
  intros Hlen Hp.
  assert (Hok : pri_ok INIT_PRI) by (split; [done|]; split; [done|]; by exists 0).
  destruct (nested_slack path INIT_PRI Hok) as (H1 & H2 & H3 & H4); [done..|].
  fold (nested path) in *. change (slack INIT_PRI) with 0 in *.
  change (pri_level INIT_PRI) with 0 in *. unfold PRI_PROCS, PRI_LEVELS in *. simpl in H2, H4.
  assert (Hv : pri_value (nested path) = 4096 - pri_delta (Z.of_nat (length path)) - slack (nested path))
    by (unfold slack; rewrite H2, Z.add_0_l; unfold PRI_VAL_MASK; lia).
  assert (Hlen' : (length path <= 4)%nat) by lia.
  assert (Heq : pri_value (nested path) = 4095 <-> path = [7; 7; 7; 7]).
  { rewrite Hv. split.
    - intros E. destruct (pri_delta_cases (Z.of_nat (length path))) as [C|[C|[C|[C|C]]]];
        [unfold PRI_LEVELS; lia|lia..|].
      assert (Hf : Forall (fun i => i = 7) path) by (apply H4; lia).
      assert (Hn : length path = 4%nat) by lia.
      destruct path as [|a [|b [|x [|y [|]]]]]; try done.
      rewrite !Forall_cons in Hf. by destruct Hf as (-> & -> & -> & -> & _).
    - intros ->. by vm_compute. }
  unfold pri_gt. fold (pri_value (nested path)). change (Z.land IDLE_PRI PRI_VAL_MASK) with 4095.
  assert (Hr : pri_value (nested path) <= 4095).
  { rewrite pri_value_mod. pose proof (Z.mod_pos_bound (nested path) 4096). lia. }
  case_bool_decide as Hd; [apply Z.ltb_lt|apply Z.ltb_ge].
  - assert (pri_value (nested path) <> 4095) by (by rewrite Heq). lia.
  - apply Heq in Hd. lia.
Qed.

Lemma nested_outranks_idle_witness :
  pri_gt (nested [7; 7; 7; 6]) IDLE_PRI = true /\ pri_gt (nested [7; 7; 7; 7]) IDLE_PRI = false.
Proof.
  split; rewrite nested_outranks_idle; try done; repeat constructor; done.
Defined.
