(* ===== verification/Ipq.v ===== *)
(** * Ipq: the interprocessor queues (ipq.m)

    One circular queue per processor conveys process records made ready by
    another processor. *)

From S2P Require Import Prelude Prog State Fixture Hardware Exec.

#[local] Open Scope prog_scope.

Definition QSIZE : Z := 5.

(** The queue of processor [pun]; an index out of bounds is a fault. *)
Definition ipq_get {B} (pun : Z) (f : IPQueue -> option B) : cprog B :=
  fetch (fun s => ipQues s !! pun ≫= f).
Definition ipq_upd (pun : Z) (f : IPQueue -> IPQueue) (s : sys) : sys :=
  set_ipQues (alter f pun (ipQues s)) s.
Definition ipq_set (pun : Z) (f : IPQueue -> IPQueue) : cprog unit :=
  store (fun s => match ipQues s !! pun with
                  | Some _ => Some (ipq_upd pun f s)
                  | None => None
                  end).

Definition set_nextAdd (v : Z) (q : IPQueue) : IPQueue := mkIPQueue v (nextRem q) (que q).
Definition set_nextRem (v : Z) (q : IPQueue) : IPQueue := mkIPQueue (nextAdd q) v (que q).
Definition set_slot (i : Z) (v : addr) (q : IPQueue) : IPQueue :=
  mkIPQueue (nextAdd q) (nextRem q) (<[i := v]> (que q)).

(** Stores [v] in slot [i]. *)
Definition ipq_store (pun i : Z) (v : addr) : cprog unit :=
  store (fun s => match ipQues s !! pun ≫= (fun q => que q !! i) with
                  | Some _ => Some (ipq_upd pun (set_slot i v) s)
                  | None => None
                  end).

(** The slot after slot [i]. *)
Definition next_slot (i : Z) : Z := if negb (i =? QSIZE - 1) then i + 1 else 0.

(** Initializes the interprocessor queues. *)
Definition empty_ipq : IPQueue :=
  mkIPQueue 0 0 (list_to_map ((fun n => (Z.of_nat n, NULL)) <$> seq 0 (Z.to_nat QSIZE))).
Definition ipq_init : cprog unit :=
  loop (fun pun : Z =>
    if pun <? NPUN then
      (modify (fun s => set_ipQues (<[pun := empty_ipq]> (ipQues s)) s);; ret (inl (pun + 1)))
    else ret (inr tt)) 0.

(** The steps of [ipq_add]: spin while the queue is full; try to claim the slot
    at [nextAdd] with a compare-and-exchange; fill the slot and interrupt the
    target processor. *)
Definition ipq_room (pun : Z) : cprog (Z * Z) :=
  loop (fun _ : unit =>
    a <- ipq_get pun (fun q => Some (nextAdd q));;
    r <- ipq_get pun (fun q => Some (nextRem q));;
    let a1 := next_slot a in
    if r =? a1 then ret (inl tt) else ret (inr (a, a1))) tt.
Definition ipq_claim (pun a a1 : Z) : cprog bool :=
  act (fun _ s =>
    match ipQues s !! pun with
    | Some q => if nextAdd q =? a then Ok true (ipq_upd pun (set_nextAdd a1) s) else Ok false s
    | None => Fault
    end).
Definition ipq_fill (pun a : Z) (proc : addr) : cprog unit :=
  ipq_store pun a proc;;
  send_interprocessor_interrupt pun.

(** Add an entry to an interprocessor queue, starting again if another processor
    claimed the slot. *)
Definition ipq_add_try (pun : Z) (proc : addr) (_ : unit) : cprog (unit + unit) :=
  aa <- ipq_room pun;;
  success <- ipq_claim pun aa.1 aa.2;;
  if success : bool then (ipq_fill pun aa.1 proc;; ret (inr tt)) else ret (inl tt).
Definition ipq_add (pun : Z) (proc : addr) : cprog unit := loop (ipq_add_try pun proc) tt.

(** Remove the next entry from an interprocessor queue and return it *)
Definition ipq_remove : cprog addr :=
  pun <- getcpu;;
  r <- ipq_get pun (fun q => Some (nextRem q));;
  a <- ipq_get pun (fun q => Some (nextAdd q));;
  proc <- (if negb (a =? r) then
             (p <- act (fun _ s => match ipQues s !! pun ≫= (fun q => que q !! r) with
                                   | Some p => Ok p (ipq_upd pun (set_slot r NULL) s)
                                   | None => Fault
                                   end);; ret p)
           else ret NULL);;
  (if negb (proc =? NULL) then ipq_set pun (set_nextRem (next_slot r)) else ret tt);;
  ret proc.

(** ** The queue as a list

    The contents are the nonnull slots from [nextRem] on; one slot always
    stays free, so that [nextAdd = nextRem] means empty. *)
Record ipq_rep (q : IPQueue) (l : list addr) : Prop := {
  ir_rem : 0 <= nextRem q < QSIZE;
  ir_len : Z.of_nat (length l) < QSIZE;
  ir_add : nextAdd q = (nextRem q + Z.of_nat (length l)) mod QSIZE;
  ir_slots : forall i : nat, Z.of_nat i < QSIZE ->
    que q !! ((nextRem q + Z.of_nat i) mod QSIZE) = Some (nth i l NULL);
  ir_nonnull : NULL ∉ l }.

Lemma next_slot_mod i : 0 <= i < QSIZE -> next_slot i = (i + 1) mod QSIZE.
Proof.
  unfold next_slot, QSIZE. intros Hi.
  assert (i = 0 \/ i = 1 \/ i = 2 \/ i = 3 \/ i = 4) as [->|[->|[->|[->| ->]]]] by lia; done.
Qed.

Lemma mod_slot_eq r i j :
  0 <= i < QSIZE -> 0 <= j < QSIZE -> (r + i) mod QSIZE = (r + j) mod QSIZE -> i = j.
Proof.
  unfold QSIZE. intros Hi Hj He.
  pose proof (Z.mod_eq (r + i) 5 ltac:(lia)). pose proof (Z.mod_eq (r + j) 5 ltac:(lia)). lia.
Qed.

Lemma empty_ipq_rep : ipq_rep empty_ipq [].
Proof.
  split; try by vm_compute.
  - intros i Hi. unfold QSIZE in Hi.
    assert (i = 0 \/ i = 1 \/ i = 2 \/ i = 3 \/ i = 4)%nat as [->|[->|[->|[->| ->]]]] by lia; done.
  - set_solver.
Qed.

(** A queue represents one list. *)
Lemma ipq_rep_unique q l l' : ipq_rep q l -> ipq_rep q l' -> l = l'.
Proof.
  intros [Hr Hl Ha Hs _] [_ Hl' Ha' Hs' _]. rewrite Ha in Ha'. apply mod_slot_eq in Ha'; [|lia..].
  apply (list_eq_same_length l l' (length l)); [lia|done|]. intros i x y Hi Hx Hy.
  specialize (Hs i ltac:(lia)). rewrite (Hs' i ltac:(lia)) in Hs. injection Hs as Hs.
  by rewrite (nth_lookup_Some _ _ _ _ Hx), (nth_lookup_Some _ _ _ _ Hy) in Hs.
Qed.

(** The two states of the counters: empty exactly when they agree, full exactly
    when [nextAdd] is one slot behind [nextRem]. *)
Lemma ipq_empty q l : ipq_rep q l -> (nextAdd q = nextRem q <-> l = []).
Proof.
  intros [Hr Hl Ha _ _]. split.
  - rewrite Ha. intros He. destruct l as [|x l]; [done|].
    assert (Hm : (nextRem q + Z.of_nat (length (x :: l))) mod QSIZE = (nextRem q + 0) mod QSIZE)
      by (rewrite He, Z.add_0_r; symmetry; by apply Z.mod_small).
    apply mod_slot_eq in Hm; simpl in *; lia.
  - intros ->. rewrite Ha. simpl. rewrite Z.add_0_r. by apply Z.mod_small.
Qed.

Lemma ipq_full q l :
  ipq_rep q l -> (nextRem q = next_slot (nextAdd q) <-> Z.of_nat (length l) = QSIZE - 1).
Proof.
  intros [Hr Hl Ha _ _].
  assert (Hb : 0 <= nextAdd q < QSIZE) by (rewrite Ha; by apply Z.mod_pos_bound).
  rewrite next_slot_mod by done. rewrite Ha, Z.add_mod_idemp_l by done.
  rewrite <-Z.add_assoc. unfold QSIZE in *. split.
  - intros He.
    assert (Z.of_nat (length l) + 1 = 5 \/ Z.of_nat (length l) + 1 < 5) as [?|?] by lia; [lia|].
    assert (Hm : (nextRem q + 0) mod 5 = (nextRem q + (Z.of_nat (length l) + 1)) mod 5)
      by (rewrite <-He, Z.add_0_r; by apply Z.mod_small).
    apply mod_slot_eq in Hm; unfold QSIZE; lia.
  - intros ->. change (5 - 1 + 1) with (1 * 5). rewrite Z.mod_add by lia.
    symmetry. by apply Z.mod_small.
Qed.

(** ** Adding and removing, with the other processor quiet *)

Section Seq.
Context (c : Z).

Lemma ipq_remove_empty s q :
  on_cpu c s -> ipQues s !! c = Some q -> ipq_rep q [] -> exec c ipq_remove s (Done NULL s).
Proof.
  intros Hc Hq Hr. pose proof (proj2 (ipq_empty _ _ Hr) eq_refl) as He.
  unfold ipq_remove, ipq_get. xstep.
Qed.

Definition ipq_removed (r : Z) (s : sys) : sys :=
  ipq_upd c (set_nextRem (next_slot r)) (ipq_upd c (set_slot r NULL) s).

Lemma ipq_remove_cons s q x l :
  on_cpu c s -> ipQues s !! c = Some q -> ipq_rep q (x :: l) ->
  exec c ipq_remove s (Done x (ipq_removed (nextRem q) s)).
Proof.
  intros Hc Hq Hr.
  assert (Hne : nextAdd q <> nextRem q) by (intros He; by apply (ipq_empty _ _ Hr) in He).
  assert (Hx : que q !! nextRem q = Some x).
  { pose proof (ir_slots _ _ Hr 0 ltac:(done)) as H0. simpl in H0.
    rewrite Z.add_0_r, Z.mod_small in H0 by apply Hr. done. }
  assert (HxN : x <> NULL) by (pose proof (ir_nonnull _ _ Hr); set_solver).
  unfold ipq_remove, ipq_get, ipq_set. xstep.
Qed.

Lemma ipq_removed_rep q x l :
  ipq_rep q (x :: l) ->
  ipq_rep (set_nextRem (next_slot (nextRem q)) (set_slot (nextRem q) NULL q)) l.
Proof.
  intros [Hr Hl Ha Hs Hn]. simpl in Hl.
  assert (Hb := Hr). apply next_slot_mod in Hb.
  split; cbn [nextAdd nextRem que set_nextRem set_slot]; rewrite ?Hb.
  - by apply Z.mod_pos_bound.
  - lia.
  - rewrite Ha. rewrite Z.add_mod_idemp_l by done. simpl. f_equal. lia.
  - intros i Hi. rewrite Z.add_mod_idemp_l by done.
    assert (Z.of_nat i = QSIZE - 1 \/ Z.of_nat i < QSIZE - 1) as [He|Hlt] by lia.
    + replace ((nextRem q + 1 + Z.of_nat i) mod QSIZE) with (nextRem q).
      * rewrite lookup_insert_eq. by rewrite nth_overflow by (unfold QSIZE in *; lia).
      * rewrite <-Z.add_assoc, He. change (1 + (QSIZE - 1)) with (1 * QSIZE).
        rewrite Z.mod_add by done. symmetry. by apply Z.mod_small.
    + replace (nextRem q + 1 + Z.of_nat i) with (nextRem q + Z.of_nat (S i)) by lia.
      rewrite lookup_insert_ne; [by rewrite Hs by lia|]. intros He.
      assert (Hmm : (nextRem q + 0) mod QSIZE = (nextRem q + Z.of_nat (S i)) mod QSIZE)
        by (rewrite <-He, Z.add_0_r; by apply Z.mod_small).
      apply mod_slot_eq in Hmm; lia.
  - set_solver.
Qed.

(** An interprocessor interrupt for [pun] reaches thread [t] as signal [g]. *)
Definition ipi_target (s : sys) (pun t g : Z) (l : list Z) : Prop :=
  thread_id (hw s) !! pun = Some t /\ signal_no (hw s) !! (pun, INTR_INTERPROC) = Some g /\
  g <> 0 /\ pending (hw s) !! t = Some l.

Definition signalled (t g : Z) (l : list Z) (s : sys) : sys :=
  set_hw (set_pending (<[t := l ++ [g]]> (pending (hw s))) (hw s)) s.

Definition ipq_added (pun a p : Z) (s : sys) : sys :=
  ipq_upd pun (set_slot a p) (ipq_upd pun (set_nextAdd (next_slot a)) s).

Lemma ipq_add_nonfull s pun q l p t g pl :
  ipQues s !! pun = Some q -> ipq_rep q l -> Z.of_nat (length l) < QSIZE - 1 ->
  ipi_target s pun t g pl ->
  exec c (ipq_add pun p) s (Done tt (signalled t g pl (ipq_added pun (nextAdd q) p s))).
Proof.
  intros Hq Hr Hlen (Ht & Hg & Hg0 & Hpl).
  assert (Hf : nextRem q <> next_slot (nextAdd q)) by (intros He; apply (ipq_full _ _ Hr) in He; lia).
  assert (Hsl : que q !! nextAdd q = Some NULL).
  { rewrite (ir_add _ _ Hr). rewrite (ir_slots _ _ Hr) by lia. by rewrite nth_overflow. }
  unfold ipq_add, ipq_add_try. eapply exec_loop.
  - eapply exec_bind_done.
    { eapply exec_loop; [unfold ipq_get; xstep|apply exec_ret]. }
    cbn [fst snd]. unfold ipq_claim, ipq_fill, ipq_store. xstep.
    unfold send_interprocessor_interrupt, pthread_kill. xstep.
  - apply exec_ret.
Qed.

Lemma ipq_added_rep q l p :
  ipq_rep q l -> Z.of_nat (length l) < QSIZE - 1 -> p <> NULL ->
  ipq_rep (set_slot (nextAdd q) p (set_nextAdd (next_slot (nextAdd q)) q)) (l ++ [p]).
Proof.
  intros [Hr Hl Ha Hs Hn] Hlen Hp.
  assert (Hb : 0 <= nextAdd q < QSIZE) by (rewrite Ha; by apply Z.mod_pos_bound).
  split; cbn [nextAdd nextRem que set_nextAdd set_slot].
  - done.
  - rewrite length_app. simpl. lia.
  - rewrite next_slot_mod, Ha, Z.add_mod_idemp_l, length_app by done. simpl. f_equal. lia.
  - intros i Hi. rewrite Ha. destruct (decide (i = length l)) as [->|Hne].
    + rewrite lookup_insert_eq. rewrite app_nth2 by lia. by rewrite Nat.sub_diag.
    + rewrite lookup_insert_ne.
      * rewrite Hs by done. destruct (decide (i < length l)%nat) as [?|?].
        -- by rewrite app_nth1.
        -- rewrite !nth_overflow; [done| |lia]. rewrite length_app. simpl. lia.
      * intros He. apply mod_slot_eq in He; lia.
  - set_solver.
Qed.

(** On a full queue [ipq_add] does not return: it spins until another
    processor removes an entry. *)
Lemma ipq_add_full s pun q l p :
  ipQues s !! pun = Some q -> ipq_rep q l -> Z.of_nat (length l) = QSIZE - 1 ->
  forall n, eval n c (ipq_add pun p) s = None.
Proof.
  intros Hq Hr Hlen. apply (ipq_full _ _ Hr) in Hlen.
  apply loop_body_diverges. apply loop_diverges. unfold ipq_get. xstep.
Qed.
End Seq.

(** ** Theorems *)

(** Adding to a queue that is not full returns with the process at the end
    of the list the queue represents and one interprocessor interrupt sent to
    the thread of the queue's processor; only that queue and that thread's
    pending signals change. *)
Theorem ipq_add_fifo c s pun q l p t g pl :
  ipQues s !! pun = Some q -> ipq_rep q l -> Z.of_nat (length l) < QSIZE - 1 -> p <> NULL ->
  ipi_target s pun t g pl ->
  exists s' q', exec c (ipq_add pun p) s (Done tt s') /\
    ipQues s' = <[pun := q']> (ipQues s) /\ ipq_rep q' (l ++ [p]) /\
    s' = set_ipQues (ipQues s') (signalled t g pl s).
Proof.
  intros Hq Hr Hlen Hp Ht. eexists _, _. split; [by eapply ipq_add_nonfull|].
  split_and!; [|by apply ipq_added_rep|by destruct s].
  simpl. apply map_eq. intros i. destruct (decide (i = pun)) as [->|Hne].
  - by rewrite !lookup_alter_eq, lookup_insert_eq, Hq.
  - by rewrite !lookup_alter_ne, lookup_insert_ne.
Qed.

(** Removing returns the processes in the order they were added, null when
    there is none, and changes this processor's queue only. *)
Theorem ipq_remove_fifo c s q l :
  on_cpu c s -> ipQues s !! c = Some q -> ipq_rep q l ->
  exists s' q', exec c ipq_remove s (Done (hd NULL l) s') /\
    ipQues s' = <[c := q']> (ipQues s) /\ ipq_rep q' (List.tl l) /\
    s' = set_ipQues (ipQues s') s.
Proof.
  intros Hc Hq Hr. destruct l as [|x l].
  - exists s, q. split_and!; [by eapply ipq_remove_empty|by rewrite insert_id|done|by destruct s].
  - eexists _, _. split; [by eapply ipq_remove_cons|].
    split_and!; [|by eapply ipq_removed_rep|by destruct s].
    simpl. apply map_eq. intros i. destruct (decide (i = c)) as [->|Hne].
    + by rewrite !lookup_alter_eq, lookup_insert_eq, Hq.
    + by rewrite !lookup_alter_ne, lookup_insert_ne.
Qed.

(** On a full queue ([QSIZE - 1] entries) [ipq_add] never returns as long
    as no other processor removes an entry.  Its caller [schedule0] runs with
    interrupts disabled, so two processors that fill each other's queues block
    each other for ever. *)
Theorem ipq_add_full_spins c s pun q l p :
  ipQues s !! pun = Some q -> ipq_rep q l -> Z.of_nat (length l) = QSIZE - 1 ->
  forall o, ~ exec c (ipq_add pun p) s o.
Proof.
  intros Hq Hr Hlen o [n Hn]. by rewrite (ipq_add_full c s pun q l p Hq Hr Hlen n) in Hn.
Qed.

(** ** Sample queues *)

(** Proves that a concrete queue represents a concrete list. *)
Ltac concrete_nodup := apply (bool_decide_unpack _); vm_compute; exact I.
Ltac concrete_ipq :=
  split; [by vm_compute..| |concrete_nodup]; intros i Hi; unfold QSIZE in Hi;
  assert (i = 0 \/ i = 1 \/ i = 2 \/ i = 3 \/ i = 4)%nat as [->|[->|[->|[->| ->]]]] by lia;
  reflexivity.

Definition sample_ipq : IPQueue :=
  mkIPQueue 2 0 (<[0 := pH]> (<[1 := pL]> (zeros 5 NULL))).
Lemma sample_ipq_rep : ipq_rep sample_ipq [pH; pL].
Proof. concrete_ipq. Qed.

(** A queue that has wrapped around, and a full one. *)
Definition wrapped_ipq : IPQueue :=
  mkIPQueue 1 4 (<[4 := pH]> (<[0 := pL]> (zeros 5 NULL))).
Lemma wrapped_ipq_rep : ipq_rep wrapped_ipq [pH; pL].
Proof. concrete_ipq. Qed.
Definition full_ipq : IPQueue :=
  mkIPQueue 1 2 (<[2 := pA]> (<[3 := pB]> (<[4 := pH]> (<[0 := pL]> (zeros 5 NULL))))).
Lemma full_ipq_rep : ipq_rep full_ipq [pA; pB; pH; pL].
Proof. concrete_ipq. Qed.

Definition with_ipq (pun : Z) (q : IPQueue) (s : sys) : sys :=
  set_ipQues (<[pun := q]> (ipQues s)) s.

Lemma ipq_add_fifo_witness :
  exists s', exec 0 (ipq_add 1 pS) (with_ipq 1 wrapped_ipq sample) (Done tt s') /\
    exists q', ipQues s' !! 1 = Some q' /\ ipq_rep q' [pH; pL; pS].
Proof.
  destruct (ipq_add_fifo 0 (with_ipq 1 wrapped_ipq sample) 1 wrapped_ipq [pH; pL] pS 1 48 []
    eq_refl wrapped_ipq_rep ltac:(by vm_compute) ltac:(done) ltac:(by vm_compute))
    as (s' & q' & H1 & H2 & H3 & _).
  exists s'. split; [exact H1|]. exists q'. split; [|exact H3]. rewrite H2. apply lookup_insert_eq.
Defined.

Lemma ipq_remove_fifo_witness :
  exists s', exec 0 ipq_remove (with_ipq 0 wrapped_ipq sample) (Done pH s') /\
    exists q', ipQues s' !! 0 = Some q' /\ ipq_rep q' [pL].
Proof.
  destruct (ipq_remove_fifo 0 (with_ipq 0 wrapped_ipq sample) wrapped_ipq [pH; pL]
    ltac:(by vm_compute) eq_refl wrapped_ipq_rep) as (s' & q' & H1 & H2 & H3 & _).
  exists s'. split; [exact H1|]. exists q'. split; [|exact H3]. rewrite H2. apply lookup_insert_eq.
Defined.

Lemma ipq_add_full_spins_witness :
  ~ exists o, exec 0 (ipq_add 1 pS) (with_ipq 1 full_ipq sample) o.
Proof.
  intros [o Ho].
  exact (ipq_add_full_spins 0 (with_ipq 1 full_ipq sample) 1 full_ipq [pA; pB; pH; pL] pS
    eq_refl full_ipq_rep eq_refl o Ho).
Defined.
