(* ===== verification/Spsc.v ===== *)
(** * Spsc: an interprocessor queue under interleaving

    One processor adds to the queue of another while that one removes: the
    actions of [ipq_add] and [ipq_remove] interleave in any order.  The ghost
    state counts, since the start, the slots claimed, filled, emptied and given
    back, and the interrupts sent. *)

From S2P Require Import Prelude Prog State Fixture Hardware Exec.
From S2P Require Import Interleave Ipq.

#[local] Open Scope prog_scope.

(** The producer adds processes one after the other; the consumer calls
    [ipq_remove] [n] times, as [take] does, and keeps what it gets. *)
Definition adds (pun : Z) (ps : list addr) : cprog unit :=
  foldr (fun p k => ipq_add pun p;; k) (ret tt) ps.
Fixpoint takes (n : nat) (got : list addr) : cprog (list addr) :=
  match n with
  | O => ret got
  | S n => p <- ipq_remove;; takes n (if p =? NULL then got else got ++ [p])
  end.

Record counts := mkCounts { nA : nat; nS : nat; nR : nat; nT : nat; nI : nat }.

Section Queue.
Context (pun : Z) (s0 : sys) (r0 : Z) (t g : Z) (pl : list Z) (n0 : nat) (ys : list addr).
Hypothesis Hcpu : on_cpu pun s0.
Hypothesis Hipi : ipi_target s0 pun t g pl.
Hypothesis Hys : NULL ∉ ys.

Definition slot (k : nat) : Z := (r0 + Z.of_nat k) mod QSIZE.

(** The state: everything as it was, but the queue and the interrupts sent. *)
Definition conv (q : IPQueue) (n : nat) : sys :=
  set_ipQues (<[pun := q]> (ipQues s0))
    (set_hw (set_pending (<[t := pl ++ replicate n g]> (pending (hw s0))) (hw s0)) s0).

(** Process number [k] is in its slot from when it is stored until it is taken. *)
Record holds (w : counts) (q : IPQueue) : Prop := {
  h_rem : nextRem q = slot (nT w);
  h_add : nextAdd q = slot (nA w);
  h_claim : (nS w <= nA w <= nS w + 1)%nat;
  h_give : (nT w <= nR w <= nT w + 1)%nat;
  h_order : (nR w <= nS w)%nat;
  h_room : (nA w <= nT w + 4)%nat;
  h_len : (nA w <= length ys)%nat;
  h_sent : (nI w + n0 <= nS w <= nI w + n0 + 1)%nat;
  h_slots : forall k : nat, (nT w <= k < nT w + 5)%nat ->
    que q !! slot k =
      Some (if decide (nR w <= k < nS w)%nat then nth k ys NULL else NULL) }.

Definition inv (w : counts) (s : sys) : Prop := exists q, holds w q /\ s = conv q (nI w).

(** What the producer and the consumer may do. *)
Definition prod_does (w w' : counts) : Prop :=
  (nA w <= nA w')%nat /\ (nS w <= nS w')%nat /\ (nI w <= nI w')%nat /\
  nR w' = nR w /\ nT w' = nT w.
Definition cons_does (w w' : counts) : Prop :=
  nA w' = nA w /\ nS w' = nS w /\ nI w' = nI w /\ (nR w <= nR w')%nat /\ (nT w <= nT w')%nat.

#[global] Instance prod_does_pre : PreOrder prod_does.
Proof. split; unfold prod_does; [intros ?|intros ???]; lia. Qed.
#[global] Instance cons_does_pre : PreOrder cons_does.
Proof. split; unfold cons_does; [intros ?|intros ???]; lia. Qed.

Lemma slot_next k : next_slot (slot k) = slot (k + 1).
Proof.
  unfold slot. rewrite next_slot_mod by by apply Z.mod_pos_bound.
  rewrite Z.add_mod_idemp_l by done. f_equal. lia.
Qed.

Lemma slot_inj i j : (i <= j < i + 5)%nat -> slot i = slot j -> i = j.
Proof.
  unfold slot. intros Hij He.
  replace (r0 + Z.of_nat i) with ((r0 + Z.of_nat i) + 0) in He by lia.
  replace (r0 + Z.of_nat j) with ((r0 + Z.of_nat i) + Z.of_nat (j - i)) in He by lia.
  apply mod_slot_eq in He; unfold QSIZE; lia.
Qed.

Lemma slot_wrap k : slot (k + 5) = slot k.
Proof.
  unfold slot. replace (r0 + Z.of_nat (k + 5)) with (r0 + Z.of_nat k + 1 * QSIZE) by (unfold QSIZE; lia).
  by apply Z.mod_add.
Qed.

Lemma conv_ipq q n : ipQues (conv q n) !! pun = Some q.
Proof. apply lookup_insert_eq. Qed.

Lemma conv_upd q n f : ipq_upd pun f (conv q n) = conv (f q) n.
Proof.
  unfold ipq_upd. replace (alter f pun (ipQues (conv q n))) with (<[pun := f q]> (ipQues s0)); [done|].
  simpl. apply map_eq. intros i. destruct (decide (i = pun)) as [->|Hne].
  - by rewrite lookup_alter_eq, !lookup_insert_eq.
  - by rewrite lookup_alter_ne, !lookup_insert_ne.
Qed.

(** Reading a field of the queue changes nothing. *)
Lemma safe_get {A B} tid R G `{!PreOrder R, !Reflexive G} n (f : IPQueue -> option B)
    (k : B -> cprog A) Q w :
  (forall w1 q, R w w1 -> holds w1 q -> exists b, f q = Some b /\
     forall m, (m <= n)%nat -> safe inv tid R G m (k b) Q w1) ->
  safe inv tid R G n (bind (ipq_get pun f) k) Q w.
Proof.
  intros Hf. apply safe_act. intros w1 s1 HR (q & Hq & ->).
  destruct (Hf w1 q HR Hq) as (b & Hb & Hk). exists b, (conv q (nI w1)), w1.
  rewrite conv_ipq. simpl. rewrite Hb. split_and!; try done. by exists q.
Qed.

Lemma safe_look {A B} tid R G `{!PreOrder R, !Reflexive G} n (f : sys -> option B) b
    (k : B -> cprog A) Q w :
  (forall q m, f (conv q m) = Some b) ->
  (forall m w', (m <= n)%nat -> R w w' -> safe inv tid R G m (k b) Q w') ->
  safe inv tid R G n (bind (fetch f) k) Q w.
Proof.
  intros Hf Hk. apply safe_act. intros w1 s1 HR (q & Hq & ->). rewrite Hf.
  exists b, (conv q (nI w1)), w1. split_and!; try done; [by exists q|]. intros m Hm. by apply Hk.
Qed.

(** ** The producer, relying on the consumer *)

Section Producer.
Context (pr : Z).
Notation psafe := (safe inv pr cons_does prod_does).

Definition idle (k : nat) (w : counts) : Prop :=
  nA w = k /\ nS w = k /\ (nI w + n0 = k)%nat.

Definition room_for (k : nat) (w : counts) : Prop := idle k w /\ (k <= nT w + 3)%nat.
Definition claimed (k : nat) (w : counts) : Prop :=
  nA w = S k /\ nS w = k /\ (nI w + n0 = k)%nat.
Definition filled (k : nat) (w : counts) : Prop :=
  nA w = S k /\ nS w = S k /\ (nI w + n0 = k)%nat.

(** What the producer knows stays true whatever the consumer does. *)
Lemma idle_stable k w w' : idle k w -> cons_does w w' -> idle k w'.
Proof. unfold idle, cons_does. lia. Qed.
Lemma room_stable k w w' : room_for k w -> cons_does w w' -> room_for k w'.
Proof. unfold room_for, idle, cons_does. lia. Qed.
Lemma claimed_stable k w w' : claimed k w -> cons_does w w' -> claimed k w'.
Proof. unfold claimed, cons_does. lia. Qed.
Lemma filled_stable k w w' : filled k w -> cons_does w w' -> filled k w'.
Proof. unfold filled, cons_does. lia. Qed.

Lemma room_safe n k w :
  idle k w ->
  psafe n (ipq_room pun) (fun aa w' => room_for k w' /\ aa = (slot k, slot (k + 1))) w.
Proof.
  intros Hw. unfold ipq_room. apply (safe_loop_ret _ _ _ _ _ _ (fun _ => idle k)); [|intros _; apply idle_stable| |done].
  - clear w Hw n. intros n _ w Hw. apply safe_get; [apply _..|]. intros w1 q H1 Hq.
    exists (nextAdd q). split; [done|]. intros m _.
    apply safe_get; [apply _..|]. intros w2 q2 H2 Hq2. exists (nextRem q2). split; [done|].
    intros m2 _. cbv zeta. rewrite (h_add _ _ Hq), (h_rem _ _ Hq2).
    assert (nA w1 = k) as -> by (unfold idle, cons_does in *; lia). rewrite slot_next.
    destruct (slot (nT w2) =? slot (k + 1)) eqn:E; apply safe_ret; intros w3 H3.
    + unfold idle, cons_does in *; lia.
    + apply Z.eqb_neq in E. split; [|done].
      assert (k <= nT w2 + 4)%nat
        by (pose proof (h_room _ _ Hq2); unfold idle, cons_does in *; lia).
      assert (k <> nT w2 + 4)%nat.
      { intros ->. apply E. rewrite <-(slot_wrap (nT w2)). f_equal. lia. }
      unfold room_for, idle, cons_does in *; lia.
  - intros aa w1 w2 [? ->] ?. split; [by eapply room_stable|done].
Qed.

Lemma claim_safe n k w :
  room_for k w -> (k < length ys)%nat ->
  psafe n (ipq_claim pun (slot k) (slot (k + 1))) (fun b w' => claimed k w' /\ b = true) w.
Proof.
  intros Hw Hk. unfold ipq_claim. rewrite <-(bind_ret_r (act _)). apply safe_act.
  intros w1 s1 HR (q & Hq & ->). pose proof (room_stable _ _ _ Hw HR) as Hw1.
  assert (HA : nextAdd q = slot k) by (rewrite (h_add _ _ Hq); f_equal; unfold room_for, idle in *; lia).
  exists true, (conv (set_nextAdd (slot (k + 1)) q) (nI w1)), (mkCounts (S k) (nS w1) (nR w1) (nT w1) (nI w1)).
  rewrite conv_ipq, HA, Z.eqb_refl, conv_upd. split_and!; [done| | |].
  - unfold room_for, idle, prod_does in *; simpl; lia.
  - eexists. split; [|done]. destruct Hq. unfold room_for, idle in *.
    split; simpl; try lia; try done. f_equal. lia.
  - intros m _. apply safe_ret. intros w2 H2. split; [|done].
    eapply claimed_stable; [|exact H2]. unfold room_for, idle, claimed in *. simpl. lia.
Qed.

Lemma store_safe n k p w :
  claimed k w -> ys !! k = Some p ->
  psafe n (ipq_store pun (slot k) p) (fun _ w' => filled k w') w.
Proof.
  intros Hw Hk. unfold ipq_store. rewrite <-(bind_ret_r (store _)). apply safe_act.
  intros w1 s1 HR (q & Hq & ->). pose proof (claimed_stable _ _ _ Hw HR) as [HA [HS HI]].
  pose proof (h_room _ _ Hq). pose proof (h_order _ _ Hq). pose proof (h_give _ _ Hq).
  exists tt, (conv (set_slot (slot k) p q) (nI w1)), (mkCounts (S k) (S k) (nR w1) (nT w1) (nI w1)).
  rewrite conv_ipq. simpl. rewrite (h_slots _ _ Hq) by lia. rewrite conv_upd. split_and!; [done| | |].
  - unfold prod_does; simpl; lia.
  - eexists. split; [|done]. destruct Hq. split; simpl; try lia; try done.
    + rewrite h_add0. f_equal. lia.
    + intros i Hi. destruct (decide (i = k)) as [->|Hne].
      * rewrite lookup_insert_eq, decide_True by lia. by rewrite (nth_lookup_Some _ _ _ _ Hk).
      * rewrite lookup_insert_ne.
        2:{ intros He. destruct (decide (i < k)%nat).
            - symmetry in He. apply slot_inj in He; lia.
            - apply slot_inj in He; lia. }
        rewrite h_slots0 by done. do 2 case_decide; try done; lia.
  - intros m _. apply safe_ret. intros w2 H2. eapply filled_stable; [|exact H2].
    unfold filled. simpl. lia.
Qed.

Lemma send_safe n k w :
  filled k w -> psafe n (send_interprocessor_interrupt pun) (fun _ w' => idle (S k) w') w.
Proof.
  intros Hw. destruct Hipi as (Ht & Hg & Hg0 & Hpl). unfold send_interprocessor_interrupt.
  eapply (safe_look _ _ _ _ _ t); [intros; exact Ht|].
  intros m1 w1 _ H1.
  eapply (safe_look _ _ _ _ _ g); [intros; exact Hg|].
  intros m2 w2 _ H2. unfold pthread_kill. rewrite <-(bind_ret_r (act _)). apply safe_act.
  intros w3 s3 HR (q & Hq & ->). assert (Hw3 : filled k w3).
  { eapply filled_stable; [|exact HR]. eapply filled_stable; [|exact H2]. by eapply filled_stable. }
  destruct Hw3 as (HA & HS & HI).
  exists tt, (conv q (S (nI w3))), (mkCounts (nA w3) (nS w3) (nR w3) (nT w3) (S (nI w3))).
  simpl. rewrite lookup_insert_eq. zb. split_and!.
  - f_equal. unfold conv, set_ipQues, set_hw, set_pending. simpl. rewrite insert_insert_eq.
    change (g :: replicate (nI w3) g) with (replicate (S (nI w3)) g).
    by rewrite replicate_S_end, app_assoc.
  - unfold prod_does; simpl; lia.
  - eexists. split; [|done]. destruct Hq. split; simpl; try lia; done.
  - intros m _. apply safe_ret. intros w4 H4. eapply idle_stable; [|exact H4].
    unfold idle. simpl. lia.
Qed.

Lemma add_safe n k p w :
  idle k w -> ys !! k = Some p -> psafe n (ipq_add pun p) (fun _ w' => idle (S k) w') w.
Proof.
  intros Hw Hk. pose proof (lookup_lt_Some _ _ _ Hk). unfold ipq_add.
  apply (safe_loop_ret _ _ _ _ _ _ (fun _ => idle k)); [|intros _; apply idle_stable|intros _; apply idle_stable|done].
  clear w Hw. intros m [] w Hw. unfold ipq_add_try.
  eapply safe_bind; [apply _|by apply room_safe|]. intros m1 aa w1 _ [H1 ->]. cbn [fst snd].
  eapply safe_bind; [apply _|by apply claim_safe|]. intros m2 b w2 _ [H2 ->]. unfold ipq_fill.
  rewrite !bind_assoc.
  eapply safe_bind; [apply _|by apply store_safe|]. intros m3 u3 w3 _ H3.
  eapply safe_bind; [apply _|eapply send_safe; exact H3|]. intros m4 u4 w4 _ H4.
  apply safe_ret. intros w5 H5. eapply idle_stable; [exact H4|exact H5].
Qed.

Lemma adds_safe n ps k w :
  idle k w -> (k <= length ys)%nat -> drop k ys = ps -> psafe n (adds pun ps) (fun _ w' => idle (length ys) w') w.
Proof.
  revert n k w. induction ps as [|p ps IH]; intros n k w Hw Hle Hd.
  - apply safe_ret. intros w1 H1. eapply idle_stable; [|exact H1].
    pose proof (f_equal length Hd) as Hl. rewrite length_drop in Hl. simpl in Hl.
    by replace (length ys) with k by lia.
  - assert (Hk : ys !! k = Some p) by (by rewrite <-(Nat.add_0_r k), <-lookup_drop, Hd).
    change (adds pun (p :: ps)) with (ipq_add pun p;; adds pun ps).
    eapply safe_bind; [apply _|by eapply add_safe|]. intros m u w1 _ H1.
    eapply IH; [exact H1|by apply lookup_lt_Some in Hk|].
    by rewrite <-Nat.add_1_r, <-drop_drop, Hd.
Qed.
End Producer.

(** ** The consumer, relying on the producer *)

Notation csafe := (safe inv pun prod_does cons_does).

(** It has given back what it took, the first [k] processes. *)
Definition level (k : nat) (w : counts) : Prop := nR w = k /\ nT w = k.
Lemma level_stable k w w' : level k w -> prod_does w w' -> level k w'.
Proof. unfold level, prod_does. lia. Qed.

Lemma nonnull_nth k : (k < length ys)%nat -> nth k ys NULL <> NULL.
Proof. intros Hk He. apply Hys. rewrite <-He. apply list_elem_of_In, nth_In. lia. Qed.

Lemma exchange_safe n k w (k' : addr -> cprog addr) (Q : addr -> counts -> Prop) :
  level k w ->
  (forall m w', level k w' -> csafe m (k' NULL) Q w') ->
  (forall m p w', ys !! k = Some p -> nR w' = S k -> nT w' = k -> csafe m (k' p) Q w') ->
  csafe n (bind (act (fun _ s => match ipQues s !! pun ≫= (fun q => que q !! slot k) with
                                | Some p => Ok p (ipq_upd pun (set_slot (slot k) NULL) s)
                                | None => Fault
                                end)) k') Q w.
Proof.
  intros Hw Hnone Hsome. apply safe_act. intros w1 s1 HR (q & Hq & ->).
  pose proof (level_stable _ _ _ Hw HR) as [HRw HT].
  pose proof (h_room _ _ Hq). pose proof (h_claim _ _ Hq). pose proof (h_order _ _ Hq).
  pose proof (h_len _ _ Hq).
  rewrite conv_ipq. cbn [mbind option_bind]. rewrite (h_slots _ _ Hq), conv_upd by lia.
  destruct (decide (nR w1 <= k < nS w1)%nat) as [Hin|Hout].
  - exists (nth k ys NULL), (conv (set_slot (slot k) NULL q) (nI w1)), (mkCounts (nA w1) (nS w1) (S k) k (nI w1)).
    split_and!; [done| | |].
    + unfold cons_does; simpl; lia.
    + eexists. split; [|done]. destruct Hq. split; simpl; try lia; [by rewrite h_rem0, HT|].
      intros i Hi. destruct (decide (i = k)) as [->|Hne].
      * rewrite lookup_insert_eq, decide_False by lia. done.
      * rewrite lookup_insert_ne by (intros He; apply slot_inj in He; lia).
        rewrite h_slots0 by lia. do 2 case_decide; try done; lia.
    + intros m _. apply Hsome; [|done..]. destruct (nth_lookup_or_length ys k NULL); [done|lia]. 
  - exists NULL, (conv (set_slot (slot k) NULL q) (nI w1)), w1. split_and!; [done|done| |].
    + eexists. split; [|done]. destruct Hq. split; simpl; try lia.
      intros i Hi. destruct (decide (i = k)) as [->|Hne].
      * rewrite lookup_insert_eq, decide_False by lia. done.
      * rewrite lookup_insert_ne by (intros He; apply slot_inj in He; lia). by apply h_slots0.
    + intros m _. by apply Hnone.
Qed.

Lemma give_safe n k w (k' : unit -> cprog addr) (Q : addr -> counts -> Prop) :
  nR w = S k -> nT w = k ->
  (forall m w', level (S k) w' -> csafe m (k' tt) Q w') ->
  csafe n (bind (ipq_set pun (set_nextRem (slot (k + 1)))) k') Q w.
Proof.
  intros HRw HTw Hk. apply safe_act. intros w1 s1 HR (q & Hq & ->).
  assert (HR1 : nR w1 = S k) by (unfold prod_does in HR; lia).
  assert (HT1 : nT w1 = k) by (unfold prod_does in HR; lia).
  exists tt, (conv (set_nextRem (slot (k + 1)) q) (nI w1)), (mkCounts (nA w1) (nS w1) (S k) (S k) (nI w1)).
  rewrite conv_ipq, conv_upd. split_and!; [done| | |].
  - unfold cons_does; simpl; lia.
  - eexists. split; [|done]. destruct Hq. split; simpl; try lia; try done.
    + f_equal. lia.
    + intros i Hi. destruct (decide (i = k + 5)%nat) as [->|Hne].
      * rewrite slot_wrap, h_slots0, !decide_False by lia. done.
      * rewrite h_slots0 by lia. do 2 case_decide; try done; lia.
  - intros m _. apply Hk. by split.
Qed.

Lemma remove_safe n k w :
  level k w ->
  csafe n ipq_remove (fun p w' =>
    if p =? NULL then level k w' else ys !! k = Some p /\ level (S k) w') w.
Proof.
  intros Hw. unfold ipq_remove, getcpu. rewrite !bind_assoc. apply safe_act.
  intros w1 s1 HR1 (q1 & Hq1 & ->). pose proof (level_stable _ _ _ Hw HR1) as H1.
  destruct Hcpu as [Hc Hk]. eexists _, _, w1. split_and!; [done|done|by exists q1|]. intros m1 _.
  cbn [hw conv set_ipQues set_hw set_pending cpu_key]. rewrite Hk. cbn [default from_option id]. zb.
  cbn [bind ret]. replace (pun + 1 - 1) with pun by lia.
  apply safe_get; [apply _..|]. intros w2 q2 H2 Hq2. exists (nextRem q2). split; [done|]. intros m2 _.
  apply (level_stable _ _ _ H1) in H2. rewrite (h_rem _ _ Hq2), (proj2 H2).
  apply safe_get; [apply _..|]. intros w3 q3 H3 Hq3. exists (nextAdd q3). split; [done|]. intros m3 _.
  apply (level_stable _ _ _ H2) in H3.
  assert (Hnil : forall m w', level k w' -> csafe m (bind (if negb (NULL =? NULL)
            then ipq_set pun (set_nextRem (next_slot (slot k))) else ret tt) (fun _ => ret NULL))
          (fun p w' => if p =? NULL then level k w' else ys !! k = Some p /\ level (S k) w') w').
  { intros m w' H'. apply safe_ret. intros w'' H''. by eapply level_stable. }
  destruct (negb (nextAdd q3 =? slot k)); [|by apply Hnil].
  rewrite bind_assoc. apply exchange_safe; [done|by intros; apply Hnil|].
  intros m p w' Hp HR' HT'. assert (HpN : p <> NULL).
  { intros ->. apply Hys. by eapply list_elem_of_lookup_2. }
  cbn [bind ret]. zb. rewrite slot_next. eapply give_safe; [done..|].
  intros m' w'' H'. apply safe_ret. intros w4 H4. zb. split; [done|by eapply level_stable].
Qed.

Lemma takes_safe m n k w :
  level k w -> (k <= length ys)%nat ->
  csafe n (takes m (firstn k ys)) (fun got w' => exists k', level k' w' /\ got = firstn k' ys) w.
Proof.
  revert n k w. induction m as [|m IH]; intros n k w Hw Hk.
  - apply safe_ret. intros w1 H1. exists k. split; [by eapply level_stable|done].
  - change (takes (S m) (firstn k ys)) with (p <- ipq_remove;;
      takes m (if p =? NULL then firstn k ys else firstn k ys ++ [p])).
    eapply safe_bind; [apply _|by apply remove_safe|]. intros m1 p w1 _ H1. cbv beta in H1.
    destruct (p =? NULL); [by apply IH|]. destruct H1 as [Hp H1].
    rewrite <-(take_S_r _ _ _ Hp). apply IH; [done|]. by apply lookup_lt_Some in Hp.
Qed.

(** ** Where the run starts and ends *)

Lemma holds_start q l :
  ipQues s0 !! pun = Some q -> ipq_rep q l -> nextRem q = r0 -> n0 = length l ->
  firstn n0 ys = l -> holds (mkCounts n0 n0 0 0 0) q /\ s0 = conv q 0.
Proof.
  intros Hq Hr Hr0 Hn Hl. split.
  - destruct Hr as [Hi1 Hi2 Hi3 Hi4 _]. unfold QSIZE in *.
    assert (n0 <= length ys)%nat by (apply (f_equal length) in Hl; rewrite length_firstn in Hl; lia).
    split; simpl; unfold slot, QSIZE; rewrite ?Z.add_0_r; try lia.
    + rewrite Hr0. symmetry. apply Z.mod_small. lia.
    + rewrite Hi3. by subst.
    + intros k Hk. rewrite <-Hr0, Hi4 by lia. f_equal. rewrite <-Hl, Hn.
      case_decide as Hd.
      * rewrite !nth_lookup, lookup_take_lt by lia. done.
      * apply nth_overflow. rewrite length_firstn. lia.
  - destruct Hipi as (_ & _ & _ & Hpl). unfold conv. rewrite insert_id by done.
    rewrite insert_id by (simpl; by rewrite app_nil_r). by destruct s0 as [[]].
Qed.

Lemma holds_end q w k :
  holds w q -> idle (length ys) w -> level k w -> ipq_rep q (skipn k ys).
Proof.
  intros [] (HA & HS & HI) [HR HT]. rewrite HT in *.
  assert (Hl : length (skipn k ys) = (length ys - k)%nat) by by rewrite length_drop.
  split; rewrite ?Hl.
  - rewrite h_rem0. by apply Z.mod_pos_bound.
  - unfold QSIZE. lia.
  - rewrite h_add0, h_rem0. unfold slot. rewrite Z.add_mod_idemp_l by done. f_equal. lia.
  - intros i Hi. unfold QSIZE in Hi. rewrite h_rem0. unfold slot at 1.
    rewrite Z.add_mod_idemp_l by done.
    replace (r0 + Z.of_nat k + Z.of_nat i) with (r0 + Z.of_nat (k + i)) by lia.
    change ((r0 + Z.of_nat (k + i)) mod QSIZE) with (slot (k + i)). rewrite h_slots0 by lia.
    f_equal. case_decide as Hd.
    + by rewrite !nth_lookup, lookup_drop.
    + symmetry. apply nth_overflow. lia.
  - intros Hin. apply Hys. rewrite <-(firstn_skipn k ys). set_solver.
Qed.
End Queue.

(** ** The theorem *)

(** C19: the interprocessor queue is a first-in first-out queue however the two
    processors' actions interleave: while a processor adds the processes [ps] to
    the queue of processor [pun], which holds [l], and [pun] calls [ipq_remove]
    [n] times, no access faults and neither side gets stuck; what [pun] has got
    is always a prefix of [l ++ ps]; and when both have finished, what is still
    queued is the rest, one interrupt was sent for each process added, and
    nothing else in the system has changed. *)
Theorem ipq_interleaved pr pun s q l t g pl ps n p1 p2 s' :
  on_cpu pun s -> ipi_target s pun t g pl ->
  ipQues s !! pun = Some q -> ipq_rep q l -> NULL ∉ ps ->
  rtc (inter pr pun) (adds pun ps, takes n [], s) (p1, p2, s') ->
  goes_on pr p1 s' /\ goes_on pun p2 s' /\
  (forall got, p2 = Ret got -> got `prefix_of` l ++ ps) /\
  (forall got, p1 = Ret tt -> p2 = Ret got -> exists q' l',
     ipq_rep q' l' /\ got ++ l' = l ++ ps /\ s' = conv pun s t g pl q' (length ps)).
Proof.
  intros Hc Hi Hq Hr Hps Hrun.
  assert (Hys : NULL ∉ l ++ ps) by (pose proof (ir_nonnull _ _ Hr); set_solver).
  assert (Hl0 : (length l <= length (l ++ ps))%nat) by (rewrite length_app; lia).
  destruct (holds_start pun s (nextRem q) t g pl (length l) (l ++ ps) Hc Hi q l) as [H0 Hs];
    [done..|apply take_app_length|].
  set (w0 := mkCounts (length l) (length l) 0 0 0) in *.
  assert (Hw1 : idle (length l) (length l) w0) by done.
  assert (Hw2 : level 0 w0) by done.
  destruct (inter_safe _ pr pun prod_does cons_does _ _ _ _ _ w0 p1 p2 s'
    (ex_intro _ q (conj H0 Hs))
    (fun m => adds_safe pun s _ t g pl _ _ Hi pr m ps _ _ Hw1 Hl0 (drop_app_length _ _))
    (fun m => takes_safe pun s _ t g pl _ _ Hc Hys n m 0 _ Hw2 (Nat.le_0_l _)) Hrun)
    as (Hg1 & Hg2 & w' & (q' & Hh & ->) & HQ1 & HQ2).
  split_and!; [done..| |].
  - intros got ->. destruct (HQ2 _ eq_refl) as (k & _ & ->). exists (skipn k (l ++ ps)).
    by rewrite firstn_skipn.
  - intros got -> ->. destruct (HQ2 _ eq_refl) as (k & Hk & ->). specialize (HQ1 _ eq_refl).
    exists q', (skipn k (l ++ ps)). split_and!.
    + by eapply holds_end.
    + by rewrite firstn_skipn.
    + destruct HQ1 as (_ & _ & HI). rewrite length_app in HI. f_equal. lia.
Qed.

(** Four processes are added to a queue that holds one, two turns of the adding
    processor to one of the removing one. *)
Definition sample_one : IPQueue := mkIPQueue 4 3 (<[3 := pS]> (zeros 5 NULL)).
Lemma sample_one_rep : ipq_rep sample_one [pS].
Proof. concrete_ipq. Qed.
Definition sample_start := (adds 1 [pA; pB; pH; pL], takes 3 [], with_ipq 1 sample_one sample).
Definition sample_turns := turns 0 1 (concat (replicate 150 [true; true; false])) sample_start.
Lemma sample_results : results sample_turns = Some (tt, [pS; pA; pB]).
Proof. vm_compute. reflexivity. Qed.
Lemma sample_turns_run :
  rtc (inter 0 1) sample_start (Ret tt, Ret [pS; pA; pB], sample_turns.2).
Proof.
  assert (H : rtc (inter 0 1) sample_start sample_turns) by apply (turns_inter 0 1).
  rewrite (results_ret _ _ _ sample_results) in H. exact H.
Qed.

Lemma ipq_interleaved_witness :
  results sample_turns = Some (tt, [pS; pA; pB]) /\
  exists q', ipq_rep q' [pH; pL] /\
    sample_turns.2 = conv 1 (with_ipq 1 sample_one sample) 1 48 [] q' 4.
Proof.
  split; [exact sample_results|].
  destruct (ipq_interleaved 0 1 (with_ipq 1 sample_one sample) sample_one [pS] 1 48 []
    [pA; pB; pH; pL] 3 (Ret tt) (Ret [pS; pA; pB]) sample_turns.2
    ltac:(by vm_compute) ltac:(by vm_compute) eq_refl sample_one_rep ltac:(concrete_nodup)
    sample_turns_run) as (_ & _ & _ & H).
  destruct (H [pS; pA; pB] eq_refl eq_refl) as (q' & l' & Hq' & Hl & Hs).
  exists q'. split; [|exact Hs]. injection Hl as ->. exact Hq'.
Defined.
