(* ===== verification/Sched.v ===== *)
(** * Sched: the scheduler core (sched.c)

    Current processes, ready queues, scheduling, preemption and giving up the
    processor.  Process creation and termination are in [Proc], the interrupt
    handlers in [Handlers], the start of the run in [Boot]. *)

From S2P Require Import Prelude Prog State Linked Hardware Priority Ipq.

#[local] Open Scope prog_scope.

(** [rdyQues[pun].head] *)
Definition rdy_head (pun : Z) : cprog addr := fetch (fun s => rdyQues s !! pun).
Definition upd_head (pun : Z) (v : addr) (s : sys) : sys :=
  set_rdyQues (<[pun := v]> (rdyQues s)) s.
Definition set_rdy_head (pun : Z) (v : addr) : cprog unit :=
  store (fun s => match rdyQues s !! pun with
                  | Some _ => Some (upd_head pun v s)
                  | None => None
                  end).

(** Returns current process on this processor *)
Definition get_current : cprog addr :=
  pun <- getcpu;; fetch (fun s => current s !! pun).

(** Sets the current (executing) process on this processor. *)
Definition set_current (proc : addr) : cprog unit :=
  pun <- getcpu;;
  pp <- pget proc p_pun;;
  (if negb (pp =? pun) then plotz "set_current non-matching cpu#" else ret tt);;
  modify (fun s => set_current (<[pun := proc]> (current s)) s);;
  pri <- pget proc p_pri;;
  modify (fun s => set_current_pri (<[pun := pri]> (current_pri s)) s).

(** Moves the current process to the preparing-to-wait state; the macro
    [PREPARE_TO_WAIT(p)] does it for a given process. *)
Definition PREPARE_TO_WAIT (p : addr) : cprog unit :=
  pset p (set_sched_state PROC_PREPARING_TO_WAIT).
Definition prepare_to_wait : cprog unit :=
  curr <- get_current;; PREPARE_TO_WAIT curr.

(** Inserts process into the scheduling queue for its processor. *)
Definition enqueue0 (proc : addr) : cprog unit :=
  pun <- pget proc p_pun;;
  head <- rdy_head pun;;
  pc <- walk (fun x => pp <- pget proc p_pri;; cp <- pget x p_pri;; ret (pri_le pp cp))
             (fun x => pget x p_next) NULL head;;
  let (prev, curr) := pc : addr * addr in
  if (prev =? NULL) && (curr =? NULL) then
    (set_rdy_head pun proc;; pset proc (set_next NULL))
  else if (prev =? NULL) && negb (curr =? NULL) then
    (set_rdy_head pun proc;; pset proc (set_next curr))
  else if negb (prev =? NULL) && negb (curr =? NULL) then
    (pset prev (set_next proc);; pset proc (set_next curr))
  else
    (pset prev (set_next proc);; pset proc (set_next NULL)).

Definition enqueue (proc : addr) : cprog unit :=
  disable;; enqueue0 proc;; enable.

(** Consumes the interprocessor queue of this processor:
    [proc = ipq_remove(); while (proc != NULL) { f(proc); proc = ipq_remove(); }] *)
Definition drain_ipq (f : addr -> cprog unit) : cprog unit :=
  proc <- ipq_remove;;
  loop (fun proc : addr =>
    if negb (proc =? NULL) then (f proc;; p <- ipq_remove;; ret (inl p))
    else ret (inr tt)) proc.

(** Removes head (highest priority) process from given processor's scheduling
    queue and returns it. *)
Definition take (pun : Z) : cprog addr :=
  drain_ipq enqueue0;;
  proc <- rdy_head pun;;
  (if negb (proc =? NULL) then (n <- pget proc p_next;; set_rdy_head pun n) else ret tt);;
  ret proc.

(** The same, provided there are at least two processes in the ready queue. *)
Definition take1 (pun : Z) : cprog addr :=
  drain_ipq enqueue0;;
  head <- rdy_head pun;;
  if negb (head =? NULL) then
    (n <- pget head p_next;;
     if negb (n =? NULL) then
       (proc <- rdy_head pun;; n <- pget proc p_next;; set_rdy_head pun n;; ret proc)
     else ret NULL)
  else ret NULL.

(** Makes the given process ready to execute, possibly preempting the currently
    executing process.  Interrupts must be disabled. *)
Definition schedule0 (proc : addr) : cprog unit :=
  pun <- getcpu;;
  pp <- pget proc p_pun;;
  if pp =? pun then
    (curr <- get_current;;
     ppri <- pget proc p_pri;;
     cpri <- pget curr p_pri;;
     if pri_le ppri cpri then enqueue0 proc
     else (set_current proc;; enqueue0 curr;; switch_context curr proc))
  else ipq_add pp proc.

Definition schedule (proc : addr) : cprog unit :=
  disable;; schedule0 proc;; enable.

(** Preempts the current process if there is a higher-priority ready process.
    Called from an interrupt handler with interrupts disabled. *)
Definition schedule_from_interrupt : cprog unit :=
  curr <- get_current;;
  pun <- pget curr p_pun;;
  head <- rdy_head pun;;
  if negb (head =? NULL) then
    (hpri <- pget head p_pri;;
     cpri <- pget curr p_pri;;
     if pri_gt hpri cpri then
       (proc <- take pun;;
        enqueue0 curr;;
        set_current proc;;
        switch_interrupt_context curr proc)
     else ret tt)
  else ret tt.

(** Preempts the current process with the given process if the latter has
    higher priority. *)
Definition schedule_from_interrupt_single (proc : addr) : cprog unit :=
  curr <- get_current;;
  ppri <- pget proc p_pri;;
  cpri <- pget curr p_pri;;
  if pri_le ppri cpri then enqueue0 proc
  else (set_current proc;; enqueue0 curr;; switch_interrupt_context curr proc).

(** Gives the processor to the highest priority ready process, provided the
    current process successfully enters waiting state. *)
Definition relinquish : cprog unit :=
  oldproc <- get_current;;
  pun <- pget oldproc p_pun;;
  r <- cas_sched_state oldproc PROC_PREPARING_TO_WAIT PROC_WAITING;;
  if r.1 then
    (disable;;
     newproc <- take pun;;
     set_current newproc;;
     switch_context oldproc newproc;;
     enable)
  else ret tt.

Definition relinquish_unconditional : cprog unit :=
  oldproc <- get_current;;
  pun <- pget oldproc p_pun;;
  disable;;
  newproc <- take pun;;
  set_current newproc;;
  switch_context oldproc newproc;;
  enable.

(** The current process gives up the processor but remains ready. *)
Definition yield : cprog unit :=
  oldproc <- get_current;;
  pun <- pget oldproc p_pun;;
  disable;;
  newproc <- take1 pun;;
  (if negb (newproc =? NULL) then
     (set_current newproc;;
      enqueue0 oldproc;;
      switch_context oldproc newproc)
   else ret tt);;
  enable.
