(* ===== verification/ReadyQueue.v ===== *)
(** * ReadyQueue: the ready queues refine priority lists

    The abstract ready queue of a processor is the list of its process records;
    [rq_insert] is stable insertion by priority.  The linked lists of [Sched]
    implement it: [enqueue0], [take] and [take1] are related to the list
    operations by [rdy_rep]. *)

From S2P Require Import Prelude Prog State Fixture Linked Hardware Exec Priority Ipq.
From S2P Require Import Sched.

#[local] Open Scope prog_scope.

(** ** Abstract queue *)

Definition rq_split (pri : addr -> Z) (p : addr) (l : list addr) : list addr * list addr :=
  span (fun x => pri_le (pri p) (pri x)) l.
Definition rq_insert (pri : addr -> Z) (p : addr) (l : list addr) : list addr :=
  (rq_split pri p l).1 ++ p :: (rq_split pri p l).2.

(** Sorted: nobody is behind a process of lower priority. *)
Definition rq_sorted (pri : addr -> Z) (l : list addr) : Prop :=
  StronglySorted (fun x y => pri_le (pri y) (pri x) = true) l.

(** ** Representation *)

Definition pri_of (s : sys) (x : addr) : Z := from_option p_pri 0 (procs s !! x).
Definition pun_of (s : sys) (x : addr) : Z := from_option p_pun (-1) (procs s !! x).

Record rdy_rep (s : sys) (pun : Z) (l : list addr) : Prop := {
  rr_head : rdyQues s !! pun = Some (first l);
  rr_linked : linked (procs s) (first l) l;
  rr_pun : forall x, x ∈ l -> pun_of s x = pun }.

(** What queue operations leave alone: everything but the queue heads and the
    [next] fields. *)
Record same_but_links (s s' : sys) : Prop := {
  sbl_procs : forall x, set_next NULL <$> procs s' !! x = set_next NULL <$> procs s !! x;
  sbl_rest : s' = set_rdyQues (rdyQues s') (set_procs (procs s') s) }.

#[export] Instance same_but_links_preorder : PreOrder same_but_links.
Proof.
  split.
  - intros s. split; [done|by destruct s].
  - intros s1 s2 s3 [Hp Hr] [Hp' Hr']. split; [intros x; by rewrite Hp', Hp|].
    rewrite Hr', Hr. done.
Qed.

(** The same, with the interprocessor queues left out too. *)
Record same_but_queues (s s' : sys) : Prop := {
  sbq_procs : forall x, set_next NULL <$> procs s' !! x = set_next NULL <$> procs s !! x;
  sbq_rest : s' = set_ipQues (ipQues s') (set_rdyQues (rdyQues s') (set_procs (procs s') s)) }.

#[export] Instance same_but_queues_preorder : PreOrder same_but_queues.
Proof.
  split.
  - intros s. split; [done|by destruct s].
  - intros s1 s2 s3 [Hp Hr] [Hp' Hr']. split; [intros x; by rewrite Hp', Hp|].
    rewrite Hr', Hr. done.
Qed.

Lemma sbl_sbq s s' : same_but_links s s' -> same_but_queues s s'.
Proof. intros [Hp Hr]. split; [done|]. rewrite Hr. by destruct s. Qed.

Lemma sbq_upd_ipq pun f s : same_but_queues s (ipq_upd pun f s).
Proof. split; [done|by destruct s]. Qed.

Section Frame.
Context (s s' : sys) (Hs : same_but_queues s s').

Lemma sbq_lookup x P :
  procs s !! x = Some P -> exists n, procs s' !! x = Some (set_next n P).
Proof.
  intros HP. pose proof (sbq_procs _ _ Hs x) as Hx. rewrite HP in Hx.
  destruct (procs s' !! x) as [P'|]; [|done]. exists (p_next P'). f_equal.
  simpl in Hx. destruct P, P'; unfold set_next in *; simpl in *. congruence.
Qed.

Lemma sbq_pri x : pri_of s' x = pri_of s x.
Proof.
  pose proof (sbq_procs _ _ Hs x) as Hx. unfold pri_of.
  destruct (procs s' !! x) as [[]|], (procs s !! x) as [[]|]; simpl in *; try done.
  unfold set_next in Hx. simpl in Hx. congruence.
Qed.

Lemma sbq_pun x : pun_of s' x = pun_of s x.
Proof.
  pose proof (sbq_procs _ _ Hs x) as Hx. unfold pun_of.
  destruct (procs s' !! x) as [[]|], (procs s !! x) as [[]|]; simpl in *; try done.
  unfold set_next in Hx. simpl in Hx. congruence.
Qed.

Lemma sbq_hw : hw s' = hw s.
Proof. by rewrite (sbq_rest _ _ Hs). Qed.

Lemma sbq_current : current s' = current s.
Proof. by rewrite (sbq_rest _ _ Hs). Qed.

Lemma sbq_on_cpu c : on_cpu c s -> on_cpu c s'.
Proof. unfold on_cpu. by rewrite sbq_hw. Qed.
End Frame.

Lemma sbl_ipq s s' : same_but_links s s' -> ipQues s' = ipQues s.
Proof. intros Hs. by rewrite (sbl_rest _ _ Hs). Qed.

(** Another state with the same records and queues represents the same lists. *)
Lemma rdy_rep_ext s s' pun l :
  procs s' = procs s -> rdyQues s' = rdyQues s -> rdy_rep s pun l -> rdy_rep s' pun l.
Proof.
  intros Hp Hr [H1 H2 H3]. split; [by rewrite Hr|by rewrite Hp|].
  intros x Hx. unfold pun_of. rewrite Hp. by apply H3.
Qed.

(** ** The abstract operations *)

Section Insert.
Context (pri : addr -> Z).

Lemma rq_split_app p l : (rq_split pri p l).1 ++ (rq_split pri p l).2 = l.
Proof. apply span_app. Qed.

Lemma rq_insert_perm p l : rq_insert pri p l ≡ₚ p :: l.
Proof.
  unfold rq_insert. rewrite <-Permutation_middle. by rewrite rq_split_app.
Qed.

Lemma rq_insert_elem p l x : x ∈ rq_insert pri p l <-> x = p \/ x ∈ l.
Proof. rewrite rq_insert_perm. set_solver. Qed.

Lemma rq_insert_sorted p l : rq_sorted pri l -> rq_sorted pri (rq_insert pri p l).
Proof.
  apply span_insert_sorted.
  - intros x y z Hxy Hyz. by eapply pri_le_trans.
  - intros x _. destruct (pri_le (pri p) (pri x)) eqn:E; [done|].
    apply pri_gt_le. by rewrite pri_le_gt, negb_false_iff in E.
Qed.

(** Fifo among equals: exactly the processes that are not of lower priority
    stay in front of the inserted one, in their order. *)
Lemma rq_insert_stable p l :
  rq_sorted pri l ->
  exists l1 l2, l = l1 ++ l2 /\ rq_insert pri p l = l1 ++ p :: l2 /\
    Forall (fun x => pri_le (pri p) (pri x) = true) l1 /\
    Forall (fun x => pri_gt (pri p) (pri x) = true) l2.
Proof.
  intros Hs. exists (rq_split pri p l).1, (rq_split pri p l).2.
  split_and!; [by rewrite rq_split_app|done|apply span_keep|].
  eapply span_rest; [| |exact Hs]; simpl.
  - intros x _ Hx. by rewrite pri_le_gt, negb_false_iff in Hx.
  - intros x y. unfold pri_gt, pri_le. rewrite Z.geb_leb, Z.leb_le, !Z.ltb_lt. lia.
Qed.
End Insert.

Lemma rq_insert_agree f g p l :
  (forall x, x ∈ p :: l -> f x = g x) -> rq_insert f p l = rq_insert g p l.
Proof.
  intros Hfg. unfold rq_insert, rq_split.
  rewrite (span_ext _ (fun x => pri_le (g p) (g x))); [done|].
  intros x Hx. by rewrite !Hfg by set_solver.
Qed.

Lemma rq_insert_ext f g p l :
  (forall x, f x = g x) -> rq_insert f p l = rq_insert g p l.
Proof. intros Hfg. by apply rq_insert_agree. Qed.

Lemma rq_sorted_agree f g l : (forall x, x ∈ l -> f x = g x) -> rq_sorted f l -> rq_sorted g l.
Proof.
  intros Hfg. induction 1 as [|x l Hs IH Hx]; constructor; [apply IH; set_solver|].
  rewrite Forall_forall in Hx |- *. intros y Hy. rewrite <-!Hfg by set_solver. by apply Hx.
Qed.

Lemma rq_sorted_ext f g l : (forall x, f x = g x) -> rq_sorted f l -> rq_sorted g l.
Proof. intros Hfg. by apply rq_sorted_agree.
Qed.

(** ** [enqueue0] *)

Section Enqueue.
Context (c : Z).

(** Updating the head of a queue and [next] fields only. *)
Lemma sbl_upd_next p v s : same_but_links s (upd_proc p (set_next v) s).
Proof.
  split; [|by destruct s]. intros x. simpl.
  destruct (decide (x = p)) as [->|Hne]; [|by rewrite lookup_alter_ne].
  rewrite lookup_alter_eq. by destruct (procs s !! p) as [[]|].
Qed.

Lemma sbl_upd_head pun v s : same_but_links s (upd_head pun v s).
Proof. split; [done|by destruct s]. Qed.

Lemma rdy_rep_other s s' pun l :
  same_but_links s s' ->
  (forall x, x ∈ l -> procs s' !! x = procs s !! x) ->
  rdyQues s' !! pun = rdyQues s !! pun ->
  rdy_rep s pun l -> rdy_rep s' pun l.
Proof.
  intros Hs Hp Hr [H1 H2 H3]. split; [by rewrite Hr| |].
  - eapply linked_agree; [|exact H2]. intros x Hx. by rewrite Hp.
  - intros x Hx. rewrite (sbq_pun _ _ (sbl_sbq _ _ Hs)). by apply H3.
Qed.

Lemma enqueue0_walk s p P pun l :
  procs s !! p = Some P -> rdy_rep s pun l ->
  exec c (walk (fun x => pp <- pget p p_pri;; cp <- pget x p_pri;; ret (pri_le pp cp))
               (fun x => pget x p_next) NULL (first l)) s
    (Done (last_or NULL (rq_split (pri_of s) p l).1, first (rq_split (pri_of s) p l).2) s).
Proof.
  intros HP Hl. unfold rq_split.
  eapply (walk_spec c _ _ _ (procs s)); [exact (rr_linked _ _ _ Hl)|].
  intros x X Hx HX. split.
  - do 2 xstep1. unfold pri_of. rewrite HP, HX. xstep.
  - xstep.
Qed.

(** The state [enqueue0] leaves, in the two shapes of the code. *)
Definition enqueued (s : sys) (pun : Z) (p : addr) (l1 l2 : list addr) : sys :=
  upd_proc p (set_next (first l2))
    (match l1 with
     | [] => upd_head pun p s
     | _ => upd_proc (last_or NULL l1) (set_next p) s
     end).

Lemma enqueue0_run s p P pun l :
  procs s !! p = Some P -> p_pun P = pun -> rdy_rep s pun l -> p ∉ l ->
  exec c (enqueue0 p) s
    (Done tt (enqueued s pun p (rq_split (pri_of s) p l).1 (rq_split (pri_of s) p l).2)).
Proof.
  intros HP Hpun Hl Hpl. unfold enqueue0. xstep1. rewrite Hpun.
  eapply exec_fetch; [apply Hl|].
  eapply exec_bind_done; [by eapply enqueue0_walk|].
  pose proof (linked_not_null _ _ _ (rr_linked _ _ _ Hl)) as Hnn.
  rewrite <-(rq_split_app (pri_of s) p l) in Hnn.
  destruct (rq_split (pri_of s) p l) as [l1 l2] eqn:Hsp. cbn [fst snd] in *.
  assert (Hhead : exists v, rdyQues s !! pun = Some v) by (eexists; apply Hl).
  destruct Hhead as [hd Hhead].
  assert (H2 : l2 = [] /\ first l2 = NULL \/ first l2 <> NULL).
  { destruct l2 as [|y l2]; [auto|right]. simpl. set_solver. }
  destruct l1 as [|q l1 _] using rev_ind.
  - cbn [enqueued]. change (last_or NULL []) with NULL.
    destruct H2 as [[-> H2]|H2]; [rewrite H2|]; unfold set_rdy_head; zb; xstep.
  - assert (Hq : last_or NULL (l1 ++ [q]) = q) by apply List.last_last.
    assert (HqN : q <> NULL) by set_solver.
    replace (enqueued s pun p (l1 ++ [q]) l2)
      with (upd_proc p (set_next (first l2)) (upd_proc q (set_next p) s))
      by (by unfold enqueued; rewrite Hq; destruct l1).
    rewrite Hq.
    assert (Hql : q ∈ l).
    { rewrite <-(rq_split_app (pri_of s) p l), Hsp. set_solver. }
    destruct (linked_elem _ _ _ q (rr_linked _ _ _ Hl) Hql) as (_ & Q & HQ).
    assert (Hqp : q <> p) by (by intros ->).
    destruct H2 as [[-> H2]|H2]; [rewrite H2|]; zb; xstep.
Qed.

Lemma enqueued_sbl s pun p l1 l2 : same_but_links s (enqueued s pun p l1 l2).
Proof.
  etrans; [|apply sbl_upd_next].
  destruct l1; [apply sbl_upd_head|apply sbl_upd_next].
Qed.

Lemma enqueued_rep s pun p P l1 l2 :
  procs s !! p = Some P -> p_pun P = pun -> p <> NULL -> p ∉ l1 ++ l2 ->
  rdy_rep s pun (l1 ++ l2) -> rdy_rep (enqueued s pun p l1 l2) pun (l1 ++ p :: l2).
Proof.
  intros HP Hpun Hp0 Hpl [Hh Hl Hu]. split.
  - unfold enqueued. destruct l1; simpl; [by rewrite lookup_insert_eq|done].
  - destruct l1 as [|q l1 _] using rev_ind.
    + exact (linked_insert_head (procs s) (first l2) l2 p P Hl HP Hp0 Hpl).
    + rewrite <-!app_assoc in *. simpl in *.
      replace (first (l1 ++ q :: p :: l2)) with (first (l1 ++ q :: l2)) by (by destruct l1).
      pose proof (linked_insert_after _ _ l1 q l2 p P Hl HP Hp0 Hpl) as Hi.
      unfold enqueued. unfold last_or. rewrite List.last_last.
      by destruct l1.
  - intros x Hx. rewrite (sbq_pun _ _ (sbl_sbq _ _ (enqueued_sbl s pun p l1 l2))).
    apply elem_of_app in Hx as [Hx|[->|Hx]%elem_of_cons].
    + apply Hu. set_solver.
    + unfold pun_of. by rewrite HP.
    + apply Hu. set_solver.
Qed.

Lemma enqueued_other s pun p l1 l2 pun' l' P :
  procs s !! p = Some P -> p_pun P = pun -> rdy_rep s pun (l1 ++ l2) ->
  pun' <> pun -> rdy_rep s pun' l' -> rdy_rep (enqueued s pun p l1 l2) pun' l'.
Proof.
  intros HP Hpun Hl Hne Hl'. eapply rdy_rep_other; [apply enqueued_sbl| | |exact Hl'].
  - intros x Hx. pose proof (rr_pun _ _ _ Hl' x Hx) as Hx'.
    assert (x <> p) by (intros ->; unfold pun_of in Hx'; rewrite HP in Hx'; simpl in Hx'; congruence).
    unfold enqueued. simpl. rewrite lookup_alter_ne by done.
    destruct l1 as [|q l1 _] using rev_ind; [done|].
    assert (x <> q).
    { intros ->. rewrite (rr_pun _ _ _ Hl q) in Hx' by set_solver. congruence. }
    destruct (l1 ++ [q]) as [|y k] eqn:E; [by destruct l1|]. rewrite <-E.
    unfold last_or. rewrite List.last_last. simpl. by rewrite lookup_alter_ne.
  - unfold enqueued. destruct l1; simpl; [by rewrite lookup_insert_ne|done].
Qed.

(** The refinement of insertion, for the queue of the process's processor and
    for the other queues. *)
Lemma enqueue0_spec s p P pun l :
  procs s !! p = Some P -> p_pun P = pun -> p <> NULL -> p ∉ l -> rdy_rep s pun l ->
  exists s', exec c (enqueue0 p) s (Done tt s') /\
    rdy_rep s' pun (rq_insert (pri_of s) p l) /\ same_but_links s s' /\
    (forall pun' l', pun' <> pun -> rdy_rep s pun' l' -> rdy_rep s' pun' l').
Proof.
  intros HP Hpun Hp0 Hpl Hl. eexists. split; [by eapply enqueue0_run|].
  assert (Hl' : rdy_rep s pun ((rq_split (pri_of s) p l).1 ++ (rq_split (pri_of s) p l).2))
    by by rewrite rq_split_app.
  split_and!.
  - eapply enqueued_rep; [done..| |done]. by rewrite rq_split_app.
  - apply enqueued_sbl.
  - intros pun' l' Hne Hl2. by eapply enqueued_other.
Qed.

(** A process record of processor [pun] that can be put on its queue. *)
Definition ready_for (s : sys) (pun : Z) (x : addr) : Prop :=
  x <> NULL /\ pun_of s x = pun /\ is_Some (procs s !! x).

Lemma ready_for_sbq s s' pun x :
  same_but_queues s s' -> ready_for s pun x -> ready_for s' pun x.
Proof.
  intros Hs (H0 & Hp & X & HX). split_and!; [done|by rewrite (sbq_pun _ _ Hs)|].
  destruct (sbq_lookup _ _ Hs x X HX) as [n Hn]. eauto.
Qed.

(** The queue after a batch of insertions, the first of the batch first. *)
Definition rq_insert_all (pri : addr -> Z) (ps l : list addr) : list addr :=
  foldl (fun l p => rq_insert pri p l) l ps.

Lemma rq_insert_all_agree f g ps l :
  (forall x, x ∈ ps ++ l -> f x = g x) -> rq_insert_all f ps l = rq_insert_all g ps l.
Proof.
  revert l. induction ps as [|p ps IH]; intros l Hfg; [done|].
  simpl. rewrite (rq_insert_agree f g) by (intros; apply Hfg; set_solver).
  apply IH. intros x. rewrite elem_of_app, rq_insert_perm. intros Hx. apply Hfg. set_solver.
Qed.

Lemma rq_insert_all_ext f g ps l :
  (forall x, f x = g x) -> rq_insert_all f ps l = rq_insert_all g ps l.
Proof. intros Hfg. by apply rq_insert_all_agree. Qed.

Lemma rq_insert_all_snoc f ps p l :
  rq_insert_all f (ps ++ [p]) l = rq_insert f p (rq_insert_all f ps l).
Proof. unfold rq_insert_all. by rewrite foldl_app. Qed.

(** Behind those that are not lower, before those that are. *)
Lemma rq_insert_app f p l1 l2 :
  Forall (fun x => pri_le (f p) (f x) = true) l1 -> rq_insert f p (l1 ++ l2) = l1 ++ rq_insert f p l2.
Proof.
  intros H1. unfold rq_insert, rq_split. rewrite span_app_keep by done. cbn [fst snd]. by rewrite <-app_assoc.
Qed.

Lemma rq_insert_between f p l1 l2 :
  Forall (fun x => pri_le (f p) (f x) = true) l1 -> Forall (fun x => pri_le (f p) (f x) = false) l2 ->
  rq_insert f p (l1 ++ l2) = l1 ++ p :: l2.
Proof.
  intros H1 H2. rewrite rq_insert_app by done. f_equal. unfold rq_insert, rq_split.
  by rewrite span_none.
Qed.

Lemma rq_insert_all_equal f v ps l :
  Forall (fun p => f p = v) ps -> Forall (fun x => pri_le v (f x) = false) l ->
  rq_insert_all f ps l = ps ++ l.
Proof.
  intros Hp Hl. induction ps as [|p ps IH] using rev_ind; [done|].
  apply Forall_app in Hp as [Hps Hp1]. rewrite Forall_singleton in Hp1.
  rewrite rq_insert_all_snoc, IH by done. rewrite rq_insert_between; [by rewrite <-app_assoc| |].
  - eapply Forall_impl; [exact Hps|]. intros x Hx. simpl in Hx. rewrite Hp1, Hx. apply pri_le_refl.
  - by rewrite Hp1.
Qed.

Lemma rq_insert_all_perm f ps l : rq_insert_all f ps l ≡ₚ ps ++ l.
Proof.
  revert l. induction ps as [|p ps IH]; intros l; [done|]. simpl.
  unfold rq_insert_all in *. simpl. rewrite IH, rq_insert_perm. by rewrite Permutation_middle.
Qed.

Lemma rq_insert_all_sorted f ps l : rq_sorted f l -> rq_sorted f (rq_insert_all f ps l).
Proof.
  revert l. induction ps as [|p ps IH]; intros l Hl; [done|]. apply IH. by apply rq_insert_sorted.
Qed.

(** What a batch of insertions establishes. *)
Definition drained (s s' : sys) (q' : IPQueue) (l' : list addr) : Prop :=
  rdy_rep s' c l' /\ same_but_queues s s' /\
  ipQues s' = <[c := q']> (ipQues s) /\ ipq_rep q' [] /\
  (forall pun' l2, pun' <> c -> rdy_rep s pun' l2 -> rdy_rep s' pun' l2).

Definition drain_body (p : addr) : cprog (addr + unit) :=
  if negb (p =? NULL) then (enqueue0 p;; n <- ipq_remove;; ret (inl n)) else ret (inr tt).

Lemma drain_loop ql x s q l :
  on_cpu c s -> ipQues s !! c = Some q -> ipq_rep q ql -> rdy_rep s c l ->
  Forall (ready_for s c) (x :: ql) -> NoDup (x :: ql ++ l) ->
  exists s' q', exec c (loop drain_body x) s (Done tt s') /\
    drained s s' q' (rq_insert_all (pri_of s) (x :: ql) l).
Proof.
  revert x s q l. induction ql as [|y ql IH]; intros x s q l Hc Hq Hr Hl Hready Hnd.
  all: apply Forall_cons in Hready as [Hx Hready]; apply NoDup_cons in Hnd as [Hxl Hnd].
  all: destruct (id Hx) as (Hx0 & Hxp & X & HX).
  all: assert (HXp : p_pun X = c) by (unfold pun_of in Hxp; by rewrite HX in Hxp).
  all: destruct (enqueue0_spec s x X c l HX HXp Hx0) as (s2 & He & Hl2 & Hs2 & Ho2);
    [set_solver|done|].
  all: assert (Hc2 : on_cpu c s2) by (eapply sbq_on_cpu; [by apply sbl_sbq|done]).
  all: assert (Hq2 : ipQues s2 !! c = Some q) by by rewrite (sbl_ipq _ _ Hs2).
  all: unfold loop.
  - exists s2, q. split.
    + eapply exec_loop.
      { unfold drain_body. zb. eapply exec_bind_done; [exact He|].
        eapply exec_bind_done; [by eapply ipq_remove_empty|]. apply exec_ret. }
      eapply exec_loop; [apply exec_ret|apply exec_ret].
    + split_and!; [done|by apply sbl_sbq| |done|done].
      rewrite (sbl_ipq _ _ Hs2). by rewrite insert_id.
  - pose proof (ipq_remove_cons c s2 q y ql Hc2 Hq2 Hr) as Hrm.
    set (s3 := ipq_removed c (nextRem q) s2) in *.
    assert (Hs3 : same_but_queues s s3)
      by (etrans; [by apply sbl_sbq|]; etrans; apply sbq_upd_ipq).
    edestruct (IH y s3 (set_nextRem (next_slot (nextRem q)) (set_slot (nextRem q) NULL q))
      (rq_insert (pri_of s) x l)) as (s' & q' & Hex & Hl' & Hs' & Hi' & Hq' & Ho').
    + eapply sbq_on_cpu; [|exact Hc2]. etrans; apply sbq_upd_ipq.
    + unfold s3. simpl. by rewrite !lookup_alter_eq, Hq2.
    + by eapply ipq_removed_rep.
    + by eapply rdy_rep_ext; [| |exact Hl2].
    + eapply Forall_impl; [exact Hready|]. intros z. by apply ready_for_sbq.
    + rewrite rq_insert_perm, <-Permutation_middle, Permutation_swap. by constructor.
    + exists s', q'. split.
      * eapply exec_loop.
        { unfold drain_body at 1. zb. eapply exec_bind_done; [exact He|].
          eapply exec_bind_done; [exact Hrm|]. apply exec_ret. }
        exact Hex.
      * split_and!; [|by etrans| |done|].
        -- rewrite (rq_insert_all_ext _ (pri_of s)) in Hl'; [done|].
           intros z. by apply sbq_pri.
        -- rewrite Hi'. unfold s3. simpl. apply map_eq. intros i.
           destruct (decide (i = c)) as [->|Hne]; [by rewrite !lookup_insert_eq|].
           rewrite !lookup_insert_ne, !lookup_alter_ne by done. by rewrite (sbl_ipq _ _ Hs2).
        -- intros pun' l2 Hne H2. apply Ho'; [done|].
           eapply rdy_rep_ext; [| |by apply Ho2]; done.
Qed.

(** The state from which [take], [take1] and preemption start: the queue of
    this processor, and its interprocessor queue, hold distinct processes of
    this processor. *)
Record queues (s : sys) (q : IPQueue) (ql l : list addr) : Prop := {
  qs_cpu : on_cpu c s;
  qs_ipq : ipQues s !! c = Some q;
  qs_ipq_rep : ipq_rep q ql;
  qs_rdy : rdy_rep s c l;
  qs_ready : Forall (ready_for s c) ql;
  qs_nodup : NoDup (ql ++ l) }.

(** Draining the interprocessor queue inserts its processes in order. *)
Lemma drain_spec s q ql l :
  queues s q ql l ->
  exists s' q', exec c (drain_ipq enqueue0) s (Done tt s') /\
    drained s s' q' (rq_insert_all (pri_of s) ql l).
Proof.
  intros [Hc Hq Hr Hl Hrd Hnd]. unfold drain_ipq. destruct ql as [|x ql].
  - exists s, q. split; [|split_and!; [done..|by rewrite insert_id|done|done]].
    eapply exec_bind_done; [by eapply ipq_remove_empty|].
    eapply exec_loop; [apply exec_ret|apply exec_ret].
  - set (s1 := ipq_removed c (nextRem q) s).
    assert (Hs1 : same_but_queues s s1) by (etrans; apply sbq_upd_ipq).
    edestruct (drain_loop ql x s1) as (s' & q' & He & Hl' & Hs' & Hi' & Hq' & Ho').
    + by eapply sbq_on_cpu.
    + unfold s1. simpl. by rewrite !lookup_alter_eq, Hq.
    + by eapply ipq_removed_rep.
    + by eapply rdy_rep_ext; [| |exact Hl].
    + eapply Forall_impl; [exact Hrd|]. intros z. by apply ready_for_sbq.
    + done.
    + exists s', q'. split; [eapply exec_bind_done; [by eapply ipq_remove_cons|exact He]|].
      split_and!; [|by etrans| |done|].
      * rewrite (rq_insert_all_ext _ (pri_of s)) in Hl'; [done|]. intros z. by apply sbq_pri.
      * rewrite Hi'. unfold s1. simpl. apply map_eq. intros i.
        destruct (decide (i = c)) as [->|Hne]; [by rewrite !lookup_insert_eq|].
        by rewrite !lookup_insert_ne, !lookup_alter_ne by done.
      * intros pun' l2 Hne H2. apply Ho'; [done|]. by eapply rdy_rep_ext; [| |exact H2].
Qed.

(** Unlinking the first process of a queue. *)
Lemma drained_pop s s' q' x X l :
  drained s s' q' (x :: l) -> procs s' !! x = Some X ->
  drained s (upd_head c (p_next X) s') q' l.
Proof.
  intros (Hl & Hs & Hi & Hq & Ho) HX.
  pose proof (linked_tail _ _ _ _ (rr_linked _ _ _ Hl) HX) as Ht. simpl in Ht.
  pose proof (linked_first _ _ _ Ht) as Hf. rewrite Hf in Ht |- *. clear Hf.
  split_and!; [|by etrans; [exact Hs|apply sbl_sbq, sbl_upd_head]|done|done|].
  - split; simpl; [by rewrite lookup_insert_eq|exact Ht|].
    intros y Hy. apply (rr_pun _ _ _ Hl). set_solver.
  - intros pun' l2 Hne H2. specialize (Ho _ _ Hne H2).
    destruct Ho as [H1 H3 H4]. split; simpl; [by rewrite lookup_insert_ne|done|done].
Qed.

(** [take] returns the first process of the queue after the drain, or null. *)
Lemma take_spec s q ql l :
  queues s q ql l ->
  exists s' q', exec c (take c) s (Done (first (rq_insert_all (pri_of s) ql l)) s') /\
    drained s s' q' (List.tl (rq_insert_all (pri_of s) ql l)).
Proof.
  intros Hq. destruct (drain_spec s q ql l Hq) as (s1 & q' & He & Hd).
  destruct (rq_insert_all (pri_of s) ql l) as [|x L].
  - exists s1, q'. split; [|done]. eapply exec_bind_done; [exact He|].
    eapply exec_fetch; [exact (rr_head _ _ _ (proj1 Hd))|].
    cbn [first]. xstep.
  - destruct (linked_elem _ _ _ x (rr_linked _ _ _ (proj1 Hd))) as (Hx0 & X & HX); [set_solver|].
    exists (upd_head c (p_next X) s1), q'. split; [|by apply drained_pop with x].
    eapply exec_bind_done; [exact He|]. pose proof (rr_head _ _ _ (proj1 Hd)) as Hh.
    cbn [first List.tl] in *. unfold rdy_head, set_rdy_head. xstep.
Qed.

(** [take1] does so only if a second process is in the queue. *)
Lemma take1_spec s q ql l :
  queues s q ql l ->
  exists s' q', exec c (take1 c) s
      (Done (match rq_insert_all (pri_of s) ql l with x :: _ :: _ => x | _ => NULL end) s') /\
    drained s s' q' (match rq_insert_all (pri_of s) ql l with x :: y :: L => y :: L | L => L end).
Proof.
  intros Hq. destruct (drain_spec s q ql l Hq) as (s1 & q' & He & Hd).
  pose proof (rr_head _ _ _ (proj1 Hd)) as Hh. pose proof (rr_linked _ _ _ (proj1 Hd)) as Hl.
  destruct (rq_insert_all (pri_of s) ql l) as [|x [|y L]].
  - exists s1, q'. split; [|done]. eapply exec_bind_done; [exact He|].
    cbn [first List.tl] in *. unfold rdy_head. xstep.
  - exists s1, q'. split; [|done]. eapply exec_bind_done; [exact He|].
    destruct Hl as (_ & Hx0 & X & HX & Hn). change (p_next X = NULL) in Hn.
    cbn [first List.tl] in *. unfold rdy_head. xstep.
  - destruct (id Hl) as (_ & Hx0 & X & HX & Hn & Hy0 & _).
    change (p_next X = y) in Hn.
    exists (upd_head c (p_next X) s1), q'. split; [|by apply drained_pop with x].
    eapply exec_bind_done; [exact He|].
    cbn [first List.tl] in *. unfold rdy_head, set_rdy_head. xstep.
Qed.
End Enqueue.

(** ** Theorems *)

(** C15: [enqueue0] implements stable insertion.  On a sorted queue the process
    goes behind every process that is not of lower priority and in front of
    every process that is; nobody else moves, the queue stays sorted, the
    queues of the other processors are not touched, and nothing but queue heads
    and [next] fields changes. *)
Theorem enqueue0_refines c s p P l :
  procs s !! p = Some P -> p <> NULL -> p ∉ l ->
  rdy_rep s (p_pun P) l -> rq_sorted (pri_of s) l ->
  exists s' l1 l2, exec c (enqueue0 p) s (Done tt s') /\
    l = l1 ++ l2 /\ rdy_rep s' (p_pun P) (l1 ++ p :: l2) /\
    rq_sorted (pri_of s') (l1 ++ p :: l2) /\
    Forall (fun x => pri_le (p_pri P) (pri_of s x) = true) l1 /\
    Forall (fun x => pri_gt (p_pri P) (pri_of s x) = true) l2 /\
    (forall pun' l', pun' <> p_pun P -> rdy_rep s pun' l' -> rdy_rep s' pun' l') /\
    same_but_links s s'.
Proof.
  intros HP Hp0 Hpl Hl Hso.
  destruct (enqueue0_spec c s p P _ l HP eq_refl Hp0 Hpl Hl) as (s' & He & Hl' & Hs & Ho).
  destruct (rq_insert_stable (pri_of s) p l Hso) as (l1 & l2 & E1 & E2 & H1 & H2).
  assert (Hpp : pri_of s p = p_pri P) by (unfold pri_of; by rewrite HP).
  rewrite Hpp in H1, H2. exists s', l1, l2. rewrite <-E2. split_and!; try done.
  eapply rq_sorted_ext; [|by apply rq_insert_sorted].
  intros x. symmetry. by apply sbq_pri, sbl_sbq.
Qed.

(** ** The sample state *)

(** Proves that a concrete list is the queue of a concrete state. *)
Ltac concrete_linked :=
  repeat (split; [by vm_compute|split; [discriminate|eexists; split; [by vm_compute|]]]); by vm_compute.
Ltac concrete_forall :=
  intros ?x ?Hx; repeat (apply elem_of_cons in Hx as [->|Hx]; [by vm_compute|]);
  by apply elem_of_nil in Hx.

Lemma sample_rdy : rdy_rep sample 0 [pB; idle0].
Proof. split; [reflexivity|concrete_linked|concrete_forall]. Qed.

Lemma sample_sorted : rq_sorted (pri_of sample) [pB; idle0].
Proof. repeat constructor. Qed.

(** The sample state with [pH] and [pL] made ready by processor 1. *)
Definition sample_remote : sys := set_ipQues (<[0 := sample_ipq]> (ipQues sample)) sample.

Lemma sample_queues : queues 0 sample_remote sample_ipq [pH; pL] [pB; idle0].
Proof.
  split.
  - by vm_compute.
  - reflexivity.
  - exact sample_ipq_rep.
  - split; [reflexivity|concrete_linked|concrete_forall].
  - repeat constructor; try done; by eexists.
  - concrete_nodup.
Qed.

Lemma enqueue0_refines_witness :
  exists s' l1 l2, exec 0 (enqueue0 pH) sample (Done tt s') /\
    [pB; idle0] = l1 ++ l2 /\ rdy_rep s' 0 (l1 ++ pH :: l2).
Proof.
  destruct (enqueue0_refines 0 sample pH (sample_proc pH NULL 512 0 PROC_WAITING) [pB; idle0]
    eq_refl ltac:(done) ltac:(concrete_nodup) sample_rdy sample_sorted)
    as (s' & l1 & l2 & H1 & H2 & H3 & _).
  exists s', l1, l2. split_and!; assumption.
Defined.
