(* ===== verification/Buckets.v ===== *)
(** * Buckets: the ready queue as one queue per priority

    The ready queue is one linked list kept in order by insertion.  It behaves
    as 4096 first-in first-out queues, one per priority value, of which the
    first that is not empty is served. *)

From S2P Require Import Prelude Prog State Fixture Linked Hardware Exec Priority Ipq.
From S2P Require Import Sched ReadyQueue.

#[local] Open Scope prog_scope.

Section Buckets.
Context (pri : addr -> Z).

(** The processes of each priority value in the order they come, the highest
    priority (the lowest value) first. *)
Definition bucket (l : list addr) (v : Z) : list addr := filter (fun x => pri_value (pri x) = v) l.
Definition buckets (lo : Z) (n : nat) (l : list addr) : list addr :=
  concat (bucket l <$> seqZ lo (Z.of_nat n)).
Definition bucket_sort : list addr -> list addr := buckets 0 4096.

Lemma buckets_S lo n l : buckets lo (S n) l = bucket l lo ++ buckets (lo + 1) n l.
Proof. unfold buckets. rewrite seqZ_cons by lia. simpl. do 3 f_equal. f_equal; lia. Qed.

Lemma buckets_elem lo n l x :
  x ∈ buckets lo n l -> lo <= pri_value (pri x) < lo + Z.of_nat n.
Proof.
  revert lo. induction n as [|n IH]; intros lo; [by intros ?%elem_of_nil|].
  rewrite buckets_S, elem_of_app. intros [Hx|Hx]; [|apply IH in Hx; lia].
  unfold bucket in Hx. apply list_elem_of_filter in Hx. lia.
Qed.

Lemma buckets_other lo n l p :
  ~ (lo <= pri_value (pri p) < lo + Z.of_nat n) -> buckets lo n (l ++ [p]) = buckets lo n l.
Proof.
  revert lo. induction n as [|n IH]; intros lo Hp; [done|].
  rewrite !buckets_S, IH by lia. f_equal. unfold bucket. rewrite filter_app, filter_cons_False by lia.
  by rewrite filter_nil, app_nil_r.
Qed.

(** One more process goes where [rq_insert] puts it. *)
Lemma buckets_snoc lo n l p :
  lo <= pri_value (pri p) < lo + Z.of_nat n ->
  buckets lo n (l ++ [p]) = rq_insert pri p (buckets lo n l).
Proof.
  revert lo. induction n as [|n IH]; intros lo Hp; [lia|]. rewrite !buckets_S.
  assert (Hle : Forall (fun x => pri_le (pri p) (pri x) = true) (bucket l lo)).
  { apply Forall_forall. unfold bucket. intros x [Hx _]%list_elem_of_filter.
    unfold pri_le. fold (pri_value (pri p)) (pri_value (pri x)). lia. }
  destruct (decide (pri_value (pri p) = lo)) as [Hv|Hv].
  - rewrite buckets_other by lia. rewrite rq_insert_between; [|done|].
    + unfold bucket. rewrite filter_app, filter_cons_True by done. by rewrite filter_nil, <-app_assoc.
    + apply Forall_forall. intros x Hx%buckets_elem. unfold pri_le.
      fold (pri_value (pri p)) (pri_value (pri x)). lia.
  - rewrite IH by lia. unfold bucket at 1. rewrite filter_app, filter_cons_False by done.
    rewrite filter_nil, app_nil_r. symmetry. by apply rq_insert_app.
Qed.

Lemma bucket_sort_snoc l p : bucket_sort (l ++ [p]) = rq_insert pri p (bucket_sort l).
Proof.
  apply buckets_snoc. unfold pri_value, PRI_VAL_MASK.
  change 0x0fff with (Z.ones 12). rewrite Z.land_ones by lia. apply Z.mod_pos_bound. lia.
Qed.

(** A sorted queue is its own sorting. *)
Lemma bucket_sort_sorted l : rq_sorted pri l -> bucket_sort l = l.
Proof.
  induction l as [|p l IH] using rev_ind; intros Hs; [done|].
  pose proof (StronglySorted_app_1_l _ _ _ Hs) as Hl. rewrite bucket_sort_snoc, IH by done.
  rewrite <-(app_nil_r l) at 1. apply rq_insert_app. apply Forall_forall. intros x Hx.
  apply (StronglySorted_app_1_elem_of _ _ _ x p Hs Hx). set_solver.
Qed.

Lemma bucket_sort_insert_all ps l :
  rq_sorted pri l -> rq_insert_all pri ps l = bucket_sort (l ++ ps).
Proof.
  intros Hs. induction ps as [|p ps IH] using rev_ind.
  - rewrite app_nil_r. symmetry. by apply bucket_sort_sorted.
  - by rewrite rq_insert_all_snoc, IH, app_assoc, bucket_sort_snoc.
Qed.
End Buckets.

(** C27: [take] serves one first-in first-out queue per priority.  The processes
    of the ready queue, followed by those other processors have made ready in the
    order they did, sorted by the 4096 priority values and in the order they came
    within each: the first of them is returned (null if there is none) and the
    rest, in that order, is the ready queue; the interprocessor queue is left
    empty and the queues of the other processors are not touched. *)
Theorem take_highest c s q ql l :
  queues c s q ql l -> rq_sorted (pri_of s) l ->
  exists s' q', let L := bucket_sort (pri_of s) (l ++ ql) in
    exec c (take c) s (Done (first L) s') /\ L ≡ₚ l ++ ql /\ rdy_rep s' c (List.tl L) /\
    ipQues s' !! c = Some q' /\ ipq_rep q' [] /\
    (forall pun' l', pun' <> c -> rdy_rep s pun' l' -> rdy_rep s' pun' l') /\
    same_but_queues s s'.
Proof.
  intros Hq Hso. destruct (take_spec c s q ql l Hq) as (s' & q' & He & Hl & Hs & Hi & Hr & Ho).
  exists s', q'. cbv zeta. rewrite <-(bucket_sort_insert_all (pri_of s) ql l Hso).
  split_and!; [done|by rewrite rq_insert_all_perm, (comm app)|done| |done..].
  rewrite Hi. by rewrite lookup_insert_eq.
Qed.

Lemma take_highest_witness :
  bucket_sort (pri_of sample_remote) [pB; idle0; pH; pL] = [pH; pB; pL; idle0] /\
  exists s', exec 0 (take 0) sample_remote (Done pH s') /\ rdy_rep s' 0 [pB; pL; idle0].
Proof.
  assert (E : bucket_sort (pri_of sample_remote) [pB; idle0; pH; pL] = [pH; pB; pL; idle0])
    by (vm_compute; reflexivity).
  split; [exact E|].
  destruct (take_highest 0 sample_remote sample_ipq [pH; pL] [pB; idle0]
    sample_queues sample_sorted) as (s' & q' & H1 & _ & H2 & _).
  cbn [app] in H1, H2. rewrite E in H1, H2. exists s'. split; [exact H1|exact H2].
Defined.
