(* ===== verification/Dispatch.v ===== *)
(** * Dispatch: who gets the processor

    The behaviour of the scheduling operations of [Sched] on every branch, over
    the ready queues of [ReadyQueue]: when a process made ready preempts, whom
    a process that waits or yields gives the processor to, and what its
    suspended computation does when it is resumed. *)

From S2P Require Import Prelude Prog State Fixture Linked Hardware Exec Priority Ipq.
From S2P Require Import Sched ReadyQueue.

#[local] Open Scope prog_scope.

(** ** States *)

(** [set_current] and the saving of a context. *)
Definition made_current (c : Z) (p : addr) (pri : Z) (s : sys) : sys :=
  set_current_pri (<[c := pri]> (current_pri s)) (State.set_current (<[c := p]> (current s)) s).
Definition suspended (a : addr) (s : sys) : sys :=
  set_hw (set_uctxs (<[a := Suspended]> (uctxs (hw s))) (hw s)) s.

(** Processor [c] runs [cur]; [l] is its ready queue and [ql] what other
    processors have made ready for it. *)
Record cpu_state (c : Z) (s : sys) (cur : addr) (C : Process) (q : IPQueue)
    (ql l : list addr) : Prop := {
  cs_queues : queues c s q ql l;
  cs_current : current s !! c = Some cur;
  cs_proc : procs s !! cur = Some C;
  cs_pun : p_pun C = c;
  cs_nonnull : cur <> NULL;
  cs_fresh : cur ∉ ql ++ l }.

Section Rules.
Context (c : Z) {B : Type}.
Implicit Types (s : sys) (o : outcome sys B).

Lemma exec_get_current (g : addr -> cprog B) s cur o :
  on_cpu c s -> current s !! c = Some cur -> exec c (g cur) s o ->
  exec c (bind get_current g) s o.
Proof. intros Hc Hcur Hg. unfold get_current. xstep1. by do 2 xstep1. Qed.

Lemma exec_set_current p P (g : unit -> cprog B) s o :
  on_cpu c s -> procs s !! p = Some P -> p_pun P = c ->
  exec c (g tt) (made_current c p (p_pri P) s) o -> exec c (bind (set_current p) g) s o.
Proof.
  intros Hc HP Hpun Hg. unfold set_current. xstep1. xstep1. xstep1. xstep1. xstep1.
  rewrite Hpun. zb. xstep1. xstep1. xstep1. xstep1. xstep1. xstep1. done.
Qed.

Lemma exec_switch_context a A b B0 (g : unit -> cprog B) s :
  procs s !! a = Some A -> procs s !! b = Some B0 ->
  exec c (bind (switch_context a b) g) s
    (Switched (p_stackptr A) (p_stackptr B0) (g tt) (suspended (p_stackptr A) s)).
Proof.
  intros HA HB. unfold switch_context.
  xstep1. xstep1. xstep1. xstep1. xstep1. xstep1. apply exec_switch.
Qed.
End Rules.

(** The updates of this file keep the queues. *)
Lemma rdy_rep_made_current c p pri s pun l :
  rdy_rep s pun l -> rdy_rep (made_current c p pri s) pun l.
Proof. by apply rdy_rep_ext. Qed.
Lemma rdy_rep_suspended a s pun l : rdy_rep s pun l -> rdy_rep (suspended a s) pun l.
Proof. by apply rdy_rep_ext. Qed.
Lemma rdy_rep_masked c m s pun l : rdy_rep s pun l -> rdy_rep (masked c m s) pun l.
Proof. by apply rdy_rep_ext. Qed.
#[export] Hint Resolve rdy_rep_made_current rdy_rep_suspended rdy_rep_masked : cxp.

Lemma on_cpu_made_current c d p pri s : on_cpu c s -> on_cpu c (made_current d p pri s).
Proof. done. Qed.
#[export] Hint Resolve on_cpu_made_current : cxp.

Lemma pri_of_lookup s x X : procs s !! x = Some X -> pri_of s x = p_pri X.
Proof. unfold pri_of. by intros ->. Qed.

(** Updates of the fields the queues do not look at. *)
Definition quiet (f : Process -> Process) : Prop :=
  forall P, p_next (f P) = p_next P /\ p_pri (f P) = p_pri P /\ p_pun (f P) = p_pun P /\
    p_stackptr (f P) = p_stackptr P /\ p_index (f P) = p_index P.

Lemma quiet_sched_state v : quiet (set_sched_state v).
Proof. done. Qed.
Lemma quiet_alt_state v : quiet (set_alt_state v).
Proof. done. Qed.
#[export] Hint Resolve quiet_sched_state quiet_alt_state : cxp.

Section Quiet.
Context (f : Process -> Process) (Hf : quiet f) (p : addr).

Lemma pun_of_quiet s x : pun_of (upd_proc p f s) x = pun_of s x.
Proof.
  unfold pun_of. simpl. rewrite lookup_alter. case_decide as He; [subst|done].
  destruct (procs s !! x); [|done]. simpl. apply Hf.
Qed.

Lemma pri_of_quiet s x : pri_of (upd_proc p f s) x = pri_of s x.
Proof.
  unfold pri_of. simpl. rewrite lookup_alter. case_decide as He; [subst|done].
  destruct (procs s !! x); [|done]. simpl. apply Hf.
Qed.

Lemma rdy_rep_quiet s pun l : rdy_rep s pun l -> rdy_rep (upd_proc p f s) pun l.
Proof.
  intros [H1 H2 H3]. split; [done| |intros x Hx; rewrite pun_of_quiet; auto].
  eapply linked_agree; [|exact H2]. intros x Hx. simpl. rewrite lookup_alter.
  case_decide as He; [subst|done]. destruct (procs s !! x); [|done]. simpl. f_equal. apply Hf.
Qed.

Lemma queues_quiet c s q ql l : queues c s q ql l -> queues c (upd_proc p f s) q ql l.
Proof.
  intros [H1 H2 H3 H4 H5 H6].
  split; [exact H1|exact H2|exact H3|by apply rdy_rep_quiet| |exact H6].
  eapply Forall_impl; [exact H5|]. intros x (Hx0 & Hxp & X & HX).
  split_and!; [done|by rewrite pun_of_quiet|]. simpl. rewrite lookup_alter.
  case_decide; subst; rewrite HX; by eexists.
Qed.
End Quiet.

Lemma queues_masked c d m s q ql l : queues c s q ql l -> queues c (masked d m s) q ql l.
Proof. intros [H1 H2 H3 H4 H5 H6]. split; [done|done|done|by apply rdy_rep_masked|exact H5|done]. Qed.
#[export] Hint Resolve queues_quiet queues_masked : cxp.

Lemma queues_elem c s q ql l x :
  queues c s q ql l -> x ∈ ql ++ l -> exists X, procs s !! x = Some X /\ p_pun X = c /\ x <> NULL.
Proof.
  intros [_ _ _ Hl Hr _] [Hx|Hx]%elem_of_app.
  - rewrite Forall_forall in Hr. destruct (Hr x Hx) as (H0 & Hp & X & HX).
    exists X. unfold pun_of in Hp. by rewrite HX in Hp.
  - destruct (linked_elem _ _ _ x (rr_linked _ _ _ Hl) Hx) as (H0 & X & HX).
    pose proof (rr_pun _ _ _ Hl x Hx) as Hp. exists X. unfold pun_of in Hp. by rewrite HX in Hp.
Qed.

(** ** Frames and the scheduler invariant

    [same_procs]: the records have kept their priority, processor, stack and
    size. *)
Definition stack_of (s : sys) (x : addr) : option (addr * Z) :=
  (fun P => (p_stackptr P, p_index P)) <$> procs s !! x.
Record same_procs (s s' : sys) : Prop := {
  sp_pri : forall x, pri_of s' x = pri_of s x;
  sp_pun : forall x, pun_of s' x = pun_of s x;
  sp_stack : forall x, stack_of s' x = stack_of s x;
  sp_dom : forall x, is_Some (procs s !! x) -> is_Some (procs s' !! x) }.

#[export] Instance same_procs_preorder : PreOrder same_procs.
Proof.
  split; [done|]. intros s1 s2 s3 [H1 H2 H2' H3] [H4 H5 H5' H6].
  split; intros x; [by rewrite H4|by rewrite H5|by rewrite H5'|auto].
Qed.

Lemma same_procs_none s s' x : same_procs s s' -> procs s !! x = None -> procs s' !! x = None.
Proof.
  intros Hs Hx. pose proof (sp_stack _ _ Hs x) as H. unfold stack_of in H. rewrite Hx in H.
  by destruct (procs s' !! x).
Qed.

Lemma sbq_same_procs s s' : same_but_queues s s' -> same_procs s s'.
Proof.
  intros Hs. split; intros x; [by apply sbq_pri|by apply sbq_pun| |].
  - unfold stack_of. destruct (procs s !! x) as [X|] eqn:HX.
    + by destruct (sbq_lookup _ _ Hs x X HX) as [n ->].
    + pose proof (sbq_procs _ _ Hs x) as Hx. rewrite HX in Hx. by destruct (procs s' !! x).
  - intros [X HX]. destruct (sbq_lookup _ _ Hs x X HX) as [n Hn]. by eexists.
Qed.

Lemma same_procs_quiet f p s : quiet f -> same_procs s (upd_proc p f s).
Proof.
  intros Hf. split; intros x; [by apply pri_of_quiet|by apply pun_of_quiet| |].
  - unfold stack_of. simpl. rewrite lookup_alter. case_decide; subst; [|done].
    destruct (procs s !! _) as [P|]; [|done]. simpl. by destruct (Hf P) as (_ & _ & _ & -> & ->).
  - intros [X HX]. simpl. rewrite lookup_alter. case_decide; subst; rewrite HX; by eexists.
Qed.

(** Updates of other parts of the state. *)
Lemma same_procs_ext s s' : procs s' = procs s -> same_procs s s'.
Proof. intros H. split; intros x; unfold pri_of, pun_of, stack_of; by rewrite H. Qed.
#[export] Hint Resolve sbq_same_procs same_procs_quiet : cxp.

Lemma same_fields s s' x X X' :
  same_procs s s' -> procs s !! x = Some X -> procs s' !! x = Some X' ->
  p_pri X' = p_pri X /\ p_pun X' = p_pun X /\ p_stackptr X' = p_stackptr X.
Proof.
  intros [H1 H2 H3 _] HX HX'. specialize (H1 x). specialize (H2 x). specialize (H3 x).
  unfold pri_of, pun_of, stack_of in *. rewrite HX, HX' in *. simpl in *. by simplify_eq.
Qed.

(** The scheduling and alternation states of a process. *)
Definition sts (s : sys) (x : addr) : option (Z * Z) :=
  (fun P => (p_sched_state P, p_alt_state P)) <$> procs s !! x.

Lemma sbq_sts s s' x : same_but_queues s s' -> sts s' x = sts s x.
Proof.
  intros Hs. unfold sts. destruct (procs s !! x) as [P|] eqn:HP.
  - destruct (sbq_lookup _ _ Hs x P HP) as [n ->]. done.
  - pose proof (sbq_procs _ _ Hs x) as Hx. rewrite HP in Hx. by destruct (procs s' !! x).
Qed.

Lemma sts_lookup s x P : procs s !! x = Some P -> sts s x = Some (p_sched_state P, p_alt_state P).
Proof. unfold sts. by intros ->. Qed.

(** A scheduling step: besides, only the scheduler's own variables, the process
    records, the signal masks of the threads and the saved contexts change, and
    a suspended context stays suspended. *)
Definition hw_kept (h : hardware) : hardware := set_thread_mask ∅ (set_uctxs ∅ h).
Definition frame_of (s s' : sys) : sys :=
  set_hw (hw s') (set_procs (procs s') (State.set_current (current s')
    (set_current_pri (current_pri s') (set_rdyQues (rdyQues s') (set_ipQues (ipQues s') s))))).
Record sched_step (s s' : sys) : Prop := {
  ss_same :> same_procs s s';
  ss_hw : hw_kept (hw s') = hw_kept (hw s);
  ss_ctxs : forall a, uctxs (hw s) !! a = Some Suspended -> uctxs (hw s') !! a = Some Suspended;
  ss_rest : s' = frame_of s s' }.

#[export] Instance sched_step_preorder : PreOrder sched_step.
Proof.
  split; [intros s; split; [done..|by destruct s]|]. intros s1 s2 s3 [H1 H1' Hx H2] [H3 H3' Hy H4].
  split; [by etrans|by rewrite H3'|auto|]. rewrite H4, H2. reflexivity.
Qed.

Lemma sbq_sched_step s s' : same_but_queues s s' -> sched_step s s'.
Proof.
  intros Hs. split; [by apply sbq_same_procs|by rewrite (sbq_hw _ _ Hs)..|].
  rewrite (sbq_rest _ _ Hs). reflexivity.
Qed.

Lemma sched_step_quiet f p s : quiet f -> sched_step s (upd_proc p f s).
Proof. intros Hf. split; [by apply same_procs_quiet|done..|]. by destruct s. Qed.

Lemma sched_step_ext s s' :
  procs s' = procs s -> hw_kept (hw s') = hw_kept (hw s) -> uctxs (hw s') = uctxs (hw s) ->
  s' = frame_of s s' -> sched_step s s'.
Proof. intros ? ? Hu ?. split; [by apply same_procs_ext|done|by rewrite Hu|done]. Qed.

Lemma sched_step_suspended a s : sched_step s (suspended a s).
Proof.
  split; [by apply same_procs_ext|done| |by destruct s]. intros b Hb. simpl.
  rewrite lookup_insert. by case_decide.
Qed.

(** The state of a processor after an operation, from what the operation did to
    the queues. *)
Lemma cpu_state_step c s s' cur C q ql l cur' C' q' ql' l' :
  cpu_state c s cur C q ql l -> same_procs s s' -> on_cpu c s' ->
  ipQues s' !! c = Some q' -> ipq_rep q' ql' -> rdy_rep s' c l' ->
  current s' !! c = Some cur' -> procs s' !! cur' = Some C' -> p_pun C' = c -> cur' <> NULL ->
  ql' ⊆ ql -> NoDup (cur' :: ql' ++ l') -> cpu_state c s' cur' C' q' ql' l'.
Proof.
  intros [Hq _ _ _ _ _] Hs Hc Hq' Hr' Hl' Hcur' HC' HCp' Hn' Hsub [Hnd1 Hnd2]%NoDup_cons.
  split; [|done..]. split; try done.
  apply Forall_forall. intros x Hx. apply Hsub in Hx.
  pose proof (qs_ready _ _ _ _ _ Hq) as Hf. rewrite Forall_forall in Hf.
  destruct (Hf x Hx) as (H0 & Hp & HX). split_and!; [done|by rewrite (sp_pun _ _ Hs)|].
  by apply (sp_dom _ _ Hs).
Qed.

(** Processor [c] runs [cur], its ready queue [l] is sorted, and no process of
    the queue has a higher priority than [cur]; [ql] are the processes other
    processors have made ready for it and not yet announced. *)
Record sched_ok (c : Z) (s : sys) (cur : addr) (ql l : list addr) : Prop := {
  so_cpu : exists C q, cpu_state c s cur C q ql l;
  so_sorted : rq_sorted (pri_of s) l;
  so_top : Forall (fun x => pri_le (pri_of s x) (pri_of s cur) = true) l }.

(** A sorted queue's first process is above all of it. *)
Lemma rq_sorted_top (f : addr -> Z) x l : rq_sorted f (x :: l) -> Forall (fun y => pri_le (f y) (f x) = true) l.
Proof. intros Hs. by apply StronglySorted_inv in Hs as [_ ?]. Qed.

(** Being above an insertion. *)
Lemma top_insert (f : addr -> Z) p x l :
  pri_le (f p) (f x) = true -> Forall (fun y => pri_le (f y) (f x) = true) l ->
  Forall (fun y => pri_le (f y) (f x) = true) (rq_insert f p l).
Proof. intros Hp Hl. rewrite rq_insert_perm. by constructor. Qed.

Lemma top_mono (f : addr -> Z) x y l :
  pri_le (f x) (f y) = true -> Forall (fun z => pri_le (f z) (f x) = true) l ->
  Forall (fun z => pri_le (f z) (f y) = true) l.
Proof. intros Hxy Hl. eapply Forall_impl; [exact Hl|]. intros z Hz. exact (pri_le_trans _ _ _ Hz Hxy). Qed.

Lemma top_ext (f g : addr -> Z) x l :
  (forall z, f z = g z) -> Forall (fun z => pri_le (f z) (f x) = true) l ->
  Forall (fun z => pri_le (g z) (g x) = true) l.
Proof. intros Hfg Hl. eapply Forall_impl; [exact Hl|]. intros z. by rewrite !Hfg. Qed.

(** What an operation of processor [c] leaves alone: the ready queues, the
    current processes and the signal masks of the other processors. *)
Record elsewhere (c : Z) (s s' : sys) : Prop := {
  el_rdy : forall d l, d <> c -> rdy_rep s d l -> rdy_rep s' d l;
  el_current : forall d, d <> c -> current s' !! d = current s !! d;
  el_mask : forall d, d <> c -> thread_mask (hw s') !! d = thread_mask (hw s) !! d }.

#[export] Instance elsewhere_preorder c : PreOrder (elsewhere c).
Proof.
  split; [done|]. intros s1 s2 s3 [H1 H2 H3] [H4 H5 H6].
  split; [auto|..]; intros d Hd; [by rewrite H5, H2|by rewrite H6, H3].
Qed.

Lemma elsewhere_ext c s s' :
  procs s' = procs s -> rdyQues s' = rdyQues s -> (forall d, d <> c -> current s' !! d = current s !! d) ->
  (forall d, d <> c -> thread_mask (hw s') !! d = thread_mask (hw s) !! d) -> elsewhere c s s'.
Proof. intros E1 E2 E3 E4. split; [|exact E3|exact E4]. intros d l _. by apply rdy_rep_ext. Qed.

(** Records that appear, or are of processor [c], do not matter. *)
Lemma elsewhere_agree c s s' :
  rdyQues s' = rdyQues s -> (forall d, d <> c -> current s' !! d = current s !! d) ->
  (forall d, d <> c -> thread_mask (hw s') !! d = thread_mask (hw s) !! d) ->
  (forall x X, procs s !! x = Some X -> p_pun X <> c -> procs s' !! x = Some X) -> elsewhere c s s'.
Proof.
  intros E1 E2 E3 Hp. split; [|exact E2|exact E3]. intros d l Hd Hr. pose proof Hr as [H1 H2 H3].
  assert (Hx : forall x, x ∈ l -> procs s' !! x = procs s !! x).
  { intros x Hx. destruct (linked_elem _ _ _ x H2 Hx) as (_ & X & HX). rewrite HX. apply Hp; [done|].
    specialize (H3 x Hx). unfold pun_of in H3. rewrite HX in H3. simpl in H3. congruence. }
  split; [by rewrite E1| |].
  - eapply linked_agree; [|exact H2]. intros x Hin. by rewrite Hx.
  - intros x Hin. unfold pun_of. rewrite Hx by done. by apply H3.
Qed.

Lemma elsewhere_quiet c f p s : quiet f -> elsewhere c s (upd_proc p f s).
Proof. intros Hf. split; [|done..]. intros d l _. by apply rdy_rep_quiet. Qed.

Lemma elsewhere_drained c s s' q' l : drained c s s' q' l -> elsewhere c s s'.
Proof.
  intros (_ & Hs & _ & _ & Ho). split; [intros d l' Hd; by apply Ho|..]; intros d _;
    [by rewrite (sbq_current _ _ Hs)|by rewrite (sbq_hw _ _ Hs)].
Qed.

Lemma elsewhere_made_current c p pri s : elsewhere c s (made_current c p pri s).
Proof. apply elsewhere_ext; [done..| |done]. intros d Hd. simpl. by rewrite lookup_insert_ne. Qed.

Lemma elsewhere_suspended c a s : elsewhere c s (suspended a s).
Proof. by apply elsewhere_ext. Qed.

Lemma elsewhere_masked c m s : elsewhere c s (masked c m s).
Proof. apply elsewhere_ext; [done..|]. intros d Hd. simpl. by rewrite lookup_insert_ne. Qed.

Lemma elsewhere_enqueued c s s' :
  same_but_links s s' -> (forall d l, d <> c -> rdy_rep s d l -> rdy_rep s' d l) -> elsewhere c s s'.
Proof.
  intros Hs Ho. apply sbl_sbq in Hs. split; [exact Ho|..]; intros d _;
    [by rewrite (sbq_current _ _ Hs)|by rewrite (sbq_hw _ _ Hs)].
Qed.
#[export] Hint Resolve elsewhere_quiet elsewhere_made_current elsewhere_suspended elsewhere_masked : cxp.

(** ** Making a process ready on its own processor *)

Section Dispatch.
Context (c : Z).

Lemma schedule0_enqueue s cur C q ql l p P :
  cpu_state c s cur C q ql l -> procs s !! p = Some P -> p_pun P = c ->
  p <> NULL -> p ∉ cur :: ql ++ l -> pri_le (p_pri P) (p_pri C) = true ->
  exists s' C', exec c (schedule0 p) s (Done tt s') /\ same_but_links s s' /\ elsewhere c s s' /\
    cpu_state c s' cur C' q ql (rq_insert (pri_of s) p l).
Proof.
  intros Hcs HP Hpun Hp0 Hpl Hpri. destruct (id Hcs) as [Hq Hcur HC HCp H0 Hfr].
  destruct (enqueue0_spec c s p P c l HP Hpun Hp0 ltac:(set_solver) (qs_rdy _ _ _ _ _ Hq))
    as (s' & He & Hl & Hs & Ho).
  destruct (sbq_lookup _ _ (sbl_sbq _ _ Hs) cur C HC) as [n Hn].
  exists s', (set_next n C). split_and!; [|done|by apply elsewhere_enqueued|].
  - unfold schedule0. apply exec_getcpu; [apply Hq|]. xstep1. rewrite Hpun. zb.
    eapply exec_get_current; [apply Hq|done|]. xstep1. xstep1. by rewrite Hpri.
  - eapply cpu_state_step; [exact Hcs|by apply sbq_sched_step, sbl_sbq| | | |exact Hl| |exact Hn|done..| |].
    + eapply sbq_on_cpu; [by apply sbl_sbq|apply Hq].
    + rewrite (sbl_ipq _ _ Hs). apply Hq.
    + apply Hq.
    + by rewrite (sbq_current _ _ (sbl_sbq _ _ Hs)).
    + reflexivity.
    + rewrite rq_insert_perm. rewrite <-Permutation_middle.
      pose proof (qs_nodup _ _ _ _ _ Hq). rewrite !NoDup_cons. set_solver.
Qed.

Lemma schedule0_preempt s cur C q ql l p P :
  cpu_state c s cur C q ql l -> procs s !! p = Some P -> p_pun P = c ->
  p <> NULL -> p ∉ cur :: ql ++ l -> pri_gt (p_pri P) (p_pri C) = true ->
  exists s' P', exec c (schedule0 p) s (Switched (p_stackptr C) (p_stackptr P) (Ret tt) s') /\
    sched_step s s' /\ (forall x, sts s' x = sts s x) /\ cpu_state c s' p P' q ql (rq_insert (pri_of s) cur l) /\
    uctxs (hw s') = <[p_stackptr C := Suspended]> (uctxs (hw s)) /\
    ipQues s' = ipQues s /\ elsewhere c s s'.
Proof.
  intros Hcs HP Hpun Hp0 Hpl Hpri. destruct (id Hcs) as [Hq Hcur HC HCp Hcur0 Hfr].
  assert (Hle : pri_le (p_pri P) (p_pri C) = false) by by rewrite pri_le_gt, Hpri.
  destruct (enqueue0_spec c (made_current c p (p_pri P) s) cur C c l) as (s' & He & Hl & Hs & Ho);
    [done|done|done|set_solver|apply rdy_rep_made_current, Hq|].
  destruct (sbq_lookup _ _ (sbl_sbq _ _ Hs) p P HP) as [n Hn].
  destruct (sbq_lookup _ _ (sbl_sbq _ _ Hs) cur C HC) as [n' Hn'].
  assert (Hsp : sched_step s (suspended (p_stackptr C) s')) by (etrans; [|etrans; [exact (sbq_sched_step _ _ (sbl_sbq _ _ Hs))|apply sched_step_suspended]];
      by apply sched_step_ext).
  exists (suspended (p_stackptr C) s'), (set_next n P).
  split_and!; [|exact Hsp|intros x; apply (sbq_sts _ _ x (sbl_sbq _ _ Hs))| | |exact (sbl_ipq _ _ Hs)|].
  - unfold schedule0. apply exec_getcpu; [apply Hq|]. xstep1. rewrite Hpun. zb.
    eapply exec_get_current; [apply Hq|done|]. xstep1. xstep1. rewrite Hle.
    eapply exec_set_current; [apply Hq|done|done|].
    eapply exec_bind_done; [exact He|].
    rewrite <-(bind_ret_r (switch_context cur p)).
    exact (exec_switch_context c _ _ _ _ Ret s' Hn' Hn).
  - eapply cpu_state_step; [exact Hcs|exact Hsp| | |apply Hq|apply rdy_rep_suspended; exact Hl| |
      exact Hn|done..| |].
    + eapply (sbq_on_cpu _ _ (sbl_sbq _ _ Hs)). apply Hq.
    + simpl. rewrite (sbl_ipq _ _ Hs). apply Hq.
    + simpl. rewrite (sbq_current _ _ (sbl_sbq _ _ Hs)). simpl. by rewrite lookup_insert_eq.
    + reflexivity.
    + rewrite rq_insert_perm. rewrite <-Permutation_middle.
      pose proof (qs_nodup _ _ _ _ _ Hq). rewrite !NoDup_cons. set_solver.
  - simpl. by rewrite (sbq_hw _ _ (sbl_sbq _ _ Hs)).
  - etrans; [apply (elsewhere_made_current c p (p_pri P))|]. etrans; [by apply elsewhere_enqueued|apply elsewhere_suspended].
Qed.

(** Either way the invariant is preserved. *)
Lemma sched_ok_enqueue s s' cur ql l p C' q :
  sched_ok c s cur ql l -> sched_step s s' ->
  cpu_state c s' cur C' q ql (rq_insert (pri_of s) p l) ->
  pri_le (pri_of s p) (pri_of s cur) = true ->
  sched_ok c s' cur ql (rq_insert (pri_of s) p l).
Proof.
  intros [_ Hso Htop] Hs Hcs Hp. split; [by eauto| |].
  - eapply rq_sorted_ext; [|by apply rq_insert_sorted]. intros x. symmetry. apply Hs.
  - eapply top_ext; [|by apply top_insert]. intros x. symmetry. apply Hs.
Qed.

Lemma sched_ok_preempt s s' cur ql l p P' q :
  sched_ok c s cur ql l -> sched_step s s' ->
  cpu_state c s' p P' q ql (rq_insert (pri_of s) cur l) ->
  pri_gt (pri_of s p) (pri_of s cur) = true ->
  sched_ok c s' p ql (rq_insert (pri_of s) cur l).
Proof.
  intros [_ Hso Htop] Hs Hcs Hp%pri_gt_le. split; [by eauto| |].
  - eapply rq_sorted_ext; [|by apply rq_insert_sorted]. intros x. symmetry. apply Hs.
  - eapply (top_ext (pri_of s)); [intros x; symmetry; apply Hs|].
    apply top_insert; [done|]. by eapply top_mono.
Qed.

(** A process of another processor goes to that processor's queue, with an
    interrupt. *)
Lemma schedule0_remote s p P q l t g pl :
  on_cpu c s -> procs s !! p = Some P -> p_pun P <> c ->
  ipQues s !! p_pun P = Some q -> ipq_rep q l -> Z.of_nat (length l) < QSIZE - 1 ->
  ipi_target s (p_pun P) t g pl ->
  exec c (schedule0 p) s
    (Done tt (signalled t g pl (ipq_added (p_pun P) (nextAdd q) p s))).
Proof.
  intros Hc HP Hpun Hq Hr Hlen Ht. unfold schedule0.
  apply exec_getcpu; [done|]. xstep1. zb. by eapply ipq_add_nonfull.
Qed.

(** ** Giving up the processor *)

(** A process found ready in the meantime goes on: the wake-up that came
    between [PREPARE_TO_WAIT] and [relinquish] is not lost. *)
Lemma relinquish_ready s cur C :
  on_cpu c s -> current s !! c = Some cur -> procs s !! cur = Some C ->
  p_sched_state C <> PROC_PREPARING_TO_WAIT ->
  exec c relinquish s (Done tt s).
Proof.
  intros Hc Hcur HC Hst. unfold relinquish.
  eapply exec_get_current; [done..|]. xstep1.
  eapply exec_cas_sched_fail; [done..|]. apply exec_ret.
Qed.

(** The first process of the queue after the drain, when there is one. *)
Lemma next_proc s cur C q ql l n L :
  cpu_state c s cur C q ql l -> rq_insert_all (pri_of s) ql l = n :: L ->
  exists N, procs s !! n = Some N /\ p_pun N = c /\ n <> NULL /\ NoDup (n :: cur :: L).
Proof.
  intros [Hq _ _ _ _ Hfr] HL.
  pose proof (rq_insert_all_perm (pri_of s) ql l) as Hp. rewrite HL in Hp.
  destruct (queues_elem _ _ _ _ _ n Hq) as (N & ? & ? & ?); [rewrite <-Hp; by left|].
  exists N. split_and!; [done..|].
  pose proof (qs_nodup _ _ _ _ _ Hq) as Hnd. rewrite <-Hp in Hnd, Hfr.
  rewrite !NoDup_cons in *. set_solver.
Qed.

Lemma cpu_state_dispatched s s' cur C q ql l q' n N' L L' :
  cpu_state c s cur C q ql l -> rq_insert_all (pri_of s) ql l = n :: L ->
  sched_step s s' -> on_cpu c s' -> ipQues s' !! c = Some q' -> ipq_rep q' [] ->
  rdy_rep s' c L' -> current s' !! c = Some n -> procs s' !! n = Some N' -> p_pun N' = c ->
  L' ≡ₚ L \/ L' ≡ₚ cur :: L ->
  cpu_state c s' n N' q' [] L'.
Proof.
  intros Hcs HL Hs Hc Hq' Hr' Hl' Hcur' HN' HNp HLL.
  destruct (next_proc _ _ _ _ _ _ _ _ Hcs HL) as (N & _ & _ & Hn0 & Hnd).
  eapply cpu_state_step; [exact Hcs|exact Hs|done..| |].
  - apply list_subseteq_nil.
  - rewrite !NoDup_cons in Hnd. destruct HLL as [->| ->]; simpl; rewrite !NoDup_cons; set_solver.
Qed.

(** [take], then [set_current] and [switch_context]. *)
Lemma take_switch s q ql l cur C n L (g : unit -> cprog unit) :
  cpu_state c s cur C q ql l -> rq_insert_all (pri_of s) ql l = n :: L ->
  exists s' q' N N', exec c (newproc <- take c;; set_current newproc;;
                       bind (switch_context cur newproc) g) s
      (Switched (p_stackptr C) (p_stackptr N) (g tt) s') /\
    procs s !! n = Some N /\ sched_step s s' /\ cpu_state c s' n N' q' [] L /\
    uctxs (hw s') = <[p_stackptr C := Suspended]> (uctxs (hw s)) /\ (forall x, sts s' x = sts s x) /\
    ipQues s' = <[c := q']> (ipQues s) /\ elsewhere c s s'.
Proof.
  intros Hcs HL. destruct (id Hcs) as [Hq Hcur HC HCp Hcur0 Hfr].
  destruct (next_proc _ _ _ _ _ _ _ _ Hcs HL) as (N & HN & HNp & _).
  destruct (take_spec c s q ql l Hq) as (s1 & q' & Ht & Hd). rewrite HL in Ht, Hd.
  apply elsewhere_drained in Hd as Hel. destruct Hd as (Hl1 & Hs1 & Hi1 & Hr1 & _).
  destruct (sbq_lookup _ _ Hs1 n N HN) as [v Hn].
  destruct (sbq_lookup _ _ Hs1 cur C HC) as [v' Hcur1].
  assert (Hc1 : on_cpu c s1) by (eapply sbq_on_cpu; [exact Hs1|apply Hq]).
  set (s2 := suspended (p_stackptr C) (made_current c n (p_pri N) s1)).
  assert (Hs2 : sched_step s s2)
    by (etrans; [by apply sbq_sched_step|etrans; [|apply sched_step_suspended]; by apply sched_step_ext]).
  exists s2, q', N, (set_next v N). split_and!; [|done|done| | | |exact Hi1|].
  5: { etrans; [exact Hel|]. etrans; [apply elsewhere_made_current|apply elsewhere_suspended]. }
  - eapply exec_bind_done; [exact Ht|].
    eapply exec_set_current; [exact Hc1|exact Hn|done|].
    exact (exec_switch_context c _ _ _ _ g (made_current c n (p_pri N) s1) Hcur1 Hn).
  - eapply (cpu_state_dispatched s s2 cur C q ql l q' n _ L); [done..| | |exact Hr1| | |exact Hn|done|by left].
    + exact Hc1.
    + simpl. rewrite Hi1. by rewrite lookup_insert_eq.
    + by apply rdy_rep_suspended, rdy_rep_made_current.
    + simpl. by rewrite lookup_insert_eq.
  - simpl. by rewrite (sbq_hw _ _ Hs1).
  - intros x. exact (sbq_sts _ _ x Hs1).
Qed.

(** Masking and the wait state do not change who is where. *)
Lemma cpu_state_masked d m s cur C q ql l :
  cpu_state c s cur C q ql l -> cpu_state c (masked d m s) cur C q ql l.
Proof. intros [H1 H2 H3 H4 H5 H6]. split; [by apply queues_masked|done..]. Qed.

Lemma cpu_state_quiet f p s cur C q ql l :
  quiet f -> cpu_state c s cur C q ql l ->
  cpu_state c (upd_proc p f s) cur (if decide (p = cur) then f C else C) q ql l.
Proof.
  intros Hf [H1 H2 H3 H4 H5 H6].
  split; [by apply queues_quiet|exact H2| | |done|done].
  - simpl. rewrite lookup_alter. destruct (decide (p = cur)) as [->|]; by rewrite H3.
  - case_decide; [|done]. by rewrite (proj1 (proj2 (proj2 (Hf C)))).
Qed.

Lemma rq_insert_all_quiet f p s ql l :
  quiet f -> rq_insert_all (pri_of (upd_proc p f s)) ql l = rq_insert_all (pri_of s) ql l.
Proof. intros Hf. apply rq_insert_all_ext. intros x. by apply pri_of_quiet. Qed.

(** Updates of other parts of the state. *)
Lemma cpu_state_ext s s' cur C q ql l :
  procs s' = procs s -> rdyQues s' = rdyQues s -> current s' = current s ->
  ipQues s' = ipQues s -> cpu_key (hw s') = cpu_key (hw s) ->
  cpu_state c s cur C q ql l -> cpu_state c s' cur C q ql l.
Proof.
  intros E1 E2 E3 E4 E5 [[H1 H2 H3 H4 H5 H6] H7 H8 H9 H10 H11].
  split; rewrite ?E1, ?E3; try done. split; rewrite ?E4; try done.
  - unfold on_cpu. by rewrite E5.
  - by eapply rdy_rep_ext.
  - eapply Forall_impl; [exact H5|]. intros x. unfold ready_for, pun_of. by rewrite E1.
Qed.

(** A process that does enter the waiting state gives the processor to the
    first of the queue; when it is resumed it reenables interrupts. *)
Lemma relinquish_wait s cur C q ql l n L :
  cpu_state c s cur C q ql l -> p_sched_state C = PROC_PREPARING_TO_WAIT ->
  rq_insert_all (pri_of s) ql l = n :: L ->
  exists s' q' N N', exec c relinquish s (Switched (p_stackptr C) (p_stackptr N) enable s') /\
    procs s !! n = Some N /\ sched_step s s' /\ cpu_state c s' n N' q' [] L /\
    (p_sched_state <$> procs s' !! cur = Some PROC_WAITING) /\
    (forall x, x <> cur -> sts s' x = sts s x) /\
    uctxs (hw s') = <[p_stackptr C := Suspended]> (uctxs (hw s)) /\
    ipQues s' = <[c := q']> (ipQues s) /\ elsewhere c s s'.
Proof.
  intros Hcs Hst HL. destruct (id Hcs) as [Hq Hcur HC HCp _ _].
  set (s0 := masked c sigfillset (upd_proc cur (set_sched_state PROC_WAITING) s)).
  pose proof (cpu_state_quiet _ cur s cur C q ql l (quiet_sched_state PROC_WAITING) Hcs) as Hcs0.
  rewrite decide_True in Hcs0 by done. apply (cpu_state_masked c sigfillset) in Hcs0.
  fold s0 in Hcs0.
  destruct (take_switch s0 q ql l cur _ n L (fun _ => enable) Hcs0)
    as (s' & q' & N & N' & He & HN & Hsp & Hcs' & Hu & Hst' & Hi & Hel).
  { rewrite <-HL. by apply rq_insert_all_quiet. }
  destruct (next_proc _ _ _ _ _ _ _ _ Hcs HL) as (M & HM & _ & _ & [Hnc _]%NoDup_cons).
  assert (HN0 : procs s0 !! n = Some M).
  { unfold s0. simpl. rewrite lookup_alter_ne by set_solver. done. }
  rewrite HN0 in HN. simplify_eq. exists s', q', N, N'.
  split_and!; [|done| |done| | |exact Hu|exact Hi|].
  5: { etrans; [|exact Hel]. etrans; [apply (elsewhere_quiet _ _ cur s (quiet_sched_state PROC_WAITING))|apply elsewhere_masked]. }
  - unfold relinquish. eapply exec_get_current; [apply Hq|done|]. xstep1.
    eapply exec_cas_sched_ok; [done..|]. cbv [fst]. apply exec_disable. exact He.
  - etrans; [by apply (sched_step_quiet _ cur s (quiet_sched_state PROC_WAITING))|].
    etrans; [|exact Hsp]. by apply sched_step_ext.
  - specialize (Hst' cur). rewrite (sts_lookup _ _ _ (cs_proc _ _ _ _ _ _ _ Hcs0)) in Hst'.
    unfold sts in Hst'. destruct (procs s' !! cur); simpl in *; congruence.
  - intros x Hx. rewrite Hst'. unfold sts, s0. simpl. by rewrite lookup_alter_ne.
Qed.

Lemma relinquish_unconditional_wait s cur C q ql l n L :
  cpu_state c s cur C q ql l -> rq_insert_all (pri_of s) ql l = n :: L ->
  exists s' q' N N', exec c relinquish_unconditional s
      (Switched (p_stackptr C) (p_stackptr N) enable s') /\
    procs s !! n = Some N /\ sched_step s s' /\ cpu_state c s' n N' q' [] L /\
    (forall x, sts s' x = sts s x) /\ uctxs (hw s') = <[p_stackptr C := Suspended]> (uctxs (hw s)).
Proof.
  intros Hcs HL. destruct (id Hcs) as [Hq Hcur HC HCp _ _].
  destruct (take_switch (masked c sigfillset s) q ql l cur C n L (fun _ => enable))
    as (s' & q' & N & N' & He & HN & Hs & Hcs' & Hu & Hst & _); [by apply cpu_state_masked|done|].
  exists s', q', N, N'. split_and!; [|done|etrans; [|exact Hs]; by apply sched_step_ext|done..].
  unfold relinquish_unconditional. eapply exec_get_current; [apply Hq|done|]. xstep1.
  rewrite HCp. apply exec_disable. exact He.
Qed.

(** Whoever gets the processor this way is above the rest of the queue. *)
Lemma sched_ok_taken s s' ql l n N' q' L :
  rq_sorted (pri_of s) l -> rq_insert_all (pri_of s) ql l = n :: L ->
  sched_step s s' -> cpu_state c s' n N' q' [] L -> sched_ok c s' n [] L.
Proof.
  intros Hso HL Hs Hcs. apply (rq_insert_all_sorted _ ql) in Hso. rewrite HL in Hso.
  split; [by eauto| |].
  - eapply rq_sorted_ext; [|by inversion Hso]. intros x. symmetry. apply Hs.
  - eapply top_ext; [|by apply rq_sorted_top]. intros x. symmetry. apply Hs.
Qed.

(** [yield] gives the processor to the first of the queue unless the queue has
    fewer than two processes, and stays ready behind its equals. *)
Lemma yield_switch s cur C q ql l n n2 L :
  cpu_state c s cur C q ql l -> rq_insert_all (pri_of s) ql l = n :: n2 :: L ->
  exists s' q' N N', exec c yield s (Switched (p_stackptr C) (p_stackptr N) enable s') /\
    procs s !! n = Some N /\ sched_step s s' /\
    cpu_state c s' n N' q' [] (rq_insert (pri_of s) cur (n2 :: L)).
Proof.
  intros Hcs HL. apply (cpu_state_masked c sigfillset) in Hcs.
  set (s0 := masked c sigfillset s) in *. change (pri_of s) with (pri_of s0) in HL |- *.
  destruct (id Hcs) as [Hq Hcur HC HCp Hcur0 Hfr].
  destruct (next_proc _ _ _ _ _ _ _ _ Hcs HL) as (N & HN & HNp & Hn0 & Hnd).
  destruct (take1_spec c s0 q ql l Hq) as (s1 & q' & Ht & Hd). rewrite HL in Ht, Hd.
  destruct Hd as (Hl1 & Hs1 & Hi1 & Hr1 & _).
  destruct (sbq_lookup _ _ Hs1 n N HN) as [v Hn1].
  destruct (sbq_lookup _ _ Hs1 cur C HC) as [v' Hc1].
  set (s2 := made_current c n (p_pri N) s1).
  destruct (enqueue0_spec c s2 cur (set_next v' C) c (n2 :: L)) as (s3 & He & Hl3 & Hs3 & _);
    [done|done|done| |by apply rdy_rep_made_current|].
  { rewrite !NoDup_cons in Hnd. tauto. }
  apply sbl_sbq in Hs3 as Hs3'.
  destruct (sbq_lookup _ _ Hs3' n _ Hn1) as [w Hn3].
  destruct (sbq_lookup _ _ Hs3' cur _ Hc1) as [w' Hc3].
  set (s4 := suspended (p_stackptr C) s3).
  assert (Hon : on_cpu c s1) by (eapply sbq_on_cpu; [exact Hs1|apply Hq]).
  assert (Hs4 : sched_step s0 s4).
  { etrans; [by apply sbq_sched_step|]. etrans; [by apply (sched_step_ext s1 s2)|].
    etrans; [by apply sbq_sched_step|apply sched_step_suspended]. }
  exists s4, q', N, (set_next w (set_next v N)).
  split_and!; [|done|by etrans; [apply (sched_step_ext s s0)|exact Hs4]|].
  - unfold yield. eapply exec_get_current; [apply Hq|done|]. xstep1. rewrite HCp.
    apply exec_disable. eapply exec_bind_done; [exact Ht|]. zb. xstep1.
    eapply exec_set_current; [exact Hon|exact Hn1|done|].
    xstep1. eapply exec_bind_done; [exact He|].
    exact (exec_switch_context c _ _ _ _ (fun _ => enable) s3 Hc3 Hn3).
  - eapply (cpu_state_dispatched s0 s4 cur C q ql l q' n _ (n2 :: L)); [done..| | |exact Hr1| | |exact Hn3|done|].
    + by eapply (sbq_on_cpu s2 s3 Hs3').
    + simpl. rewrite (sbl_ipq _ _ Hs3). simpl. rewrite Hi1. by rewrite lookup_insert_eq.
    + apply rdy_rep_suspended. erewrite rq_insert_ext; [exact Hl3|].
      intros x. symmetry. exact (sbq_pri _ _ Hs1 x).
    + simpl. rewrite (sbq_current _ _ Hs3'). simpl. by rewrite lookup_insert_eq.
    + right. by rewrite rq_insert_perm.
Qed.

Lemma yield_alone s cur C q ql l m :
  cpu_state c s cur C q ql l -> (length (ql ++ l) < 2)%nat ->
  sigmask (hw s) !! c = Some m ->
  exists s' q' C', exec c yield s (Done tt s') /\ sched_step s s' /\
    cpu_state c s' cur C' q' [] (rq_insert_all (pri_of s) ql l) /\
    thread_mask (hw s') !! c = Some m.
Proof.
  intros Hcs Hlen Hm. apply (cpu_state_masked c sigfillset) in Hcs.
  set (s0 := masked c sigfillset s) in *. change (pri_of s) with (pri_of s0).
  destruct (id Hcs) as [Hq Hcur HC HCp Hcur0 Hfr].
  destruct (take1_spec c s0 q ql l Hq) as (s1 & q' & Ht & Hd).
  rewrite <-(rq_insert_all_perm (pri_of s0)) in Hlen.
  pose proof (rq_insert_all_perm (pri_of s0) ql l) as Hperm.
  assert (Hd' : drained c s0 s1 q' (rq_insert_all (pri_of s0) ql l))
    by (destruct (rq_insert_all (pri_of s0) ql l) as [|? [|]]; simpl in Hlen; [done..|lia]).
  destruct Hd' as (Hl1 & Hs1 & Hi1 & Hr1 & _).
  destruct (sbq_lookup _ _ Hs1 cur C HC) as [v Hc1].
  assert (Hon : on_cpu c s1) by (eapply sbq_on_cpu; [exact Hs1|apply Hq]).
  assert (Hs' : sched_step s0 (masked c m s1))
    by (etrans; [by apply sbq_sched_step|by apply sched_step_ext]).
  exists (masked c m s1), q', (set_next v C).
  split_and!; [|by etrans; [apply (sched_step_ext s s0)|exact Hs']| |simpl; by rewrite lookup_insert_eq].
  - unfold yield. eapply exec_get_current; [apply Hq|done|]. xstep1. rewrite HCp.
    apply exec_disable. eapply exec_bind_done; [exact Ht|].
    assert (Hm1 : sigmask (hw s1) !! c = Some m) by by rewrite (sbq_hw _ _ Hs1).
    destruct (rq_insert_all (pri_of s0) ql l) as [|? [|]]; simpl in Hlen; [| |lia].
    all: xstep; eapply exec_enable; [exact Hon|exact Hm1|apply exec_ret].
  - eapply cpu_state_step; [exact Hcs|exact Hs'|exact Hon| |exact Hr1|by apply rdy_rep_masked| |
      exact Hc1|done..| |].
    + simpl. rewrite Hi1. by rewrite lookup_insert_eq.
    + simpl. by rewrite (sbq_current _ _ Hs1).
    + apply list_subseteq_nil.
    + simpl. rewrite Hperm. constructor; [exact Hfr|apply Hq].
Qed.

(** Preemption at the end of an interrupt handler: exactly when the queue's
    first process has a higher priority. *)
Lemma schedule_from_interrupt_stay s cur C l :
  on_cpu c s -> current s !! c = Some cur -> procs s !! cur = Some C -> p_pun C = c ->
  rdy_rep s c l ->
  (forall x L, l = x :: L -> pri_gt (pri_of s x) (p_pri C) = false) ->
  exec c schedule_from_interrupt s (Done tt s).
Proof.
  intros Hc Hcur HC HCp Hl Hlow. unfold schedule_from_interrupt.
  eapply exec_get_current; [done..|]. xstep1. rewrite HCp.
  eapply exec_fetch; [apply Hl|]. destruct l as [|x L]; cbn [first].
  - zb. apply exec_ret.
  - destruct (linked_elem _ _ _ x (rr_linked _ _ _ Hl)) as (Hx0 & X & HX); [set_solver|].
    zb. xstep1. xstep1. pose proof (Hlow x L eq_refl) as Hx.
    rewrite (pri_of_lookup _ _ _ HX) in Hx. rewrite Hx. apply exec_ret.
Qed.

Lemma schedule_from_interrupt_preempt s cur C q ql x L n L' :
  cpu_state c s cur C q ql (x :: L) -> pri_gt (pri_of s x) (p_pri C) = true ->
  rq_insert_all (pri_of s) ql (x :: L) = n :: L' ->
  exists s' q' N', exec c schedule_from_interrupt s (Resumed n s') /\ sched_step s s' /\
    cpu_state c s' n N' q' [] (rq_insert (pri_of s) cur L').
Proof.
  intros Hcs Hpri HL. destruct (id Hcs) as [Hq Hcur HC HCp Hcur0 Hfr].
  destruct (next_proc _ _ _ _ _ _ _ _ Hcs HL) as (N & HN & HNp & Hn0 & Hnd).
  destruct (take_spec c s q ql _ Hq) as (s1 & q' & Ht & Hd). rewrite HL in Ht, Hd.
  destruct Hd as (Hl1 & Hs1 & Hi1 & Hr1 & _).
  destruct (sbq_lookup _ _ Hs1 n N HN) as [v Hn1].
  destruct (sbq_lookup _ _ Hs1 cur C HC) as [v' Hc1].
  destruct (enqueue0_spec c s1 cur (set_next v' C) c L') as (s3 & He & Hl3 & Hs3 & _);
    [done|done|done| |done|].
  { rewrite !NoDup_cons in Hnd. tauto. }
  apply sbl_sbq in Hs3 as Hs3'.
  destruct (sbq_lookup _ _ Hs3' n _ Hn1) as [w Hn3].
  assert (Hon : on_cpu c s3)
    by (eapply sbq_on_cpu; [exact Hs3'|]; eapply sbq_on_cpu; [exact Hs1|apply Hq]).
  set (s4 := made_current c n (p_pri N) s3).
  assert (Hs4 : sched_step s s4).
  { etrans; [by apply sbq_sched_step|]. etrans; [by apply sbq_sched_step|by apply sched_step_ext]. }
  exists s4, q', (set_next w (set_next v N)). split_and!; [|exact Hs4|].
  - unfold schedule_from_interrupt. eapply exec_get_current; [apply Hq|done|]. xstep1.
    rewrite HCp. eapply exec_fetch; [apply Hq|]. cbn [first].
    destruct (linked_elem _ _ _ x (rr_linked _ _ _ (qs_rdy _ _ _ _ _ Hq))) as (Hx0 & X & HX);
      [by left|].
    rewrite (pri_of_lookup _ _ _ HX) in Hpri.
    zb. xstep1. xstep1. rewrite Hpri. eapply exec_bind_done; [exact Ht|].
    eapply exec_bind_done; [exact He|].
    eapply exec_set_current; [exact Hon|exact Hn3|done|apply exec_resume].
  - eapply (cpu_state_dispatched s s4 cur C q ql _ q' n _ L'); [done..| | |exact Hr1| | |exact Hn3|done|].
    + exact Hon.
    + simpl. rewrite (sbl_ipq _ _ Hs3), Hi1. by rewrite lookup_insert_eq.
    + apply rdy_rep_made_current. erewrite rq_insert_ext; [exact Hl3|].
      intros y. symmetry. exact (sbq_pri _ _ Hs1 y).
    + simpl. by rewrite lookup_insert_eq.
    + right. by rewrite rq_insert_perm.
Qed.
End Dispatch.

(** The invariant under masking and updates of the states. *)
Lemma sched_ok_masked c d m s cur ql l :
  sched_ok c s cur ql l -> sched_ok c (masked d m s) cur ql l.
Proof.
  intros [(C & q & Hcs) H2 H3]. split; [|exact H2|exact H3].
  exists C, q. by apply cpu_state_masked.
Qed.

Lemma sched_ok_quiet c f p s cur ql l :
  quiet f -> sched_ok c s cur ql l -> sched_ok c (upd_proc p f s) cur ql l.
Proof.
  intros Hf [(C & q & Hcs) H2 H3]. split.
  - eexists _, q. by apply cpu_state_quiet.
  - eapply rq_sorted_ext; [|exact H2]. intros x. symmetry. by apply pri_of_quiet.
  - eapply top_ext; [|exact H3]. intros x. symmetry. by apply pri_of_quiet.
Qed.

(** After a preemption by the queue's first process, or one above it. *)
Lemma sched_ok_preempted c s s' cur ql x l n L N' q' :
  rq_sorted (pri_of s) (x :: l) -> pri_gt (pri_of s x) (pri_of s cur) = true ->
  rq_insert_all (pri_of s) ql (x :: l) = n :: L -> sched_step s s' ->
  cpu_state c s' n N' q' [] (rq_insert (pri_of s) cur L) ->
  sched_ok c s' n [] (rq_insert (pri_of s) cur L).
Proof.
  intros Hso Hpri HL Hs Hcs'. pose proof (rq_insert_all_sorted (pri_of s) ql _ Hso) as Hso'.
  pose proof (rq_insert_all_perm (pri_of s) ql (x :: l)) as Hp. rewrite HL in Hso', Hp.
  apply rq_sorted_top in Hso' as Htop.
  assert (Hxn : pri_le (pri_of s x) (pri_of s n) = true).
  { assert (Hx : x ∈ n :: L) by (rewrite Hp; set_solver).
    apply elem_of_cons in Hx as [->|Hx]; [apply pri_le_refl|].
    rewrite Forall_forall in Htop. by apply Htop. }
  split; [by eauto| |].
  - eapply rq_sorted_ext; [|apply rq_insert_sorted; by inversion Hso'].
    intros y. symmetry. apply Hs.
  - eapply (top_ext (pri_of s)); [intros y; symmetry; apply Hs|]. apply top_insert; [|done].
    eapply pri_le_trans; [by apply pri_gt_le|exact Hxn].
Qed.

(** [schedule0] on the process's own processor, and [schedule], which masks
    the interrupts around it. *)
Lemma schedule0_own c s cur ql l p P :
  sched_ok c s cur ql l -> procs s !! p = Some P -> p_pun P = c ->
  p <> NULL -> p ∉ cur :: ql ++ l ->
  exists s' C, procs s !! cur = Some C /\ sched_step s s' /\ (forall x, sts s' x = sts s x) /\
    (ipQues s' = ipQues s /\ elsewhere c s s') /\
    if pri_gt (p_pri P) (p_pri C) then
      exec c (schedule0 p) s (Switched (p_stackptr C) (p_stackptr P) (Ret tt) s') /\
      uctxs (hw s') = <[p_stackptr C := Suspended]> (uctxs (hw s)) /\
      sched_ok c s' p ql (rq_insert (pri_of s) cur l)
    else
      exec c (schedule0 p) s (Done tt s') /\ sigmask (hw s') = sigmask (hw s) /\
      sched_ok c s' cur ql (rq_insert (pri_of s) p l).
Proof.
  intros Hok HP Hpun Hp0 Hpl. destruct (so_cpu _ _ _ _ _ Hok) as (C & q & Hcs).
  pose proof (cs_proc _ _ _ _ _ _ _ Hcs) as HC.
  pose proof (pri_of_lookup _ _ _ HP) as Ep. pose proof (pri_of_lookup _ _ _ HC) as Ec.
  destruct (pri_gt (p_pri P) (p_pri C)) eqn:Hpri.
  - destruct (schedule0_preempt c s cur C q ql l p P Hcs HP Hpun Hp0 Hpl Hpri)
      as (s' & P' & He & Hs & Hst & Hcs' & Hu & Hel).
    exists s', C. rewrite Hpri. split_and!; [done..|apply Hel|apply Hel|done|done|].
    eapply sched_ok_preempt; [done..|exact Hcs'|by rewrite Ep, Ec].
  - assert (Hle : pri_le (p_pri P) (p_pri C) = true) by by rewrite pri_le_gt, Hpri.
    destruct (schedule0_enqueue c s cur C q ql l p P Hcs HP Hpun Hp0 Hpl Hle)
      as (s' & C' & He & Hs & Hel & Hcs').
    exists s', C. rewrite Hpri.
    split_and!; [done|by apply sbq_sched_step, sbl_sbq| |exact (sbl_ipq _ _ Hs)|exact Hel|done|by rewrite (sbq_hw _ _ (sbl_sbq _ _ Hs))|];
      [intros x; apply (sbq_sts _ _ x (sbl_sbq _ _ Hs))|].
    eapply sched_ok_enqueue; [done|by apply sbq_sched_step, sbl_sbq|exact Hcs'|by rewrite Ep, Ec].
Qed.

Lemma schedule_own c s cur ql l p P m :
  sched_ok c s cur ql l -> procs s !! p = Some P -> p_pun P = c ->
  p <> NULL -> p ∉ cur :: ql ++ l -> sigmask (hw s) !! c = Some m ->
  exists s' C, procs s !! cur = Some C /\ sched_step s s' /\ (forall x, sts s' x = sts s x) /\
    if pri_gt (p_pri P) (p_pri C) then
      exec c (schedule p) s (Switched (p_stackptr C) (p_stackptr P) enable s') /\
      uctxs (hw s') !! p_stackptr C = Some Suspended /\
      sched_ok c s' p ql (rq_insert (pri_of s) cur l)
    else
      exec c (schedule p) s (Done tt s') /\ thread_mask (hw s') !! c = Some m /\
      sched_ok c s' cur ql (rq_insert (pri_of s) p l).
Proof.
  intros Hok HP Hpun Hp0 Hpl Hm. apply (sched_ok_masked c c sigfillset) in Hok.
  destruct (schedule0_own c _ cur ql l p P Hok HP Hpun Hp0 Hpl) as (s' & C & HC & Hs & Hst & _ & Hr).
  assert (Hstep : forall s2, sched_step (masked c sigfillset s) s2 -> sched_step s s2).
  { intros s2 H2. etrans; [by apply (sched_step_ext s (masked c sigfillset s))|exact H2]. }
  destruct (pri_gt (p_pri P) (p_pri C)) eqn:Hpri.
  - destruct Hr as (He & Hu & Hok'). exists s', C. rewrite Hpri.
    split_and!; [done|by apply Hstep|exact Hst| |by rewrite Hu, lookup_insert_eq|exact Hok'].
    unfold schedule. apply exec_disable. eapply exec_bind; [exact He|done].
  - destruct Hr as (He & Hsm & Hok'). exists (masked c m s'), C. rewrite Hpri.
    split_and!; [done| |exact Hst| |simpl; by rewrite lookup_insert_eq|by apply sched_ok_masked].
    + apply Hstep. etrans; [exact Hs|by apply (sched_step_ext s' (masked c m s'))].
    + unfold schedule. apply exec_disable. eapply exec_bind_done; [exact He|].
      rewrite <-(bind_ret_r enable). eapply exec_enable; [|by rewrite Hsm|apply exec_ret].
      destruct (so_cpu _ _ _ _ _ Hok') as (C' & q & Hcs). apply Hcs.
Qed.

(** ** Theorems *)

(** C12: making a process ready on its own processor keeps the scheduler's
    invariant, on both branches: the running process stays the one no queued
    process outranks.  A process of strictly higher priority than the running
    one gets the processor at once, the running one being suspended into the
    queue; any other process is queued in priority order. *)
Theorem schedule0_local c s cur ql l p P :
  sched_ok c s cur ql l -> procs s !! p = Some P -> p_pun P = c ->
  p <> NULL -> p ∉ cur :: ql ++ l ->
  exists s' C, procs s !! cur = Some C /\
    if pri_gt (p_pri P) (p_pri C) then
      exec c (schedule0 p) s (Switched (p_stackptr C) (p_stackptr P) (Ret tt) s') /\
      uctxs (hw s') !! p_stackptr C = Some Suspended /\
      sched_ok c s' p ql (rq_insert (pri_of s) cur l)
    else
      exec c (schedule0 p) s (Done tt s') /\ sched_ok c s' cur ql (rq_insert (pri_of s) p l).
Proof.
  intros Hok HP Hpun Hp0 Hpl.
  destruct (schedule0_own c s cur ql l p P Hok HP Hpun Hp0 Hpl) as (s' & C & HC & _ & _ & _ & Hr).
  exists s', C. split; [done|]. destruct (pri_gt (p_pri P) (p_pri C)); [|tauto].
  destruct Hr as (He & Hu & Hok'). by rewrite Hu, lookup_insert_eq.
Qed.

(** A process of another processor is put at the end of that processor's
    interprocessor queue, if it has room, and that processor is interrupted;
    the caller keeps its own processor and ready queue. *)
Theorem schedule0_other c s p P q l t g pl :
  on_cpu c s -> procs s !! p = Some P -> p <> NULL -> p_pun P <> c ->
  ipQues s !! p_pun P = Some q -> ipq_rep q l -> Z.of_nat (length l) < QSIZE - 1 ->
  ipi_target s (p_pun P) t g pl ->
  exists s' q', exec c (schedule0 p) s (Done tt s') /\
    ipQues s' !! p_pun P = Some q' /\ ipq_rep q' (l ++ [p]) /\
    pending (hw s') !! t = Some (pl ++ [g]) /\
    current s' = current s /\ procs s' = procs s /\ rdyQues s' = rdyQues s.
Proof.
  intros Hc HP Hp0 Hpun Hq Hr Hlen Ht.
  eexists _, _. split; [by eapply schedule0_remote|].
  split_and!; [| |simpl; by rewrite lookup_insert_eq|done..].
  - simpl. by rewrite !lookup_alter_eq, Hq.
  - by apply ipq_added_rep.
Qed.

(** C11: [relinquish].  A process made ready since it announced its wait keeps
    the processor and nothing changes; otherwise it enters the waiting state
    and the processor goes to the first of the merged queue, under which the
    invariant holds again; when it is resumed it reenables interrupts. *)
Theorem relinquish_correct c s cur C q ql l n L :
  cpu_state c s cur C q ql l -> rq_sorted (pri_of s) l ->
  rq_insert_all (pri_of s) ql l = n :: L ->
  if p_sched_state C =? PROC_PREPARING_TO_WAIT then
    exists s' N, exec c relinquish s (Switched (p_stackptr C) (p_stackptr N) enable s') /\
      procs s !! n = Some N /\ sched_ok c s' n [] L /\
      p_sched_state <$> procs s' !! cur = Some PROC_WAITING
  else exec c relinquish s (Done tt s).
Proof.
  intros Hcs Hso HL. destruct (Z.eqb_spec (p_sched_state C) PROC_PREPARING_TO_WAIT) as [Hst|Hst].
  - destruct (relinquish_wait c s cur C q ql l n L Hcs Hst HL)
      as (s' & q' & N & N' & He & HN & Hs & Hcs' & Hst' & _).
    exists s', N. split_and!; [done..| |done]. by eapply sched_ok_taken.
  - eapply relinquish_ready; [apply Hcs..|done].
Qed.

(** [yield] with company gives the processor to the first of the merged
    queue, whatever its priority, and leaves the yielding process ready, behind
    its equals; with nobody but one idle process to run it returns, with the
    signal mask of its processor reinstalled. *)
Theorem yield_correct c s cur C q ql l m :
  cpu_state c s cur C q ql l -> rq_sorted (pri_of s) l -> sigmask (hw s) !! c = Some m ->
  match rq_insert_all (pri_of s) ql l with
  | n :: n2 :: L =>
      exists s' q' N N', exec c yield s (Switched (p_stackptr C) (p_stackptr N) enable s') /\
        procs s !! n = Some N /\ cpu_state c s' n N' q' [] (rq_insert (pri_of s) cur (n2 :: L)) /\
        rq_sorted (pri_of s') (rq_insert (pri_of s) cur (n2 :: L))
  | L =>
      exists s' q' C', exec c yield s (Done tt s') /\ cpu_state c s' cur C' q' [] L /\
        thread_mask (hw s') !! c = Some m
  end.
Proof.
  intros Hcs Hso Hm. apply (rq_insert_all_sorted _ ql) in Hso.
  pose proof (rq_insert_all_perm (pri_of s) ql l) as Hp.
  destruct (rq_insert_all (pri_of s) ql l) as [|n [|n2 L]] eqn:HL.
  3: { destruct (yield_switch c s cur C q ql l n n2 L Hcs HL)
         as (s' & q' & N & N' & He & HN & Hs & Hcs').
       exists s', q', N, N'. split_and!; [done..|].
       eapply rq_sorted_ext; [|apply rq_insert_sorted; by inversion Hso].
       intros x. symmetry. apply Hs. }
  all: destruct (yield_alone c s cur C q ql l m Hcs) as (s' & q' & C' & He & Hs & Hcs' & Hmm);
    [rewrite <-Hp; simpl; lia|done|].
  all: rewrite HL in Hcs'; by exists s', q', C'.
Qed.

(** At the end of an interrupt handler the running process is preempted
    exactly when the ready queue's first process has a higher priority; either
    way the invariant, which the handler may have broken by queueing processes
    directly, holds again. *)
Theorem schedule_from_interrupt_correct c s cur C q ql l :
  cpu_state c s cur C q ql l -> rq_sorted (pri_of s) l ->
  match l with
  | x :: _ =>
      if pri_gt (pri_of s x) (p_pri C) then
        exists s' n L, exec c schedule_from_interrupt s (Resumed n s') /\
          rq_insert_all (pri_of s) ql l = n :: L /\
          sched_ok c s' n [] (rq_insert (pri_of s) cur L)
      else exec c schedule_from_interrupt s (Done tt s) /\ sched_ok c s cur ql l
  | [] => exec c schedule_from_interrupt s (Done tt s) /\ sched_ok c s cur ql l
  end.
Proof.
  intros Hcs Hso. pose proof (pri_of_lookup _ _ _ (cs_proc _ _ _ _ _ _ _ Hcs)) as Ec.
  pose proof (qs_rdy _ _ _ _ _ (cs_queues _ _ _ _ _ _ _ Hcs)) as Hl.
  pose proof (qs_cpu _ _ _ _ _ (cs_queues _ _ _ _ _ _ _ Hcs)) as Hc.
  destruct l as [|x L]; [|destruct (pri_gt (pri_of s x) (p_pri C)) eqn:Hpri].
  - split; [eapply schedule_from_interrupt_stay; [exact Hc|apply Hcs..|exact Hl|done]|].
    split; [by eauto|done|constructor].
  - pose proof (rq_insert_all_perm (pri_of s) ql (x :: L)) as Hp.
    destruct (rq_insert_all (pri_of s) ql (x :: L)) as [|n L'] eqn:HL.
    { apply Permutation_length in Hp. rewrite length_app in Hp. simpl in Hp. lia. }
    destruct (schedule_from_interrupt_preempt c s cur C q ql x L n L' Hcs Hpri HL)
      as (s' & q' & N' & He & Hs & Hcs').
    exists s', n, L'. split_and!; [done..|]. eapply sched_ok_preempted; [exact Hso| |exact HL|done..].
    by rewrite Ec.
  - split.
    + eapply schedule_from_interrupt_stay; [exact Hc|apply Hcs..|exact Hl|]. by intros ?? [= -> ->].
    + split; [by eauto|done|]. assert (Hle : pri_le (pri_of s x) (pri_of s cur) = true)
        by by rewrite Ec, pri_le_gt, Hpri.
      constructor; [done|]. eapply top_mono; [exact Hle|by apply rq_sorted_top].
Qed.

(** ** The sample state *)

Lemma sample_cpu :
  cpu_state 0 sample_remote pA (sample_proc pA NULL 1024 0 PROC_READY) sample_ipq
    [pH; pL] [pB; idle0].
Proof. split; [exact sample_queues|reflexivity..|done|concrete_nodup]. Qed.

Lemma sample_queues_local : queues 0 sample empty_ipq [] [pB; idle0].
Proof.
  split; [by vm_compute|reflexivity|exact empty_ipq_rep|exact sample_rdy|constructor|concrete_nodup].
Qed.

Lemma sample_cpu_local :
  cpu_state 0 sample pA (sample_proc pA NULL 1024 0 PROC_READY) empty_ipq [] [pB; idle0].
Proof. split; [exact sample_queues_local|reflexivity..|done|concrete_nodup]. Qed.

Lemma sample_ok : sched_ok 0 sample pA [] [pB; idle0].
Proof. split; [eexists _, _; exact sample_cpu_local|exact sample_sorted|by repeat constructor]. Qed.

(** The sample state with the running process about to wait, or with [pH] put
    on the queue by an interrupt handler. *)
Definition sample_preparing : sys :=
  upd_proc pA (set_sched_state PROC_PREPARING_TO_WAIT) sample_remote.
Definition sample_handler : sys :=
  upd_proc pH (set_next pB) (upd_head 0 pH sample).

Lemma sample_preparing_cpu :
  cpu_state 0 sample_preparing pA (sample_proc pA NULL 1024 0 PROC_PREPARING_TO_WAIT) sample_ipq
    [pH; pL] [pB; idle0].
Proof. apply (cpu_state_quiet 0 _ pA _ _ _ _ _ _ (quiet_sched_state _) sample_cpu). Qed.

Lemma sample_handler_cpu :
  cpu_state 0 sample_handler pA (sample_proc pA NULL 1024 0 PROC_READY) empty_ipq
    [] [pH; pB; idle0].
Proof.
  split; [|reflexivity..|done|concrete_nodup].
  split; [by vm_compute|reflexivity|exact empty_ipq_rep| |constructor|concrete_nodup].
  split; [reflexivity|concrete_linked|concrete_forall].
Qed.

Lemma schedule0_local_witness :
  (exists s', exec 0 (schedule0 pH) sample (Switched pA pH (Ret tt) s') /\
     sched_ok 0 s' pH [] [pB; pA; idle0]) /\
  (exists s', exec 0 (schedule0 pL) sample (Done tt s') /\
     sched_ok 0 s' pA [] [pB; pL; idle0]).
Proof.
  split.
  - destruct (schedule0_local 0 sample pA [] [pB; idle0] pH (sample_proc pH NULL 512 0 PROC_WAITING)
      sample_ok eq_refl eq_refl ltac:(done) ltac:(concrete_nodup)) as (s' & C & HC & Hr).
    assert (C = sample_proc pA NULL 1024 0 PROC_READY) as -> by (vm_compute in HC; by injection HC as <-).
    destruct Hr as (H1 & _ & H2). exists s'. split; assumption.
  - destruct (schedule0_local 0 sample pA [] [pB; idle0] pL (sample_proc pL NULL 1536 0 PROC_WAITING)
      sample_ok eq_refl eq_refl ltac:(done) ltac:(concrete_nodup)) as (s' & C & HC & Hr).
    assert (C = sample_proc pA NULL 1024 0 PROC_READY) as -> by (vm_compute in HC; by injection HC as <-).
    exists s'. exact Hr.
Defined.

Lemma schedule0_other_witness :
  exists s', exec 0 (schedule0 pS) sample (Done tt s') /\ pending (hw s') !! 1 = Some [48].
Proof.
  destruct (schedule0_other 0 sample pS (sample_proc pS NULL 1024 1 PROC_WAITING) empty_ipq [] 1 48 []
    ltac:(by vm_compute) eq_refl ltac:(done) ltac:(done) eq_refl empty_ipq_rep ltac:(by vm_compute)
    ltac:(by vm_compute)) as (s' & q' & H1 & _ & _ & H2 & _).
  exists s'. split; assumption.
Defined.

Lemma relinquish_correct_witness :
  (exists s', exec 0 relinquish sample_preparing (Switched pA pH enable s') /\
     sched_ok 0 s' pH [] [pB; pL; idle0]) /\
  exec 0 relinquish sample_remote (Done tt sample_remote).
Proof.
  split.
  - destruct (relinquish_correct 0 sample_preparing pA _ sample_ipq [pH; pL] [pB; idle0]
      pH [pB; pL; idle0] sample_preparing_cpu ltac:(by repeat constructor) eq_refl) as (s' & N & H1 & HN & H2 & _).
    assert (N = sample_proc pH NULL 512 0 PROC_WAITING) as -> by (vm_compute in HN; by injection HN as <-).
    exists s'. split; assumption.
  - exact (relinquish_correct 0 sample_remote pA _ sample_ipq [pH; pL] [pB; idle0]
      pH [pB; pL; idle0] sample_cpu ltac:(by repeat constructor) eq_refl).
Defined.

Lemma yield_correct_witness :
  exists s' q' N', exec 0 yield sample (Switched pA pB enable s') /\
    cpu_state 0 s' pB N' q' [] [pA; idle0].
Proof.
  destruct (yield_correct 0 sample pA _ empty_ipq [] [pB; idle0] sigemptyset
    sample_cpu_local sample_sorted eq_refl) as (s' & q' & N & N' & H1 & HN & H2 & _).
  assert (N = sample_proc pB idle0 1024 0 PROC_READY) as -> by (vm_compute in HN; by injection HN as <-).
  exists s', q', N'. split; [exact H1|exact H2].
Defined.

Lemma schedule_from_interrupt_correct_witness :
  (exists s', exec 0 schedule_from_interrupt sample_handler (Resumed pH s') /\
     sched_ok 0 s' pH [] [pB; pA; idle0]) /\
  exec 0 schedule_from_interrupt sample (Done tt sample).
Proof.
  split.
  - destruct (schedule_from_interrupt_correct 0 sample_handler pA _ empty_ipq [] [pH; pB; idle0]
      sample_handler_cpu ltac:(by repeat constructor)) as (s' & n & L & H1 & HL & H2).
    injection HL as <- <-. exists s'. split; assumption.
  - exact (proj1 (schedule_from_interrupt_correct 0 sample pA _ empty_ipq [] [pB; idle0]
      sample_cpu_local sample_sorted)).
Defined.
