(* ===== verification/Mutex.v ===== *)
(** * Mutex: mutex.c *)

From S2P Require Import Prelude Prog State Hardware Exec Sched.

#[local] Open Scope prog_scope.

Definition TRIALS_BEFORE_YIELD : Z := 5.

Definition upd_mutex (m : mutex_p) (b : bool) (s : sys) : sys :=
  set_mutexes (<[m := b]> (mutexes s)) s.

(** [atomic_exchange] on [mutex->claimed] *)
Definition xchg_claimed (m : mutex_p) (v : bool) : cprog bool :=
  act (fun _ s => match mutexes s !! m with
                  | Some b => Ok b (upd_mutex m v s)
                  | None => Fault
                  end).

Definition init_mutex (m : mutex_p) : cprog unit := modify (upd_mutex m false).

(** Spin a few times on the flag, then yield, until it is found false. *)
Definition claim_mutex (m : mutex_p) : cprog unit :=
  loop (fun _ : unit =>
    oldvalue <- loop (fun i : Z =>
        oldvalue <- xchg_claimed m true;;
        let i := i + 1 in
        if oldvalue && (i <? TRIALS_BEFORE_YIELD) then ret (inl i)
        else ret (inr oldvalue)) 0;;
    if negb oldvalue then ret (inr tt)
    else (yield;; ret (inl tt))) tt.

Definition release_mutex (m : mutex_p) : cprog unit :=
  store (fun s => match mutexes s !! m with
                  | Some _ => Some (upd_mutex m false s)
                  | None => None
                  end).

(** ** What the clients rely on

    A lock is a pair of operations such that claiming a free lock returns with
    the lock taken, releasing it frees it, and neither changes anything else. *)
Class LockSpec (claim release : mutex_p -> cprog unit) : Prop := {
  claim_free {B} c m s (g : unit -> cprog B) o :
    mutexes s !! m = Some false -> exec c (g tt) (upd_mutex m true s) o ->
    exec c (bind (claim m) g) s o;
  release_taken {B} c m s (g : unit -> cprog B) o :
    is_Some (mutexes s !! m) -> exec c (g tt) (upd_mutex m false s) o ->
    exec c (bind (release m) g) s o }.

#[export] Instance mutex_LockSpec : LockSpec claim_mutex release_mutex.
Proof.
  split.
  - intros B c m s g o Hm Hg. eapply exec_bind_done; [|exact Hg].
    unfold claim_mutex. eapply exec_loop.
    + eapply exec_bind_done.
      { eapply exec_loop; [unfold xchg_claimed; xstep|apply exec_ret]. }
      apply exec_ret.
    + apply exec_ret.
  - intros B c m s g o [b Hb] Hg. unfold release_mutex. by xstep1.
Qed.

(** A critical section leaves a free lock as it found it. *)
Lemma upd_mutex_restore m s :
  mutexes s !! m = Some false -> upd_mutex m false (upd_mutex m true s) = s.
Proof.
  intros Hm. unfold upd_mutex. destruct s; simpl in *. unfold set_mutexes. simpl.
  by rewrite insert_insert_eq, insert_id.
Qed.

(** The same when the section has changed something else. *)
Lemma upd_mutex_undo m s s1 s' :
  mutexes s !! m = Some false -> mutexes s' = mutexes s -> s1 = upd_mutex m true s' ->
  upd_mutex m false s1 = s'.
Proof. intros Hm He ->. apply upd_mutex_restore. by rewrite He. Qed.
