(* ===== verification/Memory.v ===== *)
(** * Memory: memory.c

    Brinch Hansen's allocator: a fixed table of block lengths, a free list per
    length, and one big block (the tail) from which fresh blocks are cut. *)

From S2P Require Import Prelude Prog State Linked Hardware Exec Sched Mutex.

#[local] Open Scope prog_scope.

Definition TMO_INDEX : Z := 0.

(** maximum number of memory allocation sizes *)
Definition NALLOC : Z := 24.

(** length of block for each index, in bytes *)
Definition procmemlen : list Z :=
  [ 18; 32; 48; 96; 128; 192; 256; 384; 512; 768; 1024; 1536;
    2048; 3072; 4096; 6144; 8192; 10240; 12288; 16384; 24576; 0 ].
Definition procmemlen_get (i : Z) : cprog Z :=
  fetch (fun _ => if 0 <=? i then procmemlen !! Z.to_nat i else None).

(** Find index of smallest allocation >= given size (bytes) *)
Definition find_mem_index (size : Z) : cprog Z :=
  i <- loop (fun i : Z =>
         len <- procmemlen_get i;;
         if negb (len =? 0) then
           (if len >=? size then ret (inr i) else ret (inl (i + 1)))
         else ret (inr i)) 0;;
  len <- procmemlen_get i;;
  if negb (len =? 0) then ret i else plotz "No memory block large enough".

Definition upd_list (index : Z) (a : addr) (s : sys) : sys :=
  set_procmemlist (<[index := a]> (procmemlist s)) s.
Definition set_list (index : Z) (a : addr) : cprog unit :=
  store (fun s => match procmemlist s !! index with
                  | Some _ => Some (upd_list index a s)
                  | None => None
                  end).

(** Allocate block of length implied by index *)
Definition allocate_mem (index : Z) : cprog addr :=
  claim_mutex mutex_mem;;
  block <- fetch (fun s => procmemlist s !! index);;
  block <- (if negb (block =? NULL) then
              (n <- fetch (fun s => chain s !! block);;
               set_list index n;;
               ret block)
            else
              (len <- procmemlen_get index;;
               let len := uint16 len in
               tl <- fetch (fun s => Some (taillen s));;
               if tl >=? len then
                 (b <- fetch (fun s => Some (tail s));;
                  modify (fun s => set_tail (uint32 (b + len)) s);;
                  ret b)
               else plotz "Out of memory"));;
  release_mutex mutex_mem;;
  ret block.

(** Writing the link into a released block ends the life of the object that
    was there. *)
Definition clobber (a : addr) (s : sys) : sys :=
  set_procs (delete a (procs s)) (set_timeouts (delete a (timeouts s)) s).
Definition upd_chain (a n : addr) (s : sys) : sys :=
  set_chain (<[a := n]> (chain s)) (clobber a s).

(** Release allocated block. *)
Definition release_mem (index : Z) (block : addr) : cprog unit :=
  claim_mutex mutex_mem;;
  head <- fetch (fun s => procmemlist s !! index);;
  (if block =? NULL then act (fun _ _ => Fault) else modify (upd_chain block head));;
  set_list index block;;
  release_mutex mutex_mem.

(** Initializes the memory system. *)
Definition memory_init (total : Z) : cprog unit :=
  loop (fun i : Z =>
    if i <? NALLOC then (modify (upd_list i NULL);; ret (inl (i + 1))) else ret (inr tt)) 0;;
  p <- acquire_memory (int32 total);;
  modify (fun s => set_tail p s);;
  modify (fun s => set_taillen (uint32 total) s).
