(* ===== verification/Heap.v ===== *)
(** * Heap: what the allocator of [Memory] promises

    The blocks cut from the tail so far ([carved]) are disjoint and keep their
    size class for ever; a block is free when it is in the list of its class
    ([free]) and live otherwise.  [allocate_mem] makes one block live,
    [release_mem] makes one free, and [find_mem_index] chooses the class. *)

From S2P Require Import Prelude Prog State Fixture Linked Hardware Exec Sched Mutex.
From S2P Require Import Memory.

#[local] Open Scope prog_scope.

(** ** Size classes *)

Definition block_len (i : Z) : Z := nth (Z.to_nat i) procmemlen 0.
Definition valid_index (i : Z) : Prop := 0 <= i < 21.

Lemma procmemlen_lookup i :
  0 <= i < 22 -> procmemlen !! Z.to_nat i = Some (block_len i).
Proof.
  intros Hi. destruct (lookup_lt_is_Some_2 procmemlen (Z.to_nat i)) as [x Hx].
  { change (length procmemlen) with 22%nat. lia. }
  rewrite Hx. unfold block_len. by rewrite (nth_lookup_Some _ _ 0 _ Hx).
Qed.

Lemma block_len_bounds i : valid_index i -> 18 <= block_len i <= 24576.
Proof.
  intros Hi.
  assert (Hf : Forall (fun x => 18 <= x <= 24576) (firstn 21 procmemlen))
    by (repeat constructor; vm_compute; congruence).
  rewrite Forall_lookup in Hf. unfold valid_index in Hi. apply (Hf (Z.to_nat i)).
  rewrite lookup_take_lt by lia. apply procmemlen_lookup. lia.
Qed.

Lemma block_len_end : block_len 21 = 0.
Proof. reflexivity. Qed.

Lemma exec_procmemlen_get c {B} i (g : Z -> cprog B) s o :
  0 <= i < 22 -> exec c (g (block_len i)) s o -> exec c (bind (procmemlen_get i) g) s o.
Proof.
  intros Hi. unfold procmemlen_get. apply exec_fetch. zb. by apply procmemlen_lookup.
Qed.

(** The search: the first class that is large enough, or the end marker. *)
Lemma find_loop c size i s :
  0 <= i <= 21 -> (forall j, 0 <= j < i -> block_len j < size) ->
  exists k, exec c (loop (fun i : Z =>
         len <- procmemlen_get i;;
         if negb (len =? 0) then
           (if len >=? size then ret (inr i) else ret (inl (i + 1)))
         else ret (inr i)) i) s (Done k s) /\
    i <= k <= 21 /\ (forall j, 0 <= j < k -> block_len j < size) /\
    (k < 21 -> size <= block_len k).
Proof.
  intros Hi Hlow. remember (Z.to_nat (21 - i)) as n eqn:Hn.
  revert i Hi Hlow Hn. induction n as [|n IH]; intros i Hi Hlow Hn.
  - assert (i = 21) as -> by lia. exists 21. split_and!; [|lia..|done|lia].
    eapply exec_loop.
    { apply exec_procmemlen_get; [lia|]. rewrite block_len_end. apply exec_ret. }
    apply exec_ret.
  - pose proof (block_len_bounds i) as Hb. unfold valid_index in Hb.
    destruct (decide (size <= block_len i)) as [Hle|Hgt].
    + exists i. split_and!; [|lia..|done|done].
      eapply exec_loop.
      { apply exec_procmemlen_get; [lia|]. zb. apply exec_ret. }
      apply exec_ret.
    + destruct (IH (i + 1)) as (k & He & Hk & Hl & Hg); [lia| |lia|].
      { intros j Hj. destruct (decide (j = i)) as [->|]; [lia|apply Hlow; lia]. }
      exists k. split_and!; [|lia..|done|done].
      eapply exec_loop.
      { apply exec_procmemlen_get; [lia|]. zb. apply exec_ret. }
      exact He.
Qed.

(** ** Representation *)

Record heap_ok (base : Z) (s : sys) (carved : gmap addr Z) (free : Z -> list addr) : Prop := {
  hk_base : 0 < base <= tail s;
  hk_free : forall i, valid_index i ->
    procmemlist s !! i = Some (first (free i)) /\ linked (chain s) (first (free i)) (free i);
  hk_class : forall i x, valid_index i -> x ∈ free i -> carved !! x = Some i;
  hk_carved : forall a i, carved !! a = Some i ->
    valid_index i /\ base <= a /\ a + block_len i <= tail s;
  hk_disjoint : forall a i b j, carved !! a = Some i -> carved !! b = Some j -> a <> b ->
    a + block_len i <= b \/ b + block_len j <= a }.

Lemma heap_ok_frame base s s' carved free :
  tail s' = tail s -> procmemlist s' = procmemlist s -> chain s' = chain s ->
  heap_ok base s carved free -> heap_ok base s' carved free.
Proof. intros E1 E2 E3 [H1 H2 H3 H4 H5]. split; rewrite ?E1, ?E2, ?E3; done. Qed.

(** Block [a] of class [i] is in use. *)
Definition live (carved : gmap addr Z) (free : Z -> list addr) (a i : Z) : Prop :=
  carved !! a = Some i /\ a ∉ free i.

Definition upd_free (i : Z) (l : list addr) (free : Z -> list addr) : Z -> list addr :=
  fun j => if decide (j = i) then l else free j.

Lemma upd_free_eq i l free : upd_free i l free i = l.
Proof. unfold upd_free. by rewrite decide_True. Qed.
Lemma upd_free_ne i j l free : j <> i -> upd_free i l free j = free j.
Proof. intros. unfold upd_free. by rewrite decide_False. Qed.

(** The class of a block says which list it can be in. *)
Lemma free_one base s carved free i j x :
  heap_ok base s carved free -> valid_index i -> valid_index j -> x ∈ free i -> x ∈ free j -> i = j.
Proof.
  intros Hk Hi Hj Hx Hy. apply (hk_class _ _ _ _ Hk) in Hx, Hy; [|done..]. congruence.
Qed.

Section Ops.
Context (c : Z) (base : Z).

Lemma allocate_reuse s carved free i a l :
  heap_ok base s carved free -> valid_index i -> mutexes s !! mutex_mem = Some false ->
  free i = a :: l ->
  let s' := upd_list i (first l) s in
  exec c (allocate_mem i) s (Done a s') /\ heap_ok base s' carved (upd_free i l free) /\
  live carved (upd_free i l free) a i.
Proof.
  intros Hk Hi Hm Hf s'. destruct (hk_free _ _ _ _ Hk i Hi) as [Hh Hl].
  rewrite Hf in Hh, Hl. cbn [first] in Hh, Hl.
  pose proof (linked_NoDup _ _ _ Hl) as Hnd. apply NoDup_cons in Hnd as [Hal Hnd].
  destruct (id Hl) as (_ & Ha0 & n & Hn & Hl2). change (linked (chain s) n l) in Hl2.
  pose proof (linked_first _ _ _ Hl2) as ->.
  split_and!.
  - unfold allocate_mem. eapply (claim_free (release := release_mutex)); [exact Hm|].
    eapply exec_fetch; [exact Hh|]. zb.
    xstep1. eapply exec_fetch; [exact Hn|]. unfold set_list. xstep1.
    eapply exec_store; [simpl; by rewrite Hh|]. xstep1.
    eapply (release_taken (claim := claim_mutex)); [simpl; rewrite lookup_insert_eq; by eexists|].
    erewrite (upd_mutex_undo mutex_mem s _ s'); [apply exec_ret|exact Hm|done|done].
  - split; simpl; [apply Hk| | |apply Hk..].
    + intros j Hj. destruct (decide (j = i)) as [->|Hne].
      * by rewrite upd_free_eq, lookup_insert_eq.
      * rewrite upd_free_ne, lookup_insert_ne by done. by apply Hk.
    + intros j x Hj. unfold upd_free. case_decide as Hd; intros Hx; subst.
      * apply (hk_class _ _ _ _ Hk); [done|]. rewrite Hf. by right.
      * by apply Hk.
  - split; [|by rewrite upd_free_eq]. apply (hk_class _ _ _ _ Hk); [done|]. rewrite Hf. by left.
Qed.

Lemma allocate_carve s carved free i :
  heap_ok base s carved free -> valid_index i -> mutexes s !! mutex_mem = Some false ->
  free i = [] -> block_len i <= taillen s -> tail s + block_len i < 2 ^ 32 ->
  let s' := set_tail (tail s + block_len i) s in
  exec c (allocate_mem i) s (Done (tail s) s') /\
  carved !! tail s = None /\
  heap_ok base s' (<[tail s := i]> carved) free /\ live (<[tail s := i]> carved) free (tail s) i.
Proof.
  intros Hk Hi Hm Hf Htl Hw s'. destruct (hk_free _ _ _ _ Hk i Hi) as [Hh Hl].
  rewrite Hf in Hh. cbn [first] in Hh. pose proof (block_len_bounds i Hi) as Hb.
  assert (Hu : uint16 (block_len i) = block_len i)
    by (unfold uint16, wrapU; apply Z.mod_small; lia).
  assert (Hnew : carved !! tail s = None).
  { destruct (carved !! tail s) as [j|] eqn:E; [|done].
    destruct (hk_carved _ _ _ _ Hk _ _ E) as (Hj & _ & Hend).
    pose proof (block_len_bounds j Hj). lia. }
  pose proof (hk_base _ _ _ _ Hk) as Hbase.
  split_and!; [|done| |].
  - unfold allocate_mem. eapply (claim_free (release := release_mutex)); [exact Hm|].
    eapply exec_fetch; [exact Hh|]. zb. xstep1. unfold valid_index in Hi.
    apply exec_procmemlen_get; [lia|]. rewrite Hu. xstep1.
    eapply exec_fetch; [done|]. simpl taillen. zb. do 3 xstep1. xstep1.
    eapply (release_taken (claim := claim_mutex)); [simpl; rewrite lookup_insert_eq; by eexists|].
    erewrite (upd_mutex_undo mutex_mem s _ s'); [apply exec_ret|exact Hm|done|].
    unfold uint32, wrapU. simpl tail. by rewrite Z.mod_small by lia.
  - split; simpl; [lia|apply Hk| | |].
    + intros j x Hj Hx. rewrite lookup_insert_ne; [by apply Hk|].
      intros <-. apply (hk_class _ _ _ _ Hk) in Hx; [congruence|done].
    + intros a j. rewrite lookup_insert. case_decide as Hd.
      * intros [= <-]. subst. split; [done|lia].
      * intros Ha. destruct (hk_carved _ _ _ _ Hk _ _ Ha) as (? & ? & ?). split; [done|lia].
    + intros a j b k. rewrite !lookup_insert.
      case_decide as H1; case_decide as H2; intros; simplify_eq.
      * right. destruct (hk_carved _ _ _ _ Hk b k) as (? & ? & ?); [done|lia].
      * left. destruct (hk_carved _ _ _ _ Hk a j) as (? & ? & ?); [done|lia].
      * by eapply (hk_disjoint _ _ _ _ Hk).
  - split; [by rewrite lookup_insert_eq|]. rewrite Hf. set_solver.
Qed.

(** Releasing, whatever the block. *)
Lemma release_mem_run s i a h :
  procmemlist s !! i = Some h -> a <> NULL -> mutexes s !! mutex_mem = Some false ->
  exec c (release_mem i a) s (Done tt (upd_list i a (upd_chain a h s))).
Proof.
  intros Hh Ha Hm. unfold release_mem. eapply (claim_free (release := release_mutex)); [exact Hm|].
  eapply exec_fetch; [exact Hh|]. zb. xstep1. unfold set_list.
  eapply exec_store; [simpl; by rewrite Hh|].
  rewrite <-(bind_ret_r (release_mutex mutex_mem)).
  eapply (release_taken (claim := claim_mutex)); [simpl; rewrite lookup_insert_eq; by eexists|].
  erewrite (upd_mutex_undo mutex_mem s _ (upd_list i a (upd_chain a h s)));
    [apply exec_ret|exact Hm|done|done].
Qed.

Lemma release_back s carved free i a :
  heap_ok base s carved free -> live carved free a i -> mutexes s !! mutex_mem = Some false ->
  let s' := upd_list i a (upd_chain a (first (free i)) s) in
  exec c (release_mem i a) s (Done tt s') /\ heap_ok base s' carved (upd_free i (a :: free i) free).
Proof.
  intros Hk [Hc Hnf] Hm s'. destruct (hk_carved _ _ _ _ Hk _ _ Hc) as (Hi & Ha & _).
  destruct (hk_free _ _ _ _ Hk i Hi) as [Hh Hl]. pose proof (hk_base _ _ _ _ Hk) as Hbase.
  assert (Ha0 : a <> NULL) by (unfold NULL; lia).
  split; [by apply release_mem_run|].
  split; simpl; [apply Hk| | |apply Hk..].
  + intros j Hj. destruct (decide (j = i)) as [->|Hne].
    - rewrite upd_free_eq, lookup_insert_eq. split; [done|]. simpl.
      split_and!; [done..|]. exists (first (free i)). rewrite lookup_insert_eq. split; [done|].
      by apply linked_insert_ne.
    - rewrite upd_free_ne, lookup_insert_ne by done.
      destruct (hk_free _ _ _ _ Hk j Hj) as [Hhj Hlj]. split; [done|].
      apply linked_insert_ne; [|done]. intros Hx.
      apply (hk_class _ _ _ _ Hk) in Hx; [congruence|done].
  + intros j x Hj. unfold upd_free. case_decide as Hd; intros Hx; subst; [|by apply Hk].
    apply elem_of_cons in Hx as [->|Hx]; [done|by apply Hk].
Qed.
End Ops.

(** ** Theorems *)

(** What an allocation changes. *)
Definition mem_frame (s s' : sys) : Prop :=
  s' = set_tail (tail s') (set_procmemlist (procmemlist s') s).

Lemma allocate_spec c base s carved free i :
  heap_ok base s carved free -> valid_index i -> mutexes s !! mutex_mem = Some false ->
  block_len i <= taillen s -> tail s + block_len i < 2 ^ 32 ->
  exists a s' carved' free', exec c (allocate_mem i) s (Done a s') /\
    heap_ok base s' carved' free' /\
    (forall j, ~ live carved free a j) /\ live carved' free' a i /\
    (forall b j, b <> a -> live carved free b j <-> live carved' free' b j) /\
    (forall b j, live carved free b j -> a + block_len i <= b \/ b + block_len j <= a) /\
    a = match free i with [] => tail s | x :: _ => x end /\ mem_frame s s' /\
    tail s' <= tail s + block_len i.
Proof.
  intros Hk Hi Hm Htl Hw. pose proof (block_len_bounds i Hi) as Hb. destruct (free i) as [|a l] eqn:Hf.
  - destruct (allocate_carve c base s carved free i Hk Hi Hm Hf Htl Hw) as (He & Hnew & Hk' & Hlive).
    eexists (tail s), _, (<[tail s := i]> carved), free.
    split_and!; [exact He|exact Hk'| |done| | |done|by destruct s|simpl; lia].
    + intros j [Hc _]. congruence.
    + intros b j Hb'. unfold live. by rewrite lookup_insert_ne.
    + intros b j [Hc _]. right. by destruct (hk_carved _ _ _ _ Hk _ _ Hc) as (_ & _ & ?).
  - destruct (allocate_reuse c base s carved free i a l Hk Hi Hm Hf) as (He & Hk' & Hlive).
    assert (Hn : forall j, ~ live carved free a j).
    { intros j [Hc Hn]. destruct Hlive as [Hc' _]. rewrite Hc in Hc'. injection Hc' as ->.
      rewrite Hf in Hn. set_solver. }
    eexists a, _, carved, (upd_free i l free).
    split_and!; [exact He|exact Hk'|done|done| | |done|by destruct s|simpl; lia].
    + intros b j Hb'. unfold live, upd_free. case_decide; [subst; rewrite Hf; set_solver|done].
    + intros b j Hbl. apply (hk_disjoint _ _ _ _ Hk'); [apply Hlive|apply Hbl|].
      intros <-. by eapply Hn.
Qed.

Lemma find_mem_index_ok c size s :
  size <= 24576 ->
  exists i, exec c (find_mem_index size) s (Done i s) /\ valid_index i /\
    size <= block_len i /\ (forall j, 0 <= j < i -> block_len j < size).
Proof.
  intros Hs. destruct (find_loop c size 0 s) as (k & He & Hk & Hlow & Hfit); [lia|lia|].
  assert (Hmax : block_len 20 = 24576) by reflexivity.
  assert (k < 21).
  { destruct (decide (k = 21)) as [->|]; [|lia]. pose proof (Hlow 20 ltac:(lia)). lia. }
  pose proof (block_len_bounds k) as Hb. unfold valid_index in *.
  exists k. split_and!; [|lia..|auto|auto].
  unfold find_mem_index. eapply exec_bind_done; [exact He|].
  apply exec_procmemlen_get; [lia|]. zb. apply exec_ret.
Qed.

(** The class [find_mem_index] returns is the smallest whose blocks are
    large enough; a size that no class fits ends the program. *)
Theorem find_mem_index_smallest c size s :
  if size <=? 24576 then
    exists i, exec c (find_mem_index size) s (Done i s) /\ valid_index i /\
      size <= block_len i /\ (forall j, 0 <= j < i -> block_len j < size)
  else exec c (find_mem_index size) s (Exited "No memory block large enough" s).
Proof.
  destruct (Z.leb_spec size 24576) as [Hs|Hs]; [by apply find_mem_index_ok|].
  destruct (find_loop c size 0 s) as (k & He & Hk & Hlow & Hfit); [lia|lia|].
  assert (k = 21) as ->.
  { destruct (decide (k = 21)) as [->|]; [done|].
    pose proof (Hfit ltac:(lia)). pose proof (block_len_bounds k) as Hb.
    unfold valid_index in *. lia. }
  unfold find_mem_index. eapply exec_bind_done; [exact He|].
  apply exec_procmemlen_get; [lia|]. rewrite block_len_end. simpl negb. cbv iota.
  rewrite <-(bind_ret_r (plotz _)). apply exec_plotz.
Qed.

(** C18: a block [allocate_mem] returns was not in use, is in use afterwards,
    belongs to the class asked for and overlaps no other block; nothing else is
    taken from anybody.  A released block is preferred (the last released one
    first); otherwise the block is cut from the tail. *)
Theorem allocate_mem_fresh c base s carved free i :
  heap_ok base s carved free -> valid_index i -> mutexes s !! mutex_mem = Some false ->
  block_len i <= taillen s -> tail s + block_len i < 2 ^ 32 ->
  exists a s' carved' free', exec c (allocate_mem i) s (Done a s') /\
    heap_ok base s' carved' free' /\
    (forall j, ~ live carved free a j) /\ live carved' free' a i /\
    (forall b j, b <> a -> live carved free b j <-> live carved' free' b j) /\
    (forall b j, live carved free b j -> a + block_len i <= b \/ b + block_len j <= a) /\
    a = match free i with [] => tail s | x :: _ => x end /\
    s' = set_tail (tail s') (set_procmemlist (procmemlist s') s).
Proof.
  intros Hk Hi Hm Htl Hw.
  destruct (allocate_spec c base s carved free i Hk Hi Hm Htl Hw)
    as (a & s' & carved' & free' & H1 & H2 & H3 & H4 & H5 & H6 & H7 & H8 & _).
  by exists a, s', carved', free'.
Qed.

(** Releasing a block in use makes exactly that block free, and the next
    allocation of its class returns it again, to a heap with the free lists and
    the tail it had before the release. *)
Theorem release_then_allocate c base s carved free i a :
  heap_ok base s carved free -> live carved free a i -> mutexes s !! mutex_mem = Some false ->
  exists s1 s2, exec c (release_mem i a) s (Done tt s1) /\
    heap_ok base s1 carved (upd_free i (a :: free i) free) /\
    ~ live carved (upd_free i (a :: free i) free) a i /\
    exec c (allocate_mem i) s1 (Done a s2) /\ heap_ok base s2 carved free /\
    procmemlist s2 = procmemlist s /\ tail s2 = tail s.
Proof.
  intros Hk Hl Hm. destruct (hk_carved _ _ _ _ Hk _ _ (proj1 Hl)) as (Hi & _ & _).
  destruct (release_back c base s carved free i a Hk Hl Hm) as (He & Hk1).
  set (s1 := upd_list i a (upd_chain a (first (free i)) s)) in *.
  destruct (allocate_reuse c base s1 carved _ i a (free i) Hk1 Hi Hm) as (He2 & Hk2 & _);
    [apply upd_free_eq|].
  exists s1, (upd_list i (first (free i)) s1). split_and!; [done..| |exact He2| | |done].
  - intros [_ Hn]. rewrite upd_free_eq in Hn. set_solver.
  - destruct Hk2 as [H1 H2 H3 H4 H5]. split; [done| | |done|done].
    + intros j Hj. specialize (H2 j Hj). unfold upd_free in H2. by case_decide; subst.
    + intros j x Hj. specialize (H3 j x Hj). unfold upd_free in H3. by case_decide; subst.
  - simpl. rewrite insert_insert_eq. apply insert_id. by apply Hk.
Qed.

(** [n] allocations of the same class, one after the other. *)
Fixpoint allocate_n (n : nat) (i : Z) : cprog (list addr) :=
  match n with
  | O => ret []
  | S n => a <- allocate_mem i;; l <- allocate_n n i;; ret (a :: l)
  end.

(** C40: the tail is never exhausted: [taillen] keeps the length the whole
    region had, so any number of allocations of a class that fits the region
    succeeds, the blocks following each other from the tail on; those that end
    beyond the region the allocator was given are returned all the same. *)
Theorem allocate_overruns c base n s carved free i :
  heap_ok base s carved free -> valid_index i -> mutexes s !! mutex_mem = Some false ->
  free i = [] -> block_len i <= taillen s -> tail s + Z.of_nat n * block_len i < 2 ^ 32 ->
  exists s', exec c (allocate_n n i) s
      (Done ((fun k => tail s + Z.of_nat k * block_len i) <$> seq 0 n) s') /\
    tail s' = tail s + Z.of_nat n * block_len i /\ taillen s' = taillen s.
Proof.
  intros Hk Hi Hm Hf Htl. pose proof (block_len_bounds i Hi) as Hb.
  revert s carved Hk Hm Htl. induction n as [|n IH]; intros s carved Hk Hm Htl Hw.
  - exists s. split_and!; [apply exec_ret|lia|done].
  - destruct (allocate_carve c base s carved free i Hk Hi Hm Hf Htl) as (He & _ & Hk' & _); [nia|].
    destruct (IH _ _ Hk' Hm Htl) as (s' & He' & Ht & Htl'); [simpl; lia|].
    exists s'. split_and!; [|rewrite Ht; simpl; lia|by rewrite Htl'].
    cbn [allocate_n]. eapply exec_bind_done; [exact He|]. eapply exec_bind_done; [exact He'|].
    replace ((fun k : nat => tail s + Z.of_nat k * block_len i) <$> seq 0 (S n)) with
      (tail s :: ((fun k : nat => tail s + block_len i + Z.of_nat k * block_len i) <$> seq 0 n));
      [apply exec_ret|].
    cbn [seq fmap list_fmap]. f_equal; [lia|]. rewrite <-seq_shift. unfold fmap.
    rewrite <-list_fmap_compose. apply list_fmap_ext. intros k x _. simpl. lia.
Qed.

(** [memory_init] establishes the allocator's invariant on the region
    malloc returned, with nothing carved and every list empty. *)
Theorem memory_init_ok c total s :
  0 < heap_base (hw s) ->
  exists s', exec c (memory_init total) s (Done tt s') /\
    heap_ok (heap_base (hw s)) s' ∅ (fun _ => []) /\
    tail s' = heap_base (hw s) /\ taillen s' = uint32 total.
Proof.
  intros Hb.
  assert (Hloop : forall n i s, Z.of_nat n = NALLOC - i -> 0 <= i ->
    (forall j, 0 <= j < i -> procmemlist s !! j = Some NULL) ->
    exists s', exec c (loop (fun i : Z =>
        if i <? NALLOC then (modify (upd_list i NULL);; ret (inl (i + 1))) else ret (inr tt)) i) s
        (Done tt s') /\ (forall j, 0 <= j < NALLOC -> procmemlist s' !! j = Some NULL) /\
      hw s' = hw s).
  { unfold NALLOC. clear s Hb. induction n as [|n IH]; intros i s Hn Hi Hj.
    - exists s. split_and!; [|intros; apply Hj; lia|done].
      eapply exec_loop; [zb; apply exec_ret|apply exec_ret].
    - destruct (IH (i + 1) (upd_list i NULL s)) as (s' & He & Hp & Hh); [lia|lia| |].
      { intros j Hlt. simpl. rewrite lookup_insert. case_decide; [done|apply Hj; lia]. }
      exists s'. split_and!; [|done|done].
      eapply exec_loop; [zb; xstep1; apply exec_ret|exact He]. }
  destruct (Hloop 24%nat 0 s) as (s1 & He & Hp & Hh); [done|lia|lia|].
  eexists. split_and!.
  - unfold memory_init. eapply exec_bind_done; [exact He|]. unfold acquire_memory.
    xstep1. xstep1. rewrite Hh.
    assert (heap_base (hw s) <> NULL) by (unfold NULL; lia). xstep.
  - unfold valid_index. split; simpl; [split; [done|apply Z.le_refl]| |set_solver|done|done].
    intros i Hi. unfold valid_index in Hi. split; [apply Hp; unfold NALLOC; lia|done].
  - done.
  - done.
Qed.

(** ** A sample heap *)

Lemma sample_heap : heap_ok 0x100000 sample ∅ (fun _ => []).
Proof.
  split; simpl; [lia| |set_solver|done|done].
  intros i Hi. unfold valid_index in Hi. split; [|done]. cbn [first].
  assert (Hf : Forall (fun k => procmemlist sample !! Z.of_nat k = Some NULL) (seq 0 24))
    by (repeat constructor).
  rewrite Forall_forall in Hf. rewrite <-(Z2Nat.id i) by lia. apply Hf. apply elem_of_seq. lia.
Qed.

Lemma allocate_mem_fresh_witness :
  exists s', exec 0 (allocate_mem 3) sample (Done 0x100000 s').
Proof.
  destruct (allocate_mem_fresh 0 0x100000 sample ∅ (fun _ => []) 3 sample_heap ltac:(done) eq_refl
    ltac:(by vm_compute) ltac:(by vm_compute)) as (a & s' & _ & _ & H1 & _ & _ & _ & _ & _ & Ha & _).
  exists s'. rewrite Ha in H1. exact H1.
Defined.

(** A class-0 and a class-3 block are in use. *)
Definition sample_carved : gmap addr Z := <[0x100012 := 3]> (<[0x100000 := 0]> ∅).
Definition sample_used : sys := set_tail 0x100072 sample.

Lemma sample_used_heap : heap_ok 0x100000 sample_used sample_carved (fun _ => []).
Proof.
  pose proof sample_heap as [_ H2 _ _ _].
  split; [simpl; lia|exact H2|set_solver| |].
  - intros a i. unfold sample_carved. rewrite !lookup_insert, lookup_empty.
    repeat case_decide; intros; simplify_eq; vm_compute; split_and!; congruence.
  - intros a i b j. unfold sample_carved. rewrite !lookup_insert, !lookup_empty.
    repeat case_decide; intros; simplify_eq; vm_compute; (left; congruence) || (right; congruence).
Qed.

Lemma release_then_allocate_witness :
  exists s1 s2, exec 0 (release_mem 3 0x100012) sample_used (Done tt s1) /\
    exec 0 (allocate_mem 3) s1 (Done 0x100012 s2).
Proof.
  destruct (release_then_allocate 0 0x100000 sample_used sample_carved (fun _ => []) 3 0x100012
    sample_used_heap ltac:(split; [done|set_solver]) eq_refl) as (s1 & s2 & H1 & _ & _ & H2 & _).
  exists s1, s2. split; assumption.
Defined.

(** The sample region has 5000 bytes; a third block of 4096 bytes is returned. *)
Lemma allocate_overruns_witness :
  exists s', exec 0 (allocate_n 3 14) sample (Done [0x100000; 0x101000; 0x102000] s').
Proof.
  destruct (allocate_overruns 0 0x100000 3 sample ∅ (fun _ => []) 14 sample_heap ltac:(done) eq_refl
    eq_refl ltac:(by vm_compute) ltac:(by vm_compute)) as (s' & H & _).
  exists s'. exact H.
Defined.

Lemma memory_init_ok_witness :
  exists s', exec 0 (memory_init 60000) (power_on 41 72 0x100000 0) (Done tt s') /\
    taillen s' = 60000.
Proof.
  destruct (memory_init_ok 0 60000 (power_on 41 72 0x100000 0) ltac:(done)) as (s' & H1 & _ & _ & H2).
  exists s'. split; [exact H1|]. rewrite H2. reflexivity.
Defined.
