(* ===== verification/AltState.v ===== *)
(** * AltState: the alternation state machine (alt.c)

    The transitions of a process's [alt_state], with the wake-up a writer to a
    guarded channel performs. *)

From S2P Require Import Prelude Prog State Hardware Exec Sched.

#[local] Open Scope prog_scope.

(** Transition to Enabling state. *)
Definition altEnabling (proc : addr) : cprog unit := pset proc (set_alt_state ALT_ENABLING).

(** Try to transition from Enabling to Waiting and return indication of success. *)
Definition altShouldWait (proc : addr) : cprog bool :=
  r <- cas_alt_state proc ALT_ENABLING ALT_WAITING;; ret r.1.

(** Transition to not alting. *)
Definition altFinish (proc : addr) : cprog unit := pset proc (set_alt_state ALT_NONE).

(** Frees alting process if necessary *)
Definition freeProcessMaybe (proc : addr) : cprog unit :=
  r <- cas_alt_state proc ALT_ENABLING ALT_READY;;
  if r.2 =? ALT_WAITING then
    (r2 <- cas_alt_state proc r.2 ALT_READY;;
     if r2.1 then schedule proc else ret tt)
  else ret tt.
