(* ===== verification/Calm.v ===== *)
(** * Calm: what the scheduler leaves alone

    The scheduler changes process records, ready queues, current processes,
    interprocessor queues and the hardware, and nothing else.  A program is
    [calm] when each of its actions is such; the operations of [Sched] and the
    wake-up protocol of the alternations are. *)

From S2P Require Import Prelude Prog State Linked Hardware Ipq.
From S2P Require Import Sched AltState.

#[local] Open Scope prog_scope.

(** The data that is not the scheduler's. *)
Definition data_of (s : sys) :=
  (mutexes s, procmemlist s, chain s, tail s, taillen s, currentTime s, timeQue s, timeouts s,
   (chans s, guards s, alts s, bars s, interrupts s, bytes s)).
Definition sched_only (s s' : sys) : Prop := data_of s' = data_of s.

Inductive calm : forall {A}, cprog A -> Prop :=
| calm_ret {A} (a : A) : calm (Ret a)
| calm_act {A B} (f : Z -> sys -> res sys B) (k : B -> cprog A) :
    (forall t s b s', f t s = Ok b s' -> sched_only s s') -> (forall b, calm (k b)) -> calm (Act f k)
| calm_loop {A X B} (body : X -> cprog (X + B)) x (k : B -> cprog A) :
    (forall x, calm (body x)) -> (forall b, calm (k b)) -> calm (Loop body x k)
| calm_switch {A} old new (k : cprog A) : calm k -> calm (Switch old new k).

Lemma calm_bind {A B} (p : cprog A) (g : A -> cprog B) :
  calm p -> (forall a, calm (g a)) -> calm (bind p g).
Proof. induction 1; intros Hg; simpl; [done|constructor; auto..]. Qed.

Create HintDb calm.

(** One action: its definition says what it changes. *)
Ltac calm_action :=
  apply calm_act; [|intros ?; apply calm_ret];
  intros ? ? ? ? ?; repeat case_match; simplify_eq/=; reflexivity.

Lemma calm_fetch {B} (f : sys -> option B) : calm (fetch f).
Proof. calm_action. Qed.
Lemma calm_plotz {A} w : calm (plotz w : cprog A).
Proof. apply calm_act; [done|apply calm_ret]. Qed.
Lemma calm_pset p f : calm (pset p f).
Proof. calm_action. Qed.
Lemma calm_xchg_sched p v : calm (xchg_sched_state p v).
Proof. calm_action. Qed.
Lemma calm_cas_sched p a b : calm (cas_sched_state p a b).
Proof. calm_action. Qed.
Lemma calm_cas_alt p a b : calm (cas_alt_state p a b).
Proof. calm_action. Qed.
Lemma calm_hset f : calm (hset f).
Proof. calm_action. Qed.
Lemma calm_set_own_mask m : calm (set_own_mask m).
Proof. calm_action. Qed.
Lemma calm_pthread_kill t g w : calm (pthread_kill t g w).
Proof. calm_action. Qed.
Lemma calm_set_rdy_head pun v : calm (set_rdy_head pun v).
Proof. calm_action. Qed.
Lemma calm_ipq_set pun f : calm (ipq_set pun f).
Proof. calm_action. Qed.
Lemma calm_ipq_store pun i v : calm (ipq_store pun i v).
Proof. calm_action. Qed.
Lemma calm_ipq_claim pun a a1 : calm (ipq_claim pun a a1).
Proof. calm_action. Qed.
#[export] Hint Resolve calm_ret calm_fetch calm_plotz calm_pset calm_xchg_sched calm_cas_sched
  calm_cas_alt calm_hset calm_set_own_mask calm_pthread_kill calm_set_rdy_head calm_ipq_set
  calm_ipq_store calm_ipq_claim : calm.

(** Composite programs: sequences, branches, loops. *)
Ltac calm_go :=
  intros; cbv zeta;
  repeat first
    [ assumption
    | solve [auto with calm]
    | match goal with
      | |- calm (bind _ _) => apply calm_bind; [|intros ?]
      | |- calm (loop _ _) => apply calm_loop; [intros ?|intros ?; apply calm_ret]
      | |- calm (ret _) => apply calm_ret
      | |- calm (act _) => calm_action
      | |- calm (Switch _ _ _) => apply calm_switch
      | |- calm (match ?x with _ => _ end) => destruct x
      end ].

Lemma calm_getcpu : calm getcpu.
Proof. unfold getcpu. calm_go. Qed.
#[export] Hint Resolve calm_getcpu : calm.
Lemma calm_disable : calm disable.
Proof. apply calm_set_own_mask. Qed.
Lemma calm_enable : calm enable.
Proof. unfold enable, hfetch. calm_go. Qed.
Lemma calm_get_current : calm get_current.
Proof. unfold get_current. calm_go. Qed.
Lemma calm_set_current p : calm (set_current p).
Proof. unfold set_current, pget, modify. calm_go. Qed.
Lemma calm_switch_context p q : calm (switch_context p q).
Proof. unfold switch_context, pget. calm_go. Qed.
#[export] Hint Resolve calm_disable calm_enable calm_get_current calm_set_current
  calm_switch_context : calm.

Lemma calm_walk test next prev curr :
  (forall x, calm (test x)) -> (forall x, calm (next x)) -> calm (walk test next prev curr).
Proof. intros. unfold walk. calm_go. Qed.
Lemma calm_enqueue0 p : calm (enqueue0 p).
Proof.
  unfold enqueue0, pget, rdy_head. apply calm_bind; [calm_go|intros pun].
  apply calm_bind; [calm_go|intros h]. apply calm_bind; [apply calm_walk; calm_go|]. calm_go.
Qed.
#[export] Hint Resolve calm_enqueue0 : calm.

Lemma calm_ipq_remove : calm ipq_remove.
Proof. unfold ipq_remove, ipq_get. calm_go. Qed.
Lemma calm_send_ipi pun : calm (send_interprocessor_interrupt pun).
Proof. unfold send_interprocessor_interrupt, hfetch. calm_go. Qed.
#[export] Hint Resolve calm_ipq_remove calm_send_ipi : calm.
Lemma calm_ipq_add pun p : calm (ipq_add pun p).
Proof. unfold ipq_add, ipq_add_try, ipq_room, ipq_fill, ipq_get. calm_go. Qed.
Lemma calm_drain_ipq : calm (drain_ipq enqueue0).
Proof. unfold drain_ipq. calm_go. Qed.
#[export] Hint Resolve calm_ipq_add calm_drain_ipq : calm.

Lemma calm_take pun : calm (take pun).
Proof. unfold take, rdy_head, pget. calm_go. Qed.
Lemma calm_take1 pun : calm (take1 pun).
Proof. unfold take1, rdy_head, pget. calm_go. Qed.
#[export] Hint Resolve calm_take calm_take1 : calm.

Lemma calm_schedule0 p : calm (schedule0 p).
Proof. unfold schedule0, pget. calm_go. Qed.
#[export] Hint Resolve calm_schedule0 : calm.
Lemma calm_schedule p : calm (schedule p).
Proof. unfold schedule. calm_go. Qed.
Lemma calm_relinquish : calm relinquish.
Proof. unfold relinquish, pget. calm_go. Qed.
Lemma calm_yield : calm yield.
Proof. unfold yield, pget. calm_go. Qed.
#[export] Hint Resolve calm_schedule calm_relinquish calm_yield : calm.
Lemma calm_freeProcessMaybe p : calm (freeProcessMaybe p).
Proof. unfold freeProcessMaybe. calm_go. Qed.
#[export] Hint Resolve calm_freeProcessMaybe : calm.
