(* ===== verification/Locked.v ===== *)
(** * Locked: critical sections under interleaving

    Any number of processes, on any processors, interleave their actions in any
    order, with context switches, preemption and whatever else the rest of the
    system does to data that the mutex does not protect.  What the processes do
    between [claim_mutex] and [release_mutex] then happens as if in one step:
    [locks] is the judgement for one process, [pool_atomic] composes them. *)

From stdpp Require Import functions.
From S2P Require Import Prelude Prog State Hardware Exec.
From S2P Require Import Sched Mutex AltState Calm.

#[local] Open Scope prog_scope.

(** ** Histories

    Which process performed which operation, in order. *)

Section Histories.
Context {E : Type}.

Definition ops_of (i : nat) (hist : list (nat * E)) : list E :=
  (filter (fun x : nat * E => x.1 = i) hist).*2.

Lemma ops_of_snoc i hist e : ops_of i (hist ++ [(i, e)]) = ops_of i hist ++ [e].
Proof. unfold ops_of. rewrite filter_app, filter_cons_True by done. by rewrite fmap_app. Qed.
Lemma ops_of_other i j hist e : j <> i -> ops_of i (hist ++ [(j, e)]) = ops_of i hist.
Proof. intros. unfold ops_of. rewrite filter_app, filter_cons_False by done. by rewrite app_nil_r. Qed.

(** The histories of the processes make up the whole history. *)
Lemma concat_insert (f f' : nat -> list E) e j l :
  NoDup l -> j ∈ l -> f' j = e :: f j -> (forall i, i <> j -> f' i = f i) ->
  e :: concat (f <$> l) ≡ₚ concat (f' <$> l).
Proof.
  intros Hnd Hj Hfj Hfo. induction l as [|i l IH]; [set_solver|]. apply NoDup_cons in Hnd as [Hi Hnd].
  rewrite !fmap_cons. cbn [concat]. destruct (decide (i = j)) as [->|Hne].
  - rewrite Hfj. simpl. assert (f' <$> l = f <$> l) as ->; [|done].
    apply list_fmap_ext. intros k x Hx. apply Hfo. intros ->. apply Hi.
    by eapply list_elem_of_lookup_2.
  - rewrite Hfo, <-IH by (done || set_solver). apply Permutation_middle.
Qed.

Lemma hist_perm n hist :
  Forall (fun x : nat * E => (x.1 < n)%nat) hist ->
  hist.*2 ≡ₚ concat ((fun i => ops_of i hist) <$> seq 0 n).
Proof.
  induction 1 as [|[j e] hist Hj _ IH].
  - simpl. generalize 0%nat. induction n as [|n IHn]; intros k; [done|]. simpl. apply IHn.
  - simpl. rewrite IH. apply (concat_insert _ _ e j).
    + apply NoDup_seq.
    + apply elem_of_seq. simpl in Hj. lia.
    + unfold ops_of. by rewrite filter_cons_True.
    + intros i Hi. unfold ops_of. by rewrite filter_cons_False by (simpl; congruence).
Qed.
End Histories.

(** ** Processes that share the state *)

(** One action of a process on processor [t].  A process that is switched out
    goes on where it was when it gets the processor again. *)
Definition advance {A} (t : Z) (p : cprog A) (s : sys) : option (cprog A * sys) :=
  match p with
  | Act f k => match f t s with Ok b s' => Some (k b, s') | _ => None end
  | Loop body x k => Some (bind (body x) (loop_k body k), s)
  | Switch _ _ k => Some (k, s)
  | _ => None
  end.

Section Pool.
Context (m : mutex_p) {D : Type} (view : sys -> D).

Abbreviation pool A := (list (Z * cprog A)).

(** The protected data is [view]; everything else may change at any time. *)
Inductive pool_step {A} : pool A * sys -> pool A * sys -> Prop :=
| pool_act i t p p' ps s s' :
    ps !! i = Some (t, p) -> advance t p s = Some (p', s') ->
    pool_step (ps, s) (<[i := (t, p')]> ps, s')
| pool_other ps s s' :
    mutexes s' !! m = mutexes s !! m -> view s' = view s -> pool_step (ps, s) (ps, s').

(** An interleaving given as the list of the processes whose turn it is. *)
Definition pool_turn {A} (c : pool A * sys) (i : nat) : pool A * sys :=
  match c.1 !! i with
  | Some (t, p) => match advance t p c.2 with
                   | Some (p', s') => (<[i := (t, p')]> c.1, s')
                   | None => c
                   end
  | None => c
  end.

Lemma pool_turns {A} is_ (c : pool A * sys) : rtc pool_step c (foldl pool_turn c is_).
Proof.
  revert c. induction is_ as [|i is_ IH]; intros c; [done|]. simpl.
  etransitivity; [|apply IH]. destruct c as [ps s]. unfold pool_turn. simpl.
  destruct (ps !! i) as [[t p]|] eqn:E; [|done].
  destruct (advance t p s) as [[p' s']|] eqn:E2; [|done]. apply rtc_once. by eapply pool_act.
Qed.

Lemma pool_length {A} (c c' : pool A * sys) : rtc pool_step c c' -> length c'.1 = length c.1.
Proof.
  induction 1 as [c|c c1 c' Hs _ IH]; [done|]. rewrite IH. destruct Hs; simpl; [|done].
  apply length_insert.
Qed.

(** ** One process

    [sem e d d'] is the abstract operation [e] on the protected data.  A process
    has done some operations, and is outside the critical section or inside,
    where it has changed the data from [d0] to [d] so far. *)
Context {E : Type} (sem : E -> D -> D -> Prop).
Hypothesis view_mutex : forall b s, view (upd_mutex m b s) = view s.
Hypothesis view_calm : forall s s', sched_only s s' -> view s' = view s.

Inductive phase :=
| Outside (es : list E)
| Inside (es : list E) (d0 d : D).

Definition done_ops (g : phase) : list E :=
  match g with Outside es | Inside es _ _ => es end.
Definition agrees (g : phase) (s : sys) : Prop :=
  match g with
  | Outside _ => True
  | Inside _ _ d => mutexes s !! m = Some true /\ view s = d
  end.
Definition moved (g : phase) (s : sys) : phase :=
  match g with Outside es => Outside es | Inside es d0 _ => Inside es d0 (view s) end.
Definition allowed (g : phase) (s s' : sys) : Prop :=
  mutexes s' !! m = mutexes s !! m /\
  match g with Outside _ => view s' = view s | Inside _ _ _ => True end.

(** The process keeps the discipline of the mutex, performs the operations it
    says it does, and returns in [Q]. *)
Inductive locks : forall {A}, phase -> cprog A -> (A -> phase -> Prop) -> Prop :=
| lk_ret {A} (a : A) g (Q : A -> phase -> Prop) : Q a g -> locks g (Ret a) Q
| lk_act {A B} (f : Z -> sys -> res sys B) (k : B -> cprog A) g Q :
    (forall t s b s', agrees g s -> f t s = Ok b s' -> allowed g s s') ->
    (forall t s b s', agrees g s -> f t s = Ok b s' -> locks (moved g s') (k b) Q) ->
    locks g (Act f k) Q
| lk_claim {A} (k : bool -> cprog A) es Q :
    (forall d, locks (Inside es d d) (k false) Q) -> locks (Outside es) (k true) Q ->
    locks (Outside es) (bind (xchg_claimed m true) k) Q
| lk_release {A} (k : unit -> cprog A) es e d0 d Q :
    sem e d0 d -> locks (Outside (es ++ [e])) (k tt) Q ->
    locks (Inside es d0 d) (bind (release_mutex m) k) Q
| lk_loop {A X B} (body : X -> cprog (X + B)) x (k : B -> cprog A) g Q
    (J : X -> phase -> Prop) (R : B -> phase -> Prop) :
    J x g ->
    (forall x g, J x g ->
       locks g (body x) (fun r g' => match r with inl x' => J x' g' | inr b => R b g' end)) ->
    (forall b g, R b g -> locks g (k b) Q) ->
    locks g (Loop body x k) Q
| lk_switch {A} old new (k : cprog A) g Q : locks g k Q -> locks g (Switch old new k) Q.

Lemma locks_bind {A B} g (p : cprog A) (f : A -> cprog B) R Q :
  locks g p R -> (forall a g', R a g' -> locks g' (f a) Q) -> locks g (bind p f) Q.
Proof.
  intros H. revert f Q. induction H as [A a g R Ha|A C h k g R Hal _ IH|A k es R _ IHf _ IHt|
    A k es e d0 d R Hs _ IH|A X C body x k g R J R' HJ Hb _ _ IH|A old new k g R _ IH]; intros f Q Hf.
  - by apply Hf.
  - cbn [bind]. apply lk_act; [exact Hal|]. intros. by eapply IH.
  - rewrite bind_assoc. apply lk_claim; [intros d; by apply IHf|by apply IHt].
  - rewrite bind_assoc. eapply lk_release; [exact Hs|by apply IH].
  - cbn [bind]. eapply lk_loop; [exact HJ|exact Hb|]. intros b g' Hr. by eapply IH.
  - cbn [bind]. apply lk_switch. by apply IH.
Qed.

Lemma locks_weaken {A} g (p : cprog A) (Q Q' : A -> phase -> Prop) :
  locks g p Q -> (forall a g', Q a g' -> Q' a g') -> locks g p Q'.
Proof.
  intros H HQ. rewrite <-(bind_ret_r p). eapply locks_bind; [exact H|].
  intros a g' Ha. apply lk_ret. by apply HQ.
Qed.

(** Actions that leave the protected data alone. *)
Lemma locks_calm {A} g (p : cprog A) : calm p -> locks g p (fun _ g' => g' = g).
Proof.
  intros H. revert g. induction H as [A a|A B f k Hf _ IH|A X B body x k _ IHb _ IHk|A old new k _ IH]; intros g.
  - by apply lk_ret.
  - apply lk_act.
    + intros t s b s' _ Hok. specialize (Hf t s b s' Hok). split; [|destruct g; auto].
      by injection Hf as ->.
    + intros t s b s' Hag Hok. specialize (Hf t s b s' Hok).
      assert (moved g s' = g) as ->; [|apply IH].
      destruct g as [|es d0 d]; [done|]. destruct Hag as [_ <-]. simpl. by rewrite (view_calm s s').
  - apply (lk_loop _ _ _ _ _ (fun _ g' => g' = g) (fun _ g' => g' = g)); [done| |].
    + intros x' g' ->. eapply locks_weaken; [apply IHb|]. by intros [] g'.
    + intros b g' ->. apply IHk.
  - by apply lk_switch.
Qed.

Lemma locks_skip {A B} g (p : cprog A) (k : A -> cprog B) Q :
  calm p -> (forall a, locks g (k a) Q) -> locks g (bind p k) Q.
Proof. intros Hp Hk. eapply locks_bind; [by apply locks_calm|]. by intros a g' ->. Qed.

(** Inside, what an action reads and writes. *)
Lemma locks_act {A B} (f : Z -> sys -> res sys B) (k : B -> cprog A) es d0 d Q :
  (forall t s b s', view s = d -> f t s = Ok b s' ->
     mutexes s' !! m = mutexes s !! m /\ locks (Inside es d0 (view s')) (k b) Q) ->
  locks (Inside es d0 d) (bind (act f) k) Q.
Proof.
  intros Hf. apply lk_act; intros t s b s' [_ Hv] Hok; destruct (Hf t s b s' Hv Hok); by try split.
Qed.

Lemma locks_fetch {A B} (f : sys -> option B) (k : B -> cprog A) es d0 d Q :
  (forall s b, view s = d -> f s = Some b -> locks (Inside es d0 d) (k b) Q) ->
  locks (Inside es d0 d) (bind (fetch f) k) Q.
Proof.
  intros Hf. apply locks_act. intros t s b s' <- Hok. destruct (f s) eqn:Ef; simplify_eq.
  split; [done|]. by eapply Hf.
Qed.

Lemma locks_store {A} (f : sys -> option sys) (k : unit -> cprog A) es d0 d Q :
  (forall s s', view s = d -> f s = Some s' ->
     mutexes s' = mutexes s /\ locks (Inside es d0 (view s')) (k tt) Q) ->
  locks (Inside es d0 d) (bind (store f) k) Q.
Proof.
  intros Hf. apply locks_act. intros t s b s' <- Hok. destruct (f s) eqn:Ef; simplify_eq.
  by destruct (Hf s s' eq_refl Ef) as [-> ?].
Qed.

Lemma locks_modify {A} (f : sys -> sys) (k : unit -> cprog A) es d0 d Q :
  (forall s, view s = d ->
     mutexes (f s) = mutexes s /\ locks (Inside es d0 (view (f s))) (k tt) Q) ->
  locks (Inside es d0 d) (bind (modify f) k) Q.
Proof.
  intros Hf. apply locks_act. intros t s b s' <- Hok. simplify_eq.
  by destruct (Hf s eq_refl) as [-> ?].
Qed.

(** Claiming: the process spins and yields outside, and returns inside. *)
Lemma locks_claim {A} (k : unit -> cprog A) es Q :
  (forall d, locks (Inside es d d) (k tt) Q) -> locks (Outside es) (bind (claim_mutex m) k) Q.
Proof.
  intros Hk. unfold claim_mutex.
  eapply (lk_loop _ _ _ _ _ (fun _ g => g = Outside es) (fun _ g => exists d, g = Inside es d d));
    [done| |by intros [] g (d & ->)].
  intros [] g ->.
  eapply (lk_loop _ _ _ _ _ (fun _ g => g = Outside es)
    (fun old g => if old : bool then g = Outside es else exists d, g = Inside es d d)); [done|..].
  - intros i g ->. apply lk_claim.
    + intros d. cbn [andb]. apply lk_ret. eauto.
    + cbn [andb]. case_match; by apply lk_ret.
  - intros [|] g.
    + intros ->. cbn [negb]. apply locks_skip; [apply calm_yield|]. intros []. by apply lk_ret.
    + intros (d & ->). cbn [negb]. apply lk_ret. by exists d.
Qed.

(** What one action does to the phase. *)
Inductive phase_step (g : phase) (s : sys) (g' : phase) (s' : sys) : Prop :=
| ps_out es : g = Outside es -> g' = Outside es -> mutexes s' !! m = mutexes s !! m ->
    view s' = view s -> phase_step g s g' s'
| ps_in es d0 d : g = Inside es d0 d -> g' = Inside es d0 (view s') ->
    mutexes s' !! m = mutexes s !! m -> phase_step g s g' s'
| ps_claim es : g = Outside es -> g' = Inside es (view s) (view s) ->
    mutexes s !! m = Some false -> mutexes s' !! m = Some true -> view s' = view s ->
    phase_step g s g' s'
| ps_release es d0 d e : g = Inside es d0 d -> g' = Outside (es ++ [e]) -> sem e d0 d ->
    mutexes s' !! m = Some false -> view s' = view s -> phase_step g s g' s'.

Lemma phase_same g s : agrees g s -> phase_step g s g s.
Proof. destruct g as [es|es d0 d]; [intros _; by eapply ps_out|intros [_ <-]; by eapply ps_in]. Qed.

Lemma locks_step {A} g (p : cprog A) Q t s p' s' :
  locks g p Q -> agrees g s -> advance t p s = Some (p', s') ->
  exists g', locks g' p' Q /\ phase_step g s g' s'.
Proof.
  intros H Hag Had. destruct H as [A a g Q Ha|A C f k g Q Hal Hk|A k es Q Hf Ht|
    A k es e d0 d Q Hs Hk|A X C body x k g Q J R HJ Hb Hk|A old new k g Q Hk]; simpl in Had.
  - done.
  - destruct (f t s) as [b s1| |] eqn:Ef; simplify_eq. exists (moved g s'). split; [by eapply Hk|].
    destruct (Hal _ _ _ _ Hag Ef) as [Hm Hv].
    destruct g; [by eapply ps_out|by eapply ps_in].
  - destruct (mutexes s !! m) as [b|] eqn:Em; simplify_eq.
    assert (Hm : mutexes (upd_mutex m true s) !! m = Some true) by apply lookup_insert_eq.
    destruct b.
    + exists (Outside es). split; [exact Ht|]. eapply ps_out; [done..|by rewrite Hm|apply view_mutex].
    + eexists. split; [apply (Hf (view s))|]. eapply ps_claim; [done..|exact Hm|apply view_mutex].
  - destruct Hag as [Hm Hv]. rewrite Hm in Had. simplify_eq. eexists. split; [exact Hk|].
    eapply ps_release; [done..|apply lookup_insert_eq|apply view_mutex].
  - simplify_eq. exists g. split; [|by apply phase_same]. eapply locks_bind; [by apply Hb|].
    intros [x'|b] g' Hr; simpl; [by eapply lk_loop|by apply Hk].
  - simplify_eq. exists g. split; [exact Hk|by apply phase_same].
Qed.

Lemma locks_result {A} g (a : A) Q : locks g (Ret a) Q -> Q a g.
Proof.
  remember (Ret a) as p eqn:Hp. intros H. destruct H; try discriminate. by injection Hp as ->.
Qed.

(** ** All processes

    [hist] has the operations in the order in which the critical sections ended. *)
Fixpoint runs (es : list E) (d d' : D) : Prop :=
  match es with
  | [] => d = d'
  | e :: es => exists d1, sem e d d1 /\ runs es d1 d'
  end.

Lemma runs_snoc es e d d1 d2 : runs es d d1 -> sem e d1 d2 -> runs (es ++ [e]) d d2.
Proof.
  revert d. induction es as [|x es IH]; intros d Hr Hs; simpl in *.
  - subst. by exists d2.
  - destruct Hr as (d3 & Hx & Hr). eauto.
Qed.

Section All.
Context {A : Type} (Q : nat -> A -> list E -> Prop) (d0 : D).

Definition post (i : nat) (a : A) (g : phase) : Prop := exists es, g = Outside es /\ Q i a es.

(** At most one process is inside, and then the mutex is claimed. *)
Record pool_ok (c : pool A * sys) (gs : nat -> phase) (own : option nat) (hist : list (nat * E))
    (d : D) : Prop := {
  po_locks : forall i t p, c.1 !! i = Some (t, p) -> locks (gs i) p (post i);
  po_outside : forall i, own <> Some i -> gs i = Outside (ops_of i hist);
  po_own : match own with
           | None => mutexes c.2 !! m = Some false /\ view c.2 = d
           | Some i => mutexes c.2 !! m = Some true /\ gs i = Inside (ops_of i hist) d (view c.2)
           end;
  po_runs : runs hist.*2 d0 d;
  po_index : Forall (fun x : nat * E => (x.1 < length c.1)%nat) hist }.

Lemma pool_ok_agrees c gs own hist d i : pool_ok c gs own hist d -> agrees (gs i) c.2.
Proof.
  intros [_ Ho Hw _ _]. destruct (decide (own = Some i)) as [->|Hne].
  - destruct Hw as [Hm ->]. by split.
  - by rewrite (Ho i Hne).
Qed.

Lemma pool_locks (ps : pool A) i t p (gs : nat -> phase) g :
  (forall j t q, ps !! j = Some (t, q) -> locks (gs j) q (post j)) -> locks g p (post i) ->
  forall j t1 q, <[i := (t, p)]> ps !! j = Some (t1, q) -> locks (<[i := g]> gs j) q (post j).
Proof.
  intros Hl Hg j t1 q Hj. destruct (decide (i = j)) as [->|Hne].
  - rewrite fn_lookup_insert. assert (j < length ps)%nat as Hlt.
    { apply lookup_lt_Some in Hj. by rewrite length_insert in Hj. }
    rewrite list_lookup_insert_eq in Hj by done. by simplify_eq.
  - rewrite list_lookup_insert_ne in Hj by done. rewrite fn_lookup_insert_ne by done. by eapply Hl.
Qed.

Lemma pool_ok_step c gs own hist d c' :
  pool_ok c gs own hist d -> pool_step c c' ->
  exists gs' own' hist' d', pool_ok c' gs' own' hist' d'.
Proof.
  intros Hok Hstep. destruct Hstep as [i t p p' ps s s' Hi Hp|ps s s' Hm Hv].
  2: { exists gs, own, hist, d. destruct Hok as [H1 H2 H3 H4 H5]. split; [done..| |done|done].
       simpl in *. by rewrite Hm, Hv. }
  pose proof (pool_ok_agrees _ _ _ _ _ i Hok) as Hag.
  destruct Hok as [Hl Ho Hw Hr Hx]. simpl in *.
  destruct (locks_step _ _ _ _ _ _ _ (Hl i t p Hi) Hag Hp) as (g & Hg & Hst).
  pose proof (pool_locks ps i t p' gs g Hl Hg) as Hl'.
  assert (Hin : forall es b c, gs i = Inside es b c -> own = Some i).
  { intros es b c Hgi. destruct (decide (own = Some i)) as [|Hne]; [done|].
    rewrite (Ho i Hne) in Hgi. done. }
  assert (Hrest : forall h' j, own <> Some j -> j <> i -> ops_of j h' = ops_of j hist ->
    <[i := g]> gs j = Outside (ops_of j h')).
  { intros h' j Hj Hji ->. rewrite fn_lookup_insert_ne by done. by apply Ho. }
  assert (Hx' : forall (h : list (nat * E)), Forall (fun x => (x.1 < length ps)%nat) h ->
    Forall (fun x => (x.1 < length (<[i := (t, p')]> ps))%nat) h) by (intros; by rewrite length_insert).
  destruct Hst as [es Hgi -> Hm Hv|es b e Hgi -> Hm|es Hgi -> Hf Hm Hv|es b e x Hgi -> Hse Hm Hv].
  - exists (<[i := Outside es]> gs), own, hist, d. split; [exact Hl'| | |done|by apply Hx'].
    + intros j Hj. destruct (decide (i = j)) as [->|Hne]; [|by apply Hrest].
      rewrite fn_lookup_insert. by rewrite <-Hgi, Ho.
    + destruct own as [j|]; simpl in *; rewrite ?Hm, ?Hv; [|done].
      destruct Hw as [? Hj]. split; [done|]. rewrite fn_lookup_insert_ne; [done|]. intros ->. congruence.
  - pose proof (Hin _ _ _ Hgi) as ->. destruct Hw as [Hmt Hwi]. rewrite Hgi in Hwi. simplify_eq.
    eexists _, (Some i), hist, _. split; [exact Hl'| | |exact Hr|by apply Hx'].
    + intros j Hj. apply Hrest; congruence.
    + simpl. rewrite Hm, fn_lookup_insert. done.
  - assert (own = None) as ->.
    { destruct own as [j|]; [|done]. destruct Hw as [Hmt _]. by rewrite Hf in Hmt. }
    destruct Hw as [_ <-]. pose proof (Ho i ltac:(done)) as Hoi. rewrite Hgi in Hoi. simplify_eq.
    eexists _, (Some i), hist, _. split; [exact Hl'| | |exact Hr|by apply Hx'].
    + intros j Hj. apply Hrest; congruence.
    + simpl. rewrite Hm, fn_lookup_insert, Hv. done.
  - pose proof (Hin _ _ _ Hgi) as ->. destruct Hw as [Hmt Hwi]. rewrite Hgi in Hwi. simplify_eq.
    eexists _, None, (hist ++ [(i, x)]), _. split; [exact Hl'| | | |apply Hx', Forall_app_2; [exact Hx|]].
    + intros j _. destruct (decide (i = j)) as [->|Hne].
      * by rewrite fn_lookup_insert, ops_of_snoc.
      * apply Hrest; [congruence..|]. by apply ops_of_other.
    + simpl. by rewrite Hm, Hv.
    + rewrite fmap_app, Hv. eapply runs_snoc; [exact Hr|exact Hse].
    + apply Forall_singleton. by eapply lookup_lt_Some.
Qed.

(** Every interleaving has the effect of the operations one after the other, and
    what a process returns is right for the operations it performed. *)
Theorem pool_atomic ps s ps' s' :
  mutexes s !! m = Some false -> view s = d0 ->
  (forall i t p, ps !! i = Some (t, p) -> locks (Outside []) p (post i)) ->
  rtc pool_step (ps, s) (ps', s') ->
  exists hist d, runs hist.*2 d0 d /\ Forall (fun x : nat * E => (x.1 < length ps')%nat) hist /\
    (forall i t a, ps' !! i = Some (t, Ret a) -> Q i a (ops_of i hist)) /\
    (mutexes s' !! m = Some false -> view s' = d).
Proof.
  intros Hm Hv Hl Hr.
  assert (H0 : exists gs own hist d, pool_ok (ps, s) gs own hist d).
  { exists (fun _ => Outside []), None, [], d0. by split. }
  remember (ps, s) as c eqn:Hc. remember (ps', s') as c' eqn:Hc'. clear Hc Hm Hv Hl ps s.
  revert Hc'. induction Hr as [c|c c1 c' Hs _ IH]; intros Hc'.
  - subst c. destruct H0 as (gs & own & hist & d & [Hl Ho Hw Hr Hx]). exists hist, d.
    split_and!; [done|exact Hx| |].
    + intros i t a Hi. apply Hl, locks_result in Hi as (es & Hg & HQ).
      destruct (decide (own = Some i)) as [->|Hne].
      * destruct Hw as [_ Hw]. congruence.
      * rewrite (Ho i Hne) in Hg. by simplify_eq.
    + simpl in *. destruct own; [destruct Hw; congruence|]. by destruct Hw.
  - apply IH; [|done]. destruct H0 as (gs & own & hist & d & Hok). by eapply pool_ok_step.
Qed.
End All.
End Pool.
