(* ===== verification/HeapShared.v ===== *)
(** * HeapShared: the allocator used by many processes at once

    Processes on any processors allocate and release blocks while their actions
    interleave: the effect is that of the same calls one after the other, so the
    blocks that are returned never overlap. *)

From S2P Require Import Prelude Prog State Fixture Linked Hardware Exec.
From S2P Require Import Sched Mutex AltState Calm Locked Memory Heap.

#[local] Open Scope prog_scope.

(** ** The data the mutex protects, and the calls as operations on it *)

Record heap := mkHeap {
  h_lists : gmap Z addr;
  h_chain : gmap addr addr;
  h_tail : addr;
  h_taillen : Z }.
Definition heap_of (s : sys) : heap := mkHeap (procmemlist s) (chain s) (tail s) (taillen s).

Inductive heap_op :=
| HAlloc (i : Z)
| HFree (i : Z) (a : addr).

(** What a call returns and leaves; none if it ends the program or faults. *)
Definition heap_step (op : heap_op) (d : heap) : option (addr * heap) :=
  match op with
  | HAlloc i =>
      b ← h_lists d !! i;
      if negb (b =? NULL) then
        n ← h_chain d !! b;
        Some (b, mkHeap (<[i := n]> (h_lists d)) (h_chain d) (h_tail d) (h_taillen d))
      else
        len ← (if 0 <=? i then procmemlen !! Z.to_nat i else None);
        if h_taillen d >=? uint16 len then
          Some (h_tail d, mkHeap (h_lists d) (h_chain d) (uint32 (h_tail d + uint16 len)) (h_taillen d))
        else None
  | HFree i a =>
      h ← h_lists d !! i;
      if a =? NULL then None
      else Some (a, mkHeap (<[i := a]> (h_lists d)) (<[a := h]> (h_chain d)) (h_tail d) (h_taillen d))
  end.
Definition heap_sem (e : heap_op * addr) (d d' : heap) : Prop := heap_step e.1 d = Some (e.2, d').

Definition heap_call (op : heap_op) : cprog addr :=
  match op with
  | HAlloc i => allocate_mem i
  | HFree i a => release_mem i a;; ret a
  end.
Fixpoint heap_client (ops : list heap_op) : cprog (list addr) :=
  match ops with
  | [] => ret []
  | op :: ops => a <- heap_call op;; l <- heap_client ops;; ret (a :: l)
  end.

(** ** One call alone *)

Lemma heap_call_run c op s a d :
  mutexes s !! mutex_mem = Some false -> heap_step op (heap_of s) = Some (a, d) ->
  exists s', exec c (heap_call op) s (Done a s') /\ heap_of s' = d /\ mutexes s' = mutexes s.
Proof.
  intros Hm. destruct op as [i|i b]; cbn [heap_step heap_call h_lists heap_of].
  - destruct (procmemlist s !! i) as [b|] eqn:Hh; [|done]. cbn [mbind option_bind].
    destruct (b =? NULL) eqn:Hb; cbn [negb].
    + apply Z.eqb_eq in Hb as ->. intros Hs.
      destruct (if 0 <=? i then procmemlen !! Z.to_nat i else None) as [len|] eqn:El; [|done].
      cbn [mbind option_bind h_taillen heap_of] in Hs. destruct (taillen s >=? uint16 len) eqn:Ht; simplify_eq.
      exists (set_tail (uint32 (tail s + uint16 len)) s). split_and!; [|done|done].
      unfold allocate_mem. eapply (claim_free (release := release_mutex)); [exact Hm|].
      eapply exec_fetch; [exact Hh|]. cbn [Z.eqb NULL negb]. rewrite !bind_assoc.
      eapply exec_fetch; [exact El|]. cbv zeta. rewrite !bind_assoc.
      eapply exec_fetch; [done|]. simpl taillen. rewrite Ht. do 3 xstep1. xstep1.
      eapply (release_taken (claim := claim_mutex)); [simpl; rewrite lookup_insert_eq; by eexists|].
      erewrite (upd_mutex_undo mutex_mem s); [apply exec_ret|exact Hm|done|done].
    + cbn [h_chain heap_of]. intros Hs. destruct (chain s !! b) as [n|] eqn:Hn; [|done].
      cbn [mbind option_bind] in Hs. simplify_eq.
      exists (upd_list i n s). split_and!; [|done|done].
      unfold allocate_mem. eapply (claim_free (release := release_mutex)); [exact Hm|].
      eapply exec_fetch; [exact Hh|]. rewrite Hb. cbn [negb]. xstep1.
      eapply exec_fetch; [exact Hn|]. unfold set_list. xstep1.
      eapply exec_store; [simpl; by rewrite Hh|]. xstep1.
      eapply (release_taken (claim := claim_mutex)); [simpl; rewrite lookup_insert_eq; by eexists|].
      erewrite (upd_mutex_undo mutex_mem s); [apply exec_ret|exact Hm|done|done].
  - destruct (procmemlist s !! i) as [h|] eqn:Hh; [|done]. cbn [mbind option_bind].
    destruct (b =? NULL) eqn:Hb; [done|]. intros Hs. simplify_eq. apply Z.eqb_neq in Hb.
    exists (upd_list i a (upd_chain a h s)). split_and!; [|done|done].
    eapply exec_bind_done; [exact (release_mem_run c s i a h Hh Hb Hm)|apply exec_ret].
Qed.

(** ** One call among others *)

Lemma heap_of_mutex b s : heap_of (upd_mutex mutex_mem b s) = heap_of s.
Proof. done. Qed.
Lemma heap_of_calm s s' : sched_only s s' -> heap_of s' = heap_of s.
Proof. unfold sched_only, data_of, heap_of. by intros [= _ -> -> -> ->]. Qed.

Abbreviation hlocks := (locks mutex_mem heap_of heap_sem).

(** The released data is what the call's operation makes of the data it found. *)
Lemma hlocks_commit {A} es op a d0 d (k : unit -> cprog A) Q :
  heap_step op d0 = Some (a, d) -> hlocks (Outside (es ++ [(op, a)])) (k tt) Q ->
  hlocks (Inside es d0 d) (bind (release_mutex mutex_mem) k) Q.
Proof. intros Hs Hk. apply (lk_release _ _ _ k es (op, a)); [exact Hs|exact Hk]. Qed.

Lemma set_list_locks {A} es d0 d i n (k : unit -> cprog A) Q :
  (is_Some (h_lists d !! i) ->
   hlocks (Inside es d0 (mkHeap (<[i := n]> (h_lists d)) (h_chain d) (h_tail d) (h_taillen d))) (k tt) Q) ->
  hlocks (Inside es d0 d) (bind (set_list i n) k) Q.
Proof.
  intros Hk. apply locks_store. intros s s' <- Hs. destruct (procmemlist s !! i) eqn:E; simplify_eq.
  split; [done|]. apply Hk. simpl. by rewrite E.
Qed.

Lemma alloc_locks es i :
  hlocks (Outside es) (allocate_mem i) (fun a g => g = Outside (es ++ [(HAlloc i, a)])).
Proof.
  unfold allocate_mem. apply locks_claim; [apply heap_of_calm|]. intros d.
  apply locks_fetch. intros s b <- Hb. destruct (b =? NULL) eqn:E; cbn [negb]; rewrite !bind_assoc.
  - unfold procmemlen_get. apply locks_fetch. intros s1 len He1 Hlen. cbv zeta.
    rewrite !bind_assoc. apply locks_fetch. intros s2 tl He2 [= <-].
    destruct (taillen s2 >=? uint16 len) eqn:Et; [|by apply lk_act].
    rewrite !bind_assoc. apply locks_fetch. intros s3 b3 He3 [= <-]. rewrite bind_assoc.
    apply locks_modify. intros s4 He4. split; [done|]. cbn [bind ret].
    eapply hlocks_commit; [|by apply lk_ret].
    unfold heap_of in He1, He2, He3, He4. injection He2 as E1 E2 E3 E4.
    injection He3 as F1 F2 F3 F4. injection He4 as G1 G2 G3 G4.
    cbn [heap_step h_lists heap_of]. rewrite Hb. cbn [mbind option_bind]. rewrite E. cbn [negb].
    rewrite Hlen. cbn [mbind option_bind h_taillen heap_of]. rewrite <-E4, Et.
    unfold heap_of. simpl. congruence.
  - apply locks_fetch. intros s1 n He1 Hn. rewrite bind_assoc. apply set_list_locks. intros _. cbn [bind ret].
    eapply hlocks_commit; [|by apply lk_ret].
    unfold heap_of in He1. injection He1 as E1 E2 E3 E4.
    cbn [heap_step h_lists heap_of]. rewrite Hb. cbn [mbind option_bind]. rewrite E. cbn [negb h_chain heap_of].
    by rewrite <-E2, Hn.
Qed.

Lemma free_locks es i a :
  hlocks (Outside es) (release_mem i a) (fun _ g => g = Outside (es ++ [(HFree i a, a)])).
Proof.
  unfold release_mem. apply locks_claim; [apply heap_of_calm|]. intros d.
  apply locks_fetch. intros s h <- Hh. destruct (a =? NULL) eqn:E; [by apply lk_act|].
  apply locks_modify. intros s1 He1. split; [done|]. apply set_list_locks. intros _.
  rewrite <-(bind_ret_r (release_mutex _)).
  eapply hlocks_commit; [|by apply lk_ret].
  unfold heap_of in He1 |- *. injection He1 as E1 E2 E3 E4.
  cbn [heap_step h_lists heap_of]. rewrite Hh. cbn [mbind option_bind]. rewrite E. simpl. congruence.
Qed.

Lemma heap_call_locks es op :
  hlocks (Outside es) (heap_call op) (fun a g => g = Outside (es ++ [(op, a)])).
Proof.
  destruct op as [i|i a]; [apply alloc_locks|]. cbn [heap_call].
  eapply locks_bind; [apply free_locks|]. intros u g ->. by apply lk_ret.
Qed.

Lemma heap_client_locks es ops :
  hlocks (Outside es) (heap_client ops)
    (fun l g => exists es', g = Outside (es ++ es') /\ es' = zip ops l /\ length l = length ops).
Proof.
  revert es. induction ops as [|op ops IH]; intros es; cbn [heap_client].
  - apply lk_ret. exists []. by rewrite app_nil_r.
  - eapply locks_bind; [apply heap_call_locks|]. intros a g ->.
    eapply locks_bind; [apply IH|]. intros l g (es' & -> & -> & Hl). apply lk_ret.
    eexists. split; [by rewrite <-app_assoc|]. simpl. by rewrite Hl.
Qed.

(** ** All processes *)

(** Processes on the given processors, each with its calls. *)
Definition heap_pool (jobs : list (Z * list heap_op)) : list (Z * cprog (list addr)) :=
  (fun x => (x.1, heap_client x.2)) <$> jobs.
Abbreviation heap_step_any := (pool_step mutex_mem heap_of).

(** A history is what one process that makes all the calls does. *)
Lemma heap_client_run c es s d :
  mutexes s !! mutex_mem = Some false -> runs heap_sem es (heap_of s) d ->
  exists s', exec c (heap_client es.*1) s (Done es.*2 s') /\ heap_of s' = d.
Proof.
  revert s. induction es as [|[op a] es IH]; intros s Hm Hr.
  - exists s. split; [apply exec_ret|by symmetry].
  - destruct Hr as (d1 & Hs & Hr). destruct (heap_call_run c op s a d1 Hm Hs) as (s1 & He & <- & Hm1).
    destruct (IH s1 ltac:(by rewrite Hm1) Hr) as (s2 & He2 & Hd). exists s2. split; [|exact Hd].
    cbn [fmap list_fmap fst snd heap_client]. eapply exec_bind_done; [exact He|].
    eapply exec_bind_done; [exact He2|apply exec_ret].
Qed.

Lemma heap_pool_atomic jobs s ps s' :
  mutexes s !! mutex_mem = Some false -> rtc heap_step_any (heap_pool jobs, s) (ps, s') ->
  exists hist d, runs heap_sem hist.*2 (heap_of s) d /\
    Forall (fun x : nat * (heap_op * addr) => (x.1 < length ps)%nat) hist /\
    (forall i t ops t' l, jobs !! i = Some (t, ops) -> ps !! i = Some (t', Ret l) ->
       ops_of i hist = zip ops l /\ length l = length ops) /\
    (mutexes s' !! mutex_mem = Some false -> heap_of s' = d).
Proof.
  intros Hm Hr.
  destruct (pool_atomic mutex_mem heap_of heap_sem heap_of_mutex
    (fun i l es => forall t ops, jobs !! i = Some (t, ops) -> es = zip ops l /\ length l = length ops)
    (heap_of s) (heap_pool jobs) s ps s' Hm eq_refl) as (hist & d & Hruns & Hix & Hres & Hend).
  - intros i t p Hi. unfold heap_pool in Hi. rewrite list_lookup_fmap in Hi.
    destruct (jobs !! i) as [[t0 ops]|] eqn:E; simplify_eq/=.
    eapply locks_weaken; [apply heap_client_locks|]. intros l g (es & -> & -> & Hl).
    eexists. split; [done|]. intros t1 ops1 E1. rewrite E in E1. by simplify_eq.
  - exact Hr.
  - exists hist, d. split_and!; [exact Hruns|exact Hix| |exact Hend]. intros i t ops t' l Hi Hl. by eapply Hres.
Qed.

(** C9: the allocator is atomic.  However the actions of any number of processes
    that call [allocate_mem] and [release_mem] interleave, on whatever
    processors, with preemption, with the yields of [claim_mutex] and with
    anything else that happens to other data, the calls that have ended have the
    results they have in some order one after the other; each process's calls
    are in the order it made them; and the free lists and the tail, when nobody
    is inside, are what that order leaves. *)
Theorem heap_linearizable c jobs s ps s' :
  mutexes s !! mutex_mem = Some false -> rtc heap_step_any (heap_pool jobs, s) (ps, s') ->
  exists hist s1, exec c (heap_client hist.*2.*1) s (Done hist.*2.*2 s1) /\
    (forall i t ops t' l, jobs !! i = Some (t, ops) -> ps !! i = Some (t', Ret l) ->
       ops_of i hist = zip ops l /\ length l = length ops) /\
    (mutexes s' !! mutex_mem = Some false -> heap_of s' = heap_of s1).
Proof.
  intros Hm Hr. destruct (heap_pool_atomic jobs s ps s' Hm Hr) as (hist & d & Hruns & _ & Hres & Hend).
  destruct (heap_client_run c hist.*2 s d Hm Hruns) as (s1 & He & Hd).
  exists hist, s1. split_and!; [exact He|exact Hres|]. by rewrite Hd.
Qed.

(** ** Blocks do not overlap *)

(** Blocks as classes and addresses. *)
Definition apart (x y : Z * addr) : Prop :=
  x.2 + block_len x.1 <= y.2 \/ y.2 + block_len y.1 <= x.2.
Definition room (is_ : list Z) : Z := foldr (fun i r => block_len i + r) 0 is_.

Lemma apart_sym x y : apart x y -> apart y x.
Proof. unfold apart. lia. Qed.

Lemma room_nonneg is_ : Forall valid_index is_ -> 0 <= room is_.
Proof.
  induction 1 as [|i is_ Hi _ IH]; [done|]. change (room (i :: is_)) with (block_len i + room is_).
  pose proof (block_len_bounds i Hi). lia.
Qed.

(** Allocations one after the other. *)
Definition allocs (bs : list (Z * addr)) : list (heap_op * addr) :=
  (fun x => (HAlloc x.1, x.2)) <$> bs.

Lemma allocs_apart base s carved free bs d :
  heap_ok base s carved free -> mutexes s !! mutex_mem = Some false ->
  Forall (fun x => valid_index x.1 /\ block_len x.1 <= taillen s) bs ->
  tail s + room bs.*1 < 2 ^ 32 -> runs heap_sem (allocs bs) (heap_of s) d ->
  StronglySorted apart bs /\
  Forall (fun x => forall b j, live carved free b j -> apart x (j, b)) bs.
Proof.
  revert s carved free. induction bs as [|[i a] bs IH]; intros s carved free Hk Hm Hf Hr He; [split; constructor|].
  apply Forall_cons in Hf as [[Hi Htl] Hf]. cbn [fst snd] in Hi, Htl.
  cbn [fmap list_fmap room foldr fst] in Hr. fold (room bs.*1) in Hr.
  assert (Hrm : 0 <= room bs.*1).
  { apply room_nonneg. rewrite Forall_fmap. eapply Forall_impl; [exact Hf|]. by intros x [? _]. }
  destruct (allocate_spec 0 base s carved free i Hk Hi Hm Htl ltac:(lia))
    as (a' & s1 & carved1 & free1 & He1 & Hk1 & Hn & Hl1 & Hkeep & Hap & _ & Hfr & Ht).
  destruct He as (d1 & Hs & He). destruct (heap_call_run 0 (HAlloc i) s a d1 Hm Hs) as (s2 & He2 & <- & Hm2).
  pose proof (exec_det _ _ _ _ _ He1 He2) as Heq. injection Heq as -> ->.
  assert (Hlv : forall b j, live carved free b j -> live carved1 free1 b j).
  { intros b j Hb. apply Hkeep; [|done]. intros ->. by eapply Hn. }
  destruct (IH s2 carved1 free1 Hk1 ltac:(by rewrite Hm2) ltac:(by rewrite Hfr) ltac:(unfold room in *; lia) He) as [Hso Hall].
  split; [constructor; [exact Hso|]|apply Forall_cons; split].
  - eapply Forall_impl; [exact Hall|]. intros x Hx. apply apart_sym. by apply (Hx a i).
  - intros b j Hb. by apply Hap.
  - eapply Forall_impl; [exact Hall|]. intros x Hx b j Hb. by apply Hx, Hlv.
Qed.

Lemma sorted_perm l l' : l ≡ₚ l' -> StronglySorted apart l -> StronglySorted apart l'.
Proof.
  induction 1 as [|x l l' Hp IH|x y l|l l' l'' _ IH1 _ IH2]; intros Hs; [done| | |auto].
  - apply StronglySorted_inv in Hs as [Hs Hx]. constructor; [auto|]. by rewrite <-Hp.
  - apply StronglySorted_inv in Hs as [Hs Hy]. apply StronglySorted_inv in Hs as [Hs Hx].
    apply Forall_cons in Hy as [Hyx Hy].
    constructor; [by constructor|]. apply Forall_cons. split; [by apply apart_sym|exact Hx].
Qed.

Lemma room_perm l l' : l ≡ₚ l' -> room l = room l'.
Proof. unfold room. induction 1; simpl; lia. Qed.

(** What each process asked for and got. *)
Definition blocks (jobs : list (Z * list Z)) (ls : list (list addr)) : list (Z * addr) :=
  concat (zip_with (fun (j : Z * list Z) l => zip j.2 l) jobs ls).
Definition alloc_jobs (jobs : list (Z * list Z)) : list (Z * list heap_op) :=
  (fun j : Z * list Z => (j.1, HAlloc <$> j.2)) <$> jobs.

Lemma allocs_zip is_ l : allocs (zip is_ l) = zip (HAlloc <$> is_) l.
Proof.
  revert l. induction is_ as [|i is_ IH]; intros [|a l]; [done..|].
  cbn [zip_with fmap list_fmap]. by rewrite <-IH.
Qed.

Lemma blocks_allocs jobs ls :
  allocs (blocks jobs ls) = concat (zip_with (fun (j : Z * list Z) l => zip (HAlloc <$> j.2) l) jobs ls).
Proof.
  unfold allocs, blocks. revert ls. induction jobs as [|j jobs IH]; intros [|l ls]; [done..|].
  cbn [zip_with concat]. rewrite fmap_app, IH. f_equal. apply allocs_zip.
Qed.

Lemma blocks_classes jobs ls :
  Forall2 (fun (j : Z * list Z) (l : list addr) => length l = length j.2) jobs ls -> (blocks jobs ls).*1 = concat jobs.*2.
Proof.
  unfold blocks. induction 1 as [|j l jobs ls Hl _ IH]; [done|].
  cbn [zip_with concat]. rewrite fmap_app, IH. cbn [fmap list_fmap concat]. f_equal.
  apply fst_zip. by rewrite Hl.
Qed.

(** The whole history, when all have returned. *)
Lemma finished_hist jobs hist (ps : list (Z * cprog (list addr))) ls :
  Forall (fun x : nat * (heap_op * addr) => (x.1 < length ps)%nat) hist -> length ps = length jobs ->
  ps.*2 = Ret <$> ls ->
  (forall i t ops t' l, alloc_jobs jobs !! i = Some (t, ops) -> ps !! i = Some (t', Ret l) ->
     ops_of i hist = zip ops l /\ length l = length ops) ->
  hist.*2 ≡ₚ allocs (blocks jobs ls) /\ Forall2 (fun (j : Z * list Z) (l : list addr) => length l = length j.2) jobs ls.
Proof.
  intros Hix Hlen Hps Hres.
  assert (Hlen2 : length ps = length ls) by (by rewrite <-(length_fmap snd ps), Hps, length_fmap).
  assert (Hi : forall i j l, jobs !! i = Some j -> ls !! i = Some l ->
    ops_of i hist = zip (HAlloc <$> j.2) l /\ length l = length j.2).
  { intros i j l Hj Hl. destruct (lookup_lt_is_Some_2 ps i) as [[t p] Hp].
    { rewrite Hlen. by eapply lookup_lt_Some. }
    pose proof (f_equal (lookup i) Hps) as He. rewrite !list_lookup_fmap, Hp, Hl in He.
    simpl in He. injection He as ->.
    destruct (Hres i j.1 (HAlloc <$> j.2) t l) as [H1 H2]; [|exact Hp|by rewrite length_fmap in H2].
    unfold alloc_jobs. rewrite list_lookup_fmap, Hj. done. }
  split.
  - rewrite (hist_perm (length ps) hist Hix), blocks_allocs.
    replace (zip_with _ jobs ls) with ((fun i => ops_of i hist) <$> seq 0 (length ps)); [done|].
    apply list_eq. intros i. rewrite list_lookup_fmap, lookup_zip_with.
    destruct (decide (i < length ps)%nat) as [Hlt|Hge].
    + rewrite lookup_seq_lt by done. simpl.
      destruct (lookup_lt_is_Some_2 jobs i ltac:(lia)) as [j Hj].
      destruct (lookup_lt_is_Some_2 ls i ltac:(lia)) as [l Hl].
      rewrite Hj, Hl. simpl. by rewrite (proj1 (Hi i j l Hj Hl)).
    + rewrite lookup_seq_ge, (lookup_ge_None_2 jobs) by lia. done.
  - apply Forall2_same_length_lookup_2; [lia|]. intros i j l Hj Hl. by apply (Hi i j l).
Qed.

(** C20: concurrent allocations never overlap.  When processes that allocate
    blocks of any classes, interleaving in any way, have all returned, the blocks
    they have got overlap neither each other nor any block that was in use. *)
Theorem concurrent_allocations_apart base carved free jobs s ps s' ls :
  heap_ok base s carved free -> mutexes s !! mutex_mem = Some false ->
  Forall (fun i => valid_index i /\ block_len i <= taillen s) (concat jobs.*2) ->
  tail s + room (concat jobs.*2) < 2 ^ 32 ->
  rtc heap_step_any (heap_pool (alloc_jobs jobs), s) (ps, s') -> ps.*2 = Ret <$> ls ->
  StronglySorted apart (blocks jobs ls) /\
  Forall (fun x => forall b j, live carved free b j -> apart x (j, b)) (blocks jobs ls).
Proof.
  intros Hk Hm Hf Hr Hrtc Hls.
  destruct (heap_pool_atomic _ s ps s' Hm Hrtc) as (hist & d & Hruns & Hix & Hres & _).
  pose proof (pool_length _ _ _ _ Hrtc) as Hlen.
  unfold heap_pool, alloc_jobs in Hlen. cbn [fst] in Hlen. rewrite !length_fmap in Hlen.
  destruct (finished_hist jobs hist ps ls Hix Hlen Hls Hres) as [Hp Hl].
  destruct (Permutation_map_inv _ _ Hp) as (bs & Hbs & Hpb). fold (allocs bs) in Hbs.
  pose proof (blocks_classes jobs ls Hl) as Hcl.
  assert (Hcb : bs.*1 ≡ₚ concat jobs.*2) by by rewrite <-Hcl, Hpb.
  rewrite Hbs in Hruns.
  destruct (allocs_apart base s carved free bs d Hk Hm) as [Hs Hall].
  - rewrite <-Hcl in Hf. rewrite Forall_fmap, Hpb in Hf. exact Hf.
  - by rewrite (room_perm _ _ Hcb).
  - exact Hruns.
  - split; [by eapply sorted_perm|by rewrite Hpb].
Qed.

(** ** Two processors contend

    The process on processor 0 is inside when the one on processor 1 starts to
    spin; it allocates a block, and releases it before the other one gets in. *)

Definition sample_calls : list (Z * list heap_op) :=
  [(0, [HAlloc 3; HFree 3 0x100000]); (1, [HAlloc 3])].
Definition sample_allocs : list (Z * list Z) := [(0, [3; 0]); (1, [3])].
Definition sample_contention : list nat :=
  replicate 4 0%nat ++ replicate 60 1%nat ++ replicate 200 0%nat ++ replicate 200 1%nat.
Definition after_contention (jobs : list (Z * list heap_op)) : list (Z * cprog (list addr)) * sys :=
  foldl pool_turn (heap_pool jobs, sample) sample_contention.

Lemma contention_steps jobs :
  rtc heap_step_any (heap_pool jobs, sample) ((after_contention jobs).1, (after_contention jobs).2).
Proof. rewrite <-surjective_pairing. apply pool_turns. Qed.

Lemma heap_linearizable_witness :
  exists hist s1, exec 0 (heap_client hist.*2.*1) sample (Done hist.*2.*2 s1) /\
    ops_of 1%nat hist = [(HAlloc 3, 0x100000)].
Proof.
  destruct (heap_linearizable 0 sample_calls sample (after_contention sample_calls).1
    (after_contention sample_calls).2 eq_refl (contention_steps _)) as (hist & s1 & He & Hres & _).
  exists hist, s1. split; [exact He|].
  refine (proj1 (Hres 1%nat 1 [HAlloc 3] 1 [0x100000] eq_refl _)). vm_compute. reflexivity.
Defined.

Lemma concurrent_allocations_apart_witness :
  StronglySorted apart [(3, 0x100000); (0, 0x100060); (3, 0x100072)].
Proof.
  refine (proj1 (concurrent_allocations_apart 0x100000 ∅ (fun _ => []) sample_allocs sample
    (after_contention (alloc_jobs sample_allocs)).1 (after_contention (alloc_jobs sample_allocs)).2
    [[0x100000; 0x100060]; [0x100072]] sample_heap eq_refl _ _ (contention_steps _) _)).
  - repeat constructor; vm_compute; congruence.
  - vm_compute. reflexivity.
  - vm_compute. reflexivity.
Defined.
