(* ===== verification/Timer.v ===== *)
(** * Timer: timer.c

    Elapsed time, the per-processor queues of timeout requests in time order,
    [After], the timeouts of alternations, and the two timer interrupts. *)

From S2P Require Import Prelude Prog State Linked Hardware Exec Sched Mutex Memory.

#[local] Open Scope prog_scope.

(** time units (nsec) per tick *)
Definition Tick : Z := 1000000000.

Definition MAX_TIME : Z := 0xffffffffffffffff.

(** Fields of the timeout descriptor at [d]. *)
Definition tget {B} (d : addr) (fld : TimeoutDesc -> B) : cprog B :=
  fetch (fun s => fld <$> timeouts s !! d).
Definition upd_tmo (d : addr) (f : TimeoutDesc -> TimeoutDesc) (s : sys) : sys :=
  set_timeouts (alter f d (timeouts s)) s.
Definition tset (d : addr) (f : TimeoutDesc -> TimeoutDesc) : cprog unit :=
  store (fun s => match timeouts s !! d with
                  | Some _ => Some (upd_tmo d f s)
                  | None => None
                  end).

(** A descriptor comes to life when its fields are filled in, and a local one
    ends its life when its function returns. *)
Definition new_tmo (d : addr) (td : TimeoutDesc) : cprog unit :=
  if d =? NULL then act (fun _ _ => Fault)
  else modify (fun s => set_timeouts (<[d := td]> (timeouts s)) s).
Definition end_tmo (d : addr) : cprog unit :=
  modify (fun s => set_timeouts (delete d (timeouts s)) s).

(** [timeQue[pun].head] *)
Definition tque_head (pun : Z) : cprog addr := fetch (fun s => timeQue s !! pun).
Definition upd_tque (pun : Z) (v : addr) (s : sys) : sys :=
  set_timeQue (<[pun := v]> (timeQue s)) s.
Definition set_tque_head (pun : Z) (v : addr) : cprog unit :=
  store (fun s => match timeQue s !! pun with
                  | Some _ => Some (upd_tque pun v s)
                  | None => None
                  end).

(** Returns current time. *)
Definition GetCurrentTime : cprog Z :=
  c <- fetch (fun s => Some (currentTime s));;
  loop (fun c : Z =>
    t <- read_timer TIMER_ELAPSED;;
    let cc := c in
    c <- fetch (fun s => Some (currentTime s));;
    if negb (c =? cc) then ret (inl c) else ret (inr (int64 (int64 (Tick - t) + c)))) c.

Definition Now : cprog Z := GetCurrentTime.

(** Inserts timeout descriptor in timer queue in time order *)
Definition insertInQueue (tque : Z) (desc : addr) : cprog unit :=
  disable;;
  head <- tque_head tque;;
  pc <- walk (fun x => dt <- tget desc td_time;; ct <- tget x td_time;; ret (dt >=? ct))
             (fun x => tget x td_next) NULL head;;
  let (prev, curr) := pc : addr * addr in
  (if (prev =? NULL) && (curr =? NULL) then
     (set_tque_head tque desc;;
      tset desc (set_td_next NULL);;
      now <- GetCurrentTime;;
      dt <- tget desc td_time;;
      set_timer_single TIMER_TIMEOUT (int64 (dt - now)))
   else if (prev =? NULL) && negb (curr =? NULL) then
     (set_tque_head tque desc;;
      tset desc (set_td_next curr);;
      now <- GetCurrentTime;;
      dt <- tget desc td_time;;
      set_timer_single TIMER_TIMEOUT (int64 (dt - now)))
   else if negb (prev =? NULL) && negb (curr =? NULL) then
     (tset prev (set_td_next desc);; tset desc (set_td_next curr))
   else
     (tset prev (set_td_next desc);; tset desc (set_td_next NULL)));;
  enable.

(** Removes an entry from the timeout queue and returns it *)
Definition removeFromQueue (tque : Z) (time : Z) (proc : addr) : cprog addr :=
  disable;;
  head <- tque_head tque;;
  pc <- walk (fun x => ct <- tget x td_time;; ret (ct <? time))
             (fun x => tget x td_next) NULL head;;
  pc <- walk (fun x => ct <- tget x td_time;;
                       if ct =? time then (cp <- tget x td_proc;; ret (negb (cp =? proc)))
                       else ret false)
             (fun x => tget x td_next) (pc : addr * addr).1 pc.2;;
  let (prev, curr) := pc : addr * addr in
  hit <- (if negb (curr =? NULL) then
            (ct <- tget curr td_time;;
             if ct =? time then (cp <- tget curr td_proc;; ret (cp =? proc)) else ret false)
          else ret false);;
  (if hit : bool then
     ((if negb (prev =? NULL)
       then (n <- tget curr td_next;; tset prev (set_td_next n)) else ret tt);;
      h <- tque_head tque;;
      if curr =? h then (n <- tget curr td_next;; set_tque_head tque n) else ret tt)
   else ret tt);;
  enable;;
  ret curr.

(** Removes head entry from timer queue and returns it. *)
Definition removeHead (tque : Z) : cprog addr :=
  desc <- tque_head tque;;
  h <- tque_head tque;;
  n <- tget h td_next;;
  set_tque_head tque n;;
  ret desc.

(** Returns after given time; [desc] is the address of the local variable. *)
Definition After (desc : addr) (when : Z) : cprog unit :=
  now <- GetCurrentTime;;
  if when >? now then
    (pun <- getcpu;;
     proc <- get_current;;
     new_tmo desc (mkTimeoutDesc when proc NULL TMO_AFTER);;
     PREPARE_TO_WAIT proc;;
     insertInQueue pun desc;;
     relinquish;;
     end_tmo desc)
  else ret tt.

(** Returns true if timeout is ready *)
Definition timeout_ready (time : Z) : cprog bool :=
  now <- GetCurrentTime;; ret (now >=? time).

(** Enables timer for alternation *)
Definition enable_timeout (time : Z) (proc : addr) : cprog bool :=
  now <- GetCurrentTime;;
  let ready := now >=? time in
  (if negb ready then
     (desc <- allocate_mem TMO_INDEX;;
      new_tmo desc (mkTimeoutDesc time proc NULL TMO_ALTING);;
      pun <- pget proc p_pun;;
      insertInQueue pun desc)
   else ret tt);;
  ret ready.

(** Disables timer for alternation *)
Definition disable_timeout (time : Z) (proc : addr) : cprog bool :=
  now <- GetCurrentTime;;
  let ready := now >=? time in
  pun <- pget proc p_pun;;
  desc <- removeFromQueue pun time proc;;
  (if negb (desc =? NULL) then release_mem TMO_INDEX desc else ret tt);;
  ret ready.

(** Handles timer interrupt for elapsed time *)
Definition handle_elapsed_time_interrupt : cprog unit :=
  modify (fun s => set_currentTime (int64 (currentTime s + Tick)) s).

(** Frees non-alting process *)
Definition freeProcess (proc : addr) : cprog unit :=
  old_state <- xchg_sched_state proc PROC_READY;;
  if old_state =? PROC_WAITING then enqueue0 proc else ret tt.

(** Frees alting process if appropriate *)
Definition maybeFreeAltingProcess (proc : addr) : cprog unit :=
  r <- cas_alt_state proc ALT_ENABLING ALT_READY;;
  if r.2 =? ALT_WAITING then
    (r2 <- cas_alt_state proc r.2 ALT_READY;;
     if r2.1 then enqueue0 proc else ret tt)
  else ret tt.

(** Handles timer interrupt for timeouts *)
Definition handle_timeout_interrupt : cprog unit :=
  curr <- get_current;;
  pun <- pget curr p_pun;;
  now <- GetCurrentTime;;
  head <- tque_head pun;;
  loop (fun head : addr =>
    due <- (if negb (head =? NULL) then (t <- tget head td_time;; ret (t <=? now))
            else ret false);;
    if due : bool then
      (removeHead pun;;
       type <- tget head td_type;;
       (if type =? TMO_AFTER then (p <- tget head td_proc;; freeProcess p)
        else if type =? TMO_ALTING then (p <- tget head td_proc;; maybeFreeAltingProcess p)
        else plotz "handle_timeout_interrupt invalid type");;
       h <- tque_head pun;;
       ret (inl h))
    else ret (inr tt)) head;;
  head <- tque_head pun;;
  (if negb (head =? NULL) then
     (t <- tget head td_time;; set_timer_single TIMER_TIMEOUT (int64 (t - now)))
   else ret tt);;
  schedule_from_interrupt.

(** Returns tick value (time units per tick). *)
Definition getTick : cprog Z := ret Tick.

Definition timer_init : cprog unit :=
  loop (fun pun : Z =>
    if pun <? NPUN then (modify (upd_tque pun NULL);; ret (inl (pun + 1)))
    else ret (inr tt)) 0.
