(* ===== verification/TimerQueue.v ===== *)
(** * TimerQueue: time, and the timeout queues

    What [GetCurrentTime] returns, what the interval timers are set to, and the
    timeout queue of a processor as the list of its descriptors in time order:
    insertion, removal and the timeout interrupt on every branch. *)

From S2P Require Import Prelude Prog State Fixture Linked Hardware Exec Priority Ipq.
From S2P Require Import Sched ReadyQueue Dispatch Mutex Memory Heap Timer.

#[local] Open Scope prog_scope.

(** ** Clocks *)

(** Intervals that fit the [timespec] of the target. *)
Definition MAX_INTERVAL : Z := 2 ^ 31 * NS_PER_SEC.

Lemma to_timespec_ok t :
  0 <= t < MAX_INTERVAL -> timespec_valid (to_timespec t) = true /\ timespec_ns (to_timespec t) = t.
Proof.
  unfold MAX_INTERVAL, timespec_valid, timespec_ns, to_timespec, NS_PER_SEC. intros Ht. simpl.
  rewrite Z.quot_div_nonneg, Z.rem_mod_nonneg by lia.
  pose proof (Z.mod_pos_bound t 1000000000 ltac:(lia)).
  pose proof (Z.div_mod t 1000000000 ltac:(lia)).
  assert (Hi : forall z, 0 <= z < 2 ^ 31 -> int32 z = z).
  { intros z Hz. unfold int32, wrapS. simpl. rewrite Z.mod_small by lia. lia. }
  rewrite !Hi by lia. split; [|lia].
  rewrite !andb_true_iff, !Z.leb_le, Z.ltb_lt. lia.
Qed.

Lemma int64_small z : - 2 ^ 63 <= z < 2 ^ 63 -> int64 z = z.
Proof. intros Hz. unfold int64, wrapS. simpl. rewrite Z.mod_small by lia. lia. Qed.

(** The elapsed-time timer that processor [c] reads has counted [Tick] down to
    what is left of the current second: the time is [now]. *)
Record clock (c : Z) (s : sys) (now : Z) : Prop := {
  ck_timer : exists id p, timer (hw s) !! (c, TIMER_ELAPSED) = Some id /\
    ptimers (hw s) !! id = Some p /\ 0 <= pt_value p <= Tick /\
    now = currentTime s + (Tick - pt_value p);
  ck_range : 0 <= currentTime s /\ now < 2 ^ 63 }.

Lemma exec_GetCurrentTime c {B} (g : Z -> cprog B) s now o :
  on_cpu c s -> clock c s now -> exec c (g now) s o -> exec c (bind GetCurrentTime g) s o.
Proof.
  intros Hc [(id & p & Hid & Hp & Hv & Hnow) Hr] Hg.
  destruct (to_timespec_ok (pt_value p)) as [_ Hns].
  { unfold Tick, MAX_INTERVAL, NS_PER_SEC in *. lia. }
  unfold GetCurrentTime. xstep1. eapply exec_fetch; [done|]. cbv beta.
  eapply exec_bind_done; [|exact Hg]. unfold loop.
  eapply exec_loop.
  { eapply exec_bind_done.
    { unfold read_timer. apply exec_getcpu; [done|]. eapply exec_hfetch; [exact Hid|].
      eapply exec_action; [by rewrite Hp|]. apply exec_ret. }
    eapply exec_fetch; [done|]. rewrite Z.eqb_refl. apply exec_ret. }
  unfold Tick in *. rewrite Hns, (int64_small (pt_value p)) by lia.
  rewrite (int64_small (_ - _)) by lia. rewrite int64_small by lia.
  cbn [loop_k]. replace (_ + _) with now by lia. apply exec_ret.
Qed.

(** The timeout timer of processor [c], and the same set to [d] (at least 0,
    which disarms it). *)
Record timeout_timer (c : Z) (s : sys) (id : Z) (T : ptimer) : Prop := {
  tt_id : timer (hw s) !! (c, TIMER_TIMEOUT) = Some id;
  tt_timer : ptimers (hw s) !! id = Some T }.
Definition armed (id : Z) (T : ptimer) (d : Z) (s : sys) : sys :=
  set_hw (set_ptimers (<[id := mkTimer (pt_signo T) (Z.max 0 d) 0]> (ptimers (hw s))) (hw s)) s.

Lemma exec_set_timer_single c {B} d id T (g : unit -> cprog B) s o :
  on_cpu c s -> timeout_timer c s id T -> d < MAX_INTERVAL -> exec c (g tt) (armed id T d s) o ->
  exec c (bind (set_timer_single TIMER_TIMEOUT d) g) s o.
Proof.
  intros Hc [Hid HT] Hd Hg. unfold set_timer_single. xstep1.
  apply exec_getcpu; [done|]. xstep1. eapply exec_hfetch; [exact Hid|]. cbv zeta.
  rewrite Z.gtb_ltb.
  assert (Hm : (if 0 <? d then d else 0) = Z.max 0 d) by (destruct (Z.ltb_spec 0 d); lia).
  rewrite Hm. destruct (to_timespec_ok (Z.max 0 d)) as [Hv Hns].
  { unfold MAX_INTERVAL, NS_PER_SEC in *. lia. }
  unfold timer_settime. eapply exec_action; [|exact Hg].
  rewrite HT, Hv. unfold armed. rewrite Hns. done.
Qed.

(** ** The queue of a processor *)

Definition time_of (s : sys) (x : addr) : Z := from_option td_time 0 (timeouts s !! x).

Record tmo_rep (s : sys) (c : Z) (l : list addr) : Prop := {
  tq_head : timeQue s !! c = Some (first l);
  tq_linked : linked (timeouts s) (first l) l }.

Definition time_sorted (t : addr -> Z) (l : list addr) : Prop :=
  StronglySorted (fun x y => t x <= t y) l.

Lemma time_of_lookup s x D : timeouts s !! x = Some D -> time_of s x = td_time D.
Proof. unfold time_of. by intros ->. Qed.

Lemma tmo_lookup s c l x : tmo_rep s c l -> x ∈ l -> x <> NULL /\ exists D, timeouts s !! x = Some D.
Proof. intros [_ Hl] Hx. by eapply linked_elem. Qed.

(** Where the descriptor of time [t] goes. *)
Definition tq_split (t : addr -> Z) (time : Z) (l : list addr) : list addr * list addr :=
  span (fun x => time >=? t x) l.

Lemma tq_split_app t time l : (tq_split t time l).1 ++ (tq_split t time l).2 = l.
Proof. apply span_app. Qed.

Lemma tq_split_le t time l : Forall (fun x => t x <= time) (tq_split t time l).1.
Proof.
  eapply Forall_impl; [apply span_keep|]. intros x Hx. simpl in Hx. by rewrite Z.geb_leb, Z.leb_le in Hx.
Qed.

(** A descriptor that is not queued yet does not count. *)
Lemma tq_split_new s s1 d D time l :
  d ∉ l -> timeouts s1 = <[d := D]> (timeouts s) ->
  Forall (fun x => time_of s x <= time) (tq_split (time_of s1) time l).1.
Proof.
  intros Hd Ht. pose proof (tq_split_le (time_of s1) time l) as Hle. rewrite Forall_forall in Hle |- *.
  intros x Hx. specialize (Hle x Hx). unfold time_of in Hle. rewrite Ht, lookup_insert_ne in Hle; [exact Hle|].
  intros ->. apply Hd. rewrite <-(tq_split_app (time_of s1) time l). set_solver.
Qed.

Lemma tq_insert_sorted t d l :
  time_sorted t l -> time_sorted t ((tq_split t (t d) l).1 ++ d :: (tq_split t (t d) l).2).
Proof.
  apply span_insert_sorted; [intros x y z; lia|]. intros x _.
  destruct (t d >=? t x) eqn:E; rewrite Z.geb_leb in E; [apply Z.leb_le in E|apply Z.leb_gt in E]; lia.
Qed.

Section Queue.
Context (c : Z).

Lemma insert_walk s d D l :
  timeouts s !! d = Some D -> tmo_rep s c l ->
  exec c (walk (fun x => dt <- tget d td_time;; ct <- tget x td_time;; ret (dt >=? ct))
               (fun x => tget x td_next) NULL (first l)) s
    (Done (last_or NULL (tq_split (time_of s) (td_time D) l).1,
           first (tq_split (time_of s) (td_time D) l).2) s).
Proof.
  intros HD Hl. unfold tq_split.
  eapply (walk_spec c _ _ _ (timeouts s)); [exact (tq_linked _ _ _ Hl)|].
  intros x X Hx HX. unfold tget. split.
  - eapply exec_fetch; [by rewrite HD|]. eapply exec_fetch; [by rewrite HX|].
    rewrite (time_of_lookup _ _ _ HX). apply exec_ret.
  - rewrite <-(bind_ret_r (fetch _)). eapply exec_fetch; [by rewrite HX|]. apply exec_ret.
Qed.

(** The queue and its [next] fields after an insertion. *)
Definition tq_inserted (d : addr) (l1 l2 : list addr) (s : sys) : sys :=
  upd_tmo d (set_td_next (first l2))
    (match l1 with
     | [] => upd_tque c d s
     | _ => upd_tmo (last_or NULL l1) (set_td_next d) s
     end).

Lemma tq_inserted_rep s d D l1 l2 :
  timeouts s !! d = Some D -> d <> NULL -> d ∉ l1 ++ l2 -> tmo_rep s c (l1 ++ l2) ->
  tmo_rep (tq_inserted d l1 l2 s) c (l1 ++ d :: l2).
Proof.
  intros HD Hd0 Hdl [Hh Hl]. split.
  - unfold tq_inserted. destruct l1; simpl; [by rewrite lookup_insert_eq|done].
  - destruct l1 as [|q l1 _] using rev_ind.
    + exact (linked_insert_head (timeouts s) (first l2) l2 d D Hl HD Hd0 Hdl).
    + rewrite <-!app_assoc in *. simpl in *.
      replace (first (l1 ++ q :: d :: l2)) with (first (l1 ++ q :: l2)) by (by destruct l1).
      pose proof (linked_insert_after _ _ l1 q l2 d D Hl HD Hd0 Hdl) as Hi.
      unfold tq_inserted, last_or. rewrite List.last_last. by destruct l1.
Qed.

Lemma tq_inserted_time s d l1 l2 x : time_of (tq_inserted d l1 l2 s) x = time_of s x.
Proof.
  assert (Hu : forall a f s, (forall D, td_time (f D) = td_time D) ->
    time_of (upd_tmo a f s) x = time_of s x).
  { intros a f s' Hf. unfold time_of. simpl. rewrite lookup_alter.
    case_decide; [subst|done]. destruct (timeouts s' !! x); [apply Hf|done]. }
  unfold tq_inserted. rewrite Hu by done. by destruct l1; [|rewrite Hu].
Qed.

Lemma clock_ext s s' now :
  timer (hw s') = timer (hw s) -> ptimers (hw s') = ptimers (hw s) ->
  currentTime s' = currentTime s -> clock c s now -> clock c s' now.
Proof. intros H1 H2 H3 [Hk Hr]. split; rewrite ?H1, ?H2, ?H3; done. Qed.

Lemma tmo_rep_ext s s' l :
  timeQue s' = timeQue s -> timeouts s' = timeouts s -> tmo_rep s c l -> tmo_rep s' c l.
Proof. intros H1 H2 [Hh Hl]. split; by rewrite ?H1, ?H2. Qed.

(** The state [insertInQueue] leaves. *)
Definition tq_insert_state (s : sys) (d : addr) (D : TimeoutDesc) (l : list addr) (now id : Z)
    (T : ptimer) (m : sigset) : sys :=
  let l1 := (tq_split (time_of s) (td_time D) l).1 in
  let l2 := (tq_split (time_of s) (td_time D) l).2 in
  let s1 := tq_inserted d l1 l2 (masked c sigfillset s) in
  masked c m (match l1 with [] => armed id T (td_time D - now) s1 | _ => s1 end).

(** The branches that put the descriptor first. *)
Lemma insert_front_run s d D hd a2 now id T m :
  on_cpu c s -> timeouts s !! d = Some D -> timeQue s !! c = Some hd ->
  clock c s now -> timeout_timer c s id T -> sigmask (hw s) !! c = Some m ->
  - 2 ^ 63 <= td_time D - now < MAX_INTERVAL ->
  exec c ((set_tque_head c d;; tset d (set_td_next a2);;
           now <- GetCurrentTime;; dt <- tget d td_time;;
           set_timer_single TIMER_TIMEOUT (int64 (dt - now)));; enable) s
    (Done tt (masked c m (armed id T (td_time D - now)
                            (upd_tmo d (set_td_next a2) (upd_tque c d s))))).
Proof.
  intros Hc HD Hh Hk Ht Hm Hr.
  assert (Hi : int64 (td_time D - now) = td_time D - now).
  { apply int64_small. unfold MAX_INTERVAL, NS_PER_SEC in Hr. lia. }
  unfold set_tque_head, tset, tget. xstep1. eapply exec_store; [by rewrite Hh|].
  xstep1. eapply exec_store; [simpl; by rewrite HD|]. xstep1.
  eapply exec_GetCurrentTime; [done|by apply (clock_ext s)|]. xstep1.
  eapply exec_fetch; [simpl; by rewrite lookup_alter_eq, HD|]. simpl td_time. rewrite Hi.
  eapply (exec_set_timer_single c _ id T); [done|by destruct Ht|apply Hr|].
  rewrite <-(bind_ret_r enable). eapply exec_enable; [done|exact Hm|apply exec_ret].
Qed.

Lemma insertInQueue_run s d D l now id T m :
  on_cpu c s -> timeouts s !! d = Some D -> d <> NULL -> d ∉ l -> tmo_rep s c l ->
  clock c s now -> timeout_timer c s id T -> sigmask (hw s) !! c = Some m ->
  - 2 ^ 63 <= td_time D - now < MAX_INTERVAL ->
  exec c (insertInQueue c d) s (Done tt (tq_insert_state s d D l now id T m)).
Proof.
  intros Hc HD Hd0 Hdl Hl Hk Ht Hm Hr. unfold insertInQueue. apply exec_disable.
  set (s0 := masked c sigfillset s).
  assert (Hl0 : tmo_rep s0 c l) by by apply (tmo_rep_ext s).
  eapply exec_fetch; [exact (tq_head _ _ _ Hl0)|].
  eapply exec_bind_done; [by eapply (insert_walk s0 d D l)|].
  change (time_of s0) with (time_of s). unfold tq_insert_state. fold s0.
  pose proof (linked_not_null _ _ _ (tq_linked _ _ _ Hl)) as Hnn.
  pose proof (tq_split_app (time_of s) (td_time D) l) as Happ.
  destruct (tq_split (time_of s) (td_time D) l) as [l1 l2]. cbn [fst snd] in *. subst l.
  assert (H2 : l2 = [] /\ first l2 = NULL \/ first l2 <> NULL).
  { destruct l2 as [|y l2]; [auto|right]. simpl. set_solver. }
  destruct l1 as [|q l1 _] using rev_ind.
  - pose proof (insert_front_run s0 d D _ (first l2) now id T m Hc HD (tq_head _ _ _ Hl0)
      ltac:(by apply (clock_ext s)) ltac:(by destruct Ht) Hm Hr) as Hgo.
    change (last_or NULL []) with NULL.
    destruct H2 as [[-> H2]|H2]; [rewrite H2 in *|]; zb; exact Hgo.
  - assert (Hq : last_or NULL (l1 ++ [q]) = q) by apply List.last_last.
    destruct (tmo_lookup _ _ _ q Hl) as (Hq0 & Q & HQ); [set_solver|].
    assert (Hqd : q <> d) by set_solver.
    assert (Hend : exec c ((tset q (set_td_next d);; tset d (set_td_next (first l2)));; enable) s0
      (Done tt (masked c m (upd_tmo d (set_td_next (first l2)) (upd_tmo q (set_td_next d) s0))))).
    { unfold tset. xstep1. eapply exec_store; [simpl; by rewrite HQ|].
      eapply exec_store; [simpl; by rewrite lookup_alter_ne, HD by done|].
      rewrite <-(bind_ret_r enable). eapply exec_enable; [done|exact Hm|apply exec_ret]. }
    replace (match l1 ++ [q] with [] => _ | _ => _ end) with (tq_inserted d (l1 ++ [q]) l2 s0)
      by by destruct l1.
    replace (tq_inserted d (l1 ++ [q]) l2 s0)
      with (upd_tmo d (set_td_next (first l2)) (upd_tmo q (set_td_next d) s0))
      by (by unfold tq_inserted; rewrite Hq; destruct l1).
    rewrite Hq. destruct H2 as [[-> H2]|H2]; [rewrite H2 in *|]; zb; exact Hend.
Qed.

(** ** Removal *)

(** What a descriptor says, but for its link. *)
Definition desc_of (s : sys) (x : addr) : option (Z * addr * Z) :=
  (fun D => (td_time D, td_proc D, td_type D)) <$> timeouts s !! x.
Definition proc_of (s : sys) (x : addr) : addr := from_option td_proc NULL (timeouts s !! x).

(** The code's two loops: past the descriptors that expire earlier, then past
    those of other processes that expire at the same time. *)
Definition tq_find (s : sys) (time : Z) (proc : addr) (l : list addr) : list addr * list addr :=
  let a := span (fun x => time_of s x <? time) l in
  let b := span (fun x => (time_of s x =? time) && negb (proc_of s x =? proc)) a.2 in
  (a.1 ++ b.1, b.2).

Lemma tq_find_app s time proc l : (tq_find s time proc l).1 ++ (tq_find s time proc l).2 = l.
Proof. unfold tq_find. simpl. by rewrite <-app_assoc, !span_app. Qed.

Lemma last_or_app d l k : last_or d (l ++ k) = last_or (last_or d l) k.
Proof.
  unfold last_or. destruct k as [|x k _] using rev_ind; [by rewrite app_nil_r|].
  by rewrite app_assoc, !List.last_last.
Qed.

Lemma tget_run {B} d (fld : TimeoutDesc -> B) s D :
  timeouts s !! d = Some D -> exec c (tget d fld) s (Done (fld D) s).
Proof.
  intros HD. unfold tget. rewrite <-(bind_ret_r (fetch _)).
  eapply exec_fetch; [by rewrite HD|apply exec_ret].
Qed.

Lemma find_walk {B} s time proc l (g : addr * addr -> cprog B) o :
  tmo_rep s c l ->
  exec c (g (last_or NULL (tq_find s time proc l).1, first (tq_find s time proc l).2)) s o ->
  exec c (pc <- walk (fun x => ct <- tget x td_time;; ret (ct <? time))
               (fun x => tget x td_next) NULL (first l);;
          pc <- walk (fun x => ct <- tget x td_time;;
                       if ct =? time then (cp <- tget x td_proc;; ret (negb (cp =? proc)))
                       else ret false)
               (fun x => tget x td_next) (pc : addr * addr).1 pc.2;;
          g pc) s o.
Proof.
  intros [Hh Hl] Hg. set (k1 := fun x => time_of s x <? time).
  set (k2 := fun x => (time_of s x =? time) && negb (proc_of s x =? proc)).
  assert (Hl2 : linked (timeouts s) (first (span k1 l).2) (span k1 l).2).
  { apply (linked_suffix _ (first l) (span k1 l).1). by rewrite span_app. }
  eapply exec_bind_done.
  { eapply (walk_spec c _ _ k1 (timeouts s)); [exact Hl|]. intros x X _ HX. split; [|by apply tget_run].
    eapply exec_bind_done; [by apply tget_run|].
    unfold k1. rewrite (time_of_lookup _ _ _ HX). apply exec_ret. }
  cbn [fst snd]. eapply exec_bind_done.
  { eapply (walk_spec c _ _ k2 (timeouts s)); [exact Hl2|]. intros x X _ HX. split; [|by apply tget_run].
    eapply exec_bind_done; [by apply tget_run|].
    unfold k2, proc_of. rewrite (time_of_lookup _ _ _ HX), HX. cbn [from_option].
    destruct (td_time X =? time); [|apply exec_ret].
    eapply exec_bind_done; [by apply tget_run|apply exec_ret]. }
  unfold tq_find in Hg. cbn [fst snd] in Hg. by rewrite last_or_app in Hg.
Qed.

(** Unlinking [y], of successor [n], found behind [k]. *)
Definition tq_removed (k : list addr) (n : addr) (s : sys) : sys :=
  match k with [] => upd_tque c n s | _ => upd_tmo (last_or NULL k) (set_td_next n) s end.

Lemma tq_removed_rep s k y Y r :
  tmo_rep s c (k ++ y :: r) -> timeouts s !! y = Some Y ->
  tmo_rep (tq_removed k (td_next Y) s) c (k ++ r).
Proof.
  intros [Hh Hl] HY. destruct k as [|q k _] using rev_ind.
  - pose proof (linked_tail _ _ _ _ Hl HY) as Ht. simpl in Ht.
    pose proof (linked_first _ _ _ Ht) as Hf. unfold tq_removed. rewrite Hf in Ht |- *.
    split; simpl; [by rewrite lookup_insert_eq|exact Ht].
  - unfold tq_removed, last_or. rewrite List.last_last. rewrite <-!app_assoc in *. simpl in *.
    pose proof (linked_remove_after _ _ k q y Y r Hl HY) as Hrem. simpl in Hrem.
    replace (first (k ++ q :: y :: r)) with (first (k ++ q :: r)) in Hh, Hrem by (by destruct k).
    destruct (k ++ [q]) eqn:E; [by destruct k|]. split; [exact Hh|exact Hrem].
Qed.

(** Whether the descriptor the search stops at is the one looked for. *)
Definition tq_hit (s : sys) (time : Z) (proc : addr) (y : addr) : bool :=
  (time_of s y =? time) && (proc_of s y =? proc).

Lemma removeFromQueue_run s time proc l m :
  on_cpu c s -> tmo_rep s c l -> sigmask (hw s) !! c = Some m ->
  exec c (removeFromQueue c time proc) s
    (Done (first (tq_find s time proc l).2)
       (masked c m
         (match (tq_find s time proc l).2 with
          | y :: r => if tq_hit s time proc y
                      then tq_removed (tq_find s time proc l).1 (first r) (masked c sigfillset s)
                      else masked c sigfillset s
          | [] => masked c sigfillset s
          end))).
Proof.
  intros Hc Hl Hm. unfold removeFromQueue. apply exec_disable.
  set (s0 := masked c sigfillset s).
  assert (Hl0 : tmo_rep s0 c l) by by apply (tmo_rep_ext s).
  eapply exec_fetch; [exact (tq_head _ _ _ Hl0)|]. apply find_walk; [exact Hl0|].
  change (tq_find s0 time proc l) with (tq_find s time proc l).
  pose proof (tq_find_app s time proc l) as Happ.
  destruct (tq_find s time proc l) as [k r]. cbn [fst snd] in *. subst l.
  assert (Hend : forall (v : addr) s1, on_cpu c s1 -> sigmask (hw s1) = sigmask (hw s) ->
    exec c (enable;; ret v) s1 (Done v (masked c m s1))).
  { intros v s1 H1 H2. eapply exec_enable; [exact H1|by rewrite H2|apply exec_ret]. }
  destruct r as [|y r]; cbn [first].
  - zb. xstep1. xstep1. by apply Hend.
  - destruct (tmo_lookup _ _ _ y Hl0) as (Hy0 & Y & HY); [set_solver|].
    pose proof (linked_NoDup _ _ _ (tq_linked _ _ _ Hl0)) as Hnd.
    assert (Hyk : y ∉ k) by (apply NoDup_app in Hnd as (_ & Hnd & _); intros Hx; by eapply Hnd; [|left]).
    assert (HnY : td_next Y = first r).
    { pose proof (linked_suffix _ _ k _ (tq_linked _ _ _ Hl0)) as Hs.
      apply (linked_tail _ _ _ _ Hs) in HY as Hs'. by apply linked_first in Hs'. }
    assert (Hhit : tq_hit s time proc y = (td_time Y =? time) && (td_proc Y =? proc)).
    { unfold tq_hit, time_of, proc_of. change (timeouts s) with (timeouts s0). by rewrite HY. }
    zb. rewrite Hhit. xstep1. unfold tget at 1. eapply exec_fetch; [by rewrite HY|].
    destruct (td_time Y =? time); simpl andb; [|do 2 xstep1; by apply Hend].
    xstep1. unfold tget at 1. eapply exec_fetch; [by rewrite HY|]. xstep1.
    destruct (td_proc Y =? proc); [|xstep1; by apply Hend].
    destruct k as [|q k _] using rev_ind.
    + change (last_or NULL []) with NULL. zb. do 3 xstep1. unfold tque_head.
      eapply exec_fetch; [exact (tq_head _ _ _ Hl0)|]. cbn [first app]. zb. xstep1.
      unfold tget. eapply exec_fetch; [by rewrite HY|]. rewrite HnY. unfold set_tque_head.
      eapply exec_store; [by rewrite (tq_head _ _ _ Hl0)|]. by apply Hend.
    + rewrite last_or_app. change (last_or _ [q]) with q.
      destruct (tmo_lookup _ _ _ q Hl0) as (Hq0 & Q & HQ); [set_solver|].
      zb. do 2 xstep1. unfold tget at 1. eapply exec_fetch; [by rewrite HY|]. rewrite HnY.
      unfold tset. eapply exec_store; [by rewrite HQ|]. xstep1. unfold tque_head.
      eapply exec_fetch; [exact (tq_head _ _ _ Hl0)|].
      assert (Hne : y <> first ((k ++ [q]) ++ y :: r)) by (destruct k; simpl in *; set_solver).
      zb. xstep1.
      replace (tq_removed (k ++ [q]) (first r) s0) with (upd_tmo q (set_td_next (first r)) s0); [by apply Hend|].
      unfold tq_removed, last_or. rewrite List.last_last. by destruct k.
Qed.
End Queue.

(** The queue after [insertInQueue], as far as the descriptors go. *)
Lemma tq_insert_state_rep c s d D l now id T m :
  timeouts s !! d = Some D -> d <> NULL -> d ∉ l -> tmo_rep s c l ->
  tmo_rep (tq_insert_state c s d D l now id T m) c
    ((tq_split (time_of s) (td_time D) l).1 ++ d :: (tq_split (time_of s) (td_time D) l).2).
Proof.
  intros HD Hd0 Hdl Hl. unfold tq_insert_state.
  eapply tmo_rep_ext; [..|eapply (tq_inserted_rep c (masked c sigfillset s) d D)].
  1-2: by destruct (tq_split (time_of s) (td_time D) l).1.
  all: rewrite ?tq_split_app; try done. by apply (tmo_rep_ext c s).
Qed.

(** Insertion keeps everything else of a descriptor. *)
Lemma tq_insert_state_desc c s d D l now id T m :
  timeouts s !! d = Some D ->
  exists v, timeouts (tq_insert_state c s d D l now id T m) !! d = Some (set_td_next v D).
Proof.
  intros HD. unfold tq_insert_state, tq_inserted.
  destruct (tq_split (time_of s) (td_time D) l).1 as [|q k]; simpl.
  - rewrite lookup_alter_eq, HD. by eexists.
  - rewrite lookup_alter_eq, lookup_alter. case_decide as E; rewrite ?E, HD; by eexists.
Qed.

(** ** Theorems *)

(** [insertInQueue] puts a descriptor behind those that expire no later and
    in front of those that expire later, keeping the queue in time order, and
    restores the signal mask.  The timeout timer is set to the time that is
    left exactly when the new descriptor is the first; if no time is left, the
    timer is set to 0. *)
Theorem insertInQueue_correct c s d D l now id T m :
  on_cpu c s -> timeouts s !! d = Some D -> d <> NULL -> d ∉ l -> tmo_rep s c l ->
  time_sorted (time_of s) l ->
  clock c s now -> timeout_timer c s id T -> sigmask (hw s) !! c = Some m ->
  - 2 ^ 63 <= td_time D - now < MAX_INTERVAL ->
  exists s' l1 l2, exec c (insertInQueue c d) s (Done tt s') /\
    l = l1 ++ l2 /\ tmo_rep s' c (l1 ++ d :: l2) /\ time_sorted (time_of s') (l1 ++ d :: l2) /\
    Forall (fun x => time_of s x <= td_time D) l1 /\
    Forall (fun x => td_time D < time_of s x) l2 /\
    ptimers (hw s') !! id =
      Some (match l1 with [] => mkTimer (pt_signo T) (Z.max 0 (td_time D - now)) 0 | _ => T end) /\
    thread_mask (hw s') !! c = Some m.
Proof.
  intros Hc HD Hd0 Hdl Hl Hso Hk Ht Hm Hr.
  pose proof (insertInQueue_run c s d D l now id T m Hc HD Hd0 Hdl Hl Hk Ht Hm Hr) as He.
  set (s' := tq_insert_state c s d D l now id T m) in *.
  pose proof (tq_insert_sorted (time_of s) d l Hso) as Hso'.
  rewrite (time_of_lookup _ _ _ HD) in Hso'.
  exists s', (tq_split (time_of s) (td_time D) l).1, (tq_split (time_of s) (td_time D) l).2.
  pose proof (tq_insert_state_rep c s d D l now id T m HD Hd0 Hdl Hl) as Hrep. fold s' in Hrep.
  assert (Htime : forall x, time_of s' x = time_of s x).
  { intros x. unfold s', tq_insert_state. etrans; [|apply (tq_inserted_time c (masked c sigfillset s) d
      (tq_split (time_of s) (td_time D) l).1 (tq_split (time_of s) (td_time D) l).2)].
    by destruct (tq_split (time_of s) (td_time D) l).1. }
  split_and!; [exact He|by rewrite tq_split_app|exact Hrep| | | | |].
  - clear -Hso' Htime. induction Hso' as [|x k H IH Hx]; constructor; [done|].
    eapply Forall_impl; [exact Hx|]. intros y. by rewrite !Htime.
  - apply tq_split_le.
  - eapply span_rest; [| |exact Hso]; simpl.
    + intros x _ Hx. rewrite Z.geb_leb, Z.leb_gt in Hx. exact Hx.
    + intros; lia.
  - unfold s', tq_insert_state. destruct (tq_split (time_of s) (td_time D) l).1; simpl.
    + by rewrite lookup_insert_eq.
    + apply Ht.
  - unfold s', tq_insert_state. simpl. by rewrite lookup_insert_eq.
Qed.

(** Where the search of [removeFromQueue] stops in a queue in time order. *)
Lemma tq_find_sorted s time proc l :
  time_sorted (time_of s) l ->
  Forall (fun x => tq_hit s time proc x = false) (tq_find s time proc l).1 /\
  match (tq_find s time proc l).2 with
  | y :: r => tq_hit s time proc y = true \/
      (time < time_of s y /\ Forall (fun x => tq_hit s time proc x = false) (y :: r))
  | [] => Forall (fun x => time_of s x <= time) l
  end.
Proof.
  intros Hso. unfold tq_find. cbn [fst snd].
  set (k1 := fun x => time_of s x <? time).
  set (k2 := fun x => (time_of s x =? time) && negb (proc_of s x =? proc)).
  assert (Hk1 : Forall (fun x => time <= time_of s x) (span k1 l).2).
  { eapply span_rest; [| |exact Hso]; simpl; [|lia].
    intros x _ Hx. unfold k1 in Hx. by apply Z.ltb_ge. }
  pose proof (span_keep k1 l) as Ha. pose proof (span_keep k2 (span k1 l).2) as Hb.
  assert (Hso2 : time_sorted (time_of s) (span k2 (span k1 l).2).2).
  { rewrite <-(span_app k1 l) in Hso. rewrite <-(span_app k2 (span k1 l).2) in Hso.
    clear -Hso. induction (span k1 l).1 as [|x k IH]; simpl in Hso.
    - induction (span k2 (span k1 l).2).1 as [|x k IH]; [done|]. apply IH. by inversion Hso.
    - apply IH. by inversion Hso. }
  split.
  - rewrite Forall_app. split; (eapply Forall_impl; [eassumption|]).
    + intros x Hx. unfold k1 in Hx. simpl in Hx. apply Z.ltb_lt in Hx. unfold tq_hit.
      replace (time_of s x =? time) with false by (symmetry; apply Z.eqb_neq; lia). done.
    + intros x Hx. unfold k2 in Hx. simpl in Hx. unfold tq_hit.
      apply andb_true_iff in Hx as [-> Hx]. by apply negb_true_iff.
  - destruct (span k2 (span k1 l).2).2 as [|y r] eqn:E.
    + rewrite <-(span_app k1 l), Forall_app. split; (eapply Forall_impl; [|simpl; intros x Hx]).
      * exact Ha.
      * unfold k1 in Hx. apply Z.ltb_lt in Hx. lia.
      * rewrite <-(span_app k2 (span k1 l).2), E, app_nil_r. exact Hb.
      * unfold k2 in Hx. simpl in Hx. apply andb_true_iff in Hx as [Hx _].
        apply Z.eqb_eq in Hx. lia.
    + assert (Hy : time <= time_of s y).
      { rewrite <-(span_app k2 (span k1 l).2), E, Forall_app, Forall_cons in Hk1. tauto. }
      pose proof (span_stop _ _ _ _ E) as Hst. unfold k2 in Hst.
      destruct (Z.eqb_spec (time_of s y) time) as [He|He].
      * left. unfold tq_hit. rewrite He, Z.eqb_refl. simpl in Hst |- *. by apply negb_false_iff in Hst.
      * right. split; [lia|].
        assert (Hlt : Forall (fun x => time < time_of s x) (y :: r)).
        { apply StronglySorted_inv in Hso2 as [_ Hr]. constructor; [lia|].
          eapply Forall_impl; [exact Hr|]. simpl. intros; lia. }
        eapply Forall_impl; [exact Hlt|]. intros x Hx. simpl in Hx. unfold tq_hit.
        replace (time_of s x =? time) with false by (symmetry; apply Z.eqb_neq; lia). done.
Qed.

(** [removeFromQueue] on a queue in time order.  If a descriptor of the
    given time and process is queued, the first such one is taken out and
    returned.  If none is queued, the queue stays as it is, but what is
    returned is not null unless everything queued expires by the given time: it
    is a descriptor that expires later and is still queued. *)
Theorem removeFromQueue_correct c s time proc l m :
  on_cpu c s -> tmo_rep s c l -> time_sorted (time_of s) l -> sigmask (hw s) !! c = Some m ->
  exists v s', exec c (removeFromQueue c time proc) s (Done v s') /\ thread_mask (hw s') !! c = Some m /\
    ((exists k r, l = k ++ v :: r /\ tq_hit s time proc v = true /\
        Forall (fun x => tq_hit s time proc x = false) k /\ tmo_rep s' c (k ++ r)) \/
     (Forall (fun x => tq_hit s time proc x = false) l /\ tmo_rep s' c l /\
        (v = NULL /\ Forall (fun x => time_of s x <= time) l \/ v ∈ l /\ time < time_of s v))).
Proof.
  intros Hc Hl Hso Hm. eexists _, _. split; [by apply (removeFromQueue_run c s time proc l m)|].
  split; [simpl; by rewrite lookup_insert_eq|].
  assert (Hl0 : tmo_rep (masked c sigfillset s) c l) by by apply (tmo_rep_ext c s).
  destruct (tq_find_sorted s time proc l Hso) as [Hk Hr].
  pose proof (tq_find_app s time proc l) as Happ.
  destruct (tq_find s time proc l) as [k [|y r]]; cbn [fst snd first] in *.
  - right. rewrite app_nil_r in Happ. subst k. split_and!; [done|by apply (tmo_rep_ext c s)|by left].
  - destruct Hr as [Hh|[Hlt Hr]].
    + left. exists k, r. rewrite Hh. split_and!; [done..|].
      destruct (tmo_lookup _ _ _ y Hl0) as (_ & Y & HY); [set_solver|]. rewrite <-Happ in Hl0.
      pose proof (tq_removed_rep c _ k y Y r Hl0 HY) as Hrep.
      pose proof (linked_suffix _ _ k _ (tq_linked _ _ _ Hl0)) as Hs.
      apply (linked_tail _ _ _ _ Hs), linked_first in HY. simpl in HY. rewrite <-HY.
      eapply tmo_rep_ext; [..|exact Hrep]; done.
    + right. apply Forall_cons in Hr as [Hy Hr]. rewrite Hy. split_and!.
      * rewrite <-Happ, Forall_app, Forall_cons. done.
      * by apply (tmo_rep_ext c s).
      * right. split; [rewrite <-Happ; set_solver|done].
Qed.

(** [After] with a time that has come returns at once.  Otherwise the
    process's own descriptor is put in the timeout queue in time order, the
    process enters the waiting state and gives the processor to the first of the
    ready queue; resumed, it reenables interrupts and the descriptor's life
    ends. *)
Theorem After_correct c s cur C q ql l n L d when tl now id T m :
  cpu_state c s cur C q ql l -> rq_sorted (pri_of s) l -> rq_insert_all (pri_of s) ql l = n :: L ->
  clock c s now -> timeout_timer c s id T -> sigmask (hw s) !! c = Some m ->
  tmo_rep s c tl -> d <> NULL -> d ∉ tl -> - 2 ^ 63 <= when - now < MAX_INTERVAL ->
  if when >? now then
    exists s' N l1 l2,
      exec c (After d when) s (Switched (p_stackptr C) (p_stackptr N) (enable;; end_tmo d) s') /\
      procs s !! n = Some N /\ sched_ok c s' n [] L /\
      p_sched_state <$> procs s' !! cur = Some PROC_WAITING /\
      tl = l1 ++ l2 /\ tmo_rep s' c (l1 ++ d :: l2) /\
      Forall (fun x => time_of s x <= when) l1 /\
      desc_of s' d = Some (when, cur, TMO_AFTER)
  else exec c (After d when) s (Done tt s).
Proof.
  intros Hcs Hso HL Hk Ht Hm Hq Hd0 Hdl Hr.
  pose proof Hcs as [Hqu Hcur HC HCp _ _]. pose proof (qs_cpu _ _ _ _ _ Hqu) as Hc.
  destruct (when >? now) eqn:Hw.
  2: { unfold After. eapply exec_GetCurrentTime; [exact Hc|exact Hk|]. rewrite Hw. apply exec_ret. }
  set (D := mkTimeoutDesc when cur NULL TMO_AFTER).
  set (s0 := set_timeouts (<[d := D]> (timeouts s)) s).
  set (s1 := upd_proc cur (set_sched_state PROC_PREPARING_TO_WAIT) s0).
  assert (Hcs0 : cpu_state c s0 cur C q ql l) by by apply (cpu_state_ext c s).
  pose proof (cpu_state_quiet c _ cur s0 cur C q ql l (quiet_sched_state PROC_PREPARING_TO_WAIT) Hcs0) as Hcs1.
  rewrite decide_True in Hcs1 by done. fold s1 in Hcs1.
  assert (HD : timeouts s1 !! d = Some D) by apply lookup_insert_eq.
  assert (Hq1 : tmo_rep s1 c tl).
  { split; [exact (tq_head _ _ _ Hq)|]. apply linked_insert_ne; [done|exact (tq_linked _ _ _ Hq)]. }
  pose proof (insertInQueue_run c s1 d D tl now id T m Hc HD Hd0 Hdl Hq1
    (clock_ext c s s1 now eq_refl eq_refl eq_refl Hk) ltac:(by destruct Ht) Hm Hr) as Hins.
  set (s2 := tq_insert_state c s1 d D tl now id T m) in *.
  assert (E : procs s2 = procs s1 /\ rdyQues s2 = rdyQues s1 /\ current s2 = current s1 /\
    ipQues s2 = ipQues s1 /\ cpu_key (hw s2) = cpu_key (hw s1)).
  { unfold s2, tq_insert_state, tq_inserted. by destruct (tq_split (time_of s1) (td_time D) tl).1. }
  destruct E as (E1 & E2 & E3 & E4 & E5).
  pose proof (cpu_state_ext c s1 s2 _ _ _ _ _ E1 E2 E3 E4 E5 Hcs1) as Hcs2.
  assert (Hpri : forall x, pri_of s x = pri_of s2 x).
  { intros x. transitivity (pri_of s1 x); [|unfold pri_of; by rewrite E1].
    symmetry. apply (pri_of_quiet _ (quiet_sched_state _) cur s0). }
  rewrite (rq_insert_all_ext _ _ _ _ Hpri) in HL.
  destruct (relinquish_wait c s2 cur _ q ql l n L Hcs2 eq_refl HL)
    as (s3 & q' & N & N' & He & HN & Hst & Hcs3 & Hwait & _).
  destruct (next_proc c _ _ _ _ _ _ _ _ Hcs2 HL) as (N0 & HN0 & _ & _ & [Hnc _]%NoDup_cons).
  rewrite HN in HN0. injection HN0 as <-.
  assert (HNs : procs s !! n = Some N).
  { rewrite E1 in HN. unfold s1 in HN. simpl in HN. by rewrite lookup_alter_ne in HN by set_solver. }
  assert (Ht3 : timeouts s3 = timeouts s2 /\ timeQue s3 = timeQue s2)
    by (rewrite (ss_rest _ _ Hst); done).
  destruct Ht3 as [Ht3 Htq3].
  exists s3, N, (tq_split (time_of s1) when tl).1, (tq_split (time_of s1) when tl).2.
  split_and!; [|done| |exact Hwait|by rewrite tq_split_app| | |].
  - unfold After. eapply exec_GetCurrentTime; [exact Hc|exact Hk|]. rewrite Hw.
    apply exec_getcpu; [exact Hc|]. eapply exec_get_current; [exact Hc|exact Hcur|].
    fold D. unfold new_tmo. zb. apply exec_modify. fold s0.
    unfold PREPARE_TO_WAIT. eapply exec_pset; [exact HC|]. fold s1.
    eapply exec_bind_done; [exact Hins|]. eapply exec_bind; [exact He|]. done.
  - eapply sched_ok_taken; [|exact HL|exact Hst|exact Hcs3]. by eapply rq_sorted_ext; [exact Hpri|].
  - eapply tmo_rep_ext; [exact Htq3|exact Ht3|]. exact (tq_insert_state_rep c s1 d D tl now id T m HD Hd0 Hdl Hq1).
  - by apply (tq_split_new s s1 d D).
  - destruct (tq_insert_state_desc c s1 d D tl now id T m HD) as [v Hv].
    unfold desc_of. rewrite Ht3. fold s2 in Hv. by rewrite Hv.
Qed.

(** C39: the consequence for alternations.  Disabling a timeout that has already
    been taken from the queue (its interrupt came first) while a later one is
    queued releases that later descriptor to the allocator: it is at once free
    and at the head of the timeout queue. *)
Theorem disable_timeout_frees_other c s time proc P y Y now m h :
  on_cpu c s -> clock c s now -> procs s !! proc = Some P -> p_pun P = c ->
  tmo_rep s c [y] -> timeouts s !! y = Some Y -> time < td_time Y ->
  sigmask (hw s) !! c = Some m -> mutexes s !! mutex_mem = Some false ->
  procmemlist s !! TMO_INDEX = Some h ->
  exists s', exec c (disable_timeout time proc) s (Done (now >=? time) s') /\
    timeQue s' !! c = Some y /\ timeouts s' !! y = None /\ procmemlist s' !! TMO_INDEX = Some y.
Proof.
  intros Hc Hk HP HPp Hl HY Hlt Hm Hmu Hh.
  assert (Hf : tq_find s time proc [y] = ([], [y])).
  { unfold tq_find. cbn [span]. rewrite (time_of_lookup _ _ _ HY).
    replace (td_time Y <? time) with false by (symmetry; apply Z.ltb_ge; lia). cbn [fst snd span].
    rewrite (time_of_lookup _ _ _ HY).
    replace (td_time Y =? time) with false by (symmetry; apply Z.eqb_neq; lia). done. }
  assert (Hhit : tq_hit s time proc y = false).
  { unfold tq_hit. rewrite (time_of_lookup _ _ _ HY).
    replace (td_time Y =? time) with false by (symmetry; apply Z.eqb_neq; lia). done. }
  pose proof (removeFromQueue_run c s time proc [y] m Hc Hl Hm) as Hrm.
  rewrite Hf in Hrm. cbn [fst snd first] in Hrm. rewrite Hhit in Hrm.
  destruct (tmo_lookup _ _ _ y Hl) as [Hy0 _]; [by left|].
  eexists. split.
  - unfold disable_timeout. eapply exec_GetCurrentTime; [done|exact Hk|]. cbv zeta. xstep1.
    rewrite HPp. eapply exec_bind_done; [exact Hrm|]. zb.
    eapply exec_bind_done; [|apply exec_ret].
    eapply (release_mem_run c _ TMO_INDEX y h); done.
  - simpl. split_and!; [exact (tq_head _ _ _ Hl)|by rewrite lookup_delete_eq|by rewrite lookup_insert_eq].
Qed.

(** ** The sample timeout queue *)

Definition tmo1 : addr := 0x900.
Definition tmo2 : addr := 0xa00.
Definition tmo3 : addr := 0xb00.

(** Timeouts of [pL] and [pH] are queued, one of [pA] is about to be. *)
Definition sample_tmo : sys :=
  set_timeQue (<[0 := tmo1]> (timeQue sample))
    (set_timeouts
       {[tmo1 := mkTimeoutDesc 2000000000 pL tmo2 TMO_AFTER;
         tmo2 := mkTimeoutDesc 3000000000 pH NULL TMO_ALTING;
         tmo3 := mkTimeoutDesc 2000000000 pA NULL TMO_AFTER]} sample).

Lemma sample_tmo_rep : tmo_rep sample_tmo 0 [tmo1; tmo2].
Proof. split; [reflexivity|concrete_linked]. Qed.
Lemma sample_tmo_sorted : time_sorted (time_of sample_tmo) [tmo1; tmo2].
Proof. repeat constructor; vm_compute; congruence. Qed.
Lemma sample_clock : clock 0 sample_tmo 999999400.
Proof.
  split; [|by vm_compute]. exists 0, (mkTimer 41 600 1000000000).
  split_and!; by vm_compute.
Qed.
Lemma sample_timer : timeout_timer 0 sample_tmo 1 (mkTimer 42 0 0).
Proof. by split. Qed.

Lemma insertInQueue_correct_witness :
  (exists s', exec 0 (insertInQueue 0 tmo3) sample_tmo (Done tt s')) /\
  tmo_rep sample_tmo 0 [tmo1; tmo2].
Proof.
  split; [|exact sample_tmo_rep].
  destruct (insertInQueue_correct 0 sample_tmo tmo3 (mkTimeoutDesc 2000000000 pA NULL TMO_AFTER)
    [tmo1; tmo2] 999999400 1 (mkTimer 42 0 0) sigemptyset
    ltac:(by vm_compute) eq_refl ltac:(done) ltac:(concrete_nodup) sample_tmo_rep sample_tmo_sorted
    sample_clock sample_timer eq_refl ltac:(by vm_compute)) as (s' & l1 & l2 & H & _).
  exists s'. exact H.
Defined.

Lemma removeFromQueue_correct_witness :
  exists v s', exec 0 (removeFromQueue 0 3000000000 pH) sample_tmo (Done v s').
Proof.
  destruct (removeFromQueue_correct 0 sample_tmo 3000000000 pH [tmo1; tmo2] sigemptyset
    ltac:(by vm_compute) sample_tmo_rep sample_tmo_sorted eq_refl) as (v & s' & H & _).
  exists v, s'. exact H.
Defined.

(** The same queue after the timeout of [pL] has fired. *)
Definition sample_tmo_later : sys :=
  set_timeQue (<[0 := tmo2]> (timeQue sample_tmo)) sample_tmo.

Lemma disable_timeout_frees_other_witness :
  exists s', exec 0 (disable_timeout 900000000 pL) sample_tmo_later (Done true s') /\
    timeQue s' !! 0 = Some tmo2 /\ procmemlist s' !! TMO_INDEX = Some tmo2.
Proof.
  destruct (disable_timeout_frees_other 0 sample_tmo_later 900000000 pL
    (sample_proc pL NULL 1536 0 PROC_WAITING) tmo2 (mkTimeoutDesc 3000000000 pH NULL TMO_ALTING)
    999999400 sigemptyset NULL) as (s' & H1 & H2 & _ & H3).
  - by vm_compute.
  - exact (clock_ext 0 sample_tmo sample_tmo_later _ eq_refl eq_refl eq_refl sample_clock).
  - reflexivity.
  - reflexivity.
  - split; [reflexivity|concrete_linked].
  - reflexivity.
  - reflexivity.
  - reflexivity.
  - reflexivity.
  - reflexivity.
  - exists s'. split; [exact H1|]. split; [exact H2|exact H3].
Defined.

Lemma sample_tmo_cpu :
  cpu_state 0 sample_tmo pA (sample_proc pA NULL 1024 0 PROC_READY) empty_ipq [] [pB; idle0].
Proof. by apply (cpu_state_ext 0 sample), sample_cpu_local. Qed.

Lemma After_correct_witness :
  (exists s' N, exec 0 (After 0xc00 2500000000) sample_tmo
      (Switched pA (p_stackptr N) (enable;; end_tmo 0xc00) s') /\ procs sample_tmo !! pB = Some N /\
    sched_ok 0 s' pB [] [idle0]) /\
  exec 0 (After 0xc00 7) sample_tmo (Done tt sample_tmo).
Proof.
  split.
  - destruct (After_correct 0 sample_tmo pA _ empty_ipq [] [pB; idle0] pB [idle0] 0xc00 2500000000
      [tmo1; tmo2] 999999400 1 (mkTimer 42 0 0) sigemptyset sample_tmo_cpu
      ltac:(by repeat constructor) eq_refl sample_clock sample_timer eq_refl sample_tmo_rep
      ltac:(done) ltac:(concrete_nodup) ltac:(by vm_compute)) as (s' & N & _ & _ & H1 & H2 & H3 & _).
    exists s', N. split; [exact H1|]. split; [exact H2|exact H3].
  - exact (After_correct 0 sample_tmo pA _ empty_ipq [] [pB; idle0] pB [idle0] 0xc00 7
      [tmo1; tmo2] 999999400 1 (mkTimer 42 0 0) sigemptyset sample_tmo_cpu
      ltac:(by repeat constructor) eq_refl sample_clock sample_timer eq_refl sample_tmo_rep
      ltac:(done) ltac:(concrete_nodup) ltac:(by vm_compute)).
Defined.
