(* ===== verification/Expire.v ===== *)
(** * Expire: the timeout interrupt

    [handle_timeout_interrupt] takes the expired descriptors off the queue,
    readies the processes that are waiting for them and sets the timer for the
    next one. *)

From S2P Require Import Prelude Prog State Fixture Linked Hardware Exec Priority Ipq.
From S2P Require Import Sched ReadyQueue Dispatch Mutex Memory Timer TimerQueue.

#[local] Open Scope prog_scope.

(** ** Expired descriptors *)

Definition type_of (s : sys) (d : addr) : Z := from_option td_type (-1) (timeouts s !! d).

(** What an expired timeout of the given type does to the states, and whether
    it finds the process waiting. *)
Definition fire_sts (type : Z) (st : Z * Z) : Z * Z :=
  if type =? TMO_AFTER then (PROC_READY, st.2)
  else if (st.2 =? ALT_ENABLING) || (st.2 =? ALT_WAITING) then (st.1, ALT_READY) else st.
Definition wakes (type : Z) (st : Z * Z) : bool :=
  if type =? TMO_AFTER then st.1 =? PROC_WAITING else st.2 =? ALT_WAITING.

(** Descriptor [d] expires: its process gets a place in the ready queue. *)
Definition woken (s : sys) (ds : list addr) : list addr :=
  proc_of s <$> filter (fun d => from_option (wakes (type_of s d)) false (sts s (proc_of s d)) = true) ds.

(** What the handler leaves alone: all but the named processes' states, the
    links and the heads of the ready queues. *)
Record fire_frame (ps : list addr) (s s' : sys) : Prop := {
  ff_same : same_procs s s';
  ff_states : forall x, x ∉ ps -> sts s' x = sts s x;
  ff_rest : s' = set_rdyQues (rdyQues s') (set_procs (procs s') s) }.

Lemma fire_frame_refl s : fire_frame [] s s.
Proof. split; [done|done|by destruct s]. Qed.

Lemma fire_frame_trans ps qs s1 s2 s3 :
  fire_frame ps s1 s2 -> fire_frame qs s2 s3 -> fire_frame (ps ++ qs) s1 s3.
Proof.
  intros [H1 H2 H3] [H4 H5 H6]. split; [by etrans| |].
  - intros x Hx. rewrite H5, H2 by set_solver. done.
  - rewrite H6, H3. by destruct s1.
Qed.

Section Fire.
Context (c : Z).

(** Readying a process that was found waiting, after its state [f] is set. *)
Lemma fire_enqueue s p P l f :
  procs s !! p = Some P -> p_pun P = c -> p <> NULL -> p ∉ l -> rdy_rep s c l -> quiet f ->
  exists s', exec c (enqueue0 p) (upd_proc p f s) (Done tt s') /\
    rdy_rep s' c (rq_insert (pri_of s) p l) /\ fire_frame [p] s s' /\
    sts s' p = Some (p_sched_state (f P), p_alt_state (f P)).
Proof.
  intros HP Hpun Hp0 Hpl Hl Hf.
  assert (HP' : procs (upd_proc p f s) !! p = Some (f P)) by (simpl; by rewrite lookup_alter_eq, HP).
  destruct (enqueue0_spec c (upd_proc p f s) p (f P) c l HP') as (s' & He & Hl' & Hs & _);
    [by rewrite (proj1 (proj2 (proj2 (Hf P))))|done|done|by apply rdy_rep_quiet|].
  exists s'. split_and!; [exact He| | |].
  - erewrite rq_insert_ext; [exact Hl'|]. intros x. symmetry. by apply pri_of_quiet.
  - apply sbl_sbq in Hs as Hs'. split.
    + etrans; [by apply same_procs_quiet|by apply sbq_same_procs].
    + intros x Hx. rewrite (sbq_sts _ _ _ Hs'). unfold sts. simpl.
      rewrite lookup_alter_ne; [done|set_solver].
    + rewrite (sbl_rest _ _ Hs). by destruct s.
  - rewrite (sbq_sts _ _ _ (sbl_sbq _ _ Hs)). by apply sts_lookup.
Qed.

(** Changing the state of a process that was not waiting. *)
Lemma fire_quiet s p P l f :
  procs s !! p = Some P -> rdy_rep s c l -> quiet f ->
  rdy_rep (upd_proc p f s) c l /\ fire_frame [p] s (upd_proc p f s) /\
  sts (upd_proc p f s) p = Some (p_sched_state (f P), p_alt_state (f P)).
Proof.
  intros HP Hl Hf. split_and!; [by apply rdy_rep_quiet| |].
  - split; [by apply same_procs_quiet| |by destruct s].
    intros x Hx. unfold sts. simpl. rewrite lookup_alter_ne; [done|set_solver].
  - apply sts_lookup. simpl. by rewrite lookup_alter_eq, HP.
Qed.

Lemma freeProcess_spec s p P l :
  procs s !! p = Some P -> p_pun P = c -> p <> NULL -> rdy_rep s c l ->
  (p_sched_state P = PROC_WAITING -> p ∉ l) ->
  exists s', exec c (freeProcess p) s (Done tt s') /\
    rdy_rep s' c (if p_sched_state P =? PROC_WAITING then rq_insert (pri_of s) p l else l) /\
    fire_frame [p] s s' /\ sts s' p = Some (PROC_READY, p_alt_state P).
Proof.
  intros HP Hpun Hp0 Hl Hpl. unfold freeProcess.
  destruct (Z.eqb_spec (p_sched_state P) PROC_WAITING) as [Hw|Hw].
  - destruct (fire_enqueue s p P l (set_sched_state PROC_READY) HP Hpun Hp0 (Hpl Hw) Hl)
      as (s' & He & Hl' & Hf & Hst); [auto with cxp|].
    exists s'. split_and!; [|done..]. xstep1. rewrite Hw. exact He.
  - destruct (fire_quiet s p P l (set_sched_state PROC_READY) HP Hl) as (Hl' & Hf & Hst); [auto with cxp|].
    eexists. split_and!; [|exact Hl'|exact Hf|exact Hst]. xstep1.
    apply Z.eqb_neq in Hw. rewrite Hw. apply exec_ret.
Qed.

Lemma maybeFreeAltingProcess_spec s p P l :
  procs s !! p = Some P -> p_pun P = c -> p <> NULL -> rdy_rep s c l ->
  (p_alt_state P = ALT_WAITING -> p ∉ l) ->
  exists s', exec c (maybeFreeAltingProcess p) s (Done tt s') /\
    rdy_rep s' c (if p_alt_state P =? ALT_WAITING then rq_insert (pri_of s) p l else l) /\
    fire_frame [p] s s' /\
    sts s' p = Some (fire_sts TMO_ALTING (p_sched_state P, p_alt_state P)).
Proof.
  intros HP Hpun Hp0 Hl Hpl. unfold maybeFreeAltingProcess, fire_sts. cbn [fst snd].
  destruct (Z.eqb_spec (p_alt_state P) ALT_WAITING) as [Hw|Hw].
  - destruct (fire_enqueue s p P l (set_alt_state ALT_READY) HP Hpun Hp0 (Hpl Hw) Hl)
      as (s' & He & Hl' & Hf & Hst); [auto with cxp|].
    exists s'. rewrite Hw. split_and!; [|done..].
    eapply exec_cas_alt_fail; [done|by rewrite Hw|]. cbn [snd]. rewrite Hw.
    eapply exec_cas_alt_ok; [done|exact Hw|]. exact He.
  - destruct (Z.eqb_spec (p_alt_state P) ALT_ENABLING) as [Hen|Hen].
    + destruct (fire_quiet s p P l (set_alt_state ALT_READY) HP Hl) as (Hl' & Hf & Hst); [auto with cxp|].
      eexists. split_and!; [|exact Hl'|exact Hf|exact Hst].
      eapply exec_cas_alt_ok; [done|exact Hen|]. apply exec_ret.
    + exists s. split_and!; [|done| |by apply sts_lookup].
      * eapply exec_cas_alt_fail; [done|exact Hen|]. cbn [snd].
        apply Z.eqb_neq in Hw. rewrite Hw. apply exec_ret.
      * split; [done|done|by destruct s].
Qed.

(** One expired descriptor, already taken off the queue. *)
Definition fire (head : addr) : cprog unit :=
  type <- tget head td_type;;
  (if type =? TMO_AFTER then (p <- tget head td_proc;; freeProcess p)
   else if type =? TMO_ALTING then (p <- tget head td_proc;; maybeFreeAltingProcess p)
   else plotz "handle_timeout_interrupt invalid type").

(** A descriptor that the handler can deal with, over the ready queue [l]. *)
Record due_ok (s : sys) (l : list addr) (d : addr) : Prop := {
  du_type : type_of s d = TMO_AFTER \/ type_of s d = TMO_ALTING;
  du_proc : exists P, procs s !! proc_of s d = Some P /\ p_pun P = c;
  du_nonnull : proc_of s d <> NULL;
  du_waiting : from_option (wakes (type_of s d)) false (sts s (proc_of s d)) = true ->
    proc_of s d ∉ l }.

Lemma fire_spec s d D l :
  timeouts s !! d = Some D -> due_ok s l d -> rdy_rep s c l ->
  exists s', exec c (fire d) s (Done tt s') /\
    rdy_rep s' c (if from_option (wakes (type_of s d)) false (sts s (proc_of s d))
                  then rq_insert (pri_of s) (proc_of s d) l else l) /\
    fire_frame [proc_of s d] s s' /\
    sts s' (proc_of s d) = fire_sts (type_of s d) <$> sts s (proc_of s d).
Proof.
  intros HD [Ht (P & HP & Hpun) Hp0 Hw] Hl.
  assert (Et : type_of s d = td_type D) by (unfold type_of; by rewrite HD).
  assert (Ep : proc_of s d = td_proc D) by (unfold proc_of; by rewrite HD).
  rewrite (sts_lookup _ _ _ HP) in *. rewrite Et, Ep in *. cbn [from_option] in *.
  unfold fire. destruct Ht as [Ht|Ht]; rewrite Ht in *.
  - destruct (freeProcess_spec s (td_proc D) P l HP Hpun Hp0 Hl) as (s' & He & Hl' & Hf & Hst).
    { intros E. apply Hw. unfold wakes. simpl. by rewrite E. }
    exists s'. split_and!; [|exact Hl'|exact Hf|exact Hst].
    eapply exec_bind_done; [by apply tget_run|]. rewrite Ht. zb.
    eapply exec_bind_done; [by apply tget_run|exact He].
  - destruct (maybeFreeAltingProcess_spec s (td_proc D) P l HP Hpun Hp0 Hl)
      as (s' & He & Hl' & Hf & Hst).
    { intros E. apply Hw. unfold wakes. simpl. by rewrite E. }
    exists s'. split_and!; [|exact Hl'|exact Hf|exact Hst].
    eapply exec_bind_done; [by apply tget_run|]. rewrite Ht.
    replace (TMO_ALTING =? TMO_AFTER) with false by done. cbv iota.
    replace (TMO_ALTING =? TMO_ALTING) with true by done. cbv iota.
    eapply exec_bind_done; [by apply tget_run|exact He].
Qed.

(** The loop of the handler. *)
Definition expire_body (now : Z) (head : addr) : cprog (addr + unit) :=
  due <- (if negb (head =? NULL) then (t <- tget head td_time;; ret (t <=? now))
          else ret false);;
  if due : bool then (removeHead c;; fire head;; h <- tque_head c;; ret (inl h))
  else ret (inr tt).

Lemma fire_frame_tque ps s s' v :
  fire_frame ps s s' -> fire_frame ps (upd_tque c v s) (upd_tque c v s').
Proof.
  intros [H1 H2 H3]. split; [by split; apply H1|exact H2|].
  rewrite H3. by destruct s.
Qed.

Lemma fire_frame_timeouts ps s s' : fire_frame ps s s' -> timeouts s' = timeouts s.
Proof. intros Hf. by rewrite (ff_rest _ _ _ Hf). Qed.

(** The remaining descriptors are still fit for the handler after one fired. *)
Lemma due_ok_fired s s' l d e b :
  fire_frame [proc_of s d] s s' -> proc_of s e <> proc_of s d -> due_ok s l e ->
  due_ok s' (if b : bool then rq_insert (pri_of s) (proc_of s d) l else l) e /\
  proc_of s' e = proc_of s e /\ type_of s' e = type_of s e /\
  sts s' (proc_of s e) = sts s (proc_of s e).
Proof.
  intros Hf Hne [H1 (P & HP & Hpun) H3 H4].
  pose proof (fire_frame_timeouts _ _ _ Hf) as Ht.
  assert (Ep : proc_of s' e = proc_of s e) by (unfold proc_of; by rewrite Ht).
  assert (Et : type_of s' e = type_of s e) by (unfold type_of; by rewrite Ht).
  assert (Es : sts s' (proc_of s e) = sts s (proc_of s e)) by (apply (ff_states _ _ _ Hf); set_solver).
  split_and!; try done. split; rewrite ?Ep, ?Et, ?Es; try done.
  - destruct (sp_dom _ _ (ff_same _ _ _ Hf) (proc_of s e)) as [P' HP']; [by eexists|].
    exists P'. split; [done|]. pose proof (sp_pun _ _ (ff_same _ _ _ Hf) (proc_of s e)) as Hp.
    unfold pun_of in Hp. by rewrite HP', HP in Hp; simpl in Hp; rewrite Hp.
  - intros Hw. specialize (H4 Hw). destruct b; [|done]. rewrite rq_insert_elem. intros [?|?]; done.
Qed.

(** The loop stops at the first descriptor that has not expired. *)
Lemma expire_stop now rest s :
  tmo_rep s c rest -> match rest with [] => True | x :: _ => now < time_of s x end ->
  exec c (expire_body now (first rest)) s (Done (inr tt) s).
Proof.
  intros Hq Hrest. unfold expire_body. destruct rest as [|x rest]; cbn [first].
  - zb. apply exec_ret.
  - destruct (tmo_lookup _ _ _ x Hq) as (Hx0 & X & HX); [by left|].
    zb. xstep1. unfold tget. eapply exec_fetch; [by rewrite HX|].
    rewrite (time_of_lookup _ _ _ HX) in Hrest. zb. apply exec_ret.
Qed.

(** One turn: the first descriptor, which has expired, leaves the queue and
    fires. *)
Lemma expire_turn now d D l s s2 :
  tmo_rep s c (d :: l) -> timeouts s !! d = Some D -> time_of s d <= now ->
  exec c (fire d) (upd_tque c (first l) s) (Done tt s2) ->
  timeQue s2 !! c = Some (first l) ->
  exec c (expire_body now d) s (Done (inl (first l)) s2).
Proof.
  intros Hq HD Hd He Hh. destruct (tmo_lookup _ _ _ d Hq) as (Hd0 & _); [by left|].
  pose proof (linked_first _ _ _ (linked_tail _ _ _ _ (tq_linked _ _ _ Hq) HD)) as Hfirst. simpl in Hfirst.
  unfold expire_body. zb. xstep1. unfold tget at 1. eapply exec_fetch; [by rewrite HD|].
  rewrite (time_of_lookup _ _ _ HD) in Hd. zb. xstep1. unfold removeHead, tque_head.
  do 2 (xstep1; eapply exec_fetch; [exact (tq_head _ _ _ Hq)|]). xstep1. cbn [first]. unfold tget at 1.
  eapply exec_fetch; [by rewrite HD|]. unfold set_tque_head. xstep1.
  eapply exec_store; [by rewrite (tq_head _ _ _ Hq)|]. xstep1. rewrite Hfirst.
  eapply exec_bind_done; [exact He|]. by eapply exec_fetch; [exact Hh|apply exec_ret].
Qed.

(** What firing one descriptor means for the others. *)
Lemma woken_kept s s2 ds :
  (forall e, e ∈ ds -> proc_of s2 e = proc_of s e /\ type_of s2 e = type_of s e /\
    sts s2 (proc_of s e) = sts s (proc_of s e)) ->
  proc_of s2 <$> ds = proc_of s <$> ds /\ woken s2 ds = woken s ds.
Proof.
  intros Hkeep. split; [apply Forall_fmap_ext_1, Forall_forall; intros e He; by apply Hkeep|].
  unfold woken. induction ds as [|e ds IH]; [done|].
  destruct (Hkeep e ltac:(left)) as (E1 & E2 & E3).
  rewrite !filter_cons, E1, E2, E3. case_decide; cbn [fmap list_fmap]; rewrite ?E1.
  all: rewrite IH; [done|]. all: intros e' He'; apply Hkeep; by right.
Qed.

Lemma fire_frame_cons p ps s v1 v2 s2 s' :
  fire_frame [p] (upd_tque c v1 s) s2 -> fire_frame ps (upd_tque c v2 s2) s' ->
  fire_frame (p :: ps) (upd_tque c v2 s) s'.
Proof.
  intros Hf2 Hf'. change (p :: ps) with ([p] ++ ps).
  apply (fire_frame_tque _ _ _ v2) in Hf2.
  replace (upd_tque c v2 (upd_tque c v1 s)) with (upd_tque c v2 s) in Hf2; [by eapply fire_frame_trans|].
  unfold upd_tque, set_timeQue. simpl. by rewrite insert_insert_eq.
Qed.

Lemma expire_loop now ds rest s l :
  tmo_rep s c (ds ++ rest) -> rdy_rep s c l ->
  Forall (fun d => time_of s d <= now) ds ->
  match rest with [] => True | x :: _ => now < time_of s x end ->
  Forall (due_ok s l) ds -> NoDup (proc_of s <$> ds) ->
  exists s', exec c (loop (expire_body now) (first (ds ++ rest))) s (Done tt s') /\
    rdy_rep s' c (rq_insert_all (pri_of s) (woken s ds) l) /\
    fire_frame (proc_of s <$> ds) (upd_tque c (first rest) s) s' /\
    Forall (fun d => sts s' (proc_of s d) = fire_sts (type_of s d) <$> sts s (proc_of s d)) ds.
Proof.
  revert s l. induction ds as [|d ds IH]; intros s l Hq Hl Hdue Hrest Hok Hnd.
  - assert (Hid : upd_tque c (first rest) s = s).
    { unfold upd_tque. rewrite insert_id by apply (tq_head _ _ _ Hq). by destruct s. }
    exists s. rewrite Hid. split_and!; [|exact Hl|apply fire_frame_refl|constructor].
    eapply exec_loop; [by apply expire_stop|apply exec_ret].
  - cbn [app] in *. apply Forall_cons in Hdue as [Hd Hdue], Hok as [Hdo Hok].
    cbn [fmap list_fmap] in Hnd. apply NoDup_cons in Hnd as [Hdn Hnd].
    destruct (tmo_lookup _ _ _ d Hq) as (Hd0 & D & HD); [by left|].
    pose proof (linked_tail _ _ _ _ (tq_linked _ _ _ Hq) HD) as Htail. simpl in Htail.
    set (s1 := upd_tque c (first (ds ++ rest)) s).
    assert (Hdo1 : forall e, due_ok s l e -> due_ok s1 l e) by (intros e [? ? ? ?]; by split).
    destruct (fire_spec s1 d D l HD (Hdo1 d Hdo)) as (s2 & He & Hl2 & Hf2 & Hst2);
      [by apply (rdy_rep_ext s)|].
    change (pri_of s1) with (pri_of s) in Hl2. change (proc_of s1 d) with (proc_of s d) in *.
    change (type_of s1 d) with (type_of s d) in *. change (sts s1) with (sts s) in *.
    set (b := from_option (wakes (type_of s d)) false (sts s (proc_of s d))) in *.
    set (l2 := if b then rq_insert (pri_of s) (proc_of s d) l else l) in *.
    assert (Hkeep : forall e, e ∈ ds -> due_ok s2 l2 e /\ proc_of s2 e = proc_of s e /\
      type_of s2 e = type_of s e /\ sts s2 (proc_of s e) = sts s (proc_of s e)).
    { intros e He'. apply (due_ok_fired s1 s2 l d e b Hf2).
      - intros E. apply Hdn. rewrite list_elem_of_fmap. by exists e.
      - rewrite Forall_forall in Hok. apply Hdo1. by apply Hok. }
    destruct (woken_kept s s2 ds ltac:(intros e He'; by apply Hkeep)) as [Hproc Hwoken].
    pose proof (fire_frame_timeouts _ _ _ Hf2) as Ets.
    assert (Htime : forall x, time_of s2 x = time_of s x) by (intros x; unfold time_of; by rewrite Ets).
    assert (Hh2 : timeQue s2 !! c = Some (first (ds ++ rest)))
      by (rewrite (ff_rest _ _ _ Hf2); apply lookup_insert_eq).
    destruct (IH s2 l2) as (s' & He' & Hl' & Hf' & Hst').
    + split; [exact Hh2|]. by rewrite Ets, <-(linked_first _ _ _ Htail).
    + exact Hl2.
    + eapply Forall_impl; [exact Hdue|]. intros x. by rewrite Htime.
    + destruct rest; [done|]. by rewrite Htime.
    + apply Forall_forall. intros e He'. by apply Hkeep.
    + by rewrite Hproc.
    + exists s'. split_and!.
      * apply (exec_loop c _ _ _ _ (inl (first (ds ++ rest))) s2); [|exact He'].
        by eapply expire_turn.
      * rewrite Hwoken, (rq_insert_all_ext _ (pri_of s)) in Hl' by (intros x; apply (ff_same _ _ _ Hf2)).
        unfold woken in *. rewrite filter_cons. fold b. unfold l2 in Hl'.
        destruct b; [rewrite decide_True by done|rewrite decide_False by done]; exact Hl'.
      * rewrite Hproc in Hf'. by eapply fire_frame_cons.
      * constructor; [rewrite <-Hst2; apply (ff_states _ _ _ Hf'); by rewrite Hproc|].
        apply Forall_forall. intros e He2. rewrite Forall_forall in Hst'.
        specialize (Hst' e He2). destruct (Hkeep e He2) as (_ & E1 & E2 & E3).
        by rewrite E1, E2, E3 in Hst'.
Qed.
End Fire.

Lemma woken_elem s ds p :
  p ∈ woken s ds -> exists d, d ∈ ds /\ p = proc_of s d /\
    from_option (wakes (type_of s d)) false (sts s (proc_of s d)) = true.
Proof.
  unfold woken. rewrite list_elem_of_fmap. intros (d & -> & Hd).
  apply list_elem_of_filter in Hd as [Hw Hd]. by exists d.
Qed.

Lemma woken_NoDup s ds : NoDup (proc_of s <$> ds) -> NoDup (woken s ds).
Proof.
  unfold woken. induction ds as [|d ds IH]; [done|]. cbn [fmap list_fmap].
  intros [Hd Hnd]%NoDup_cons. rewrite filter_cons. case_decide; [|by apply IH].
  cbn [fmap list_fmap]. constructor; [|by apply IH].
  rewrite list_elem_of_fmap. intros (e & Heq & He). apply list_elem_of_filter in He as [_ He].
  apply Hd. rewrite list_elem_of_fmap. by exists e.
Qed.

Lemma due_ok_weaken c s l l' d : l' ⊆ l -> due_ok c s l d -> due_ok c s l' d.
Proof. intros Hl [H1 H2 H3 H4]. split; [done..|]. intros Hw Hin. by apply H4, Hl. Qed.

(** The processes that are woken are not in the queues yet. *)
Lemma woken_fresh c s cur ql l ds :
  Forall (due_ok c s (cur :: ql ++ l)) ds -> NoDup (proc_of s <$> ds) ->
  cur ∉ ql ++ l -> NoDup (ql ++ l) ->
  NoDup (cur :: ql ++ rq_insert_all (pri_of s) (woken s ds) l).
Proof.
  intros Hok Hnd Hfr Hndq. rewrite rq_insert_all_perm.
  assert (Hw : forall x, x ∈ woken s ds -> x ∉ cur :: ql ++ l).
  { intros x Hx. destruct (woken_elem _ _ _ Hx) as (d & Hd & -> & Hw).
    rewrite Forall_forall in Hok. by apply (Hok d Hd). }
  rewrite NoDup_cons, !elem_of_app. rewrite (Permutation_app_comm ql), <-app_assoc.
  rewrite NoDup_app, (Permutation_app_comm l). split_and!.
  - intros [?|[?|?]]; [set_solver|by eapply Hw; [|left]|set_solver].
  - by apply woken_NoDup.
  - intros x Hx. pose proof (Hw x Hx). set_solver.
  - exact Hndq.
Qed.

(** The end of the handler: the timer is set for the first descriptor that is
    left. *)
Definition rearmed (id : Z) (T : ptimer) (now : Z) (rest : list addr) (s : sys) : sys :=
  match rest with [] => s | x :: _ => armed id T (time_of s x - now) s end.

Lemma rearm_run c now rest id T s o :
  on_cpu c s -> timeout_timer c s id T -> tmo_rep s c rest ->
  match rest with [] => True | x :: _ => now < time_of s x /\ time_of s x - now < MAX_INTERVAL end ->
  exec c schedule_from_interrupt (rearmed id T now rest s) o ->
  exec c (head <- tque_head c;;
          (if negb (head =? NULL) then
             (t <- tget head td_time;; set_timer_single TIMER_TIMEOUT (int64 (t - now)))
           else ret tt);;
          schedule_from_interrupt) s o.
Proof.
  intros Hc Ht Hq Hrest Ho. unfold tque_head. eapply exec_fetch; [exact (tq_head _ _ _ Hq)|].
  destruct rest as [|x rest]; cbn [first]; [zb; exact Ho|].
  destruct (tmo_lookup _ _ _ x Hq) as (Hx0 & X & HX); [by left|]. destruct Hrest as [Hlt Hmax].
  zb. xstep1. unfold tget. eapply exec_fetch; [by rewrite HX|].
  rewrite <-(time_of_lookup _ _ _ HX).
  rewrite int64_small by (unfold MAX_INTERVAL, NS_PER_SEC in *; lia).
  by eapply (exec_set_timer_single c _ id T).
Qed.

(** ** Theorem *)

(** C16: the timeout interrupt.  Exactly the descriptors [ds] that have expired
    leave the queue, in order; each readies its process, which is put in the
    ready queue exactly if it was waiting (an alternation that is still enabling
    its guards is only told so); no other process's state changes; the timer is
    set to what is left until the first remaining timeout; then the interrupt
    ends as every handler does, with [schedule_from_interrupt]. *)
Theorem timeout_interrupt_correct c s cur C q ql l now ds rest id T :
  cpu_state c s cur C q ql l -> rq_sorted (pri_of s) l ->
  clock c s now -> timeout_timer c s id T ->
  tmo_rep s c (ds ++ rest) -> Forall (fun d => time_of s d <= now) ds ->
  match rest with [] => True | x :: _ => now < time_of s x /\ time_of s x - now < MAX_INTERVAL end ->
  Forall (due_ok c s (cur :: ql ++ l)) ds -> NoDup (proc_of s <$> ds) ->
  exists s1 C1, cpu_state c s1 cur C1 q ql (rq_insert_all (pri_of s) (woken s ds) l) /\
    rq_sorted (pri_of s1) (rq_insert_all (pri_of s) (woken s ds) l) /\
    tmo_rep s1 c rest /\
    Forall (fun d => sts s1 (proc_of s d) = fire_sts (type_of s d) <$> sts s (proc_of s d)) ds /\
    (forall x, x ∉ proc_of s <$> ds -> sts s1 x = sts s x) /\
    ptimers (hw s1) !! id = Some (match rest with
                                  | [] => T
                                  | x :: _ => mkTimer (pt_signo T) (time_of s x - now) 0
                                  end) /\
    (forall o, exec c schedule_from_interrupt s1 o -> exec c handle_timeout_interrupt s o).
Proof.
  intros Hcs Hso Hk Ht Hq Hdue Hrest Hok Hnd.
  pose proof Hcs as [Hqs Hcur HC HCp Hcur0 Hfr]. pose proof Hqs as [Hc Hi Hr Hl Hrd Hndq].
  destruct (expire_loop c now ds rest s l Hq Hl Hdue) as (s2 & He & Hl2 & Hf & Hst); [|..|done|].
  { destruct rest; tauto. }
  { eapply Forall_impl; [exact Hok|]. intros d. apply due_ok_weaken. set_solver. }
  pose proof (ff_rest _ _ _ Hf) as Hs2. set (s1 := rearmed id T now rest s2).
  assert (Hts : timeouts s2 = timeouts s) by by rewrite Hs2.
  assert (Hs1 : s1 = set_hw (hw s1) s2) by (unfold s1; destruct rest; by destruct s2).
  assert (Hsame : same_procs s s1).
  { etrans; [by apply (same_procs_ext s (upd_tque c (first rest) s))|].
    etrans; [apply (ff_same _ _ _ Hf)|apply same_procs_ext; by rewrite Hs1]. }
  destruct (sp_dom _ _ Hsame cur) as [C1 HC1]; [by eexists|].
  destruct (same_fields _ _ _ _ _ Hsame HC HC1) as (_ & HC1p & _).
  assert (Hq2 : tmo_rep s2 c rest).
  { split; [rewrite Hs2; apply lookup_insert_eq|]. rewrite Hts.
    exact (linked_suffix _ _ ds _ (tq_linked _ _ _ Hq)). }
  assert (Hhw : hw s2 = hw s) by by rewrite Hs2.
  assert (Htm : forall x, time_of s2 x = time_of s x) by (intros x; unfold time_of; by rewrite Hts).
  exists s1, C1. split_and!.
  - eapply cpu_state_step; [exact Hcs|exact Hsame| | |exact Hr| | |exact HC1|congruence|done|done|].
    + unfold on_cpu, s1. destruct rest; simpl; by rewrite Hhw.
    + rewrite Hs1, Hs2. exact Hi.
    + by eapply (rdy_rep_ext s2); [rewrite Hs1..|].
    + rewrite Hs1, Hs2. exact Hcur.
    + by apply (woken_fresh c).
  - eapply rq_sorted_ext; [|by apply rq_insert_all_sorted]. intros x. symmetry. apply Hsame.
  - by eapply (tmo_rep_ext c s2); [rewrite Hs1..|].
  - eapply Forall_impl; [exact Hst|]. intros d <-. by rewrite Hs1.
  - intros x Hx. rewrite Hs1. by apply (ff_states _ _ _ Hf).
  - unfold s1. destruct rest as [|x rest]; simpl; rewrite Hhw; [apply Ht|].
    rewrite lookup_insert_eq, Htm. by rewrite Z.max_r by lia.
  - intros o Ho. unfold handle_timeout_interrupt. eapply exec_get_current; [exact Hc|exact Hcur|].
    xstep1. rewrite HCp. eapply exec_GetCurrentTime; [exact Hc|exact Hk|].
    unfold tque_head at 1. eapply exec_fetch; [exact (tq_head _ _ _ Hq)|].
    eapply exec_bind_done; [exact He|].
    apply (rearm_run c now rest id T s2); [unfold on_cpu; by rewrite Hhw| |exact Hq2| |exact Ho].
    + destruct Ht. by split; rewrite Hhw.
    + destruct rest; rewrite ?Htm; done.
Qed.

(** ** The sample state, two seconds later *)

Definition sample_expired : sys := set_currentTime 2000000000 sample_tmo.

Lemma sample_expired_clock : clock 0 sample_expired 2999999400.
Proof.
  split; [|by vm_compute]. exists 0, (mkTimer 41 600 1000000000). split_and!; by vm_compute.
Qed.

Lemma sample_expired_due : due_ok 0 sample_expired (pA :: [] ++ [pB; idle0]) tmo1.
Proof.
  split; [by left|by exists (sample_proc pL NULL 1536 0 PROC_WAITING)|done|].
  intros _. concrete_nodup.
Qed.

Lemma timeout_interrupt_correct_witness :
  exists s1 C1, cpu_state 0 s1 pA C1 empty_ipq [] [pB; pL; idle0] /\ tmo_rep s1 0 [tmo2] /\
    ptimers (hw s1) !! 1 = Some (mkTimer 42 600 0) /\
    (forall o, exec 0 schedule_from_interrupt s1 o ->
       exec 0 handle_timeout_interrupt sample_expired o).
Proof.
  destruct (timeout_interrupt_correct 0 sample_expired pA
    (sample_proc pA NULL 1024 0 PROC_READY) empty_ipq [] [pB; idle0] 2999999400 [tmo1] [tmo2]
    1 (mkTimer 42 0 0)) as (s1 & C1 & H1 & _ & H2 & _ & _ & H3 & H4).
  - by apply (cpu_state_ext 0 sample_tmo), sample_tmo_cpu.
  - by repeat constructor.
  - exact sample_expired_clock.
  - by split.
  - exact (tmo_rep_ext 0 sample_tmo sample_expired _ eq_refl eq_refl sample_tmo_rep).
  - by repeat constructor.
  - by vm_compute.
  - constructor; [exact sample_expired_due|constructor].
  - concrete_nodup.
  - exists s1, C1. split; [exact H1|]. split; [exact H2|]. split; [exact H3|exact H4].
Defined.

(** ** An interrupt inside [relinquish]

    [relinquish] enters the waiting state before it disables interrupts.  In
    the sample below, [pA] waits in [After] with [pE] of the same priority and
    [pH] of a higher one, all until the same time, and the timeout interrupt
    comes between the two. *)

Definition pE : addr := 0xe00.

Definition sample_window : sys :=
  set_currentTime 2000000000
    (set_timeQue (<[0 := tmo1]> (timeQue sample))
      (set_timeouts
         {[tmo1 := mkTimeoutDesc 2000000000 pA tmo2 TMO_AFTER;
           tmo2 := mkTimeoutDesc 2000000000 pE tmo3 TMO_AFTER;
           tmo3 := mkTimeoutDesc 2000000000 pH NULL TMO_AFTER]}
         (set_rdyQues (<[0 := idle0]> (rdyQues sample))
            (set_procs (<[pE := sample_proc pE NULL 1024 0 PROC_WAITING]>
               (<[pA := sample_proc pA NULL 1024 0 PROC_PREPARING_TO_WAIT]> (procs sample)))
               sample)))).

