(* ===== verification/Comm.v ===== *)
(** * Comm: synchronous channels (comm.c) *)

From S2P Require Import Prelude Prog State Hardware Exec Sched Mutex AltState.

#[local] Open Scope prog_scope.

(** Fields of the channel at [ch]. *)
Definition cget {B} (ch : addr) (fld : Channel -> B) : cprog B :=
  fetch (fun s => fld <$> chans s !! ch).
Definition upd_chan (ch : addr) (f : Channel -> Channel) (s : sys) : sys :=
  set_chans (alter f ch (chans s)) s.
Definition cset (ch : addr) (f : Channel -> Channel) : cprog unit :=
  store (fun s => match chans s !! ch with
                  | Some _ => Some (upd_chan ch f s)
                  | None => None
                  end).
Definition set_waiting (v : addr) (k : Channel) : Channel := mkChannel v (ch_ptr k) (ch_len k).
Definition set_ptr (v : addr) (k : Channel) : Channel := mkChannel (ch_waiting k) v (ch_len k).

(** [memcpy(dest, src, len)]: every byte read must exist, every byte written
    must be part of an object, and the two areas must not overlap. *)
Fixpoint read_bytes (m : gmap addr Z) (src : addr) (len : nat) : option (list Z) :=
  match len with
  | O => Some []
  | S n => b ← m !! src; l ← read_bytes m (src + 1) n; Some (b :: l)
  end.
Fixpoint write_bytes (m : gmap addr Z) (dest : addr) (l : list Z) : option (gmap addr Z) :=
  match l with
  | [] => Some m
  | b :: l => match m !! dest with
              | Some _ => write_bytes (<[dest := b]> m) (dest + 1) l
              | None => None
              end
  end.
Definition memcpy (dest src len : Z) : cprog unit :=
  store (fun s => if (dest <? src + len) && (src <? dest + len) then None else
                  l ← read_bytes (bytes s) src (Z.to_nat len);
                  m ← write_bytes (bytes s) dest l;
                  Some (set_bytes m s)).

(** Initializes given channel *)
Definition init_channel (chan : addr) : cprog unit :=
  init_mutex (chan_mutex chan);;
  modify (fun s => set_chans (<[chan := mkChannel NULL NULL
                     (from_option ch_len 0 (chans s !! chan))]> (chans s)) s).

(** Makes ready the process a channel operation found waiting: the last lines
    of [in] and [out]. *)
Definition wake (wasWaiting : addr) : cprog unit :=
  old_state <- xchg_sched_state wasWaiting PROC_READY;;
  if old_state =? PROC_WAITING then schedule wasWaiting else ret tt.

(** Reads from channel. *)
Definition in_ (chan paramDest len : Z) : cprog unit :=
  curr <- get_current;;
  claim_mutex (chan_mutex chan);;
  w <- cget chan ch_waiting;;
  if negb (w =? NULL) then
    (src <- cget chan ch_ptr;;
     memcpy paramDest src len;;
     wasWaiting <- cget chan ch_waiting;;
     cset chan (set_waiting NULL);;
     cset chan (set_ptr NULL);;
     release_mutex (chan_mutex chan);;
     wake wasWaiting)
  else
    (cset chan (set_ptr paramDest);;
     cset chan (set_waiting curr);;
     PREPARE_TO_WAIT curr;;
     release_mutex (chan_mutex chan);;
     relinquish).

(** Reads from channel and returns true if can do so without waiting. *)
Definition try_in (chan paramDest len : Z) : cprog bool :=
  claim_mutex (chan_mutex chan);;
  w <- cget chan ch_waiting;;
  if negb (w =? NULL) then
    (src <- cget chan ch_ptr;;
     memcpy paramDest src len;;
     wasWaiting <- cget chan ch_waiting;;
     cset chan (set_waiting NULL);;
     cset chan (set_ptr NULL);;
     release_mutex (chan_mutex chan);;
     ret true)
  else
    (release_mutex (chan_mutex chan);;
     ret false).

(** Returns true if read would complete. *)
Definition chan_pending (chan : addr) : cprog bool :=
  claim_mutex (chan_mutex chan);;
  w <- cget chan ch_waiting;;
  pending <- (if negb (w =? NULL) then (p <- cget chan ch_ptr;; ret (negb (p =? NULL)))
              else ret false);;
  release_mutex (chan_mutex chan);;
  ret pending.

(** Writes to channel *)
Definition out (chan paramSrc len : Z) : cprog unit :=
  curr <- get_current;;
  claim_mutex (chan_mutex chan);;
  w <- cget chan ch_waiting;;
  if negb (w =? NULL) then
    (dest <- cget chan ch_ptr;;
     if negb (dest =? NULL) then
       (memcpy dest paramSrc len;;
        wasWaiting <- cget chan ch_waiting;;
        cset chan (set_waiting NULL);;
        cset chan (set_ptr NULL);;
        release_mutex (chan_mutex chan);;
        wake wasWaiting)
     else
       (wasWaiting <- cget chan ch_waiting;;
        cset chan (set_waiting curr);;
        PREPARE_TO_WAIT curr;;
        cset chan (set_ptr paramSrc);;
        release_mutex (chan_mutex chan);;
        freeProcessMaybe wasWaiting;;
        relinquish))
  else
    (cset chan (set_ptr paramSrc);;
     cset chan (set_waiting curr);;
     PREPARE_TO_WAIT curr;;
     release_mutex (chan_mutex chan);;
     relinquish).

(** Enables channel for alt, returns true if channel ready. *)
Definition enable_channel (chan proc : addr) : cprog bool :=
  claim_mutex (chan_mutex chan);;
  w <- cget chan ch_waiting;;
  if negb (w =? NULL) then
    (w <- cget chan ch_waiting;;
     if w =? proc then
       (release_mutex (chan_mutex chan);; ret false)
     else
       (release_mutex (chan_mutex chan);; ret true))
  else
    (cset chan (set_waiting proc);;
     cset chan (set_ptr NULL);;
     release_mutex (chan_mutex chan);;
     ret false).

(** Disables channel for alt, returns true if channel ready. *)
Definition disable_channel (chan proc : addr) : cprog bool :=
  claim_mutex (chan_mutex chan);;
  w <- cget chan ch_waiting;;
  ready <- (if negb (w =? NULL) then (w <- cget chan ch_waiting;; ret (negb (w =? proc)))
            else ret false);;
  if ready : bool then
    (release_mutex (chan_mutex chan);; ret true)
  else
    (cset chan (set_waiting NULL);;
     release_mutex (chan_mutex chan);;
     ret false).
