(* ===== verification/Rendezvous.v ===== *)
(** * Rendezvous: what the channels promise

    A channel is idle, or holds a process that waits to read, to write, or in
    an alternation.  The operations of [Comm] are related to these states on
    every branch, and the wake-up protocol they use with [relinquish] is shown
    to lose no wake-up, whichever side comes first. *)

From S2P Require Import Prelude Prog State Fixture Linked Hardware Exec Priority Ipq.
From S2P Require Import Sched ReadyQueue Dispatch Mutex AltState Comm.

#[local] Open Scope prog_scope.

(** ** Copying messages *)

Lemma write_bytes_other m dest l m' a :
  write_bytes m dest l = Some m' -> a < dest \/ dest + Z.of_nat (length l) <= a -> m' !! a = m !! a.
Proof.
  revert m dest. induction l as [|b l IH]; intros m dest; simpl; [by intros [= ->]|].
  destruct (m !! dest) as [x|] eqn:E; [|done]. intros Hw Ha.
  rewrite (IH _ _ Hw) by lia. rewrite lookup_insert_ne by lia. done.
Qed.

Lemma read_bytes_ext m m' src n :
  (forall a, src <= a < src + Z.of_nat n -> m' !! a = m !! a) ->
  read_bytes m' src n = read_bytes m src n.
Proof.
  revert src. induction n as [|n IH]; intros src Ha; [done|]. simpl.
  rewrite Ha by lia. destruct (m !! src); [|done]. simpl. rewrite IH; [done|].
  intros a Hr. apply Ha. lia.
Qed.

Lemma read_bytes_length m src n l : read_bytes m src n = Some l -> length l = n.
Proof.
  revert src l. induction n as [|n IH]; intros src l; simpl; [by intros [= <-]|].
  destruct (m !! src); simpl; [|done]. destruct (read_bytes m (src + 1) n) eqn:E; simpl; [|done].
  intros [= <-]. simpl. f_equal. by eapply IH.
Qed.

(** The destination holds what was written. *)
Lemma write_bytes_read m dest l m' :
  write_bytes m dest l = Some m' -> read_bytes m' dest (length l) = Some l.
Proof.
  revert m dest. induction l as [|b l IH]; intros m dest; simpl; [done|].
  destruct (m !! dest) as [x|] eqn:E; [|done]. intros Hw.
  rewrite (write_bytes_other _ _ _ _ dest Hw) by lia. rewrite lookup_insert_eq. simpl.
  by rewrite (IH _ _ Hw).
Qed.

(** A message of [len] bytes at [src] can be copied to [dest]. *)
Record transfer (s : sys) (dest src len : Z) (data : list Z) (m' : gmap addr Z) : Prop := {
  tr_disjoint : (dest <? src + len) && (src <? dest + len) = false;
  tr_len : 0 <= len;
  tr_read : read_bytes (bytes s) src (Z.to_nat len) = Some data;
  tr_write : write_bytes (bytes s) dest data = Some m' }.

Lemma transfer_result s dest src len data m' :
  transfer s dest src len data m' ->
  read_bytes m' dest (Z.to_nat len) = Some data /\ read_bytes m' src (Z.to_nat len) = Some data.
Proof.
  intros [Hd Hl Hr Hw]. pose proof (read_bytes_length _ _ _ _ Hr) as Hlen. split.
  - rewrite <-Hlen. by eapply write_bytes_read.
  - rewrite <-Hr. apply read_bytes_ext. intros a Ha. apply (write_bytes_other _ _ _ _ _ Hw).
    apply andb_false_iff in Hd. rewrite !Z.ltb_ge in Hd. lia.
Qed.

(** ** Channel states *)

Inductive chan_state :=
| Idle
| Reading (p dest : addr)
| Writing (p src : addr)
| Alting (p : addr).

(** The record that represents a state; [Reading] and [Writing] look alike, the
    single reader and the single writer of a channel know who the other is. *)
Definition chan_record (st : chan_state) (len : Z) : Channel :=
  match st with
  | Idle => mkChannel NULL NULL len
  | Reading p a | Writing p a => mkChannel p a len
  | Alting p => mkChannel p NULL len
  end.

Record chan_rep (s : sys) (ch : addr) (st : chan_state) : Prop := {
  cr_record : exists len, chans s !! ch = Some (chan_record st len);
  cr_mutex : mutexes s !! chan_mutex ch = Some false;
  cr_nonnull : match st with
               | Idle => True
               | Reading p a | Writing p a => p <> NULL /\ a <> NULL
               | Alting p => p <> NULL
               end }.

(** Setting the state of a channel. *)
Definition with_chan (ch : addr) (st : chan_state) (s : sys) : sys :=
  upd_chan ch (fun K => chan_record st (ch_len K)) s.

Lemma with_chan_rep s ch st st' :
  chan_rep s ch st ->
  match st' with
  | Idle => True
  | Reading p a | Writing p a => p <> NULL /\ a <> NULL
  | Alting p => p <> NULL
  end -> chan_rep (with_chan ch st' s) ch st'.
Proof.
  intros [[len Hk] Hm _] Hn. split; [|done|done].
  exists len. simpl. rewrite lookup_alter_eq, Hk. by destruct st.
Qed.

Section Channel.
Context (c : Z) (ch : addr).

(** A critical section that reads and sets fields of the channel. *)
Lemma exec_cget {A B} (fld : Channel -> A) (g : A -> cprog B) s K o :
  chans s !! ch = Some K -> exec c (g (fld K)) s o -> exec c (bind (cget ch fld) g) s o.
Proof. intros HK. apply exec_fetch. by rewrite HK. Qed.

Lemma exec_cset {B} f (g : unit -> cprog B) s K o :
  chans s !! ch = Some K -> exec c (g tt) (upd_chan ch f s) o -> exec c (bind (cset ch f) g) s o.
Proof. intros HK. apply exec_store. by rewrite HK. Qed.

Lemma exec_memcpy {B} dest src len data m' (g : unit -> cprog B) s o :
  transfer s dest src len data m' -> exec c (g tt) (set_bytes m' s) o ->
  exec c (bind (memcpy dest src len) g) s o.
Proof. intros [Hd _ Hr Hw]. apply exec_store. rewrite Hd, Hr. simpl. by rewrite Hw. Qed.

Lemma exec_claim {B} s (g : unit -> cprog B) o :
  mutexes s !! chan_mutex ch = Some false ->
  exec c (g tt) (upd_mutex (chan_mutex ch) true s) o ->
  exec c (bind (claim_mutex (chan_mutex ch)) g) s o.
Proof. apply (claim_free (release := release_mutex)). Qed.

(** The end of the section: [s1] is [s'] with the mutex claimed. *)
Lemma exec_release {B} s s1 s' (g : unit -> cprog B) o :
  mutexes s !! chan_mutex ch = Some false -> mutexes s' = mutexes s ->
  s1 = upd_mutex (chan_mutex ch) true s' -> exec c (g tt) s' o ->
  exec c (bind (release_mutex (chan_mutex ch)) g) s1 o.
Proof.
  intros Hm Hs -> Hg. eapply (release_taken (claim := claim_mutex)).
  - simpl. rewrite lookup_insert_eq. by eexists.
  - by erewrite (upd_mutex_undo (chan_mutex ch) s _ s').
Qed.

Lemma upd_chan_twice f g s : upd_chan ch f (upd_chan ch g s) = upd_chan ch (fun K => f (g K)) s.
Proof.
  unfold upd_chan, set_chans. simpl. f_equal. apply map_eq. intros i.
  destruct (decide (ch = i)) as [->|]; [|by rewrite !lookup_alter_ne].
  rewrite !lookup_alter_eq. by destruct (chans s !! i).
Qed.

Lemma upd_chan_eq f g s :
  (forall K, f K = g K) -> upd_chan ch f s = upd_chan ch g s.
Proof. intros Hfg. unfold upd_chan. f_equal. apply alter_ext. intros K _. apply Hfg. Qed.

Lemma upd_chan_alt f g s K :
  chans s !! ch = Some K -> f K = g K -> upd_chan ch f s = upd_chan ch g s.
Proof.
  intros HK Hfg. unfold upd_chan. f_equal. apply alter_ext. intros K' HK'. congruence.
Qed.

(** The two assignments of the code set a state. *)
Lemma set_chan_state s a p st :
  (forall len, chan_record st len = mkChannel p a len) ->
  upd_chan ch (set_ptr a) (upd_chan ch (set_waiting p) s) = with_chan ch st s /\
  upd_chan ch (set_waiting p) (upd_chan ch (set_ptr a) s) = with_chan ch st s.
Proof.
  intros Hst. unfold with_chan. split; rewrite upd_chan_twice; apply upd_chan_eq; intros K;
    by rewrite Hst.
Qed.

(** A process that finds its partner: the message is copied, the channel is
    idle, the partner is woken. *)
Definition delivered (m' : gmap addr Z) (s : sys) : sys := with_chan ch Idle (set_bytes m' s).

Lemma delivered_rep m' s st : chan_rep s ch st -> chan_rep (delivered m' s) ch Idle.
Proof.
  intros Hr. apply (with_chan_rep (set_bytes m' s) ch st Idle); [|done].
  destruct Hr as [H1 H2 H3]. by split.
Qed.

(** The assignments and the release with which [in], [try_in] and [out] leave
    the critical section after the copy, followed by [k]. *)
Lemma exec_delivered {B} s K m' (g : addr -> cprog B) o :
  mutexes s !! chan_mutex ch = Some false -> chans s !! ch = Some K ->
  exec c (g (ch_waiting K)) (delivered m' s) o ->
  exec c (wasWaiting <- cget ch ch_waiting;;
          cset ch (set_waiting NULL);; cset ch (set_ptr NULL);;
          release_mutex (chan_mutex ch);; g wasWaiting)
    (set_bytes m' (upd_mutex (chan_mutex ch) true s)) o.
Proof.
  intros Hm HK Hg. eapply exec_cget; [exact HK|]. eapply exec_cset; [exact HK|].
  eapply exec_cset; [simpl; by rewrite lookup_alter_eq, HK|].
  apply (exec_release s _ (delivered m' s)); [exact Hm|done| |exact Hg].
  exact (proj1 (set_chan_state (upd_mutex (chan_mutex ch) true (set_bytes m' s)) NULL NULL Idle
    (fun _ => eq_refl))).
Qed.

(** A process leaves itself in the channel and announces that it will wait. *)
Definition deposited (cur : addr) (st : chan_state) (s : sys) : sys :=
  upd_proc cur (set_sched_state PROC_PREPARING_TO_WAIT) (with_chan ch st s).

Lemma exec_deposit {B} s K C cur a st (g : unit -> cprog B) o :
  mutexes s !! chan_mutex ch = Some false -> chans s !! ch = Some K -> procs s !! cur = Some C ->
  (forall len, chan_record st len = mkChannel cur a len) ->
  exec c (g tt) (deposited cur st s) o ->
  exec c (cset ch (set_ptr a);; cset ch (set_waiting cur);; PREPARE_TO_WAIT cur;;
          release_mutex (chan_mutex ch);; g tt) (upd_mutex (chan_mutex ch) true s) o.
Proof.
  intros Hm HK HC Hst Hg. eapply exec_cset; [exact HK|].
  eapply exec_cset; [simpl; by rewrite lookup_alter_eq, HK|].
  unfold PREPARE_TO_WAIT. eapply exec_pset; [exact HC|].
  apply (exec_release s _ (deposited cur st s)); [exact Hm|done| |exact Hg].
  unfold deposited.
  by rewrite (proj2 (set_chan_state (upd_mutex (chan_mutex ch) true s) a cur st Hst)).
Qed.

Lemma in_writing s cur w src dest len data m' o :
  on_cpu c s -> current s !! c = Some cur -> chan_rep s ch (Writing w src) ->
  transfer s dest src len data m' ->
  exec c (wake w) (delivered m' s) o -> exec c (in_ ch dest len) s o.
Proof.
  intros Hc Hcur [[n HK] Hm [Hw0 Hs0]] Ht Hg. unfold in_.
  eapply exec_get_current; [exact Hc|exact Hcur|]. apply (exec_claim s); [exact Hm|].
  eapply exec_cget; [exact HK|]. cbn [ch_waiting chan_record]. zb.
  eapply exec_cget; [exact HK|]. cbn [ch_ptr chan_record].
  eapply exec_memcpy; [destruct Ht; by split|].
  eapply (exec_delivered s); [exact Hm|exact HK|exact Hg].
Qed.

Lemma try_in_writing s w src dest len data m' :
  chan_rep s ch (Writing w src) -> transfer s dest src len data m' ->
  exec c (try_in ch dest len) s (Done true (delivered m' s)).
Proof.
  intros [[n HK] Hm [Hw0 Hs0]] Ht. unfold try_in. apply (exec_claim s); [exact Hm|].
  eapply exec_cget; [exact HK|]. cbn [ch_waiting chan_record]. zb.
  eapply exec_cget; [exact HK|]. cbn [ch_ptr chan_record].
  eapply exec_memcpy; [destruct Ht; by split|].
  eapply (exec_delivered s); [exact Hm|exact HK|apply exec_ret].
Qed.

Lemma out_reading s cur r dest src len data m' o :
  on_cpu c s -> current s !! c = Some cur -> chan_rep s ch (Reading r dest) ->
  transfer s dest src len data m' ->
  exec c (wake r) (delivered m' s) o -> exec c (out ch src len) s o.
Proof.
  intros Hc Hcur [[n HK] Hm [Hr0 Hd0]] Ht Hg. unfold out.
  eapply exec_get_current; [exact Hc|exact Hcur|]. apply (exec_claim s); [exact Hm|].
  eapply exec_cget; [exact HK|]. cbn [ch_waiting chan_record]. zb.
  eapply exec_cget; [exact HK|]. cbn [ch_ptr chan_record]. zb.
  eapply exec_memcpy; [destruct Ht; by split|].
  eapply (exec_delivered s); [exact Hm|exact HK|exact Hg].
Qed.

Lemma in_idle s cur C dest len o :
  on_cpu c s -> current s !! c = Some cur -> procs s !! cur = Some C -> chan_rep s ch Idle ->
  exec c relinquish (deposited cur (Reading cur dest) s) o -> exec c (in_ ch dest len) s o.
Proof.
  intros Hc Hcur HC [[n HK] Hm _] Hg. unfold in_.
  eapply exec_get_current; [exact Hc|exact Hcur|]. apply (exec_claim s); [exact Hm|].
  eapply exec_cget; [exact HK|]. cbn [ch_waiting chan_record]. zb.
  by eapply (exec_deposit s _ C cur dest (Reading cur dest) (fun _ => relinquish)).
Qed.

Lemma out_idle s cur C src len o :
  on_cpu c s -> current s !! c = Some cur -> procs s !! cur = Some C -> chan_rep s ch Idle ->
  exec c relinquish (deposited cur (Writing cur src) s) o -> exec c (out ch src len) s o.
Proof.
  intros Hc Hcur HC [[n HK] Hm _] Hg. unfold out.
  eapply exec_get_current; [exact Hc|exact Hcur|]. apply (exec_claim s); [exact Hm|].
  eapply exec_cget; [exact HK|]. cbn [ch_waiting chan_record]. zb.
  by eapply (exec_deposit s _ C cur src (Writing cur src) (fun _ => relinquish)).
Qed.

Lemma out_alting s cur C p src len o :
  on_cpu c s -> current s !! c = Some cur -> procs s !! cur = Some C -> chan_rep s ch (Alting p) ->
  exec c (freeProcessMaybe p;; relinquish) (deposited cur (Writing cur src) s) o ->
  exec c (out ch src len) s o.
Proof.
  intros Hc Hcur HC [[n HK] Hm Hp0] Hg. unfold out.
  eapply exec_get_current; [exact Hc|exact Hcur|]. apply (exec_claim s); [exact Hm|].
  eapply exec_cget; [exact HK|]. cbn [ch_waiting chan_record]. zb.
  eapply exec_cget; [exact HK|]. cbn [ch_ptr chan_record]. zb.
  eapply exec_cget; [exact HK|]. eapply exec_cset; [exact HK|].
  unfold PREPARE_TO_WAIT. eapply exec_pset; [exact HC|].
  eapply exec_cset; [simpl; by rewrite lookup_alter_eq, HK|].
  apply (exec_release s _ (deposited cur (Writing cur src) s)); [exact Hm|done| |exact Hg].
  exact (f_equal (upd_proc cur (set_sched_state PROC_PREPARING_TO_WAIT))
    (proj1 (set_chan_state (upd_mutex (chan_mutex ch) true s) src cur
      (Writing cur src) (fun _ => eq_refl)))).
Qed.

Lemma try_in_idle s dest len :
  chan_rep s ch Idle -> exec c (try_in ch dest len) s (Done false s).
Proof.
  intros [[n HK] Hm _]. unfold try_in. apply (exec_claim s); [exact Hm|].
  eapply exec_cget; [exact HK|]. cbn [ch_waiting chan_record]. zb.
  apply (exec_release s _ s); [exact Hm|done|done|apply exec_ret].
Qed.

(** Enabling and disabling for process [p]. *)
Lemma enable_channel_run s p st :
  chan_rep s ch st -> p <> NULL ->
  exec c (enable_channel ch p) s
    (match st with
     | Idle => Done false (with_chan ch (Alting p) s)
     | Reading q _ | Writing q _ | Alting q => Done (negb (q =? p)) s
     end).
Proof.
  intros [[n HK] Hm Hn] Hp. unfold enable_channel. apply (exec_claim s); [exact Hm|].
  eapply exec_cget; [exact HK|].
  destruct st as [|q a|q a|q]; cbn [ch_waiting chan_record] in *; [|destruct Hn as [Hn _]..|].
  - zb. eapply exec_cset; [exact HK|].
    eapply exec_cset; [simpl; by rewrite lookup_alter_eq, HK|].
    apply (exec_release s _ (with_chan ch (Alting p) s)); [exact Hm|done| |apply exec_ret].
    exact (proj1 (set_chan_state (upd_mutex (chan_mutex ch) true s) NULL p (Alting p) (fun _ => eq_refl))).
  - zb. eapply exec_cget; [exact HK|]. cbn [ch_waiting chan_record].
    destruct (q =? p); apply (exec_release s _ s); first [exact Hm|done|apply exec_ret].
  - zb. eapply exec_cget; [exact HK|]. cbn [ch_waiting chan_record].
    destruct (q =? p); apply (exec_release s _ s); first [exact Hm|done|apply exec_ret].
  - zb. eapply exec_cget; [exact HK|]. cbn [ch_waiting chan_record].
    destruct (q =? p); apply (exec_release s _ s); first [exact Hm|done|apply exec_ret].
Qed.

Lemma disable_channel_run s p st :
  chan_rep s ch st -> (match st with Reading _ _ => False | _ => True end) ->
  exec c (disable_channel ch p) s
    (match st with
     | Alting q => if q =? p then Done false (with_chan ch Idle s) else Done true s
     | Writing q _ => if q =? p then Done false (upd_chan ch (set_waiting NULL) s) else Done true s
     | Idle | Reading _ _ => Done false s
     end).
Proof.
  intros [[n HK] Hm Hn] Hst. unfold disable_channel. apply (exec_claim s); [exact Hm|].
  eapply exec_cget; [exact HK|].
  destruct st as [|q a|q a|q]; cbn [ch_waiting chan_record] in *; [|done|destruct Hn as [Hn _]|].
  - zb. xstep1. eapply exec_cset; [exact HK|].
    apply (exec_release s _ s); [exact Hm|done| |apply exec_ret].
    unfold upd_chan. rewrite alter_id; [by destruct s|].
    intros K HK'. simpl in HK'. rewrite HK in HK'. by injection HK' as <-.
  - zb. xstep1. eapply exec_cget; [exact HK|]. cbn [ch_waiting chan_record]. xstep1.
    destruct (q =? p); cbn [negb].
    + eapply exec_cset; [exact HK|].
      apply (exec_release s _ (upd_chan ch (set_waiting NULL) s)); [exact Hm|done|done|apply exec_ret].
    + apply (exec_release s _ s); [exact Hm|done|done|apply exec_ret].
  - zb. xstep1. eapply exec_cget; [exact HK|]. cbn [ch_waiting chan_record]. xstep1.
    destruct (q =? p); cbn [negb].
    + eapply exec_cset; [exact HK|].
      apply (exec_release s _ (with_chan ch Idle s)); [exact Hm|done| |apply exec_ret].
      by apply (upd_chan_alt _ (fun K => chan_record Idle (ch_len K))
        (upd_mutex (chan_mutex ch) true s) _ HK).
    + apply (exec_release s _ s); [exact Hm|done|done|apply exec_ret].
Qed.
End Channel.

(** ** Waking *)

(** A process that has not entered the waiting state is only marked ready. *)
Lemma wake_not_waiting c s w W :
  procs s !! w = Some W -> p_sched_state W <> PROC_WAITING ->
  exec c (wake w) s (Done tt (upd_proc w (set_sched_state PROC_READY) s)).
Proof.
  intros HW Hst. unfold wake. xstep1. apply Z.eqb_neq in Hst. rewrite Hst. apply exec_ret.
Qed.

Lemma wake_waiting c s w W o :
  procs s !! w = Some W -> p_sched_state W = PROC_WAITING ->
  exec c (schedule w) (upd_proc w (set_sched_state PROC_READY) s) o -> exec c (wake w) s o.
Proof. intros HW Hst Hg. unfold wake. xstep1. by rewrite Hst. Qed.

(** Waking a waiting process of another processor. *)
Lemma wake_remote d s w W q l t g pl m :
  on_cpu d s -> procs s !! w = Some W -> p_sched_state W = PROC_WAITING -> p_pun W <> d ->
  ipQues s !! p_pun W = Some q -> ipq_rep q l -> Z.of_nat (length l) < QSIZE - 1 ->
  ipi_target s (p_pun W) t g pl -> sigmask (hw s) !! d = Some m ->
  exec d (wake w) s
    (Done tt (masked d m (signalled t g pl (ipq_added (p_pun W) (nextAdd q) w
       (masked d sigfillset (upd_proc w (set_sched_state PROC_READY) s)))))).
Proof.
  intros Hd HW Hst Hp Hq Hr Hlen Ht Hm. apply (wake_waiting d s w W); [done..|].
  unfold schedule. apply exec_disable.
  eapply exec_bind_done.
  { apply (schedule0_remote d _ w (set_sched_state PROC_READY W) q l t g pl); try done.
    simpl. by rewrite lookup_alter_eq, HW. }
  rewrite <-(bind_ret_r enable). eapply exec_enable; [done|exact Hm|apply exec_ret].
Qed.

(** Waking a waiting process of one's own processor. *)
Lemma wake_own c s cur ql l w W m :
  sched_ok c s cur ql l -> procs s !! w = Some W -> p_pun W = c -> w <> NULL ->
  p_sched_state W = PROC_WAITING -> w ∉ cur :: ql ++ l -> sigmask (hw s) !! c = Some m ->
  exists s' C, procs s !! cur = Some C /\ sched_step s s' /\
    sts s' w = Some (PROC_READY, p_alt_state W) /\ (forall x, x <> w -> sts s' x = sts s x) /\
    if pri_gt (p_pri W) (p_pri C) then
      exec c (wake w) s (Switched (p_stackptr C) (p_stackptr W) enable s') /\
      uctxs (hw s') !! p_stackptr C = Some Suspended /\
      sched_ok c s' w ql (rq_insert (pri_of s) cur l)
    else
      exec c (wake w) s (Done tt s') /\ thread_mask (hw s') !! c = Some m /\
      sched_ok c s' cur ql (rq_insert (pri_of s) w l).
Proof.
  intros Hok HW Hpun Hw0 Hst Hwl Hm. set (s1 := upd_proc w (set_sched_state PROC_READY) s).
  assert (Hok1 : sched_ok c s1 cur ql l) by (apply sched_ok_quiet; auto with cxp).
  assert (HW1 : procs s1 !! w = Some (set_sched_state PROC_READY W))
    by (simpl; by rewrite lookup_alter_eq, HW).
  destruct (schedule_own c s1 cur ql l w _ m Hok1 HW1 Hpun Hw0 Hwl Hm)
    as (s' & C & HC & Hs & Hsts & Hr).
  assert (HC' : procs s !! cur = Some C) by (simpl in HC; by rewrite lookup_alter_ne in HC by set_solver).
  exists s', C. split_and!; [done| | | |].
  - etrans; [by apply (sched_step_quiet _ w s (quiet_sched_state PROC_READY))|exact Hs].
  - rewrite Hsts. by rewrite (sts_lookup _ _ _ HW1).
  - intros x Hx. rewrite Hsts. unfold sts. simpl. by rewrite lookup_alter_ne.
  - assert (Hext : forall p k, rq_insert (pri_of s) p k = rq_insert (pri_of s1) p k).
    { intros p k. apply rq_insert_ext. intros x. symmetry. by apply pri_of_quiet. }
    rewrite !Hext. change (p_pri (set_sched_state PROC_READY W)) with (p_pri W) in Hr.
    destruct (pri_gt (p_pri W) (p_pri C)); destruct Hr as (He & ? & Hok');
      (split; [by eapply wake_waiting|done]).
Qed.

(** A process that has left itself in a channel waits, and the first of the
    merged queue gets the processor. *)
Lemma deposit_relinquish c s ch st cur C q ql l n L :
  cpu_state c s cur C q ql l -> rq_insert_all (pri_of s) ql l = n :: L ->
  exists s' q' N N', exec c relinquish (deposited ch cur st s)
      (Switched (p_stackptr C) (p_stackptr N) enable s') /\
    procs s !! n = Some N /\ n <> cur /\ cur ∉ L /\
    sched_step (deposited ch cur st s) s' /\ cpu_state c s' n N' q' [] L /\
    p_sched_state <$> procs s' !! cur = Some PROC_WAITING /\
    (forall x, x <> cur -> sts s' x = sts s x) /\
    uctxs (hw s') !! p_stackptr C = Some Suspended.
Proof.
  intros Hcs HL. set (s0 := with_chan ch st s).
  assert (Hcs0 : cpu_state c s0 cur C q ql l) by by apply (cpu_state_ext c s).
  pose proof (cpu_state_quiet c _ cur s0 cur C q ql l (quiet_sched_state PROC_PREPARING_TO_WAIT) Hcs0) as Hcs1.
  rewrite decide_True in Hcs1 by done.
  assert (HL1 : rq_insert_all (pri_of (deposited ch cur st s)) ql l = n :: L).
  { rewrite <-HL. apply rq_insert_all_ext. intros x. apply (pri_of_quiet _ (quiet_sched_state _) cur s0). }
  destruct (relinquish_wait c _ cur _ q ql l n L Hcs1 eq_refl HL1)
    as (s' & q' & N & N' & He & HN & Hs & Hcs' & Hw & Hsts & Hu & _).
  destruct (next_proc c _ _ _ _ _ _ _ _ Hcs HL) as (M & HM & _ & _ & Hnd).
  rewrite NoDup_cons, NoDup_cons in Hnd. assert (Hne : n <> cur) by set_solver.
  exists s', q', N, N'. split_and!; [exact He| |done|tauto|exact Hs|done|done| |by rewrite Hu, lookup_insert_eq].
  - simpl in HN. by rewrite lookup_alter_ne in HN.
  - intros x Hx. rewrite Hsts by done. unfold sts. simpl. by rewrite lookup_alter_ne.
Qed.

(** ** Theorems *)

(** Waking a process of one's own processor.  A process that is waiting
    becomes ready and gets the processor at once if its priority is higher, a
    place in the ready queue otherwise; one that has only announced its wait,
    or is ready, is not queued.  The invariant of the scheduler is kept. *)
Theorem wake_correct c s cur ql l w W m :
  sched_ok c s cur ql l -> procs s !! w = Some W -> p_pun W = c -> w <> NULL ->
  (p_sched_state W = PROC_WAITING -> w ∉ cur :: ql ++ l) -> sigmask (hw s) !! c = Some m ->
  exists s' C, procs s !! cur = Some C /\ p_sched_state <$> procs s' !! w = Some PROC_READY /\
    if p_sched_state W =? PROC_WAITING then
      if pri_gt (p_pri W) (p_pri C) then
        exec c (wake w) s (Switched (p_stackptr C) (p_stackptr W) enable s') /\
        sched_ok c s' w ql (rq_insert (pri_of s) cur l)
      else
        exec c (wake w) s (Done tt s') /\ sched_ok c s' cur ql (rq_insert (pri_of s) w l)
    else exec c (wake w) s (Done tt s') /\ sched_ok c s' cur ql l.
Proof.
  intros Hok HW Hpun Hw0 Hwl Hm.
  destruct (Z.eqb_spec (p_sched_state W) PROC_WAITING) as [Hst|Hst].
  - destruct (wake_own c s cur ql l w W m Hok HW Hpun Hw0 Hst (Hwl Hst) Hm)
      as (s' & C & HC & _ & Hsts & _ & Hr).
    exists s', C. split; [done|]. split.
    { unfold sts in Hsts. destruct (procs s' !! w); simpl in *; congruence. }
    destruct (pri_gt (p_pri W) (p_pri C)); tauto.
  - destruct (so_cpu _ _ _ _ _ Hok) as (C & q & Hcs).
    exists (upd_proc w (set_sched_state PROC_READY) s), C. split_and!; [apply Hcs| | |].
    + simpl. by rewrite lookup_alter_eq, HW.
    + by eapply wake_not_waiting.
    + apply sched_ok_quiet; auto with cxp.
Qed.

(** A process that waits is woken by another processor: it goes through the
    queue of its own processor, which gets the interrupt, once. *)
Lemma waiting_woken c d s n N q L cur C md t g pl :
  cpu_state c s n N q [] L -> procs s !! cur = Some C -> p_sched_state C = PROC_WAITING -> p_pun C = c ->
  cur <> NULL -> cur ∉ n :: L ->
  on_cpu d s -> d <> c -> sigmask (hw s) !! d = Some md -> ipi_target s c t g pl ->
  exists s2 q2, exec d (wake cur) s (Done tt s2) /\ cpu_state c s2 n N q2 [cur] L /\
    pending (hw s2) !! t = Some (pl ++ [g]) /\
    p_sched_state <$> procs s2 !! cur = Some PROC_READY /\
    exists s3, exec d (wake cur) s2 (Done tt s3) /\ sts s3 cur = sts s2 cur /\
      ipQues s3 = ipQues s2 /\ pending (hw s3) = pending (hw s2).
Proof.
  intros [Hqs Hcur HN HNp Hn0 Hfr] HC Hst HCp Hcur0 Hnin Hd Hdc Hmd Ht.
  pose proof (wake_remote d s cur C q [] t g pl md Hd HC Hst ltac:(congruence)) as Hwake.
  rewrite HCp in Hwake. specialize (Hwake (qs_ipq _ _ _ _ _ Hqs) (qs_ipq_rep _ _ _ _ _ Hqs)
    ltac:(by vm_compute) Ht Hmd).
  set (s2 := masked d md _) in Hwake.
  assert (HC2 : procs s2 !! cur = Some (set_sched_state PROC_READY C))
    by (simpl; by rewrite lookup_alter_eq, HC).
  exists s2, (set_slot (nextAdd q) cur (set_nextAdd (next_slot (nextAdd q)) q)).
  split_and!; [exact Hwake| |simpl; by rewrite lookup_insert_eq|by rewrite HC2|].
  - split; [|exact Hcur|simpl; rewrite lookup_alter_ne by set_solver; exact HN|done|done|set_solver].
    split.
    + apply Hqs.
    + simpl. by rewrite !lookup_alter_eq, (qs_ipq _ _ _ _ _ Hqs).
    + apply (ipq_added_rep q []); [apply Hqs|by vm_compute|done].
    + apply (rdy_rep_ext (upd_proc cur (set_sched_state PROC_READY) s)); [done..|].
      apply rdy_rep_quiet; [done|apply Hqs].
    + constructor; [|constructor]. split_and!; [done| |rewrite HC2; by eexists].
      unfold pun_of. by rewrite HC2.
    + pose proof (qs_nodup _ _ _ _ _ Hqs) as Hnd. simpl in Hnd |- *. rewrite NoDup_cons. set_solver.
  - eexists. split; [eapply wake_not_waiting; [exact HC2|done]|].
    split_and!; [|done|done]. unfold sts. simpl. by rewrite !lookup_alter_eq, HC.
Qed.

(** C10: no wake-up is lost.  [cur] has announced its wait on processor [c] and
    processor [d] wakes it.  If the wake-up comes first, [relinquish] returns at
    once, with [cur] ready and still running.  If [relinquish] comes first, the
    wake-up puts [cur] in the interprocessor queue of [c], once, and interrupts
    [c]; a second wake-up changes nothing but the mask. *)
Theorem no_lost_wakeup c d s cur C q ql l n L md t g pl :
  cpu_state c s cur C q ql l -> p_sched_state C = PROC_PREPARING_TO_WAIT ->
  rq_insert_all (pri_of s) ql l = n :: L ->
  on_cpu d s -> d <> c -> sigmask (hw s) !! d = Some md -> ipi_target s c t g pl ->
  (exists s1, exec d (wake cur) s (Done tt s1) /\ exec c relinquish s1 (Done tt s1) /\
     p_sched_state <$> procs s1 !! cur = Some PROC_READY /\ current s1 !! c = Some cur) /\
  (exists s1 N s2 N2 q2, exec c relinquish s (Switched (p_stackptr C) (p_stackptr N) enable s1) /\
     procs s !! n = Some N /\ exec d (wake cur) s1 (Done tt s2) /\
     cpu_state c s2 n N2 q2 [cur] L /\ pending (hw s2) !! t = Some (pl ++ [g]) /\
     p_sched_state <$> procs s2 !! cur = Some PROC_READY /\
     exists s3, exec d (wake cur) s2 (Done tt s3) /\ sts s3 cur = sts s2 cur /\
       ipQues s3 = ipQues s2 /\ pending (hw s3) = pending (hw s2)).
Proof.
  intros Hcs Hst HL Hd Hdc Hmd Ht. pose proof Hcs as [Hqs Hcur HC HCp Hcur0 Hfr]. split.
  - set (s1 := upd_proc cur (set_sched_state PROC_READY) s).
    assert (HC1 : procs s1 !! cur = Some (set_sched_state PROC_READY C))
      by (simpl; by rewrite lookup_alter_eq, HC).
    exists s1. rewrite HC1. split_and!; [|eapply relinquish_ready; [apply Hqs|done|exact HC1|done]|done|done].
    eapply wake_not_waiting; [exact HC|by rewrite Hst].
  - destruct (relinquish_wait c s cur C q ql l n L Hcs Hst HL)
      as (s1 & q' & N & N' & He & HN & Hstep & Hcs1 & Hw & _).
    destruct (procs s1 !! cur) as [C1|] eqn:HC1; [|done]. simpl in Hw. injection Hw as HC1w.
    destruct (same_fields _ _ cur _ _ Hstep HC HC1) as (_ & E & _).
    pose proof (f_equal pending (ss_hw _ _ Hstep)) as Hp. cbn in Hp.
    pose proof (f_equal sigmask (ss_hw _ _ Hstep)) as Hsm. cbn in Hsm.
    pose proof (f_equal cpu_key (ss_hw _ _ Hstep)) as Hck. cbn in Hck.
    pose proof (f_equal thread_id (ss_hw _ _ Hstep)) as Hti. cbn in Hti.
    pose proof (f_equal signal_no (ss_hw _ _ Hstep)) as Hsn. cbn in Hsn.
    destruct (next_proc c _ _ _ _ _ _ _ _ Hcs HL) as (_ & _ & _ & _ & [Hnc [HcL _]%NoDup_cons]%NoDup_cons).
    destruct (waiting_woken c d s1 n N' q' L cur C1 md t g pl Hcs1 HC1 HC1w ltac:(congruence) Hcur0)
      as (s2 & q2 & Hwake & Hcs2 & Hp2 & Hst2 & Hagain).
    + clear -Hnc HcL. set_solver.
    + unfold on_cpu. by rewrite Hck.
    + exact Hdc.
    + by rewrite Hsm.
    + unfold ipi_target. by rewrite Hti, Hsn, Hp.
    + exists s1, N, s2, N', q2. by split_and!.
Qed.

(** C13: [in].  With a writer in the channel the message is copied to the
    reader's area, which then holds what the writer's does, the channel is idle
    again, and what is left is to wake the writer; on an idle channel the reader
    leaves itself and its area there, has announced its wait, and relinquishes.
    In both cases the channel's mutex is free again. *)
Theorem in_correct c s cur C ch st dest len :
  on_cpu c s -> current s !! c = Some cur -> procs s !! cur = Some C -> chan_rep s ch st ->
  match st with
  | Writing w src => forall data m', transfer s dest src len data m' ->
      exists s1, chan_rep s1 ch Idle /\
        read_bytes (bytes s1) dest (Z.to_nat len) = Some data /\
        read_bytes (bytes s1) src (Z.to_nat len) = Some data /\
        procs s1 = procs s /\ (forall ch', ch' <> ch -> chans s1 !! ch' = chans s !! ch') /\
        forall o, exec c (wake w) s1 o -> exec c (in_ ch dest len) s o
  | Idle => cur <> NULL -> dest <> NULL ->
      exists s1, chan_rep s1 ch (Reading cur dest) /\
        procs s1 !! cur = Some (set_sched_state PROC_PREPARING_TO_WAIT C) /\ bytes s1 = bytes s /\
        forall o, exec c relinquish s1 o -> exec c (in_ ch dest len) s o
  | _ => True
  end.
Proof.
  intros Hc Hcur HC Hr. destruct st as [|p a|w src|p]; [|done| |done].
  - intros Hc0 Hd0. exists (deposited ch cur (Reading cur dest) s). split_and!.
    + destruct (with_chan_rep s ch Idle (Reading cur dest) Hr) as [H1 H2 H3]; [done|]. by split.
    + simpl. by rewrite lookup_alter_eq, HC.
    + done.
    + intros o. by eapply in_idle.
  - intros data m' Ht. exists (delivered ch m' s).
    destruct (transfer_result _ _ _ _ _ _ Ht) as [H1 H2]. split_and!; try done.
    + by eapply delivered_rep.
    + intros ch' Hne. simpl. by rewrite lookup_alter_ne.
    + intros o. by eapply in_writing.
Qed.

(** C14: [out].  With a reader in the channel the message is copied to the
    reader's area and what is left is to wake the reader; on an idle channel,
    and if an alternation holds it, the writer leaves itself and its message
    there and has announced its wait; what is left is to relinquish, after
    freeing the alternation if there is one. *)
Theorem out_correct c s cur C ch st src len :
  on_cpu c s -> current s !! c = Some cur -> procs s !! cur = Some C -> chan_rep s ch st ->
  cur <> NULL -> src <> NULL ->
  match st with
  | Reading r dest => forall data m', transfer s dest src len data m' ->
      exists s1, chan_rep s1 ch Idle /\
        read_bytes (bytes s1) dest (Z.to_nat len) = Some data /\ procs s1 = procs s /\
        forall o, exec c (wake r) s1 o -> exec c (out ch src len) s o
  | Idle =>
      exists s1, chan_rep s1 ch (Writing cur src) /\
        procs s1 !! cur = Some (set_sched_state PROC_PREPARING_TO_WAIT C) /\ bytes s1 = bytes s /\
        forall o, exec c relinquish s1 o -> exec c (out ch src len) s o
  | Alting p =>
      exists s1, chan_rep s1 ch (Writing cur src) /\
        procs s1 !! cur = Some (set_sched_state PROC_PREPARING_TO_WAIT C) /\ bytes s1 = bytes s /\
        forall o, exec c (freeProcessMaybe p;; relinquish) s1 o -> exec c (out ch src len) s o
  | Writing _ _ => True
  end.
Proof.
  intros Hc Hcur HC Hr Hc0 Hs0. destruct st as [|r dest|w a|p]; [| |done|].
  - exists (deposited ch cur (Writing cur src) s). split_and!.
    + destruct (with_chan_rep s ch Idle (Writing cur src) Hr) as [H1 H2 H3]; [done|]. by split.
    + simpl. by rewrite lookup_alter_eq, HC.
    + done.
    + intros o. by eapply out_idle.
  - intros data m' Ht. exists (delivered ch m' s).
    destruct (transfer_result _ _ _ _ _ _ Ht) as [H1 H2]. split_and!; try done.
    + by eapply delivered_rep.
    + intros o. by eapply out_reading.
  - exists (deposited ch cur (Writing cur src) s). split_and!.
    + destruct (with_chan_rep s ch (Alting p) (Writing cur src) Hr) as [H1 H2 H3]; [done|]. by split.
    + simpl. by rewrite lookup_alter_eq, HC.
    + done.
    + intros o. by eapply out_alting.
Qed.

(** [try_in] on a channel with a writer copies the message, empties the
    channel and returns true, but does not make the writer ready: no process
    record, ready queue or interprocessor queue changes, so a writer that was
    waiting is waiting still, and nobody will find it in the channel again. *)
Theorem try_in_strands_writer c s ch w src dest len data m' :
  chan_rep s ch (Writing w src) -> transfer s dest src len data m' ->
  exists s1, exec c (try_in ch dest len) s (Done true s1) /\ chan_rep s1 ch Idle /\
    read_bytes (bytes s1) dest (Z.to_nat len) = Some data /\
    procs s1 = procs s /\ rdyQues s1 = rdyQues s /\ ipQues s1 = ipQues s /\ hw s1 = hw s.
Proof.
  intros Hr Ht. exists (delivered ch m' s).
  split_and!; [by eapply try_in_writing|by eapply delivered_rep| |done..].
  by apply (transfer_result _ _ _ _ _ _ Ht).
Qed.


(** Enabling a channel for an alternation says whether a writer is there;
    if nobody is, the alternation is left in the channel, and disabling it finds
    out whether a writer has come in the meantime.  Without one, enabling and
    then disabling leaves the state as it was. *)
Theorem enable_disable_channel c s ch p st :
  chan_rep s ch st -> p <> NULL ->
  match st with
  | Idle => exists s1, exec c (enable_channel ch p) s (Done false s1) /\ chan_rep s1 ch (Alting p) /\
      exec c (enable_channel ch p) s1 (Done false s1) /\
      exec c (disable_channel ch p) s1 (Done false s)
  | Writing w _ => w <> p -> exec c (enable_channel ch p) s (Done true s) /\
      exec c (disable_channel ch p) s (Done true s)
  | _ => True
  end.
Proof.
  intros Hr Hp. pose proof (enable_channel_run c ch s p st Hr Hp) as He.
  destruct st as [|q a|w a|q]; [|done| |done].
  - exists (with_chan ch (Alting p) s).
    assert (Hr1 : chan_rep (with_chan ch (Alting p) s) ch (Alting p)) by by eapply with_chan_rep.
    pose proof (enable_channel_run c ch _ p _ Hr1 Hp) as He1.
    pose proof (disable_channel_run c ch _ p _ Hr1 I) as Hd1. simpl in He1, Hd1.
    rewrite Z.eqb_refl in He1, Hd1. split_and!; [done..|].
    replace s with (with_chan ch Idle (with_chan ch (Alting p) s)) at 2; [done|].
    unfold with_chan. rewrite upd_chan_twice. destruct Hr as [[k Hk] _ _].
    erewrite (upd_chan_alt _ _ (fun K => K)); [|exact Hk|done].
    unfold upd_chan. rewrite alter_id by done. by destruct s.
  - intros Hw. pose proof (disable_channel_run c ch s p _ Hr I) as Hd. simpl in He, Hd.
    apply Z.eqb_neq in Hw. by rewrite Hw in He, Hd.
Qed.

(** Freeing an alternation.  A process that is still enabling its guards is
    told that one is ready and goes on; one that waits in the alternation
    becomes ready and is scheduled, once: the same call again does nothing; a
    process that is not in an alternation is left alone. *)
Theorem freeProcessMaybe_correct c s cur ql l p P m :
  sched_ok c s cur ql l -> procs s !! p = Some P -> p_pun P = c -> p <> NULL ->
  p ∉ cur :: ql ++ l -> sigmask (hw s) !! c = Some m ->
  exists s' C, procs s !! cur = Some C /\
    if p_alt_state P =? ALT_WAITING then
      sts s' p = Some (p_sched_state P, ALT_READY) /\
      (if pri_gt (p_pri P) (p_pri C) then
         exec c (freeProcessMaybe p) s (Switched (p_stackptr C) (p_stackptr P) enable s') /\
         sched_ok c s' p ql (rq_insert (pri_of s) cur l)
       else
         exec c (freeProcessMaybe p) s (Done tt s') /\
         sched_ok c s' cur ql (rq_insert (pri_of s) p l)) /\
      exec c (freeProcessMaybe p) s' (Done tt s')
    else
      exec c (freeProcessMaybe p) s (Done tt s') /\ sched_ok c s' cur ql l /\
      sts s' p = Some (p_sched_state P,
                       if p_alt_state P =? ALT_ENABLING then ALT_READY else p_alt_state P).
Proof.
  intros Hok HP Hpun Hp0 Hpl Hm. destruct (so_cpu _ _ _ _ _ Hok) as (C & q & Hcs).
  pose proof (cs_proc _ _ _ _ _ _ _ Hcs) as HC.
  set (s1 := upd_proc p (set_alt_state ALT_READY) s).
  assert (Hok1 : sched_ok c s1 cur ql l) by (apply sched_ok_quiet; auto with cxp).
  assert (HP1 : procs s1 !! p = Some (set_alt_state ALT_READY P))
    by (simpl; by rewrite lookup_alter_eq, HP).
  destruct (Z.eqb_spec (p_alt_state P) ALT_WAITING) as [Hw|Hw].
  - destruct (schedule_own c s1 cur ql l p _ m Hok1 HP1 Hpun Hp0 Hpl Hm)
      as (s' & C1 & HC1 & _ & Hsts & Hr).
    assert (HC1' : C1 = C).
    { unfold s1 in HC1. simpl in HC1. rewrite lookup_alter_ne, HC in HC1 by set_solver. congruence. }
    subst C1. change (p_pri (set_alt_state ALT_READY P)) with (p_pri P) in Hr.
    assert (Hp' : sts s' p = Some (p_sched_state P, ALT_READY))
      by (rewrite Hsts; by rewrite (sts_lookup _ _ _ HP1)).
    assert (Hext : forall x k, rq_insert (pri_of s) x k = rq_insert (pri_of s1) x k).
    { intros x k. apply rq_insert_ext. intros y. symmetry. by apply pri_of_quiet. }
    assert (Hgo : forall o, exec c (schedule p) s1 o -> exec c (freeProcessMaybe p) s o).
    { intros o Ho. unfold freeProcessMaybe. eapply exec_cas_alt_fail; [exact HP|by rewrite Hw|].
      cbn [snd]. rewrite Hw. eapply exec_cas_alt_ok; [exact HP|exact Hw|]. exact Ho. }
    exists s', C. rewrite !Hext. split_and!; [done..| |].
    + destruct (pri_gt (p_pri P) (p_pri C)); destruct Hr as (He & _ & Hok'); auto.
    + unfold sts in Hp'. destruct (procs s' !! p) as [P'|] eqn:HP'; [|done].
      simpl in Hp'. injection Hp' as _ Ha. unfold freeProcessMaybe.
      eapply exec_cas_alt_fail; [exact HP'|by rewrite Ha|]. cbn [snd]. rewrite Ha. apply exec_ret.
  - destruct (Z.eqb_spec (p_alt_state P) ALT_ENABLING) as [Hen|Hen].
    + exists s1, C. split_and!; [done| |exact Hok1|exact (sts_lookup _ _ _ HP1)].
      unfold freeProcessMaybe. eapply exec_cas_alt_ok; [exact HP|exact Hen|]. apply exec_ret.
    + exists s, C. split_and!; [done| |exact Hok|by apply sts_lookup].
      unfold freeProcessMaybe. eapply exec_cas_alt_fail; [exact HP|exact Hen|]. cbn [snd].
      apply Z.eqb_neq in Hw. rewrite Hw. apply exec_ret.
Qed.

(** ** Sample channels *)

(** A channel in the state [st], and two bytes of data at two places. *)
Definition chA : addr := 0x2000.
Definition sample_chan (st : chan_state) (s : sys) : sys :=
  set_chans (<[chA := chan_record st 0]> (chans s))
    (upd_mutex (chan_mutex chA) false
      (set_bytes (list_to_map [(0x3000, 1); (0x3001, 2); (0x4000, 0); (0x4001, 0)]) s)).

Definition sample_after : gmap addr Z :=
  list_to_map [(0x3000, 1); (0x3001, 2); (0x4000, 1); (0x4001, 2)].

Lemma sample_transfer st : transfer (sample_chan st sample) 0x4000 0x3000 2 [1; 2] sample_after.
Proof. split; by vm_compute. Qed.

Lemma sample_chan_rep st s :
  match st with
  | Idle => True
  | Reading p a | Writing p a => p <> NULL /\ a <> NULL
  | Alting p => p <> NULL
  end -> chan_rep (sample_chan st s) chA st.
Proof. intros Hn. split; [eexists|..|exact Hn]; simpl; by rewrite lookup_insert_eq. Qed.

Lemma sample_chan_cpu st :
  cpu_state 0 (sample_chan st sample) pA (sample_proc pA NULL 1024 0 PROC_READY) empty_ipq
    [] [pB; idle0].
Proof. by apply (cpu_state_ext 0 sample), sample_cpu_local. Qed.

Lemma wake_correct_witness :
  exists s', exec 0 (wake pH) sample (Switched pA pH enable s') /\ sched_ok 0 s' pH [] [pB; pA; idle0].
Proof.
  destruct (wake_correct 0 sample pA [] [pB; idle0] pH (sample_proc pH NULL 512 0 PROC_WAITING)
    sigemptyset sample_ok eq_refl eq_refl ltac:(done) ltac:(intros _; concrete_nodup) eq_refl)
    as (s' & C & HC & _ & H).
  assert (C = sample_proc pA NULL 1024 0 PROC_READY) as -> by (vm_compute in HC; by injection HC as <-).
  exists s'. exact H.
Defined.

Lemma no_lost_wakeup_witness :
  (exists s1, exec 1 (wake pA) sample_preparing (Done tt s1) /\ exec 0 relinquish s1 (Done tt s1)) /\
  (exists s1 s2 q2 N2, exec 1 (wake pA) s1 (Done tt s2) /\
     cpu_state 0 s2 pH N2 q2 [pA] [pB; pL; idle0]).
Proof.
  destruct (no_lost_wakeup 0 1 sample_preparing pA _ sample_ipq [pH; pL] [pB; idle0]
    pH [pB; pL; idle0] sigemptyset 0 43 [] sample_preparing_cpu eq_refl eq_refl
    ltac:(by vm_compute) ltac:(done) eq_refl ltac:(by vm_compute))
    as [(s1 & H1 & H2 & _) (s2 & N & s3 & N2 & q2 & _ & _ & H3 & H4 & _)].
  split.
  - exists s1. split; [exact H1|exact H2].
  - exists s2, s3, q2, N2. split; [exact H3|exact H4].
Defined.

Lemma in_correct_witness :
  exists s1, read_bytes (bytes s1) 0x4000 2 = Some [1; 2] /\
    forall o, exec 0 (wake pL) s1 o ->
      exec 0 (in_ chA 0x4000 2) (sample_chan (Writing pL 0x3000) sample) o.
Proof.
  destruct (in_correct 0 (sample_chan (Writing pL 0x3000) sample) pA _ chA (Writing pL 0x3000)
    0x4000 2 ltac:(by vm_compute) eq_refl (cs_proc _ _ _ _ _ _ _ (sample_chan_cpu _))
    (sample_chan_rep (Writing pL 0x3000) sample ltac:(by split)) [1; 2] sample_after (sample_transfer (Writing pL 0x3000)))
    as (s1 & _ & H1 & _ & _ & _ & H2).
  exists s1. split; [exact H1|exact H2].
Defined.

Lemma out_correct_witness :
  exists s1, read_bytes (bytes s1) 0x4000 2 = Some [1; 2] /\
    forall o, exec 0 (wake pL) s1 o ->
      exec 0 (out chA 0x3000 2) (sample_chan (Reading pL 0x4000) sample) o.
Proof.
  destruct (out_correct 0 (sample_chan (Reading pL 0x4000) sample) pA _ chA (Reading pL 0x4000)
    0x3000 2 ltac:(by vm_compute) eq_refl (cs_proc _ _ _ _ _ _ _ (sample_chan_cpu _))
    (sample_chan_rep (Reading pL 0x4000) sample ltac:(by split)) ltac:(done) ltac:(done) [1; 2] sample_after (sample_transfer (Reading pL 0x4000)))
    as (s1 & _ & H1 & _ & H2).
  exists s1. split; [exact H1|exact H2].
Defined.

Lemma try_in_strands_writer_witness :
  exists s1, exec 0 (try_in chA 0x4000 2) (sample_chan (Writing pL 0x3000) sample) (Done true s1) /\
    p_sched_state <$> procs s1 !! pL = Some PROC_WAITING.
Proof.
  destruct (try_in_strands_writer 0 (sample_chan (Writing pL 0x3000) sample) chA pL 0x3000 0x4000 2
    [1; 2] sample_after (sample_chan_rep (Writing pL 0x3000) sample ltac:(by split)) (sample_transfer (Writing pL 0x3000)))
    as (s1 & H1 & _ & _ & H2 & _).
  exists s1. split; [exact H1|]. rewrite H2. reflexivity.
Defined.


Lemma enable_disable_channel_witness :
  exists s1, exec 0 (enable_channel chA pL) (sample_chan Idle sample) (Done false s1) /\
    exec 0 (disable_channel chA pL) s1 (Done false (sample_chan Idle sample)).
Proof.
  destruct (enable_disable_channel 0 (sample_chan Idle sample) chA pL Idle
    (sample_chan_rep Idle sample I) ltac:(done)) as (s1 & H1 & _ & _ & H2).
  exists s1. split; [exact H1|exact H2].
Defined.

(** [pH] waiting in an alternation. *)
Definition sample_alting : sys := upd_proc pH (set_alt_state ALT_WAITING) sample.

Lemma freeProcessMaybe_correct_witness :
  exists s', exec 0 (freeProcessMaybe pH) sample_alting (Switched pA pH enable s') /\
    exec 0 (freeProcessMaybe pH) s' (Done tt s').
Proof.
  destruct (freeProcessMaybe_correct 0 sample_alting pA [] [pB; idle0] pH
    (set_alt_state ALT_WAITING (sample_proc pH NULL 512 0 PROC_WAITING)) sigemptyset
    (sched_ok_quiet 0 _ pH sample _ _ _ (quiet_alt_state ALT_WAITING) sample_ok)
    eq_refl eq_refl ltac:(done) ltac:(concrete_nodup) eq_refl) as (s' & C & HC & _ & H & H2).
  assert (C = sample_proc pA NULL 1024 0 PROC_READY) as -> by (vm_compute in HC; by injection HC as <-).
  exists s'. split; [exact (proj1 H)|exact H2].
Defined.
