(* ===== verification/Alt.v ===== *)
(** * Alt: alternation (alt.c) *)

From S2P Require Import Prelude Prog State Hardware Exec Sched Mutex Memory Timer.
From S2P Require Import AltState Comm.

#[local] Open Scope prog_scope.

Definition NO_TIME : Z := MAX_TIME.

(** A guard is named by its array and its index. *)
Definition set_guard (g : addr * Z) (f : Guard -> Guard) : cprog unit :=
  store (fun s => l ← guards s !! g.1;
                  x ← (if 0 <=? g.2 then l !! Z.to_nat g.2 else None);
                  Some (set_guards (<[g.1 := <[Z.to_nat g.2 := f x]> l]> (guards s)) s)).
Definition get_guard (base : addr) (i : Z) : cprog Guard :=
  fetch (fun s => l ← guards s !! base; if 0 <=? i then l !! Z.to_nat i else None).

(** Reading a member of the guard's union. *)
Definition guard_channel (g : Guard) : cprog addr :=
  fetch (fun _ => match g_union g with UChannel ch => Some ch | _ => None end).
Definition guard_time (g : Guard) : cprog Z :=
  fetch (fun _ => match g_union g with UTime t => Some t | _ => None end).

Definition init_channel_guard (g : addr * Z) (chan : addr) : cprog unit :=
  set_guard g (fun _ => mkGuard GUARD_CHAN (UChannel chan)).
Definition init_skip_guard (g : addr * Z) : cprog unit :=
  set_guard g (fun x => mkGuard GUARD_SKIP (g_union x)).
Definition init_timer_guard (g : addr * Z) (time : Z) : cprog unit :=
  set_guard g (fun _ => mkGuard GUARD_TIMER (UTime time)).
Definition init_interrupt_guard (g : addr * Z) (intr : addr) : cprog unit :=
  set_guard g (fun _ => mkGuard GUARD_INTERRUPT (UInterrupt intr)).

(** Initializes alternation *)
Definition init_alt (alt : addr) (gs : addr) (size : Z) : cprog unit :=
  modify (fun s => set_alts (<[alt := mkAlternation 0 (uint16 size) gs]> (alts s)) s).

Definition aget {B} (alt : addr) (fld : Alternation -> B) : cprog B :=
  fetch (fun s => fld <$> alts s !! alt).
Definition set_favorite (v : Z) (a : Alternation) : Alternation :=
  mkAlternation v (a_nrGuards a) (a_guards a).
Definition upd_alt (alt : addr) (f : Alternation -> Alternation) (s : sys) : sys :=
  set_alts (alter f alt (alts s)) s.
Definition aset (alt : addr) (f : Alternation -> Alternation) : cprog unit :=
  store (fun s => match alts s !! alt with
                  | Some _ => Some (upd_alt alt f s)
                  | None => None
                  end).

(** The switch of the enabling loops: [(true, _)] is the jump to [Found]. *)
Definition enable_guard (guard : Guard) (proc : addr) (earliest : Z) : cprog (bool * Z) :=
  if g_type guard =? GUARD_CHAN then
    (ch <- guard_channel guard;;
     ready <- enable_channel ch proc;;
     ret (ready, earliest))
  else if g_type guard =? GUARD_SKIP then ret (true, earliest)
  else if g_type guard =? GUARD_TIMER then
    (t <- guard_time guard;;
     let earliest := if t <? earliest then t else earliest in
     ready <- enable_timeout t proc;;
     ret (ready, earliest))
  else ret (false, earliest).

(** The switch of the disabling loops: the new value of [selected]. *)
Definition disable_guard (guard : Guard) (proc : addr) (i selected : Z) : cprog Z :=
  if g_type guard =? GUARD_CHAN then
    (ch <- guard_channel guard;;
     ready <- disable_channel ch proc;;
     ret (if ready : bool then i else selected))
  else if g_type guard =? GUARD_SKIP then ret i
  else if g_type guard =? GUARD_TIMER then
    (t <- guard_time guard;;
     ready <- disable_timeout t proc;;
     ret (if ready : bool then i else selected))
  else ret selected.

(** What both selections do when no guard was ready: enable the earliest
    timeout if there was one, then wait unless the state is no longer
    Enabling. *)
Definition alt_wait (proc : addr) (earliest : Z) : cprog unit :=
  found <- (if negb (uint64 earliest =? NO_TIME) then enable_timeout earliest proc
            else ret false);;
  if found : bool then ret tt
  else (w <- altShouldWait proc;;
        if w : bool then relinquish_unconditional else ret tt).

(** The end of both selections. *)
Definition save_favorite (alt : addr) (selected : Z) : cprog unit :=
  aset alt (set_favorite (uint16 (selected + 1)));;
  f <- aget alt a_favorite;;
  n <- aget alt a_nrGuards;;
  if f >=? n then
    (f <- aget alt a_favorite;;
     n <- aget alt a_nrGuards;;
     aset alt (set_favorite (uint16 (f - n))))
  else ret tt.

(** The enabling loop of [priSelect]: whether a ready guard was found, the
    index reached and the earliest timeout. *)
Definition pri_enable_step (alt proc : addr) (ie : Z * Z) : cprog (Z * Z + bool * Z * Z) :=
  let (i, earliest) := ie in
  n <- aget alt a_nrGuards;;
  if i <? n then
    (gs <- aget alt a_guards;;
     guard <- get_guard gs i;;
     r <- enable_guard guard proc earliest;;
     if r.1 : bool then ret (inr (true, i, r.2)) else ret (inl (i + 1, r.2)))
  else ret (inr (false, i - 1, earliest)).
Definition pri_enable (alt proc : addr) : cprog (bool * Z * Z) :=
  loop (pri_enable_step alt proc) (0, int64 NO_TIME).

(** The disabling loop of [priSelect], from [i] down to 0. *)
Definition pri_disable_step (alt proc : addr) (st : Z * Z) : cprog (Z * Z + Z) :=
  let (i, selected) := st in
  if i >=? 0 then
    (gs <- aget alt a_guards;;
     guard <- get_guard gs i;;
     selected <- disable_guard guard proc i selected;;
     ret (inl (i - 1, selected)))
  else ret (inr selected).
Definition pri_disable (alt proc : addr) (i : Z) : cprog Z :=
  loop (pri_disable_step alt proc) (i, -1).

(** Select first ready alternative *)
Definition priSelect (alt : addr) : cprog Z :=
  proc <- get_current;;
  altEnabling proc;;
  r <- pri_enable alt proc;;
  (if r.1.1 : bool then ret tt else alt_wait proc r.2);;
  selected <- pri_disable alt proc r.1.2;;
  altFinish proc;;
  save_favorite alt selected;;
  ret selected.

(** [a % n] on [int]s: division by zero is a fault. *)
Definition cmod (a n : Z) : cprog Z :=
  if n =? 0 then act (fun _ _ => Fault) else ret (Z.rem a n).

(** The enabling loop of [fairSelect], over [k] guards from [favorite] on. *)
Definition fair_enable_step (alt proc : addr) (kie : Z * Z * Z)
    : cprog (Z * Z * Z + bool * (Z * Z) * Z) :=
  let '(k, i, earliest) := kie in
  n <- aget alt a_nrGuards;;
  if k <? n then
    (gs <- aget alt a_guards;;
     guard <- get_guard gs i;;
     r <- enable_guard guard proc earliest;;
     if r.1 : bool then ret (inr (true, (k, i), r.2))
     else (n <- aget alt a_nrGuards;;
           i <- cmod (i + 1) n;;
           ret (inl (k + 1, i, r.2))))
  else
    (n <- aget alt a_nrGuards;;
     i <- cmod (i - 1 + n) n;;
     ret (inr (false, (k - 1, i), earliest))).
Definition fair_enable (alt proc : addr) : cprog (bool * (Z * Z) * Z) :=
  fav <- aget alt a_favorite;;
  loop (fair_enable_step alt proc) (0, fav, int64 NO_TIME).

(** The disabling loop of [fairSelect]. *)
Definition fair_disable_step (alt proc : addr) (st : Z * Z * Z) : cprog (Z * Z * Z + Z) :=
  let '(k, i, selected) := st in
  if k >=? 0 then
    (gs <- aget alt a_guards;;
     guard <- get_guard gs i;;
     selected <- disable_guard guard proc i selected;;
     n <- aget alt a_nrGuards;;
     i <- cmod (i - 1 + n) n;;
     ret (inl (k - 1, i, selected)))
  else ret (inr selected).
Definition fair_disable (alt proc : addr) (k i : Z) : cprog Z :=
  loop (fair_disable_step alt proc) (k, i, -1).

(** Select ready alternative *)
Definition fairSelect (alt : addr) : cprog Z :=
  proc <- get_current;;
  altEnabling proc;;
  r <- fair_enable alt proc;;
  (if r.1.1 : bool then ret tt else alt_wait proc r.2);;
  selected <- fair_disable alt proc r.1.2.1 r.1.2.2;;
  altFinish proc;;
  save_favorite alt selected;;
  ret selected.
