(* ===== verification/Select.v ===== *)
(** * Select: what the alternations choose

    [priSelect] and [fairSelect] on guards of which one is ready: the loops of
    [Alt] visit the guards in their order, leave themselves in the channels
    they pass and take themselves out again. *)

From S2P Require Import Prelude Prog State Fixture Linked Hardware Exec Priority Ipq.
From S2P Require Import Sched ReadyQueue Dispatch Mutex Memory Timer AltState Comm.
From S2P Require Import Rendezvous Alt.

#[local] Open Scope prog_scope.

Lemma rotate_perm {A} n (l : list A) : rotate n l ≡ₚ l.
Proof. unfold rotate. by rewrite Permutation_app_comm, take_drop. Qed.

(** ** Channels marked by an alternation *)

Section Marks.
Context (proc : addr).

(** The channels of [X] hold the alternating process. *)
Definition marks (X : gset addr) (m : gmap addr Channel) : gmap addr Channel :=
  map_imap (fun ch K => Some (if bool_decide (ch ∈ X) then chan_record (Alting proc) (ch_len K) else K)) m.
Definition marked (X : gset addr) (s : sys) : sys := set_chans (marks X (chans s)) s.

Lemma marks_lookup X m ch :
  marks X m !! ch =
    (fun K => if bool_decide (ch ∈ X) then chan_record (Alting proc) (ch_len K) else K) <$> m !! ch.
Proof. unfold marks. rewrite map_lookup_imap. by destruct (m !! ch). Qed.

Lemma marked_empty s : marked ∅ s = s.
Proof.
  unfold marked. replace (marks ∅ (chans s)) with (chans s); [by destruct s|].
  apply map_eq. intros ch. rewrite marks_lookup. rewrite bool_decide_false by set_solver.
  by destruct (chans s !! ch).
Qed.

(** The state a marked channel has. *)
Lemma marked_rep X s ch st :
  proc <> NULL -> chan_rep s ch st -> (ch ∈ X -> st = Idle) ->
  chan_rep (marked X s) ch (if bool_decide (ch ∈ X) then Alting proc else st).
Proof.
  intros Hproc [[n HK] Hm Hn] HX. split; [|done|by case_bool_decide].
  exists n. simpl. rewrite marks_lookup, HK. simpl.
  case_bool_decide as Hin; [|done]. by rewrite (HX Hin).
Qed.

Lemma marked_add X s ch :
  chan_rep s ch Idle -> with_chan ch (Alting proc) (marked X s) = marked ({[ch]} ∪ X) s.
Proof.
  intros [[n HK] _ _]. unfold marked, with_chan, upd_chan, set_chans. simpl. f_equal.
  apply map_eq. intros ch'. rewrite marks_lookup. destruct (decide (ch = ch')) as [->|Hne].
  - rewrite lookup_alter_eq, marks_lookup, HK. simpl.
    rewrite (bool_decide_true (ch' ∈ {[ch']} ∪ X)) by set_solver. by case_bool_decide.
  - rewrite lookup_alter_ne, marks_lookup by done. f_equal.
    by rewrite (bool_decide_ext (ch' ∈ {[ch]} ∪ X) (ch' ∈ X)) by set_solver.
Qed.

Lemma marked_remove X s ch :
  chan_rep s ch Idle -> with_chan ch Idle (marked X s) = marked (X ∖ {[ch]}) s.
Proof.
  intros [[n HK] _ _]. unfold marked, with_chan, upd_chan, set_chans. simpl. f_equal.
  apply map_eq. intros ch'. rewrite marks_lookup. destruct (decide (ch = ch')) as [->|Hne].
  - rewrite lookup_alter_eq, marks_lookup, HK. simpl.
    rewrite (bool_decide_false (ch' ∈ X ∖ {[ch']})) by set_solver. by case_bool_decide.
  - rewrite lookup_alter_ne, marks_lookup by done. f_equal.
    by rewrite (bool_decide_ext (ch' ∈ X ∖ {[ch]}) (ch' ∈ X)) by set_solver.
Qed.

(** ** Guards *)

(** A guard without a timeout: a channel that is idle or has a writer, or a
    guard that has nothing to enable. *)
Inductive guard_fit (s : sys) (g : Guard) : Prop :=
| fit_idle ch : g_type g = GUARD_CHAN -> g_union g = UChannel ch -> chan_rep s ch Idle -> guard_fit s g
| fit_busy ch w a : g_type g = GUARD_CHAN -> g_union g = UChannel ch ->
    chan_rep s ch (Writing w a) -> w <> proc -> guard_fit s g
| fit_skip : g_type g = GUARD_SKIP -> guard_fit s g
| fit_interrupt : g_type g = GUARD_INTERRUPT -> guard_fit s g.

Definition guard_ready (s : sys) (g : Guard) : bool :=
  if g_type g =? GUARD_CHAN then
    match g_union g with
    | UChannel ch => from_option (fun K => negb (ch_waiting K =? NULL)) false (chans s !! ch)
    | _ => false
    end
  else g_type g =? GUARD_SKIP.

(** The channel a guard that is not ready leaves the process in. *)
Definition guard_mark (s : sys) (g : Guard) : gset addr :=
  match g_union g with
  | UChannel ch => if (g_type g =? GUARD_CHAN) && negb (guard_ready s g) then {[ch]} else ∅
  | _ => ∅
  end.

Definition all_idle (s : sys) (X : gset addr) : Prop := forall ch, ch ∈ X -> chan_rep s ch Idle.

Lemma guard_cases s g :
  guard_fit s g ->
  (exists ch, g_type g = GUARD_CHAN /\ g_union g = UChannel ch /\ chan_rep s ch Idle /\
     guard_ready s g = false /\ guard_mark s g = {[ch]}) \/
  (exists ch w a, g_type g = GUARD_CHAN /\ g_union g = UChannel ch /\ chan_rep s ch (Writing w a) /\
     w <> proc /\ guard_ready s g = true /\ guard_mark s g = ∅) \/
  (g_type g = GUARD_SKIP /\ guard_ready s g = true /\ guard_mark s g = ∅) \/
  (g_type g = GUARD_INTERRUPT /\ guard_ready s g = false /\ guard_mark s g = ∅).
Proof.
  unfold guard_mark, guard_ready.
  intros [ch E1 E2 E3|ch w a E1 E2 E3 E4|E1|E1]; rewrite E1.
  - left. exists ch. rewrite E2. destruct (id E3) as [[n ->] _ _]. done.
  - right; left. exists ch, w, a. rewrite E2. destruct (id E3) as [[n ->] _ [Hw _]]. simpl.
    apply Z.eqb_neq in Hw. by rewrite Hw.
  - right; right; left. by destruct (g_union g).
  - right; right; right. by destruct (g_union g).
Qed.

Lemma guard_mark_idle s g : guard_fit s g -> all_idle s (guard_mark s g).
Proof.
  intros Hf ch. destruct (guard_cases s g Hf) as [(ch' & _ & _ & Hr & _ & ->)|[(? & ? & ? & _ & _ & _ & _ & _ & ->)|
    [(_ & _ & ->)|(_ & _ & ->)]]]; [|set_solver..]. by intros ->%elem_of_singleton.
Qed.

(** A channel that is idle is not confused with one that has a writer. *)
Lemma idle_not_writing s ch w a : chan_rep s ch Idle -> chan_rep s ch (Writing w a) -> False.
Proof.
  intros [[n H1] _ _] [[n' H2] _ [Hw _]]. rewrite H1 in H2. simpl in H2. congruence.
Qed.

Section Run.
Context (c : Z).

Lemma exec_guard_channel {B} g ch (k : addr -> cprog B) s o :
  g_union g = UChannel ch -> exec c (k ch) s o -> exec c (bind (guard_channel g) k) s o.
Proof. intros Hu. apply exec_fetch. by rewrite Hu. Qed.

Lemma enable_guard_run s g X e :
  proc <> NULL -> guard_fit s g -> all_idle s X ->
  exec c (enable_guard g proc e) (marked X s)
    (Done (guard_ready s g, e) (marked (guard_mark s g ∪ X) s)).
Proof.
  intros Hproc Hf HX. unfold enable_guard.
  destruct (guard_cases s g Hf) as [(ch & -> & Hu & Hr & -> & ->)|[(ch & w & a & -> & Hu & Hr & Hw & -> & ->)|
    [(-> & -> & ->)|(-> & -> & ->)]]]; [cbn [Z.eqb GUARD_CHAN]..| |].
  - apply (exec_guard_channel g ch); [done|]. eapply exec_bind_done; [|apply exec_ret].
    pose proof (enable_channel_run c ch _ proc _ (marked_rep X s ch Idle Hproc Hr ltac:(done)) Hproc) as He.
    case_bool_decide as Hin.
    + replace ({[ch]} ∪ X) with X by set_solver. simpl in He. by rewrite Z.eqb_refl in He.
    + by rewrite marked_add in He.
  - apply (exec_guard_channel g ch); [done|]. eapply exec_bind_done; [|apply exec_ret].
    assert (Hin : ch ∉ X) by (intros Hin; by eapply idle_not_writing; [apply HX|]).
    pose proof (enable_channel_run c ch _ proc _ (marked_rep X s ch _ Hproc Hr ltac:(done)) Hproc) as He.
    rewrite bool_decide_false in He by done. replace (∅ ∪ X) with X by set_solver.
    simpl in He. apply Z.eqb_neq in Hw. by rewrite Hw in He.
  - replace (∅ ∪ X) with X by set_solver. apply exec_ret.
  - replace (∅ ∪ X) with X by set_solver. apply exec_ret.
Qed.

Lemma disable_guard_run s g X i sel :
  proc <> NULL -> guard_fit s g -> all_idle s X ->
  exec c (disable_guard g proc i sel) (marked X s)
    (Done (if guard_ready s g then i else sel) (marked (X ∖ guard_mark s g) s)).
Proof.
  intros Hproc Hf HX. unfold disable_guard.
  destruct (guard_cases s g Hf) as [(ch & -> & Hu & Hr & -> & ->)|[(ch & w & a & -> & Hu & Hr & Hw & -> & ->)|
    [(-> & -> & ->)|(-> & -> & ->)]]]; [cbn [Z.eqb GUARD_CHAN]..| |].
  - apply (exec_guard_channel g ch); [done|].
    apply (exec_bind_done c _ _ _ false (marked (X ∖ {[ch]}) s)); [|apply exec_ret].
    pose proof (disable_channel_run c ch _ proc _ (marked_rep X s ch Idle Hproc Hr ltac:(done))) as Hd.
    case_bool_decide as Hin.
    + specialize (Hd I). rewrite Z.eqb_refl in Hd. by rewrite marked_remove in Hd.
    + replace (X ∖ {[ch]}) with X by set_solver. by apply Hd.
  - apply (exec_guard_channel g ch); [done|].
    apply (exec_bind_done c _ _ _ true (marked (X ∖ ∅) s)); [|apply exec_ret].
    assert (Hin : ch ∉ X) by (intros Hin; by eapply idle_not_writing; [apply HX|]).
    pose proof (disable_channel_run c ch _ proc _ (marked_rep X s ch _ Hproc Hr ltac:(done))) as Hd.
    rewrite bool_decide_false in Hd by done. replace (X ∖ ∅) with X by set_solver.
    specialize (Hd I). apply Z.eqb_neq in Hw. by rewrite Hw in Hd.
  - replace (X ∖ ∅) with X by set_solver. apply exec_ret.
  - replace (X ∖ ∅) with X by set_solver. apply exec_ret.
Qed.

(** ** The loops *)

Definition all_marks (s : sys) (gs : list Guard) : gset addr := ⋃ (guard_mark s <$> gs).

Lemma all_marks_cons s g gs : all_marks s (g :: gs) = guard_mark s g ∪ all_marks s gs.
Proof. done. Qed.

Lemma all_marks_snoc s gs g : all_marks s (gs ++ [g]) = all_marks s gs ∪ guard_mark s g.
Proof. unfold all_marks. rewrite fmap_app, union_list_app_L. simpl. set_solver. Qed.

Lemma all_marks_perm s gs gs' : gs ≡ₚ gs' -> all_marks s gs = all_marks s gs'.
Proof. intros Hp. unfold all_marks. by rewrite Hp. Qed.

Lemma all_marks_idle s gs : Forall (guard_fit s) gs -> all_idle s (all_marks s gs).
Proof.
  induction 1 as [|g gs Hg _ IH]; intros ch Hch; [unfold all_marks in Hch; set_solver|].
  rewrite all_marks_cons in Hch. apply elem_of_union in Hch as [Hch|Hch]; [|by apply IH].
  by apply (guard_mark_idle s g).
Qed.

Lemma all_idle_union s X Y : all_idle s X -> all_idle s Y -> all_idle s (X ∪ Y).
Proof. intros HX HY ch [?|?]%elem_of_union; auto. Qed.

Lemma all_idle_difference s X Y : all_idle s X -> all_idle s (X ∖ Y).
Proof. intros HX ch [? _]%elem_of_difference. auto. Qed.

(** An alternation over the guards [gl]. *)
Record alt_rep (s : sys) (alt : addr) (A : Alternation) (gl : list Guard) : Prop := {
  al_alt : alts s !! alt = Some A;
  al_guards : guards s !! a_guards A = Some gl;
  al_size : a_nrGuards A = Z.of_nat (length gl);
  al_bound : Z.of_nat (length gl) < 2 ^ 16 }.

Context (s : sys) (alt : addr) (A : Alternation) (gl : list Guard) (HA : alt_rep s alt A gl).

Lemma exec_aget {B C} (fld : Alternation -> B) (k : B -> cprog C) X o :
  exec c (k (fld A)) (marked X s) o -> exec c (bind (aget alt fld) k) (marked X s) o.
Proof. apply exec_fetch. change (alts (marked X s)) with (alts s). by rewrite (al_alt _ _ _ _ HA). Qed.

Lemma exec_get_guard {B} i g (k : Guard -> cprog B) X o :
  gl !! i = Some g -> exec c (k g) (marked X s) o ->
  exec c (bind (get_guard (a_guards A) (Z.of_nat i)) k) (marked X s) o.
Proof.
  intros Hg. apply exec_fetch. change (guards (marked X s)) with (guards s).
  rewrite (al_guards _ _ _ _ HA). simpl. zb. by rewrite Nat2Z.id.
Qed.

(** Enabling [mid], none of which is ready. *)
Lemma pri_enable_prefix pre mid rest X e o (k : bool * Z * Z -> cprog o) r :
  proc <> NULL -> gl = pre ++ mid ++ rest -> Forall (guard_fit s) mid -> all_idle s X ->
  Forall (fun x => guard_ready s x = false) mid ->
  exec c (bind (loop (pri_enable_step alt proc) (Z.of_nat (length (pre ++ mid)), e)) k)
    (marked (all_marks s mid ∪ X) s) r ->
  exec c (bind (loop (pri_enable_step alt proc) (Z.of_nat (length pre), e)) k) (marked X s) r.
Proof.
  intros Hproc Hgl Hfit HX Hno Hk. pose proof (f_equal length Hgl) as Hlen.
  rewrite !length_app in Hlen. pose proof (al_size _ _ _ _ HA) as Hsz.
  revert pre X Hgl HX Hlen Hk. induction mid as [|x mid IH]; intros pre X Hgl HX Hlen Hk.
  - rewrite app_nil_r in Hk. unfold all_marks in Hk. simpl in Hk. by rewrite union_empty_l_L in Hk.
  - apply Forall_cons in Hno as [Hx Hno], Hfit as [Hfx Hfit]. simpl in Hlen.
    apply (exec_loop c _ _ _ _ (inl (Z.of_nat (length (pre ++ [x])), e)) (marked (guard_mark s x ∪ X) s)).
    + unfold pri_enable_step. apply exec_aget. zb. apply exec_aget.
      apply (exec_get_guard _ x); [by rewrite Hgl, lookup_app_r, Nat.sub_diag by lia|].
      eapply exec_bind_done; [by apply enable_guard_run|]. cbn [fst snd]. rewrite Hx.
      rewrite length_app. simpl length. rewrite Nat2Z.inj_add. apply exec_ret.
    + apply IH; [done..|by rewrite <-app_assoc| | |].
      * apply all_idle_union; [by apply guard_mark_idle|done].
      * rewrite length_app. simpl in *. lia.
      * replace ((pre ++ [x]) ++ mid) with (pre ++ x :: mid) by by rewrite <-app_assoc.
        replace (all_marks s mid ∪ (guard_mark s x ∪ X)) with (all_marks s (x :: mid) ∪ X)
          by (rewrite all_marks_cons; set_solver).
        exact Hk.
Qed.

(** Enabling [mid], none of which is ready, up to the ready guard [g]. *)
Lemma pri_enable_loop mid g post e o (k : bool * Z * Z -> cprog o) r :
  proc <> NULL -> gl = mid ++ g :: post ->
  Forall (guard_fit s) (mid ++ [g]) -> Forall (fun x => guard_ready s x = false) mid ->
  guard_ready s g = true ->
  exec c (k (true, Z.of_nat (length mid), e)) (marked (all_marks s (mid ++ [g])) s) r ->
  exec c (bind (loop (pri_enable_step alt proc) (0, e)) k) (marked ∅ s) r.
Proof.
  intros Hproc Hgl Hfit Hno Hg Hk. pose proof (f_equal length Hgl) as Hlen.
  rewrite !length_app in Hlen. simpl in Hlen. apply Forall_app in Hfit as [Hfm [Hfg _]%Forall_cons].
  apply (pri_enable_prefix [] mid (g :: post)); [done..|set_solver|done|].
  rewrite all_marks_snoc in Hk. eapply exec_bind_done; [|exact Hk]. cbn [app].
  apply (exec_loop c _ _ _ _ (inr (true, Z.of_nat (length mid), e))
    (marked (guard_mark s g ∪ (all_marks s mid ∪ ∅)) s)).
  - unfold pri_enable_step. apply exec_aget. rewrite (al_size _ _ _ _ HA). zb. apply exec_aget.
    apply (exec_get_guard _ g); [by rewrite Hgl, lookup_app_r, Nat.sub_diag by lia|].
    eapply exec_bind_done; [apply enable_guard_run; [done..|]|].
    + apply all_idle_union; [by apply all_marks_idle|set_solver].
    + cbn [fst snd]. rewrite Hg. apply exec_ret.
  - replace (guard_mark s g ∪ (all_marks s mid ∪ ∅)) with (all_marks s mid ∪ guard_mark s g)
      by set_solver. apply exec_ret.
Qed.

(** No guard of [gl] is ready: all are enabled. *)
Lemma pri_enable_all e o (k : bool * Z * Z -> cprog o) r :
  proc <> NULL -> Forall (guard_fit s) gl -> Forall (fun x => guard_ready s x = false) gl ->
  exec c (k (false, Z.of_nat (length gl) - 1, e)) (marked (all_marks s gl) s) r ->
  exec c (bind (loop (pri_enable_step alt proc) (0, e)) k) (marked ∅ s) r.
Proof.
  intros Hproc Hfit Hno Hk.
  apply (pri_enable_prefix [] gl []); [done|by rewrite app_nil_r|done|set_solver|done|].
  rewrite union_empty_r_L. eapply exec_bind_done; [|exact Hk].
  apply (exec_loop c _ _ _ _ (inr (false, Z.of_nat (length gl) - 1, e)) (marked (all_marks s gl) s));
    [|apply exec_ret].
  unfold pri_enable_step. apply exec_aget. rewrite (al_size _ _ _ _ HA). cbn [app]. zb. apply exec_ret.
Qed.

(** The guard the disabling loops select among [l]: the first that is ready,
    under the number [idx] gives it. *)
Definition chosen (idx : nat -> Z) (l : list Guard) (sel : Z) : Z :=
  match list_find (fun g => guard_ready s g = true) l with
  | Some (i, _) => idx i
  | None => sel
  end.

Lemma chosen_snoc idx l x sel :
  chosen idx (l ++ [x]) sel = chosen idx l (if guard_ready s x then idx (length l) else sel).
Proof.
  unfold chosen. destruct (list_find _ l) as [[i g]|] eqn:E.
  - by rewrite (list_find_app_l _ _ _ i g).
  - rewrite (list_find_app_r _ _ _ E). simpl. case_decide as Hd.
    + simpl. rewrite Hd, ?Nat.add_0_r. done.
    + by destruct (guard_ready s x).
Qed.

Lemma list_find_none_ready l :
  Forall (fun x => guard_ready s x = false) l -> list_find (fun g => guard_ready s g = true) l = None.
Proof.
  intros Hl. apply list_find_None. eapply Forall_impl; [exact Hl|]. intros x Hx. by rewrite Hx.
Qed.

(** Disabling [mid] from its last guard down. *)
Lemma pri_disable_suffix pre mid rest X sel o (k : Z -> cprog o) r :
  proc <> NULL -> gl = pre ++ mid ++ rest -> Forall (guard_fit s) mid -> all_idle s X ->
  exec c (bind (loop (pri_disable_step alt proc) (Z.of_nat (length pre) - 1,
      chosen (fun j => Z.of_nat (length pre + j)) mid sel)) k) (marked (X ∖ all_marks s mid) s) r ->
  exec c (bind (loop (pri_disable_step alt proc) (Z.of_nat (length (pre ++ mid)) - 1, sel)) k) (marked X s) r.
Proof.
  intros Hproc. revert rest X sel. induction mid as [|x mid IH] using rev_ind; intros rest X sel Hgl Hfit HX Hk.
  - rewrite app_nil_r. replace (X ∖ all_marks s []) with X in Hk by (unfold all_marks; set_solver). exact Hk.
  - apply Forall_app in Hfit as [Hfl [Hfx _]%Forall_cons].
    rewrite all_marks_snoc, chosen_snoc in Hk.
    rewrite app_assoc, length_app. simpl length. rewrite Nat2Z.inj_add, Z.add_simpl_r.
    apply (exec_loop c _ _ _ _ (inl (Z.of_nat (length (pre ++ mid)) - 1,
      if guard_ready s x then Z.of_nat (length (pre ++ mid)) else sel)) (marked (X ∖ guard_mark s x) s)).
    + unfold pri_disable_step. zb. apply exec_aget.
      apply (exec_get_guard _ x).
      { rewrite Hgl, <-!app_assoc, (app_assoc pre mid), lookup_app_r by lia. by rewrite Nat.sub_diag. }
      eapply exec_bind_done; [by apply disable_guard_run|]. apply exec_ret.
    + rewrite <-length_app in Hk.
      apply (IH (x :: rest)); [by rewrite Hgl, <-app_assoc|done|by apply all_idle_difference|].
      replace (X ∖ guard_mark s x ∖ all_marks s mid) with (X ∖ (all_marks s mid ∪ guard_mark s x)) by set_solver.
      exact Hk.
Qed.

(** Disabling [l], the guards up to some index. *)
Lemma pri_disable_loop l rest X sel :
  proc <> NULL -> gl = l ++ rest -> Forall (guard_fit s) l -> all_idle s X ->
  exec c (loop (pri_disable_step alt proc) (Z.of_nat (length l) - 1, sel)) (marked X s)
    (Done (chosen Z.of_nat l sel) (marked (X ∖ all_marks s l) s)).
Proof.
  intros Hproc Hgl Hfit HX. rewrite <-(bind_ret_r (loop _ _)).
  apply (pri_disable_suffix [] l rest); [done..|].
  eapply exec_bind_done; [|apply exec_ret].
  eapply (exec_loop c _ _ _ _ (inr (chosen Z.of_nat l sel))); apply exec_ret.
Qed.

(** The loops of [fairSelect] visit the guards from the favorite on, round the
    array: the rotation of the list. *)
Context (fav : Z) (Hrange : 0 <= fav < a_nrGuards A).
Definition visit (j : nat) : Z := (fav + Z.of_nat j) mod a_nrGuards A.

Lemma visit_next j : Z.rem (visit j + 1) (a_nrGuards A) = visit (S j).
Proof.
  unfold visit. pose proof (Z.mod_pos_bound (fav + Z.of_nat j) (a_nrGuards A) ltac:(lia)).
  rewrite Z.rem_mod_nonneg, Z.add_mod_idemp_l by lia. f_equal. lia.
Qed.

Lemma visit_prev j : Z.rem (visit (S j) - 1 + a_nrGuards A) (a_nrGuards A) = visit j.
Proof.
  unfold visit. pose proof (Z.mod_pos_bound (fav + Z.of_nat (S j)) (a_nrGuards A) ltac:(lia)).
  rewrite Z.rem_mod_nonneg by lia. rewrite <-Z.add_sub_swap, <-Z.add_sub_assoc, Z.add_mod_idemp_l by lia.
  replace (fav + Z.of_nat (S j) + (a_nrGuards A - 1)) with (fav + Z.of_nat j + 1 * a_nrGuards A) by lia.
  by rewrite Z.mod_add by lia.
Qed.

Lemma exec_visit {B} j g (k : Guard -> cprog B) X o :
  rotate (Z.to_nat fav) gl !! j = Some g -> exec c (k g) (marked X s) o ->
  exec c (bind (get_guard (a_guards A) (visit j)) k) (marked X s) o.
Proof.
  intros Hg. assert (Hj : (j < length gl)%nat).
  { apply lookup_lt_Some in Hg. by rewrite length_rotate in Hg. }
  rewrite lookup_rotate_r in Hg by done. unfold rotate_nat_add in Hg.
  rewrite Z2Nat.id, <-(al_size _ _ _ _ HA) in Hg by lia.
  pose proof (Z.mod_pos_bound (fav + Z.of_nat j) (a_nrGuards A) ltac:(lia)).
  unfold visit. rewrite <-(Z2Nat.id (_ mod _)) by lia. by apply exec_get_guard.
Qed.

Lemma exec_cmod {B} a (k : Z -> cprog B) s1 o :
  exec c (k (Z.rem a (a_nrGuards A))) s1 o -> exec c (bind (cmod a (a_nrGuards A)) k) s1 o.
Proof.
  intros Hk. unfold cmod. replace (a_nrGuards A =? 0) with false by (symmetry; apply Z.eqb_neq; lia).
  exact Hk.
Qed.

(** As [pri_enable_prefix], [pri_enable_loop] and [pri_enable_all]. *)
Lemma fair_enable_prefix pre mid rest X e o (k : bool * (Z * Z) * Z -> cprog o) r :
  proc <> NULL -> rotate (Z.to_nat fav) gl = pre ++ mid ++ rest -> Forall (guard_fit s) mid ->
  all_idle s X -> Forall (fun x => guard_ready s x = false) mid ->
  exec c (bind (loop (fair_enable_step alt proc)
    (Z.of_nat (length (pre ++ mid)), visit (length (pre ++ mid)), e)) k)
    (marked (all_marks s mid ∪ X) s) r ->
  exec c (bind (loop (fair_enable_step alt proc) (Z.of_nat (length pre), visit (length pre), e)) k)
    (marked X s) r.
Proof.
  intros Hproc Hgl Hfit HX Hno Hk. pose proof (f_equal length Hgl) as Hlen.
  rewrite length_rotate, !length_app in Hlen. pose proof (al_size _ _ _ _ HA) as Hsz.
  revert pre X Hgl HX Hlen Hk. induction mid as [|x mid IH]; intros pre X Hgl HX Hlen Hk.
  - rewrite app_nil_r in Hk. unfold all_marks in Hk. simpl in Hk. by rewrite union_empty_l_L in Hk.
  - apply Forall_cons in Hno as [Hx Hno], Hfit as [Hfx Hfit]. simpl in Hlen.
    apply (exec_loop c _ _ _ _ (inl (Z.of_nat (length (pre ++ [x])), visit (length (pre ++ [x])), e))
      (marked (guard_mark s x ∪ X) s)).
    + unfold fair_enable_step. apply exec_aget. zb. apply exec_aget.
      apply (exec_visit _ x); [by rewrite Hgl, lookup_app_r, Nat.sub_diag by lia|].
      eapply exec_bind_done; [by apply enable_guard_run|]. cbn [fst snd]. rewrite Hx.
      apply exec_aget, exec_cmod. rewrite visit_next, length_app, Nat.add_1_r.
      replace (Z.of_nat (length pre) + 1) with (Z.of_nat (S (length pre))) by lia. apply exec_ret.
    + apply IH; [done..|by rewrite <-app_assoc| | |].
      * apply all_idle_union; [by apply guard_mark_idle|done].
      * rewrite length_app. simpl in *. lia.
      * replace ((pre ++ [x]) ++ mid) with (pre ++ x :: mid) by by rewrite <-app_assoc.
        replace (all_marks s mid ∪ (guard_mark s x ∪ X)) with (all_marks s (x :: mid) ∪ X)
          by (rewrite all_marks_cons; set_solver).
        exact Hk.
Qed.

Lemma fair_enable_loop mid g post e o (k : bool * (Z * Z) * Z -> cprog o) r :
  proc <> NULL -> rotate (Z.to_nat fav) gl = mid ++ g :: post ->
  Forall (guard_fit s) (mid ++ [g]) -> Forall (fun x => guard_ready s x = false) mid ->
  guard_ready s g = true ->
  exec c (k (true, (Z.of_nat (length mid), visit (length mid)), e))
    (marked (all_marks s (mid ++ [g])) s) r ->
  exec c (bind (loop (fair_enable_step alt proc) (0, visit 0, e)) k) (marked ∅ s) r.
Proof.
  intros Hproc Hgl Hfit Hno Hg Hk. pose proof (f_equal length Hgl) as Hlen.
  rewrite length_rotate, !length_app in Hlen. simpl in Hlen.
  apply Forall_app in Hfit as [Hfm [Hfg _]%Forall_cons].
  apply (fair_enable_prefix [] mid (g :: post)); [done..|set_solver|done|].
  rewrite all_marks_snoc in Hk. eapply exec_bind_done; [|exact Hk]. cbn [app].
  apply (exec_loop c _ _ _ _ (inr (true, (Z.of_nat (length mid), visit (length mid)), e))
    (marked (guard_mark s g ∪ (all_marks s mid ∪ ∅)) s)).
  - unfold fair_enable_step. apply exec_aget. rewrite (al_size _ _ _ _ HA). zb. apply exec_aget.
    apply (exec_visit _ g); [by rewrite Hgl, lookup_app_r, Nat.sub_diag by lia|].
    eapply exec_bind_done; [apply enable_guard_run; [done..|]|].
    + apply all_idle_union; [by apply all_marks_idle|set_solver].
    + cbn [fst snd]. rewrite Hg. apply exec_ret.
  - replace (guard_mark s g ∪ (all_marks s mid ∪ ∅)) with (all_marks s mid ∪ guard_mark s g)
      by set_solver. apply exec_ret.
Qed.

Lemma fair_enable_all n e o (k : bool * (Z * Z) * Z -> cprog o) r :
  proc <> NULL -> length gl = S n ->
  Forall (guard_fit s) (rotate (Z.to_nat fav) gl) ->
  Forall (fun x => guard_ready s x = false) (rotate (Z.to_nat fav) gl) ->
  exec c (k (false, (Z.of_nat n, visit n), e)) (marked (all_marks s (rotate (Z.to_nat fav) gl)) s) r ->
  exec c (bind (loop (fair_enable_step alt proc) (0, visit 0, e)) k) (marked ∅ s) r.
Proof.
  intros Hproc Hlen Hfit Hno Hk.
  apply (fair_enable_prefix [] (rotate (Z.to_nat fav) gl) []);
    [done|by rewrite app_nil_r|done|set_solver|done|].
  rewrite union_empty_r_L. eapply exec_bind_done; [|exact Hk]. cbn [app]. rewrite length_rotate, Hlen.
  eapply (exec_loop c _ _ _ _ (inr (false, (Z.of_nat n, visit n), e))); [|apply exec_ret].
  unfold fair_enable_step. apply exec_aget. rewrite (al_size _ _ _ _ HA), Hlen. zb.
  apply exec_aget, exec_cmod. rewrite visit_prev.
  replace (Z.of_nat (S n) - 1) with (Z.of_nat n) by lia. apply exec_ret.
Qed.

Lemma fair_disable_loop l rest X i sel :
  proc <> NULL -> rotate (Z.to_nat fav) gl = l ++ rest -> Forall (guard_fit s) l -> all_idle s X ->
  (forall j, length l = S j -> i = visit j) ->
  exec c (loop (fair_disable_step alt proc) (Z.of_nat (length l) - 1, i, sel)) (marked X s)
    (Done (chosen visit l sel) (marked (X ∖ all_marks s l) s)).
Proof.
  intros Hproc. revert rest X i sel.
  induction l as [|x l IH] using rev_ind; intros rest X i sel Hgl Hfit HX Hi.
  - apply (exec_loop c _ _ _ _ (inr sel) (marked X s)); [apply exec_ret|].
    replace (X ∖ all_marks s []) with X by (unfold all_marks; set_solver). apply exec_ret.
  - rewrite length_app in *. simpl length in *. rewrite (Hi (length l)) by lia.
    apply Forall_app in Hfit as [Hfl Hfx]. apply Forall_cons in Hfx as [Hfx _].
    apply (exec_loop c _ _ _ _ (inl (Z.of_nat (length l) - 1,
      Z.rem (visit (length l) - 1 + a_nrGuards A) (a_nrGuards A),
      if guard_ready s x then visit (length l) else sel)) (marked (X ∖ guard_mark s x) s)).
    + replace (Z.of_nat (length l + 1) - 1) with (Z.of_nat (length l)) by lia.
      unfold fair_disable_step. zb. apply exec_aget.
      apply (exec_visit _ x).
      { rewrite Hgl, <-app_assoc, lookup_app_r by lia. by rewrite Nat.sub_diag. }
      eapply exec_bind_done; [by apply disable_guard_run|].
      apply exec_aget, exec_cmod, exec_ret.
    + rewrite all_marks_snoc, chosen_snoc.
      replace (X ∖ (all_marks s l ∪ guard_mark s x)) with (X ∖ guard_mark s x ∖ all_marks s l) by set_solver.
      apply (IH (x :: rest)); [by rewrite Hgl, <-app_assoc|done|by apply all_idle_difference|].
      intros j Hj. rewrite Hj. apply visit_prev.
Qed.
End Run.
End Marks.

(** ** The whole selection *)

Lemma chan_rep_ext s s' ch st :
  chans s' = chans s -> mutexes s' = mutexes s -> chan_rep s ch st -> chan_rep s' ch st.
Proof. intros H1 H2 [Hr Hm Hn]. by split; rewrite ?H1, ?H2. Qed.

Lemma guard_fit_ext proc s s' g :
  chans s' = chans s -> mutexes s' = mutexes s -> guard_fit proc s g -> guard_fit proc s' g.
Proof.
  intros H1 H2 [ch E1 E2 E3|ch w a E1 E2 E3 E4|E1|E1].
  - eapply fit_idle; [done..|by eapply chan_rep_ext].
  - eapply fit_busy; [done..|by eapply chan_rep_ext|done].
  - by apply fit_skip.
  - by apply fit_interrupt.
Qed.

(** The favorite is the guard after the selected one, round the array. *)
Lemma save_favorite_run c s alt A sel :
  alts s !! alt = Some A -> 0 <= sel < a_nrGuards A -> a_nrGuards A < 2 ^ 16 ->
  exec c (save_favorite alt sel) s
    (Done tt (upd_alt alt (set_favorite ((sel + 1) mod a_nrGuards A)) s)).
Proof.
  intros HA Hs Hn. unfold save_favorite, aset, aget.
  assert (Hu : uint16 (sel + 1) = sel + 1) by (unfold uint16, wrapU; apply Z.mod_small; lia).
  eapply exec_store; [by rewrite HA|]. rewrite Hu.
  eapply exec_fetch; [simpl; by rewrite lookup_alter_eq, HA|]. cbn [a_favorite set_favorite].
  eapply exec_fetch; [simpl; by rewrite lookup_alter_eq, HA|]. cbn [a_nrGuards set_favorite].
  rewrite Z.geb_leb. destruct (Z.leb_spec (a_nrGuards A) (sel + 1)) as [Hle|Hlt].
  - assert (sel + 1 = a_nrGuards A) as He by lia.
    eapply exec_fetch; [simpl; by rewrite lookup_alter_eq, HA|]. cbn [a_favorite set_favorite].
    eapply exec_fetch; [simpl; by rewrite lookup_alter_eq, HA|]. cbn [a_nrGuards set_favorite].
    rewrite <-(bind_ret_r (store _)). eapply exec_store; [simpl; by rewrite lookup_alter_eq, HA|].
    replace (upd_alt _ _ (upd_alt _ _ s)) with (upd_alt alt (set_favorite ((sel + 1) mod a_nrGuards A)) s);
      [apply exec_ret|].
    unfold upd_alt, set_alts. simpl. f_equal. rewrite He, Z.mod_same, Z.sub_diag by lia.
    apply map_eq. intros i. destruct (decide (alt = i)) as [->|Hne].
    + by rewrite !lookup_alter_eq, HA.
    + by rewrite !lookup_alter_ne.
  - rewrite Z.mod_small by lia. apply exec_ret.
Qed.

(** The outcome of a selection of guard [k]: its end, and the whole when there
    was no wait. *)
Definition finished (cur alt : addr) (A : Alternation) (k : Z) (s : sys) : sys :=
  upd_alt alt (set_favorite ((k + 1) mod a_nrGuards A)) (upd_proc cur (set_alt_state ALT_NONE) s).
Definition selected (cur alt : addr) (A : Alternation) (k : Z) (s : sys) : sys :=
  finished cur alt A k (upd_proc cur (set_alt_state ALT_ENABLING) s).

Lemma finish_run c s cur C alt A k :
  procs s !! cur = Some C -> alts s !! alt = Some A -> 0 <= k < a_nrGuards A -> a_nrGuards A < 2 ^ 16 ->
  exec c (altFinish cur;; save_favorite alt k;; ret k) s (Done k (finished cur alt A k s)).
Proof.
  intros HC HA Hk Hn. unfold altFinish. eapply exec_pset; [exact HC|].
  eapply exec_bind_done; [by apply (save_favorite_run c _ alt A)|]. apply exec_ret.
Qed.

(** Waiting in the alternation, with no timeout to enable. *)
Lemma alt_wait_run c s cur C q ql l n L :
  cpu_state c s cur C q ql l -> rq_insert_all (pri_of s) ql l = n :: L ->
  p_alt_state C = ALT_ENABLING ->
  exists s1 N N' q', exec c (alt_wait cur (int64 NO_TIME)) s
      (Switched (p_stackptr C) (p_stackptr N) enable s1) /\ procs s !! n = Some N /\
    sched_step (upd_proc cur (set_alt_state ALT_WAITING) s) s1 /\ cpu_state c s1 n N' q' [] L /\
    snd <$> sts s1 cur = Some ALT_WAITING.
Proof.
  intros Hcs HL Hal. pose proof (cs_proc _ _ _ _ _ _ _ Hcs) as HC.
  set (s0 := upd_proc cur (set_alt_state ALT_WAITING) s).
  pose proof (cpu_state_quiet c _ cur s cur C q ql l (quiet_alt_state ALT_WAITING) Hcs) as Hcs0.
  rewrite decide_True in Hcs0 by done. fold s0 in Hcs0.
  destruct (relinquish_unconditional_wait c s0 cur _ q ql l n L Hcs0)
    as (s1 & q' & N & N' & He & HN & Hs & Hcs' & Hst & _); [by unfold s0; rewrite rq_insert_all_quiet|].
  destruct (next_proc c _ _ _ _ _ _ _ _ Hcs HL) as (_ & _ & _ & _ & [Hnc _]%NoDup_cons).
  exists s1, N, N', q'. split_and!; [| |exact Hs|done|].
  - unfold alt_wait. replace (uint64 (int64 NO_TIME) =? NO_TIME) with true by done. cbn [negb].
    xstep1. unfold altShouldWait. xstep1.
    eapply exec_cas_alt_ok; [exact HC|exact Hal|]. cbn [fst]. xstep1. exact He.
  - simpl in HN. by rewrite lookup_alter_ne in HN by set_solver.
  - rewrite Hst. by rewrite (sts_lookup _ _ _ (cs_proc _ _ _ _ _ _ _ Hcs0)).
Qed.

(** The whole wait: with the channels of [Y] marked, the process gives the
    processor away. *)
Lemma enter_wait c s cur C q ql l n L Y :
  cpu_state c s cur C q ql l -> rq_insert_all (pri_of s) ql l = n :: L ->
  let s2 := marked cur Y (upd_proc cur (set_alt_state ALT_ENABLING) s) in
  exists s1 N N' q', exec c (alt_wait cur (int64 NO_TIME)) s2
      (Switched (p_stackptr C) (p_stackptr N) enable s1) /\ procs s !! n = Some N /\
    cpu_state c s1 n N' q' [] L /\ snd <$> sts s1 cur = Some ALT_WAITING /\
    chans s1 = marks cur Y (chans s).
Proof.
  intros Hcs HL s2. set (s0 := upd_proc cur (set_alt_state ALT_ENABLING) s) in s2.
  pose proof (cpu_state_quiet c _ cur s cur C q ql l (quiet_alt_state ALT_ENABLING) Hcs) as Hcs0.
  rewrite decide_True in Hcs0 by done. fold s0 in Hcs0.
  assert (Hcs2 : cpu_state c s2 cur (set_alt_state ALT_ENABLING C) q ql l) by by apply (cpu_state_ext c s0).
  assert (HL2 : rq_insert_all (pri_of s2) ql l = n :: L).
  { rewrite <-HL. apply rq_insert_all_ext. intros x. apply (pri_of_quiet _ (quiet_alt_state _) cur s). }
  destruct (alt_wait_run c s2 cur _ q ql l n L Hcs2 HL2 eq_refl)
    as (s1 & N & N' & q' & He & HN & Hstep & Hcs1 & Hst).
  destruct (next_proc c _ _ _ _ _ _ _ _ Hcs HL) as (_ & _ & _ & _ & [Hnc _]%NoDup_cons).
  exists s1, N, N', q'. split_and!; [exact He| |done|done|].
  - simpl in HN. by rewrite lookup_alter_ne in HN by set_solver.
  - by rewrite (ss_rest _ _ Hstep).
Qed.

(** [priSelect] with a ready guard returns the index of the first ready
    guard without waiting.  The channels of the guards are as they were, the
    process is in no alternation any more, and the alternation's favorite is
    the guard after the selected one. *)
Theorem priSelect_first_ready c s cur C alt A mid g post :
  on_cpu c s -> current s !! c = Some cur -> procs s !! cur = Some C -> cur <> NULL ->
  alt_rep s alt A (mid ++ g :: post) -> Forall (guard_fit cur s) (mid ++ [g]) ->
  Forall (fun x => guard_ready s x = false) mid -> guard_ready s g = true ->
  exec c (priSelect alt) s
    (Done (Z.of_nat (length mid)) (selected cur alt A (Z.of_nat (length mid)) s)).
Proof.
  intros Hc Hcur HC Hcur0 HA Hfit Hno Hg. set (gl := mid ++ g :: post) in *.
  set (s0 := upd_proc cur (set_alt_state ALT_ENABLING) s).
  assert (HA0 : alt_rep s0 alt A gl) by (destruct HA; by split).
  assert (Hg0 : guard_ready s0 g = true) by done.
  assert (Hfit0 : Forall (guard_fit cur s0) (mid ++ [g])).
  { eapply Forall_impl; [exact Hfit|]. intros x. by apply guard_fit_ext. }
  pose proof (f_equal length (eq_refl gl)) as Hlen. unfold gl at 2 in Hlen.
  rewrite length_app in Hlen. simpl in Hlen.
  unfold priSelect. eapply exec_get_current; [exact Hc|exact Hcur|].
  unfold altEnabling. eapply exec_pset; [exact HC|]. fold s0.
  rewrite <-(marked_empty cur s0).
  unfold pri_enable. eapply (pri_enable_loop cur c s0 alt A gl HA0 mid g post); [done..|].
  cbn [fst snd]. xstep1.
  apply (exec_bind_done c _ _ _ (Z.of_nat (length mid)) s0); [|].
  2: { eapply finish_run; [simpl; by rewrite lookup_alter_eq, HC|apply HA|..]; destruct HA as [_ _ Hsz Hb]; rewrite Hsz; lia. }
  assert (Hch : chosen s0 Z.of_nat (mid ++ [g]) (-1) = Z.of_nat (length mid)).
  { rewrite chosen_snoc. unfold chosen. rewrite (list_find_none_ready s0) by done. by rewrite Hg0. }
  rewrite <-Hch at 2. replace (Z.of_nat (length mid)) with (Z.of_nat (length (mid ++ [g])) - 1)
    by (rewrite length_app; simpl; lia).
  pose proof (pri_disable_loop cur c s0 alt A gl HA0 (mid ++ [g]) post (all_marks s0 (mid ++ [g])) (-1)
    Hcur0 ltac:(by rewrite <-app_assoc) Hfit0 (all_marks_idle cur s0 _ Hfit0)) as Hd.
  replace (_ ∖ _) with (∅ : gset addr) in Hd by set_solver. by rewrite marked_empty in Hd.
Qed.

Lemma fair_select_run c s cur C alt A gl mid g post :
  on_cpu c s -> current s !! c = Some cur -> procs s !! cur = Some C -> cur <> NULL ->
  alt_rep s alt A gl -> 0 <= a_favorite A < a_nrGuards A ->
  rotate (Z.to_nat (a_favorite A)) gl = mid ++ g :: post -> Forall (guard_fit cur s) (mid ++ [g]) ->
  Forall (fun x => guard_ready s x = false) mid -> guard_ready s g = true ->
  let k := (a_favorite A + Z.of_nat (length mid)) mod a_nrGuards A in
  exec c (fairSelect alt) s (Done k (selected cur alt A k s)) /\
  gl !! Z.to_nat k = Some g.
Proof.
  intros Hc Hcur HC Hcur0 HA Hfav Hrot Hfit Hno Hg k.
  pose proof (f_equal length Hrot) as Hlen. rewrite length_rotate, length_app in Hlen. simpl in Hlen.
  pose proof (al_size _ _ _ _ HA) as Hsz. split.
  2: { unfold k. rewrite Hsz. pose proof (lookup_rotate_r gl (Z.to_nat (a_favorite A)) (length mid)
         ltac:(lia)) as Hl. rewrite Hrot, lookup_app_r, Nat.sub_diag in Hl by lia.
       unfold rotate_nat_add in Hl. rewrite Z2Nat.id in Hl by lia. by rewrite <-Hl. }
  set (s0 := upd_proc cur (set_alt_state ALT_ENABLING) s).
  assert (HA0 : alt_rep s0 alt A gl) by (destruct HA; by split).
  assert (Hg0 : guard_ready s0 g = true) by done.
  assert (Hfit0 : Forall (guard_fit cur s0) (mid ++ [g])).
  { eapply Forall_impl; [exact Hfit|]. intros x. by apply guard_fit_ext. }
  unfold fairSelect. eapply exec_get_current; [exact Hc|exact Hcur|].
  unfold altEnabling. eapply exec_pset; [exact HC|]. fold s0.
  rewrite <-(marked_empty cur s0). unfold fair_enable. xstep1.
  apply (exec_aget cur c s0 alt A gl HA0).
  assert (H0 : visit A (a_favorite A) 0 = a_favorite A)
    by (unfold visit; rewrite Z.add_0_r; by apply Z.mod_small).
  rewrite <-H0 at 1.
  eapply (fair_enable_loop cur c s0 alt A gl HA0 (a_favorite A) Hfav mid g post); [done..|].
  cbn [fst snd]. xstep1. fold (visit A (a_favorite A) (length mid)) in k.
  apply (exec_bind_done c _ _ _ k s0); [|].
  2: { eapply finish_run; [simpl; by rewrite lookup_alter_eq, HC|apply HA|apply Z.mod_pos_bound; lia|].
       rewrite Hsz. apply HA. }
  assert (Hch : chosen s0 (visit A (a_favorite A)) (mid ++ [g]) (-1) = k).
  { rewrite chosen_snoc. unfold chosen. rewrite (list_find_none_ready s0) by done. by rewrite Hg0. }
  replace (Z.of_nat (length mid)) with (Z.of_nat (length (mid ++ [g])) - 1)
    by (rewrite length_app; simpl; lia).
  pose proof (fair_disable_loop cur c s0 alt A gl HA0 (a_favorite A) Hfav (mid ++ [g]) post
    (all_marks s0 (mid ++ [g])) k (-1) Hcur0 ltac:(by rewrite <-app_assoc) Hfit0
    (all_marks_idle cur s0 _ Hfit0)) as Hd.
  rewrite Hch in Hd. replace (_ ∖ _) with (∅ : gset addr) in Hd by set_solver.
  rewrite marked_empty in Hd.
  apply Hd. intros j Hj. rewrite length_app in Hj. simpl in Hj. unfold k, visit. do 2 f_equal. lia.
Qed.

(** C21: [fairSelect] with a ready guard returns the index of the first ready
    guard from the favorite on, round the array, without waiting, and makes the
    guard after it the favorite, so the guard just selected is the last one the
    next selection looks at. *)
Theorem fairSelect_from_favorite c s cur C alt A gl mid g post :
  on_cpu c s -> current s !! c = Some cur -> procs s !! cur = Some C -> cur <> NULL ->
  alt_rep s alt A gl -> 0 <= a_favorite A < a_nrGuards A ->
  rotate (Z.to_nat (a_favorite A)) gl = mid ++ g :: post -> Forall (guard_fit cur s) (mid ++ [g]) ->
  Forall (fun x => guard_ready s x = false) mid -> guard_ready s g = true ->
  let k := (a_favorite A + Z.of_nat (length mid)) mod a_nrGuards A in
  exec c (fairSelect alt) s (Done k (selected cur alt A k s)) /\
  gl !! Z.to_nat k = Some g.
Proof. apply fair_select_run. Qed.

(** The disabling loop and the end of [priSelect], resumed when some guard is
    ready; [X] are the channels that still hold the process. *)
Lemma pri_resume c s cur C alt A mid g post X :
  procs s !! cur = Some C -> cur <> NULL -> alt_rep s alt A (mid ++ g :: post) ->
  Forall (guard_fit cur s) (mid ++ g :: post) ->
  Forall (fun x => guard_ready s x = false) mid -> guard_ready s g = true ->
  X ⊆ all_marks s (mid ++ g :: post) ->
  exec c (selected <- pri_disable alt cur (Z.of_nat (length (mid ++ g :: post)) - 1);;
          altFinish cur;; save_favorite alt selected;; ret selected) (marked cur X s)
    (Done (Z.of_nat (length mid)) (finished cur alt A (Z.of_nat (length mid)) s)).
Proof.
  intros HC Hcur0 HA Hfit Hno Hg HX. set (gl := mid ++ g :: post) in *.
  pose proof (f_equal length (eq_refl gl)) as Hlen. unfold gl at 2 in Hlen.
  rewrite length_app in Hlen. simpl in Hlen.
  assert (Hch : chosen s Z.of_nat gl (-1) = Z.of_nat (length mid)).
  { unfold chosen, gl. rewrite (list_find_app_r _ _ _ (list_find_none_ready s mid Hno)). simpl.
    rewrite decide_True by done. simpl. by rewrite ?Nat.add_0_r. }
  apply (exec_bind_done c _ _ _ (Z.of_nat (length mid)) s).
  - pose proof (pri_disable_loop cur c s alt A gl HA gl [] X (-1) Hcur0
      ltac:(by rewrite app_nil_r) Hfit) as Hd.
    rewrite Hch in Hd. replace (X ∖ all_marks s gl) with (∅ : gset addr) in Hd by set_solver.
    rewrite marked_empty in Hd. apply Hd. intros ch Hin. apply (all_marks_idle cur s gl Hfit); auto.
  - eapply finish_run; [exact HC|apply HA|..]; destruct HA as [_ _ Hsz Hb]; rewrite Hsz; lia.
Qed.

(** C23: [priSelect] without a ready guard waits.  It leaves the process in every
    channel of its guards and nowhere else, enters the waiting state of the
    alternation and gives the processor to the first of the merged queue.
    Resumed when a writer has come to one of the channels, in whatever state the
    system then is, it takes the process out of the channels that still hold it,
    reenables interrupts and returns the index of the first guard that is ready
    then. *)
Theorem priSelect_waits c s cur C q ql l n L alt A gl mk :
  cpu_state c s cur C q ql l -> rq_insert_all (pri_of s) ql l = n :: L ->
  alt_rep s alt A gl -> Forall (guard_fit cur s) gl ->
  Forall (fun x => guard_ready s x = false) gl ->
  exists s1 N N' q' rest,
    exec c (priSelect alt) s (Switched (p_stackptr C) (p_stackptr N) rest s1) /\
    procs s !! n = Some N /\ cpu_state c s1 n N' q' [] L /\
    snd <$> sts s1 cur = Some ALT_WAITING /\
    chans s1 = marks cur (all_marks s gl) (chans s) /\
    forall s3 C3 X mid g post, on_cpu c s3 -> procs s3 !! cur = Some C3 -> alt_rep s3 alt A gl ->
      sigmask (hw s3) !! c = Some mk -> Forall (guard_fit cur s3) gl -> gl = mid ++ g :: post ->
      Forall (fun x => guard_ready s3 x = false) mid -> guard_ready s3 g = true ->
      X ⊆ all_marks s3 gl ->
      exec c rest (marked cur X s3)
        (Done (Z.of_nat (length mid)) (finished cur alt A (Z.of_nat (length mid)) (masked c mk s3))).
Proof.
  intros Hcs HL HA Hfit Hno. pose proof Hcs as [Hqs Hcur HC HCp Hcur0 Hfr].
  set (s0 := upd_proc cur (set_alt_state ALT_ENABLING) s).
  assert (HA0 : alt_rep s0 alt A gl) by (destruct HA; by split).
  assert (Hfit0 : Forall (guard_fit cur s0) gl).
  { eapply Forall_impl; [exact Hfit|]. intros x. by apply guard_fit_ext. }
  destruct (enter_wait c s cur C q ql l n L (all_marks s gl) Hcs HL)
    as (s1 & N & N' & q' & He & HN & Hcs1 & Hst & Hch).
  exists s1, N, N', q'. eexists. split_and!; [|done..|].
  - unfold priSelect. eapply exec_get_current; [apply Hqs|exact Hcur|].
    unfold altEnabling. eapply exec_pset; [exact HC|]. fold s0.
    rewrite <-(marked_empty cur s0). unfold pri_enable.
    eapply (pri_enable_all cur c s0 alt A gl HA0); [done..|].
    cbn [fst snd]. eapply exec_bind; [exact He|]. reflexivity.
  - intros s3 C3 X mid g post Hc3 HC3 HA3 Hm3 Hfit3 -> Hno3 Hg3 HX.
    eapply exec_enable; [exact Hc3|exact Hm3|].
    apply (pri_resume c (masked c mk s3) cur C3 alt A mid g post X); try done.
    + destruct HA3. by split.
    + eapply Forall_impl; [exact Hfit3|]. intros x. by apply guard_fit_ext.
Qed.

(** The same for [fairSelect], whose loops go round the array from the
    favorite. *)
Lemma fair_resume c s cur C alt A gl n mid g post X :
  procs s !! cur = Some C -> cur <> NULL -> alt_rep s alt A gl -> 0 <= a_favorite A < a_nrGuards A ->
  length gl = S n -> rotate (Z.to_nat (a_favorite A)) gl = mid ++ g :: post ->
  Forall (guard_fit cur s) (mid ++ g :: post) ->
  Forall (fun x => guard_ready s x = false) mid -> guard_ready s g = true ->
  X ⊆ all_marks s (mid ++ g :: post) ->
  let k := visit A (a_favorite A) (length mid) in
  exec c (selected <- fair_disable alt cur (Z.of_nat n) (visit A (a_favorite A) n);;
          altFinish cur;; save_favorite alt selected;; ret selected) (marked cur X s)
    (Done k (finished cur alt A k s)).
Proof.
  intros HC Hcur0 HA Hfav Hlen Hrot Hfit Hno Hg HX k. pose proof (al_size _ _ _ _ HA) as Hsz.
  pose proof (f_equal length Hrot) as Hl. rewrite length_rotate, Hlen in Hl.
  assert (Hch : chosen s (visit A (a_favorite A)) (mid ++ g :: post) (-1) = k).
  { unfold chosen. rewrite (list_find_app_r _ _ _ (list_find_none_ready s mid Hno)). simpl.
    rewrite decide_True by done. simpl. by rewrite ?Nat.add_0_r. }
  apply (exec_bind_done c _ _ _ k s).
  - pose proof (fair_disable_loop cur c s alt A gl HA (a_favorite A) Hfav (mid ++ g :: post) [] X
      (visit A (a_favorite A) n) (-1) Hcur0 ltac:(by rewrite app_nil_r) Hfit) as Hd.
    rewrite Hch, <-Hl in Hd.
    replace (X ∖ all_marks s (mid ++ g :: post)) with (∅ : gset addr) in Hd by set_solver.
    rewrite marked_empty in Hd. replace (Z.of_nat (S n) - 1) with (Z.of_nat n) in Hd by lia.
    apply Hd; [|congruence]. intros ch Hin. apply (all_marks_idle cur s _ Hfit); auto.
  - eapply finish_run; [exact HC|apply HA|apply Z.mod_pos_bound; lia|]. rewrite Hsz. apply HA.
Qed.

(** C22: [fairSelect] without a ready guard waits in the same way.  Resumed when
    some guard is ready, it returns the first ready one from the favorite on,
    round the array, and makes the guard after it the favorite. *)
Theorem fairSelect_waits c s cur C q ql l n L alt A gl mk :
  cpu_state c s cur C q ql l -> rq_insert_all (pri_of s) ql l = n :: L ->
  alt_rep s alt A gl -> 0 <= a_favorite A < a_nrGuards A -> Forall (guard_fit cur s) gl ->
  Forall (fun x => guard_ready s x = false) gl ->
  exists s1 N N' q' rest,
    exec c (fairSelect alt) s (Switched (p_stackptr C) (p_stackptr N) rest s1) /\
    procs s !! n = Some N /\ cpu_state c s1 n N' q' [] L /\
    snd <$> sts s1 cur = Some ALT_WAITING /\
    chans s1 = marks cur (all_marks s gl) (chans s) /\
    forall s3 C3 X mid g post, on_cpu c s3 -> procs s3 !! cur = Some C3 -> alt_rep s3 alt A gl ->
      sigmask (hw s3) !! c = Some mk -> Forall (guard_fit cur s3) gl ->
      rotate (Z.to_nat (a_favorite A)) gl = mid ++ g :: post ->
      Forall (fun x => guard_ready s3 x = false) mid -> guard_ready s3 g = true ->
      X ⊆ all_marks s3 gl ->
      let k := (a_favorite A + Z.of_nat (length mid)) mod a_nrGuards A in
      exec c rest (marked cur X s3) (Done k (finished cur alt A k (masked c mk s3))).
Proof.
  intros Hcs HL HA Hfav Hfit Hno. pose proof Hcs as [Hqs Hcur HC HCp Hcur0 Hfr].
  pose proof (al_size _ _ _ _ HA) as Hsz.
  destruct (length gl) as [|m] eqn:Hlen; [lia|].
  set (s0 := upd_proc cur (set_alt_state ALT_ENABLING) s).
  assert (HA0 : alt_rep s0 alt A gl) by (destruct HA; by split).
  assert (Hperm : forall P : Guard -> Prop, Forall P gl -> Forall P (rotate (Z.to_nat (a_favorite A)) gl)).
  { intros P HP. by rewrite rotate_perm. }
  assert (Hmarks : forall s, all_marks s (rotate (Z.to_nat (a_favorite A)) gl) = all_marks s gl).
  { intros s3. apply all_marks_perm, rotate_perm. }
  destruct (enter_wait c s cur C q ql l n L (all_marks s gl) Hcs HL)
    as (s1 & N & N' & q' & He & HN & Hcs1 & Hst & Hch).
  exists s1, N, N', q'. eexists. split_and!; [|done..|].
  - unfold fairSelect. eapply exec_get_current; [apply Hqs|exact Hcur|].
    unfold altEnabling. eapply exec_pset; [exact HC|]. fold s0.
    rewrite <-(marked_empty cur s0). unfold fair_enable. xstep1.
    apply (exec_aget cur c s0 alt A gl HA0).
    replace (a_favorite A) with (visit A (a_favorite A) 0) at 1
      by (unfold visit; rewrite Z.add_0_r; by apply Z.mod_small).
    eapply (fair_enable_all cur c s0 alt A gl HA0 (a_favorite A) Hfav m); [done|done| |by apply Hperm|].
    + apply Hperm. eapply Forall_impl; [exact Hfit|]. intros x. by apply guard_fit_ext.
    + rewrite Hmarks. cbn [fst snd]. eapply exec_bind; [exact He|]. reflexivity.
  - intros s3 C3 X mid g post Hc3 HC3 HA3 Hm3 Hfit3 Hrot Hno3 Hg3 HX.
    eapply exec_enable; [exact Hc3|exact Hm3|].
    apply (fair_resume c (masked c mk s3) cur C3 alt A gl m mid g post X); try done.
    + destruct HA3. by split.
    + rewrite <-Hrot. apply Hperm. eapply Forall_impl; [exact Hfit3|]. intros x. by apply guard_fit_ext.
    + rewrite <-Hrot. change (X ⊆ all_marks s3 (rotate (Z.to_nat (a_favorite A)) gl)). by rewrite Hmarks.
Qed.


(** ** The theorems at concrete inputs *)

Definition altA : addr := 0x50.
Definition guardsA : addr := 0x60.
Definition chB : addr := 0xa0.

(** [chA] is idle and [chB] in the state [st]; [altA] is an alternation over
    the guards [gl]. *)
Definition sample_alt (st : chan_state) (fav : Z) (gl : list Guard) : sys :=
  set_alts {[altA := mkAlternation fav (Z.of_nat (length gl)) guardsA]}
    (set_guards {[guardsA := gl]}
      (set_chans {[chA := mkChannel NULL NULL 2; chB := chan_record st 2]}
        (upd_mutex (chan_mutex chA) false (upd_mutex (chan_mutex chB) false sample)))).
Abbreviation with_writer := (sample_alt (Writing pL 0x3000)).

Definition guardA : Guard := mkGuard GUARD_CHAN (UChannel chA).
Definition guardB : Guard := mkGuard GUARD_CHAN (UChannel chB).
Definition skip_guard : Guard := mkGuard GUARD_SKIP (UTime 0).

Lemma sample_alt_rep st fav gl :
  Z.of_nat (length gl) < 2 ^ 16 ->
  alt_rep (sample_alt st fav gl) altA (mkAlternation fav (Z.of_nat (length gl)) guardsA) gl.
Proof. intros Hl. split; [done|done|done|exact Hl]. Qed.

Lemma sample_alt_fit fav gl : Forall (guard_fit pA (with_writer fav gl)) [guardA; guardB].
Proof.
  apply Forall_cons. split; [|apply Forall_singleton].
  - eapply (fit_idle _ _ _ chA); [done..|]. split; [by exists 2|done|done].
  - eapply (fit_busy _ _ _ chB pL 0x3000); [done..| |done]. split; [by exists 2|done|done].
Qed.

Lemma sample_alt_idle fav gl : Forall (guard_fit pA (sample_alt Idle fav gl)) [guardA; guardB].
Proof.
  apply Forall_cons. split; [|apply Forall_singleton].
  - eapply (fit_idle _ _ _ chA); [done..|]. split; [by exists 2|done|done].
  - eapply (fit_idle _ _ _ chB); [done..|]. split; [by exists 2|done|done].
Qed.

(** Both channels are idle when [pA] selects; when it resumes, [pL] has come to
    [chB] and [chA] still holds [pA]. *)
Lemma priSelect_waits_witness :
  exists s1 N rest s4, exec 0 (priSelect altA) (sample_alt Idle 0 [guardA; guardB])
      (Switched pA (p_stackptr N) rest s1) /\
    exec 0 rest (marked pA {[chA]} (with_writer 0 [guardA; guardB])) (Done 1 s4).
Proof.
  destruct (priSelect_waits 0 (sample_alt Idle 0 [guardA; guardB]) pA
    (sample_proc pA NULL 1024 0 PROC_READY) empty_ipq [] [pB; idle0] pB [idle0] altA
    (mkAlternation 0 2 guardsA) [guardA; guardB] sigemptyset)
    as (s1 & N & N' & q' & rest & He & _ & _ & _ & _ & Hrest).
  - by apply (cpu_state_ext 0 sample), sample_cpu_local.
  - by vm_compute.
  - by apply sample_alt_rep.
  - apply sample_alt_idle.
  - by repeat constructor.
  - eexists s1, N, rest, _. split; [exact He|].
    apply (Hrest (with_writer 0 [guardA; guardB]) (sample_proc pA NULL 1024 0 PROC_READY) {[chA]}
      [guardA] guardB []); [by vm_compute|done|by apply sample_alt_rep|by vm_compute|
      apply sample_alt_fit|done|by repeat constructor|done|].
    vm_compute (all_marks _ _). set_solver.
Defined.

(** The favorite is [chA]; the writer comes to [chB], round the array. *)
Lemma fairSelect_waits_witness :
  exists s1 N rest s4, exec 0 (fairSelect altA) (sample_alt Idle 1 [guardB; guardA])
      (Switched pA (p_stackptr N) rest s1) /\
    exec 0 rest (marked pA {[chA]} (with_writer 1 [guardB; guardA])) (Done 0 s4).
Proof.
  assert (Hp : forall P : Guard -> Prop, Forall P [guardA; guardB] -> Forall P [guardB; guardA]).
  { intros P [? [? _]%Forall_cons]%Forall_cons. by repeat constructor. }
  destruct (fairSelect_waits 0 (sample_alt Idle 1 [guardB; guardA]) pA
    (sample_proc pA NULL 1024 0 PROC_READY) empty_ipq [] [pB; idle0] pB [idle0] altA
    (mkAlternation 1 2 guardsA) [guardB; guardA] sigemptyset)
    as (s1 & N & N' & q' & rest & He & _ & _ & _ & _ & Hrest).
  - by apply (cpu_state_ext 0 sample), sample_cpu_local.
  - by vm_compute.
  - by apply sample_alt_rep.
  - done.
  - apply Hp, sample_alt_idle.
  - by repeat constructor.
  - eexists s1, N, rest, _. split; [exact He|].
    apply (Hrest (with_writer 1 [guardB; guardA]) (sample_proc pA NULL 1024 0 PROC_READY) {[chA]}
      [guardA] guardB []); [by vm_compute|done|by apply sample_alt_rep|by vm_compute|
      apply Hp, sample_alt_fit|done|by repeat constructor|done|].
    vm_compute (all_marks _ _). set_solver.
Defined.

Lemma priSelect_first_ready_witness :
  exists s', exec 0 (priSelect altA) (with_writer 0 [guardA; guardB; skip_guard]) (Done 1 s').
Proof.
  eexists. apply (priSelect_first_ready 0 (with_writer 0 [guardA; guardB; skip_guard]) pA
    (sample_proc pA NULL 1024 0 PROC_READY) altA (mkAlternation 0 3 guardsA) [guardA] guardB
    [skip_guard]); [by vm_compute|done|done|done|by apply sample_alt_rep|apply sample_alt_fit| |done].
  by repeat constructor.
Defined.

(** The favorite is the third guard, which is idle: the selection wraps round
    to the first one. *)
Lemma fairSelect_from_favorite_witness :
  exists s', exec 0 (fairSelect altA) (with_writer 2 [guardB; skip_guard; guardA]) (Done 0 s') /\
    alts s' !! altA = Some (mkAlternation 1 3 guardsA).
Proof.
  destruct (fairSelect_from_favorite 0 (with_writer 2 [guardB; skip_guard; guardA]) pA
    (sample_proc pA NULL 1024 0 PROC_READY) altA (mkAlternation 2 3 guardsA)
    [guardB; skip_guard; guardA] [guardA] guardB [skip_guard]) as [H _];
    [by vm_compute|done|done|done|by apply sample_alt_rep|done|done|apply sample_alt_fit| |done|].
  - by repeat constructor.
  - eexists. split; [exact H|by vm_compute].
Defined.
