(* ===== verification/Timed.v ===== *)
(** * Timed: alternations with a timeout

    A selection over channels and one timeout: the timeout is queued when the
    selection waits, the selection ends at the latest when the time comes, and a
    timeout that is still queued then is taken out and its descriptor released. *)

From S2P Require Import Prelude Prog State Fixture Linked Hardware Exec Priority Ipq.
From S2P Require Import Sched ReadyQueue Dispatch Mutex Memory Heap Timer TimerQueue.
From S2P Require Import AltState Comm Rendezvous Alt Select.

#[local] Open Scope prog_scope.

(** ** The timeouts of a selection *)

(** What enabling and disabling a timeout leave alone. *)
Record timer_frame (s s' : sys) : Prop := {
  tf_chans : chans s' = chans s;
  tf_alts : alts s' = alts s;
  tf_guards : guards s' = guards s;
  tf_mutexes : mutexes s' = mutexes s;
  tf_sched : rdyQues s' = rdyQues s /\ current s' = current s /\ ipQues s' = ipQues s;
  tf_hw : cpu_key (hw s') = cpu_key (hw s) /\ sigmask (hw s') = sigmask (hw s) }.

Lemma timer_frame_trans s s1 s2 : timer_frame s s1 -> timer_frame s1 s2 -> timer_frame s s2.
Proof. intros [? ? ? ? [? [? ?]] [? ?]] [? ? ? ? [? [? ?]] [? ?]]. split; try congruence; split_and!; congruence. Qed.

(** The descriptors of the queue are not blocks the allocator may give away. *)
Definition queue_kept (s : sys) (free : Z -> list addr) (tl : list addr) : Prop :=
  tail s ∉ tl /\ forall x, x ∈ free TMO_INDEX -> x ∉ tl.

(** What a selection with a timeout relies on: the time, the timeout timer and
    queue of its processor, and room in the heap for a descriptor. *)
Record timed (c : Z) (s : sys) (now : Z) (m : sigset) (base : Z) (carved : gmap addr Z)
    (free : Z -> list addr) (tl : list addr) : Prop := {
  td_clock : clock c s now;
  td_timer : exists id T, timeout_timer c s id T;
  td_mask : sigmask (hw s) !! c = Some m;
  td_queue : tmo_rep s c tl;
  td_heap : heap_ok base s carved free;
  td_mutex : mutexes s !! mutex_mem = Some false;
  td_room : block_len TMO_INDEX <= taillen s /\ tail s + block_len TMO_INDEX < 2 ^ 32;
  td_kept : queue_kept s free tl }.

(** It does not depend on channels and processes. *)
Lemma timed_ext c s s' now m base carved free tl :
  timer (hw s') = timer (hw s) -> ptimers (hw s') = ptimers (hw s) -> sigmask (hw s') = sigmask (hw s) ->
  timeQue s' = timeQue s -> timeouts s' = timeouts s -> mutexes s' = mutexes s ->
  tail s' = tail s -> taillen s' = taillen s -> procmemlist s' = procmemlist s -> chain s' = chain s ->
  currentTime s' = currentTime s ->
  timed c s now m base carved free tl -> timed c s' now m base carved free tl.
Proof.
  intros F1 F2 F3 E2 E3 E4 E5 E6 E7 E8 E9 [H1 (id & T & H2) H3 H4 H5 H6 H7 H8].
  split; rewrite ?F3, ?E4, ?E5, ?E6; try done.
  - by apply (clock_ext c s).
  - exists id, T. destruct H2. by split; rewrite ?F1, ?F2.
  - by apply (tmo_rep_ext c s).
  - by apply (heap_ok_frame base s).
  - unfold queue_kept. by rewrite E5.
Qed.

Section Timeout.
Context (c : Z).

Lemma insert_state_frame s d D l now id T m :
  let s' := tq_insert_state c s d D l now id T m in
  timer_frame s s' /\ procs s' = procs s /\ procmemlist s' = procmemlist s /\ chain s' = chain s /\
  tail s' = tail s /\ taillen s' = taillen s.
Proof.
  unfold tq_insert_state, tq_inserted. by destruct (tq_split (time_of s) (td_time D) l).1.
Qed.

(** A time that has not come: the descriptor is queued in time order. *)
Lemma enable_timeout_wait s proc P time now m base carved free tl :
  on_cpu c s -> procs s !! proc = Some P -> p_pun P = c -> timed c s now m base carved free tl ->
  0 < time - now < MAX_INTERVAL ->
  exists d s' l1 l2, exec c (enable_timeout time proc) s (Done false s') /\
    timer_frame s s' /\ procs s' = procs s /\ tl = l1 ++ l2 /\ tmo_rep s' c (l1 ++ d :: l2) /\
    Forall (fun x => time_of s x <= time) l1 /\
    desc_of s' d = Some (time, proc, TMO_ALTING) /\
    (forall j, ~ live carved free d j).
Proof.
  intros Hc HP HPp [Hk (id & T & Ht) Hm Hq Hh Hmu [Htl Hw] [Hkt Hkf]] Hmax.
  destruct (allocate_spec c base s carved free TMO_INDEX Hh ltac:(done) Hmu Htl Hw)
    as (d & s1 & carved1 & free1 & He & Hh1 & Hnl & Hl1 & _ & _ & Hd & Hfr & _).
  assert (Hdl : d ∉ tl).
  { rewrite Hd. destruct (free TMO_INDEX) eqn:E; [done|]. apply Hkf. by left. }
  assert (Hd0 : d <> NULL).
  { destruct (hk_carved _ _ _ _ Hh1 _ _ (proj1 Hl1)) as (_ & Hb & _).
    pose proof (hk_base _ _ _ _ Hh1). unfold NULL. lia. }
  set (D := mkTimeoutDesc time proc NULL TMO_ALTING).
  set (s2 := set_timeouts (<[d := D]> (timeouts s1)) s1).
  assert (HD : timeouts s2 !! d = Some D) by apply lookup_insert_eq.
  assert (Hq2 : tmo_rep s2 c tl).
  { split; [|apply linked_insert_ne; [done|]]; unfold s2; simpl; rewrite Hfr; apply Hq. }
  destruct (insert_state_frame s2 d D tl now id T m) as (Hf & Hpr & _).
  pose proof (tq_insert_state_rep c s2 d D tl now id T m HD Hd0 Hdl Hq2) as Hrep.
  destruct (tq_insert_state_desc c s2 d D tl now id T m HD) as [v Hv].
  exists d, (tq_insert_state c s2 d D tl now id T m),
    (tq_split (time_of s2) time tl).1, (tq_split (time_of s2) time tl).2.
  split_and!; [| | |by rewrite tq_split_app|exact Hrep| |by unfold desc_of; rewrite Hv|exact Hnl].
  - unfold enable_timeout. eapply exec_GetCurrentTime; [done|exact Hk|]. cbv zeta.
    replace (now >=? time) with false by (symmetry; rewrite Z.geb_leb; apply Z.leb_gt; lia).
    cbn [negb]. rewrite bind_assoc. eapply exec_bind_done; [exact He|]. rewrite bind_assoc.
    unfold new_tmo. fold D. zb. apply exec_modify. fold s2. rewrite bind_assoc.
    eapply exec_pget; [unfold s2; simpl; rewrite Hfr; exact HP|]. rewrite HPp.
    eapply exec_bind_done; [|apply exec_ret].
    apply insertInQueue_run; try done.
    + unfold on_cpu, s2. simpl. rewrite Hfr. exact Hc.
    + apply (clock_ext c s); [unfold s2; simpl; by rewrite Hfr..|done].
    + destruct Ht. split; unfold s2; simpl; by rewrite Hfr.
    + unfold s2. simpl. by rewrite Hfr.
    + simpl. unfold MAX_INTERVAL, NS_PER_SEC in *. lia.
  - eapply timer_frame_trans; [|exact Hf]. unfold s2. split; simpl; rewrite Hfr; done.
  - rewrite Hpr. unfold s2. simpl. by rewrite Hfr.
  - apply (tq_split_new s s2 d D); [exact Hdl|]. unfold s2. simpl. by rewrite Hfr.
Qed.

(** Disabling: the process's descriptor, if it is still queued, is taken out and
    released; the next one is not touched if it is not. *)
Lemma disable_timeout_run s proc P time now m base carved free tl :
  on_cpu c s -> procs s !! proc = Some P -> p_pun P = c -> timed c s now m base carved free tl ->
  match (tq_find s time proc tl).2 with
  | [] => True
  | y :: _ => tq_hit s time proc y = true /\ live carved free y TMO_INDEX
  end ->
  exists s' free', exec c (disable_timeout time proc) s (Done (now >=? time) s') /\
    timer_frame s s' /\ (forall x, x ∉ tl -> procs s' !! x = procs s !! x) /\
    thread_mask (hw s') !! c = Some m /\ heap_ok base s' carved free' /\
    tmo_rep s' c ((tq_find s time proc tl).1 ++ List.tl (tq_find s time proc tl).2).
Proof.
  intros Hc HP HPp [Hk _ Hm Hq Hh Hmu _ _] Hhit.
  pose proof (removeFromQueue_run c s time proc tl m Hc Hq Hm) as Hrm.
  pose proof (tq_find_app s time proc tl) as Happ.
  assert (Hgo : forall v s1 s2, exec c (removeFromQueue c time proc) s (Done v s1) ->
    exec c (if negb (v =? NULL) then release_mem TMO_INDEX v else ret tt) s1 (Done tt s2) ->
    exec c (disable_timeout time proc) s (Done (now >=? time) s2)).
  { intros v s1 s2 H1 H2. unfold disable_timeout. eapply exec_GetCurrentTime; [done|exact Hk|]. cbv zeta.
    eapply exec_pget; [exact HP|]. rewrite HPp. eapply exec_bind_done; [exact H1|].
    eapply exec_bind_done; [exact H2|apply exec_ret]. }
  set (s0 := masked c sigfillset s) in *.
  assert (Hq0 : tmo_rep s0 c tl) by by apply (tmo_rep_ext c s).
  destruct (tq_find s time proc tl) as [k [|y r]]; cbn [fst snd first List.tl] in *.
  - exists (masked c m s0), free. rewrite app_nil_r in Happ |- *. subst k.
    split_and!; [eapply Hgo; [exact Hrm|apply exec_ret]|by split|done|simpl; by rewrite lookup_insert_eq| |].
    + by apply (heap_ok_frame base s).
    + by apply (tmo_rep_ext c s).
  - destruct Hhit as [Hhit Hlive]. rewrite Hhit in Hrm. subst tl.
    destruct (tmo_lookup _ _ _ y Hq0) as (Hy0 & Y & HY); [set_solver|].
    pose proof (tq_removed_rep c s0 k y Y r Hq0 HY) as Hrep.
    pose proof (linked_suffix _ _ k _ (tq_linked _ _ _ Hq0)) as Hs.
    apply (linked_tail _ _ _ _ Hs), linked_first in HY. simpl in HY. rewrite HY in Hrep.
    set (s1 := masked c m (tq_removed c k (first r) s0)) in *.
    assert (Hs1 : timer_frame s s1 /\ procs s1 = procs s /\ tail s1 = tail s /\
      procmemlist s1 = procmemlist s /\ chain s1 = chain s) by (unfold s1, tq_removed; by destruct k).
    destruct Hs1 as (Hf1 & Hp1 & E1 & E2 & E3).
    assert (Hh1 : heap_ok base s1 carved free) by by apply (heap_ok_frame base s).
    destruct (release_back c base s1 carved free TMO_INDEX y Hh1 Hlive) as [He Hh2].
    { rewrite (tf_mutexes _ _ Hf1). done. }
    eexists _, _. split_and!; [eapply Hgo; [exact Hrm|zb; exact He]| | | |exact Hh2|].
    + destruct Hf1. by split.
    + intros x Hx. change (delete y (procs s1) !! x = procs s !! x). rewrite Hp1.
      apply lookup_delete_ne. set_solver.
    + simpl. by rewrite lookup_insert_eq.
    + destruct Hrep as [Hhd Hln]. split; [exact Hhd|]. simpl.
      apply linked_delete_ne; [|exact Hln].
      pose proof (linked_NoDup _ _ _ (tq_linked _ _ _ Hq0)) as Hnd.
      apply NoDup_app in Hnd as (_ & Hn1 & [Hn2 _]%NoDup_cons). rewrite elem_of_app.
      intros [Hy|Hy]; [apply (Hn1 y Hy); by left|done].
Qed.
End Timeout.

(** ** Waiting *)

Definition timer_guard (time : Z) : Guard := mkGuard GUARD_TIMER (UTime time).

Section Loops.
Context (proc : addr) (c : Z).

(** A state whose channels are marked. *)
Lemma marked_refold s0 s X : chans s = marks proc X (chans s0) -> s = marked proc X (set_chans (chans s0) s).
Proof. intros He. unfold marked. simpl. rewrite <-He. by destruct s. Qed.

Lemma alt_rep_timer s s1 X alt A gl :
  alt_rep s alt A gl -> timer_frame (marked proc X s) s1 -> alt_rep (set_chans (chans s) s1) alt A gl.
Proof.
  intros [A1 A2 A3 A4] Hfr. split; [rewrite <-A1|rewrite <-A2|done|done].
  - exact (f_equal (lookup alt) (tf_alts _ _ Hfr)).
  - exact (f_equal (lookup (a_guards A)) (tf_guards _ _ Hfr)).
Qed.

Context (s : sys) (alt : addr) (A : Alternation) (gl : list Guard) (HA : alt_rep s alt A gl).

(** The enabling and the disabling of the timer guard in the loops. *)
Lemma pri_enable_timer pre time post X s' o (k : bool * Z * Z -> cprog o) r :
  gl = pre ++ timer_guard time :: post -> 0 <= time ->
  exec c (enable_timeout time proc) (marked proc X s) (Done false s') ->
  exec c (bind (loop (pri_enable_step alt proc) (Z.of_nat (length (pre ++ [timer_guard time])), int64 NO_TIME)) k) s' r ->
  exec c (bind (loop (pri_enable_step alt proc) (Z.of_nat (length pre), int64 NO_TIME)) k) (marked proc X s) r.
Proof.
  intros Hgl Ht He Hk. pose proof (f_equal length Hgl) as Hlen. rewrite length_app in Hlen. simpl in Hlen.
  pose proof (al_size _ _ _ _ HA) as Hsz.
  apply (exec_loop c _ _ _ _ (inl (Z.of_nat (length (pre ++ [timer_guard time])), int64 NO_TIME)) s'); [|exact Hk].
  unfold pri_enable_step. eapply exec_aget; [exact HA|]. zb. eapply exec_aget; [exact HA|].
  eapply (exec_get_guard proc c s alt A gl HA _ (timer_guard time));
    [by rewrite Hgl, lookup_app_r, Nat.sub_diag by lia|].
  eapply exec_bind_done.
  - unfold enable_guard. cbn [Z.eqb GUARD_CHAN GUARD_SKIP GUARD_TIMER g_type timer_guard].
    eapply exec_fetch; [done|]. cbv zeta.
    replace (time <? int64 NO_TIME) with false
      by (symmetry; apply Z.ltb_ge; change (int64 NO_TIME) with (-1); lia).
    eapply exec_bind_done; [exact He|apply exec_ret].
  - cbn [fst snd]. rewrite length_app. simpl length. rewrite Nat2Z.inj_add. apply exec_ret.
Qed.

Lemma pri_disable_timer pre time post X sel b s' o (k : Z -> cprog o) r :
  gl = pre ++ timer_guard time :: post ->
  exec c (disable_timeout time proc) (marked proc X s) (Done b s') ->
  exec c (bind (loop (pri_disable_step alt proc) (Z.of_nat (length pre) - 1,
      if b : bool then Z.of_nat (length pre) else sel)) k) s' r ->
  exec c (bind (loop (pri_disable_step alt proc) (Z.of_nat (length (pre ++ [timer_guard time])) - 1, sel)) k)
    (marked proc X s) r.
Proof.
  intros Hgl He Hk. rewrite length_app. simpl length. rewrite Nat2Z.inj_add, Z.add_simpl_r.
  apply (exec_loop c _ _ _ _ (inl (Z.of_nat (length pre) - 1,
    if b then Z.of_nat (length pre) else sel)) s'); [|exact Hk].
  unfold pri_disable_step. zb. eapply exec_aget; [exact HA|].
  eapply (exec_get_guard proc c s alt A gl HA _ (timer_guard time));
    [by rewrite Hgl, lookup_app_r, Nat.sub_diag by lia|].
  eapply exec_bind_done; [|apply exec_ret].
  unfold disable_guard. cbn [Z.eqb GUARD_CHAN GUARD_SKIP GUARD_TIMER g_type timer_guard].
  eapply exec_fetch; [done|]. eapply exec_bind_done; [exact He|apply exec_ret].
Qed.
End Loops.

(** Which guards are ready at the time [now]. *)
Definition timed_ready (s : sys) (now : Z) (g : Guard) : bool :=
  if g_type g =? GUARD_TIMER then
    match g_union g with UTime t => now >=? t | _ => false end
  else guard_ready s g.

Lemma timed_ready_fit proc s now g : guard_fit proc s g -> timed_ready s now g = guard_ready s g.
Proof. unfold timed_ready. by intros [? -> | ? ? ? -> | -> | ->]. Qed.

Lemma list_find_Forall_ext {T} (P Q : T -> Prop) `{!forall x, Decision (P x), !forall x, Decision (Q x)} l :
  Forall (fun x => P x <-> Q x) l -> list_find P l = list_find Q l.
Proof.
  induction 1 as [|x l Hx _ IH]; [done|]. simpl. rewrite IH.
  destruct (decide (P x)), (decide (Q x)); tauto || done.
Qed.

(** Enabling everything, when nothing is ready. *)
Section Select.
Context (c : Z) (s : sys) (cur : addr) (C : Process) (alt : addr) (A : Alternation).
Context (pre post : list Guard) (time now : Z).
Let gl := pre ++ timer_guard time :: post.

Lemma timer_marks s1 : all_marks s1 gl = all_marks s1 pre ∪ all_marks s1 post.
Proof.
  unfold gl, all_marks. rewrite fmap_app, union_list_app_L. cbn [fmap list_fmap union_list].
  change (guard_mark s1 (timer_guard time)) with (∅ : gset addr). set_solver.
Qed.

Lemma enable_timed m base carved free tl :
  on_cpu c s -> cur <> NULL -> procs s !! cur = Some C -> p_pun C = c -> alt_rep s alt A gl ->
  Forall (guard_fit cur s) (pre ++ post) -> Forall (fun x => guard_ready s x = false) (pre ++ post) ->
  timed c s now m base carved free tl -> 0 <= time -> 0 < time - now < MAX_INTERVAL ->
  exists d s2 l1 l2,
    exec c (pri_enable alt cur) s (Done (false, Z.of_nat (length gl) - 1, int64 NO_TIME) s2) /\
    timer_frame (marked cur (all_marks s gl) s) s2 /\ procs s2 = procs s /\
    tl = l1 ++ l2 /\ tmo_rep s2 c (l1 ++ d :: l2) /\ Forall (fun x => time_of s x <= time) l1 /\
    desc_of s2 d = Some (time, cur, TMO_ALTING).
Proof.
  intros Hc Hcur0 HC HCp HA [Hf1 Hf2]%Forall_app [Hn1 Hn2]%Forall_app Htd Ht0 Ht. set (X1 := all_marks s pre).
  destruct (enable_timeout_wait c (marked cur X1 s) cur C time now m base carved free tl)
    as (d & s1 & l1 & l2 & He & Hfr & Hp & Htl & Hrep & Hle & Hd & _); [done..|by apply (timed_ext c s)|done|].
  exists d, (set_chans (marks cur (all_marks s gl) (chans s)) s1), l1, l2.
  split_and!; [|destruct Hfr as [_ F2 F3 F4 F5 F6]; by split|exact Hp|done|by apply (tmo_rep_ext c s1)|exact Hle|exact Hd].
  rewrite <-(marked_empty cur s) at 1. rewrite <-(bind_ret_r (pri_enable alt cur)). unfold pri_enable.
  apply (pri_enable_prefix cur c s alt A gl HA [] pre (timer_guard time :: post)); [done..|set_solver|done|].
  rewrite union_empty_r_L. cbn [app].
  eapply (pri_enable_timer cur c s alt A gl HA); [done|done|exact He|].
  rewrite (marked_refold cur s s1 X1 (tf_chans _ _ Hfr)) at 1. set (s1' := set_chans (chans s) s1).
  assert (Hm1 : mutexes s1' = mutexes s) by exact (tf_mutexes _ _ Hfr).
  assert (HA1 : alt_rep s1' alt A gl) by exact (alt_rep_timer cur s s1 X1 alt A gl HA Hfr).
  assert (Hfit1 : forall l, Forall (guard_fit cur s) l -> Forall (guard_fit cur s1') l).
  { intros l Hl. eapply Forall_impl; [exact Hl|]. intros x. by apply guard_fit_ext. }
  apply (pri_enable_prefix cur c s1' alt A gl HA1 (pre ++ [timer_guard time]) post []);
    [done|by rewrite <-app_assoc, app_nil_r|by apply Hfit1| |exact Hn2|].
  { intros ch Hch. apply (chan_rep_ext s); [done..|]. by apply (all_marks_idle cur s pre Hf1). }
  change (all_marks s1' post) with (all_marks s post).
  assert (Hfin : marked cur (all_marks s post ∪ X1) s1' = set_chans (marks cur (all_marks s gl) (chans s)) s1).
  { rewrite timer_marks, (union_comm_L (all_marks s pre)). done. }
  rewrite Hfin. eapply (exec_loop c _ _ _ _ (inr (false, Z.of_nat (length gl) - 1, int64 NO_TIME))); [|apply exec_ret].
  rewrite <-Hfin. unfold pri_enable_step. eapply exec_aget; [exact HA1|].
  rewrite (al_size _ _ _ _ HA1). rewrite <-app_assoc. cbn [app]. fold gl. zb. apply exec_ret.
Qed.

(** What the disabling loop selects. *)
Lemma timed_chosen i g :
  Forall (guard_fit cur s) (pre ++ post) -> list_find (fun g => timed_ready s now g = true) gl = Some (i, g) ->
  chosen s Z.of_nat pre (if now >=? time then Z.of_nat (length pre)
    else chosen s (fun j => Z.of_nat (length (pre ++ [timer_guard time]) + j)) post (-1)) = Z.of_nat i.
Proof.
  intros [Hf1 Hf2]%Forall_app Hi.
  assert (Hext : forall l, Forall (guard_fit cur s) l -> list_find (fun g => timed_ready s now g = true) l =
    list_find (fun g => guard_ready s g = true) l).
  { intros l Hl. apply list_find_Forall_ext. eapply Forall_impl; [exact Hl|].
    intros x Hx. simpl. by rewrite (timed_ready_fit cur). }
  pose proof (Hext pre Hf1) as Hp. unfold chosen, gl in *.
  destruct (list_find (fun g => guard_ready s g = true) pre) as [[j y]|].
  - rewrite (list_find_app_l _ _ _ _ _ Hp) in Hi. by simplify_eq.
  - rewrite (list_find_app_r _ _ _ Hp) in Hi. cbn [list_find] in Hi.
    change (timed_ready s now (timer_guard time)) with (now >=? time) in Hi.
    destruct (now >=? time) eqn:Et.
    + rewrite decide_True in Hi by done. simpl in Hi. simplify_eq. lia.
    + rewrite decide_False in Hi by done. rewrite (Hext post Hf2) in Hi.
      destruct (list_find (fun g => guard_ready s g = true) post) as [[j y]|]; simplify_eq/=.
      rewrite length_app. simpl. lia.
Qed.

(** Disabling everything, when some guard is ready. *)
Lemma disable_timed m base carved free tl X i g :
  on_cpu c s -> cur <> NULL -> procs s !! cur = Some C -> p_pun C = c -> alt_rep s alt A gl ->
  Forall (guard_fit cur s) (pre ++ post) -> X ⊆ all_marks s gl ->
  timed c s now m base carved free tl -> cur ∉ tl ->
  match (tq_find s time cur tl).2 with
  | [] => True
  | y :: _ => tq_hit s time cur y = true /\ live carved free y TMO_INDEX
  end ->
  list_find (fun g => timed_ready s now g = true) gl = Some (i, g) ->
  exists s2 free', exec c (pri_disable alt cur (Z.of_nat (length gl) - 1)) (marked cur X s)
      (Done (Z.of_nat i) s2) /\
    timer_frame s s2 /\ procs s2 !! cur = Some C /\ thread_mask (hw s2) !! c = Some m /\
    heap_ok base s2 carved free' /\
    tmo_rep s2 c ((tq_find s time cur tl).1 ++ List.tl (tq_find s time cur tl).2).
Proof.
  intros Hc Hcur0 HC HCp HA Hfit HX Htd Hct Hhit Hi. pose proof Hfit as [Hf1 Hf2]%Forall_app.
  rewrite timer_marks in HX. set (X1 := X ∖ all_marks s post).
  destruct (disable_timeout_run c (marked cur X1 s) cur C time now m base carved free tl)
    as (s1 & free' & He & Hfr & Hp & Hmk & Hh & Hrep); [done..|by apply (timed_ext c s)|exact Hhit|].
  set (s1' := set_chans (chans s) s1).
  assert (Hm1 : mutexes s1' = mutexes s) by exact (tf_mutexes _ _ Hfr).
  assert (HA1 : alt_rep s1' alt A gl) by exact (alt_rep_timer cur s s1 X1 alt A gl HA Hfr).
  exists s1', free'. split_and!; [|destruct Hfr as [_ F2 F3 F4 F5 F6]; by split| |exact Hmk|
    by apply (heap_ok_frame base s1)|by apply (tmo_rep_ext c s1)].
  2: { change (procs s1 !! cur = Some C). by rewrite Hp. }
  rewrite <-(bind_ret_r (pri_disable _ _ _)). unfold pri_disable.
  replace gl with ((pre ++ [timer_guard time]) ++ post) at 1 by (unfold gl; by rewrite <-app_assoc).
  apply (pri_disable_suffix cur c s alt A gl HA (pre ++ [timer_guard time]) post []);
    [done|by rewrite <-app_assoc, app_nil_r|done| |].
  { intros ch Hch. apply HX in Hch. apply elem_of_union in Hch as [?|?];
      [by apply (all_marks_idle cur s pre)|by apply (all_marks_idle cur s post)]. }
  eapply (pri_disable_timer cur c s alt A gl HA); [done|exact He|].
  rewrite (marked_refold cur s s1 X1 (tf_chans _ _ Hfr)). fold s1'.
  rewrite bind_ret_r, <-(timed_chosen i g Hfit Hi).
  pose proof (pri_disable_loop cur c s1' alt A gl HA1 pre (timer_guard time :: post) X1
    (if now >=? time then Z.of_nat (length pre)
     else chosen s (fun j => Z.of_nat (length (pre ++ [timer_guard time]) + j)) post (-1)) Hcur0) as Hd.
  change (all_marks s1' pre) with (all_marks s pre) in Hd.
  replace (X1 ∖ all_marks s pre) with (∅ : gset addr) in Hd by (unfold X1; set_solver).
  rewrite marked_empty in Hd. apply Hd; [done| |].
  - eapply Forall_impl; [exact Hf1|]. intros x. by apply guard_fit_ext.
  - intros ch Hch. apply (chan_rep_ext s); [done..|]. apply (all_marks_idle cur s pre Hf1).
    unfold X1 in Hch. set_solver.
Qed.
End Select.

(** C17: [priSelect] with a timeout among its guards, none of which is ready.  It
    leaves the process in the channels of its guards, queues a descriptor of the
    process for the time of the timeout in time order, and gives the processor
    away.  Resumed, in whatever state the system then is, it returns the first
    guard that is ready, the timeout being ready when its time has come: it takes
    the process out of all channels that still hold it, and takes its descriptor
    out of the queue and releases it if it is still there.  (That no later
    descriptor is queued when its own has gone is needed:
    [disable_timeout_frees_other].) *)
Theorem priSelect_timeout c s cur C q ql l n L alt A pre post time now mk base carved free tl :
  let gl := pre ++ timer_guard time :: post in
  cpu_state c s cur C q ql l -> rq_insert_all (pri_of s) ql l = n :: L -> alt_rep s alt A gl ->
  Forall (guard_fit cur s) (pre ++ post) -> Forall (fun x => guard_ready s x = false) (pre ++ post) ->
  timed c s now mk base carved free tl -> 0 <= time -> 0 < time - now < MAX_INTERVAL ->
  exists s1 N N' q' rest d l1 l2,
    exec c (priSelect alt) s (Switched (p_stackptr C) (p_stackptr N) rest s1) /\
    procs s !! n = Some N /\ cpu_state c s1 n N' q' [] L /\
    snd <$> sts s1 cur = Some ALT_WAITING /\ chans s1 = marks cur (all_marks s gl) (chans s) /\
    tl = l1 ++ l2 /\ tmo_rep s1 c (l1 ++ d :: l2) /\ Forall (fun x => time_of s x <= time) l1 /\
    desc_of s1 d = Some (time, cur, TMO_ALTING) /\
    forall s3 C3 now3 X base3 carved3 free3 tl3 i g, on_cpu c s3 -> procs s3 !! cur = Some C3 ->
      p_pun C3 = c -> alt_rep s3 alt A gl -> Forall (guard_fit cur s3) (pre ++ post) ->
      timed c s3 now3 mk base3 carved3 free3 tl3 -> cur ∉ tl3 -> X ⊆ all_marks s3 gl ->
      match (tq_find s3 time cur tl3).2 with
      | [] => True
      | y :: _ => tq_hit s3 time cur y = true /\ live carved3 free3 y TMO_INDEX
      end ->
      list_find (fun g => timed_ready s3 now3 g = true) gl = Some (i, g) ->
      exists s4 free4, exec c rest (marked cur X s3) (Done (Z.of_nat i) s4) /\
        chans s4 = chans s3 /\ snd <$> sts s4 cur = Some ALT_NONE /\
        alts s4 !! alt = Some (set_favorite ((Z.of_nat i + 1) mod a_nrGuards A) A) /\
        tmo_rep s4 c ((tq_find s3 time cur tl3).1 ++ List.tl (tq_find s3 time cur tl3).2) /\
        heap_ok base3 s4 carved3 free4 /\ thread_mask (hw s4) !! c = Some mk.
Proof.
  intros gl Hcs HL HA Hfit Hno Htd Ht0 Ht. pose proof Hcs as [Hqs Hcur HC HCp Hcur0 Hfr].
  set (s0 := upd_proc cur (set_alt_state ALT_ENABLING) s).
  assert (HA0 : alt_rep s0 alt A gl) by (destruct HA; by split).
  assert (Hfit0 : Forall (guard_fit cur s0) (pre ++ post)).
  { eapply Forall_impl; [exact Hfit|]. intros x. by apply guard_fit_ext. }
  assert (HC0 : procs s0 !! cur = Some (set_alt_state ALT_ENABLING C))
    by (simpl; by rewrite lookup_alter_eq, HC).
  destruct (enable_timed c s0 cur (set_alt_state ALT_ENABLING C) alt A pre post time now mk base carved free tl)
    as (d & s2 & l1 & l2 & Hen & Hf2 & Hp2 & Htl & Hrep & Hle & Hd); [apply Hqs|done|exact HC0|done..|
      by apply (timed_ext c s)|done|done|].
  pose proof (cpu_state_quiet c _ cur s cur C q ql l (quiet_alt_state ALT_ENABLING) Hcs) as Hcs0.
  rewrite decide_True in Hcs0 by done. fold s0 in Hcs0.
  destruct (tf_sched _ _ Hf2) as (Hs1 & Hs2 & Hs3).
  assert (Hcs2 : cpu_state c s2 cur (set_alt_state ALT_ENABLING C) q ql l)
    by (apply (cpu_state_ext c s0); first [done|apply Hf2]).
  assert (HL2 : rq_insert_all (pri_of s2) ql l = n :: L).
  { rewrite <-HL. apply rq_insert_all_ext. intros x. unfold pri_of at 1. rewrite Hp2.
    apply (pri_of_quiet _ (quiet_alt_state _) cur s). }
  destruct (alt_wait_run c s2 cur _ q ql l n L Hcs2 HL2 eq_refl)
    as (s1 & N & N' & q' & He & HN & Hstep & Hcs1 & Hst).
  destruct (next_proc c _ _ _ _ _ _ _ _ Hcs HL) as (_ & _ & _ & _ & [Hnc _]%NoDup_cons).
  exists s1, N, N', q'. eexists. exists d, l1, l2. split_and!; try done.
  - unfold priSelect. eapply exec_get_current; [apply Hqs|exact Hcur|].
    unfold altEnabling. eapply exec_pset; [exact HC|]. fold s0.
    eapply exec_bind_done; [exact Hen|]. cbn [fst snd]. eapply exec_bind; [exact He|]. reflexivity.
  - rewrite Hp2 in HN. simpl in HN. by rewrite lookup_alter_ne in HN by set_solver.
  - rewrite (ss_rest _ _ Hstep). exact (tf_chans _ _ Hf2).
  - eapply tmo_rep_ext; [..|exact Hrep]; by rewrite (ss_rest _ _ Hstep).
  - rewrite <-Hd. unfold desc_of. by rewrite (ss_rest _ _ Hstep).
  - intros s3 C3 now3 X base3 carved3 free3 tl3 i g Hc3 HC3 HCp3 HA3 Hfit3 Htd3 Hct HX Hhit Hi.
    destruct (disable_timed c (masked c mk s3) cur C3 alt A pre post time now3 mk base3 carved3 free3 tl3 X i g)
      as (s4 & free4 & Hdi & Hf4 & Hp4 & Hm4 & Hh4 & Hq4); try done.
    + destruct HA3. by split.
    + eapply Forall_impl; [exact Hfit3|]. intros x. by apply guard_fit_ext.
    + by apply (timed_ext c s3).
    + assert (Hal4 : alts s4 !! alt = Some A) by (rewrite (tf_alts _ _ Hf4); apply HA3).
      assert (Hi0 : (i < length gl)%nat) by (apply list_find_Some in Hi as [Hi _]; by eapply lookup_lt_Some).
      exists (finished cur alt A (Z.of_nat i) s4), free4. split_and!.
      * eapply exec_enable; [exact Hc3|apply Htd3|]. eapply exec_bind_done; [exact Hdi|].
        eapply finish_run; [exact Hp4|exact Hal4|..]; destruct HA3 as [_ _ Hsz Hb]; rewrite Hsz; first [exact Hb|fold gl; lia].
      * exact (tf_chans _ _ Hf4).
      * unfold sts. simpl. by rewrite lookup_alter_eq, Hp4.
      * simpl. by rewrite lookup_alter_eq, Hal4.
      * by apply (tmo_rep_ext c s4).
      * by apply (heap_ok_frame base3 s4).
      * exact Hm4.
Qed.

(** ** A selection that times out *)

Definition sample_guards : list Guard := [guardA; timer_guard 2500000000; guardB].

(** [sample_alt] with the timeout queue of [sample_tmo], and later, when the
    queue has run empty. *)
Definition sample_timed : sys :=
  set_timeQue (timeQue sample_tmo) (set_timeouts (timeouts sample_tmo) (sample_alt Idle 0 sample_guards)).
Definition sample_timed_later : sys :=
  set_currentTime 2000000000 (sample_alt Idle 0 sample_guards).

Lemma sample_timed_ok : timed 0 sample_timed 999999400 sigemptyset 0x100000 ∅ (fun _ => []) [tmo1; tmo2].
Proof.
  split.
  - by apply (clock_ext 0 sample_tmo), sample_clock.
  - exists 1, (mkTimer 42 0 0). by split.
  - reflexivity.
  - split; [reflexivity|concrete_linked].
  - by apply (heap_ok_frame _ sample), sample_heap.
  - reflexivity.
  - split; by vm_compute.
  - split; [|set_solver]. vm_compute. set_solver.
Qed.

Lemma sample_timed_later_ok :
  timed 0 sample_timed_later 2999999400 sigemptyset 0x100000 ∅ (fun _ => []) [].
Proof.
  split.
  - split; [|by vm_compute]. exists 0, (mkTimer 41 600 1000000000). split_and!; by vm_compute.
  - exists 1, (mkTimer 42 0 0). by split.
  - reflexivity.
  - by split.
  - by apply (heap_ok_frame _ sample), sample_heap.
  - reflexivity.
  - split; by vm_compute.
  - split; set_solver.
Qed.

Lemma sample_timed_fit s :
  chans s = chans (sample_alt Idle 0 sample_guards) -> mutexes s = mutexes (sample_alt Idle 0 sample_guards) ->
  Forall (guard_fit pA s) [guardA; guardB].
Proof.
  intros H1 H2. eapply Forall_impl; [apply (sample_alt_idle 0 sample_guards)|]. intros g. by apply guard_fit_ext.
Qed.

(** No writer comes: the timeout, guard 1, ends the selection. *)
Lemma priSelect_timeout_witness :
  exists s1 N rest s4, exec 0 (priSelect altA) sample_timed (Switched pA (p_stackptr N) rest s1) /\
    exec 0 rest (marked pA {[chA; chB]} sample_timed_later) (Done 1 s4).
Proof.
  destruct (priSelect_timeout 0 sample_timed pA (sample_proc pA NULL 1024 0 PROC_READY) empty_ipq []
    [pB; idle0] pB [idle0] altA (mkAlternation 0 3 guardsA) [guardA] [guardB] 2500000000 999999400
    sigemptyset 0x100000 ∅ (fun _ => []) [tmo1; tmo2])
    as (s1 & N & N' & q' & rest & d & l1 & l2 & He & _ & _ & _ & _ & _ & _ & _ & _ & Hrest).
  - by apply (cpu_state_ext 0 sample), sample_cpu_local.
  - by vm_compute.
  - by split.
  - exact (sample_timed_fit sample_timed eq_refl eq_refl).
  - by repeat constructor.
  - exact sample_timed_ok.
  - done.
  - by vm_compute.
  - destruct (Hrest sample_timed_later (sample_proc pA NULL 1024 0 PROC_READY) 2999999400 {[chA; chB]}
      0x100000 ∅ (fun _ => []) [] 1%nat (timer_guard 2500000000)) as (s4 & free4 & He4 & _).
    + by vm_compute.
    + done.
    + done.
    + by split.
    + exact (sample_timed_fit sample_timed_later eq_refl eq_refl).
    + exact sample_timed_later_ok.
    + set_solver.
    + vm_compute (all_marks _ _). set_solver.
    + done.
    + by vm_compute.
    + exists s1, N, rest, s4. split; [exact He|exact He4].
Defined.
