(* ===== verification/Fair.v ===== *)
(** * Fair: no guard is passed over for ever

    [fairSelect] looks at the guards round the array from the favorite on, and
    makes the guard after the one it selects the favorite.  So a guard that
    stays ready is selected after at most as many selections as there are
    guards, whatever the other guards do. *)

From S2P Require Import Prelude Prog State Fixture Linked Hardware.
From S2P Require Import Exec Priority Ipq Sched ReadyQueue Dispatch.
From S2P Require Import Mutex Comm Rendezvous Alt Select.

#[local] Open Scope prog_scope.

Section Fair.
Context (c : Z) (cur alt : addr) (gl : list Guard) (i : nat).

(** A state in which the process [cur] can select, and guard [i] is ready. *)
Record can_select (s : sys) (A : Alternation) : Prop := {
  cn_cpu : on_cpu c s;
  cn_cur : current s !! c = Some cur;
  cn_proc : is_Some (procs s !! cur);
  cn_alt : alt_rep s alt A gl;
  cn_fit : Forall (guard_fit cur s) gl;
  cn_ready : guard_ready s <$> gl !! i = Some true }.

(** How far guard [i] is from the favorite. *)
Definition distance (A : Alternation) : Z := (Z.of_nat i - a_favorite A) mod a_nrGuards A.

(** One selection: guard [i], or one that is nearer to the favorite. *)
Lemma selection_near s A :
  cur <> NULL -> can_select s A -> 0 <= a_favorite A < a_nrGuards A ->
  exists k s' A', exec c (fairSelect alt) s (Done k s') /\ alts s' !! alt = Some A' /\
    0 <= a_favorite A' < a_nrGuards A' /\
    (k = Z.of_nat i \/ distance A' < distance A).
Proof.
  intros Hcur [Hc Hcu [C HC] HA Hfit Hready] Hfav.
  pose proof (al_size _ _ _ _ HA) as Hsz.
  destruct (gl !! i) as [gi|] eqn:Hgi; [|done]. simpl in Hready. injection Hready as Hready.
  apply lookup_lt_Some in Hgi as Hi.
  assert (Hd : rotate (Z.to_nat (a_favorite A)) gl !! Z.to_nat (distance A) = Some gi).
  { rewrite <-Hgi, <-(lookup_rotate_l gl (Z.to_nat (a_favorite A)) i Hi). f_equal.
    unfold rotate_nat_sub, distance. rewrite Hsz, Z2Nat.id by lia.
    replace (Z.of_nat (length gl) + Z.of_nat i - a_favorite A)
      with (Z.of_nat i - a_favorite A + 1 * Z.of_nat (length gl)) by lia.
    rewrite Z.mod_add by lia. done. }
  pose proof (Z.mod_pos_bound (Z.of_nat i - a_favorite A) (a_nrGuards A) ltac:(lia)) as Hdb.
  fold (distance A) in Hdb.
  destruct (list_find (fun g => guard_ready s g = true) (rotate (Z.to_nat (a_favorite A)) gl))
    as [[p g]|] eqn:Hf.
  2: { apply list_find_None in Hf. rewrite Forall_lookup in Hf. by destruct (Hf _ _ Hd). }
  apply list_find_Some in Hf as (Hp & Hg & Hbefore).
  assert (Hpd : (p <= Z.to_nat (distance A))%nat)
    by (apply Nat.nlt_ge; intros Hlt; by destruct (Hbefore _ _ Hd Hlt)).
  pose proof (take_drop_middle _ _ _ Hp) as Hsplit. symmetry in Hsplit.
  set (mid := firstn p (rotate (Z.to_nat (a_favorite A)) gl)) in Hsplit.
  assert (Hmid : length mid = p)
    by (unfold mid; rewrite length_take; apply lookup_lt_Some in Hp; lia).
  destruct (fair_select_run c s cur C alt A gl mid g _ Hc Hcu HC Hcur HA Hfav Hsplit) as [He Hk].
  - apply Forall_forall. intros x Hx. rewrite Forall_forall in Hfit. apply Hfit.
    apply (elem_of_rotate gl (Z.to_nat (a_favorite A))). rewrite Hsplit. set_solver.
  - apply Forall_lookup. intros j x Hj. destruct (guard_ready s x) eqn:E; [|done].
    unfold mid in Hj. apply lookup_take_Some in Hj as [Hj Hlt]. by destruct (Hbefore _ _ Hj Hlt).
  - exact Hg.
  - rewrite Hmid in He. eexists _, _, _. split; [exact He|].
    split; [simpl; by rewrite lookup_alter_eq, (al_alt _ _ _ _ HA)|]. simpl.
    split; [apply Z.mod_pos_bound; lia|].
    destruct (decide (Z.of_nat p = distance A)) as [Ep|Ep]; [left|right].
    + rewrite Ep. unfold distance. rewrite Z.add_mod_idemp_r by lia.
      replace (a_favorite A + (Z.of_nat i - a_favorite A)) with (Z.of_nat i) by lia.
      apply Z.mod_small. lia.
    + unfold distance at 1. simpl. rewrite Z.add_mod_idemp_l, Zminus_mod_idemp_r by lia.
      replace (Z.of_nat i - (a_favorite A + Z.of_nat p + 1))
        with ((Z.of_nat i - a_favorite A) - (Z.of_nat p + 1)) by lia.
      rewrite <-Zminus_mod_idemp_l. fold (distance A). rewrite Z.mod_small by lia. lia.
Qed.
End Fair.

(** ** Bounded waiting *)

(** C29: [fairSelect] is fair.  Take any sequence of selections of an alternation
    of [n] guards, each returning, between which the rest of the system does as
    it likes with channels and data but leaves the alternation alone.  If guard
    [i] is ready at each of them, it is selected by one of the first [n],
    whatever the other guards do. *)
Theorem fairSelect_fair c cur alt gl i (ss : nat -> sys) (AA : nat -> Alternation) (ks : nat -> Z) :
  cur <> NULL -> 0 <= a_favorite (AA O) < a_nrGuards (AA O) ->
  (forall j, (j < length gl)%nat -> can_select c cur alt gl i (ss j) (AA j) /\
     exists s', exec c (fairSelect alt) (ss j) (Done (ks j) s') /\
       ((S j < length gl)%nat -> alts s' !! alt = Some (AA (S j)))) ->
  (0 < length gl)%nat -> exists j, (j < length gl)%nat /\ ks j = Z.of_nat i.
Proof.
  intros Hcur Hfav0 Hseq Hpos.
  assert (Hinv : forall j, (j <= length gl)%nat ->
    (exists j', (j' < j)%nat /\ ks j' = Z.of_nat i) \/
    ((j < length gl)%nat /\ 0 <= a_favorite (AA j) < a_nrGuards (AA j) /\
     distance i (AA j) + Z.of_nat j < Z.of_nat (length gl))).
  { induction j as [|j IH]; intros Hj.
    - right. split_and!; [done|apply Hfav0..|]. destruct (Hseq O Hpos) as [Hcan _].
      rewrite <-(al_size _ _ _ _ (cn_alt _ _ _ _ _ _ _ Hcan)). unfold distance.
      pose proof (Z.mod_pos_bound (Z.of_nat i - a_favorite (AA O)) (a_nrGuards (AA O)) ltac:(lia)). lia.
    - destruct IH as [(j' & ? & ?)|(Hlt & Hfav & Hd)]; [lia|left; exists j'; split; [lia|done]|].
      destruct (Hseq j Hlt) as (Hcan & s' & He & Ha).
      destruct (selection_near c cur alt gl i _ _ Hcur Hcan Hfav) as (k & s1 & A' & He' & Ha' & Hfav' & Hk).
      assert (Done (ks j) s' = Done k s1) as [= <- <-] by (eapply exec_det; eassumption).
      destruct Hk as [Hk|Hk]; [left; exists j; split; [lia|done]|]. right.
      assert (0 <= distance i A') by (apply Z.mod_pos_bound; lia).
      assert (Hlt' : (S j < length gl)%nat) by lia.
      rewrite (Ha Hlt') in Ha'. injection Ha' as <-. split_and!; [done|apply Hfav'..|lia]. }
  destruct (Hinv (length gl)) as [(j & Hj & Hk)|(Hlt & _)]; [done|by exists j|lia].
Qed.

(** The second guard has a writer; the first is always ready, and the favorite. *)
Definition sample_gl : list Guard := [skip_guard; guardB].
Definition sample_ss (j : nat) : sys :=
  match j with
  | O => with_writer 0 sample_gl
  | _ => selected pA altA (mkAlternation 0 2 guardsA) 0 (with_writer 0 sample_gl)
  end.
Definition sample_AA (j : nat) : Alternation := mkAlternation (Z.of_nat j) 2 guardsA.

Lemma sample_can_select j : (j < 2)%nat -> can_select 0 pA altA sample_gl 1 (sample_ss j) (sample_AA j).
Proof.
  intros Hj. destruct j as [|[|]]; [| |lia].
  all: split; [by vm_compute|done|by eexists|split; done| |done].
  all: apply Forall_cons; split; [by apply fit_skip|apply Forall_singleton].
  all: eapply (fit_busy _ _ _ chB pL 0x3000); [done..| |done]; split; [by exists 2|done|done].
Qed.

Lemma fairSelect_fair_witness :
  exec 0 (fairSelect altA) (sample_ss 0) (Done 0 (sample_ss 1)) /\
  exists j, (j < 2)%nat /\ (fun j => if decide (j = O) then 0 else 1) j = 1.
Proof.
  assert (H0 : exec 0 (fairSelect altA) (sample_ss 0) (Done 0 (sample_ss 1))).
  { apply (fair_select_run 0 (sample_ss 0) pA (sample_proc pA NULL 1024 0 PROC_READY) altA
      (sample_AA 0) sample_gl [] skip_guard [guardB]); try done. apply Forall_singleton. by apply fit_skip. }
  split; [exact H0|].
  apply (fairSelect_fair 0 pA altA sample_gl 1 sample_ss sample_AA
    (fun j => if decide (j = O) then 0 else 1)); [done|by vm_compute| |simpl; lia].
  intros j Hj. simpl in Hj. split; [by apply sample_can_select|].
  destruct j as [|[|]]; [| |lia]; eexists; (split; [|intros ?; simpl in *; try lia]).
  - exact H0.
  - vm_compute. reflexivity.
  - apply (fair_select_run 0 (sample_ss 1) pA (set_alt_state ALT_NONE (set_alt_state ALT_ENABLING (sample_proc pA NULL 1024 0 PROC_READY))) altA
      (sample_AA 1) sample_gl [] guardB [skip_guard]); try done.
    apply (Forall_cons_1 _ _ _ (cn_fit _ _ _ _ _ _ _ (sample_can_select 1 ltac:(lia)))).
Defined.
