(* ===== verification/Interrupt.v ===== *)
(** * Interrupt: interrupt.c

    A process waits for an interrupt of its own processor with [receive]; the
    interrupt's handler calls [transmit]. *)

From S2P Require Import Prelude Prog State Hardware Exec Sched.

#[local] Open Scope prog_scope.

Definition upd_intr (k : Z * Z) (v : addr) (s : sys) : sys :=
  set_interrupts (<[k := v]> (interrupts s)) s.

(** Initialize the interrupt module *)
Definition interrupt_init : cprog unit :=
  loop (fun pun : Z =>
    if pun <? NPUN then
      (loop (fun intr : Z =>
         if intr <? NINTR then (modify (upd_intr (pun, intr) NULL);; ret (inl (intr + 1)))
         else ret (inr tt)) 0;;
       ret (inl (pun + 1)))
    else ret (inr tt)) 0.

(** Initializes an interrupt structure. *)
Definition init_interrupt (k : Z * Z) : cprog unit := modify (upd_intr k NULL).

(** Receiver waits for specified interrupt. *)
Definition receive (intr_no : Z) : cprog unit :=
  curr <- get_current;;
  pun <- pget curr p_pun;;
  PREPARE_TO_WAIT curr;;
  store (fun s => match interrupts s !! (pun, intr_no) with
                  | Some _ => Some (upd_intr (pun, intr_no) curr s)
                  | None => None
                  end);;
  relinquish.

(** Informs receiver of specified interrupt and returns the receiver (null if
    none).  Called by interrupt handler with interrupts disabled. *)
Definition transmit (intr_no : Z) : cprog addr :=
  curr <- get_current;;
  pun <- pget curr p_pun;;
  receiver <- act (fun _ s => match interrupts s !! (pun, intr_no) with
                              | Some r => Ok r (upd_intr (pun, intr_no) NULL s)
                              | None => Fault
                              end);;
  (if negb (receiver =? NULL) then
     (old_state <- xchg_sched_state receiver PROC_READY;;
      if old_state =? PROC_WAITING then
        (enqueue0 receiver;; schedule_from_interrupt)
      else ret tt)
   else ret tt);;
  ret receiver.
