(* ===== verification/Proc.v ===== *)
(** * Proc: process creation and termination (sched.c) *)

From S2P Require Import Prelude Prog State Hardware Exec Priority Sched Mutex Memory.

#[local] Open Scope prog_scope.

(** [sizeof(Process)] with 32-bit pointers *)
Definition sizeof_Process : Z := 16.

(** Builds a process record. *)
Definition build_process (stacksize pri pun : Z) : cprog addr :=
  index <- find_mem_index (uint32 (stacksize + sizeof_Process));;
  proc <- allocate_mem (uint16 index);;
  (if proc =? NULL then act (fun _ _ => Fault)
   else modify (fun s => set_procs (<[proc := mkProcess NULL NULL (uint16 index) (uint16 pri)
                                       (uint16 pun) ALT_NONE PROC_WAITING]> (procs s)) s));;
  ret proc.

(** Constructs a process and returns a pointer to the process record *)
Definition make_process (code : code_p) (arg1 : code_p) (arg2 : addr)
    (stacksize pri pun : Z) (userArgs : addr) : cprog addr :=
  proc <- build_process stacksize pri pun;;
  build_context proc stacksize code arg1 arg2 userArgs;;
  ret proc.

(** Logic of the idle process. *)
Definition idle : cprog unit :=
  enable;; loop (fun _ : unit => halt_processor;; ret (inl tt)) tt.

(** Completes the termination of a process, on the termination stack. *)
Definition finish_termination : cprog unit :=
  oldproc <- get_current;;
  pun <- pget oldproc p_pun;;
  index <- pget oldproc p_index;;
  release_mem index oldproc;;
  disable;;
  release_mutex (term_mutex pun);;
  newproc <- take pun;;
  set_current newproc;;
  restore_context newproc.

(** Terminates the current process and does not return. *)
Definition terminate : cprog unit :=
  curr <- get_current;;
  pun <- pget curr p_pun;;
  claim_mutex (term_mutex pun);;
  set_stack curr CFinishTermination.
