(* ===== verification/Par.v ===== *)
(** * Par: the parallel constructs (run.c, par_barrier.m) *)

From S2P Require Import Prelude Prog State Hardware Exec Priority Sched Proc.

#[local] Open Scope prog_scope.

Definition upd_bar (b : addr) (v : ParBarrier) (s : sys) : sys :=
  set_bars (<[b := v]> (bars s)) s.

(** Initializes Par barrier (called by parent) *)
Definition par_barr_init (barr parent : addr) (nc : Z) : cprog unit :=
  modify (upd_bar barr (mkParBarrier (int32 nc) parent)).

(** Announces child is done (called by child) *)
Definition par_barr_sync (barr : addr) : cprog unit :=
  pre <- act (fun _ s =>
    match bars s !! barr with
    | Some b => Ok (pb_children b)
                  (upd_bar barr (mkParBarrier (int32 (pb_children b - 1)) (pb_parent b)) s)
    | None => Fault
    end);;
  if pre =? 1 then
    (parent <- fetch (fun s => pb_parent <$> bars s !! barr);; schedule parent)
  else ret tt.

(** The barrier is a local variable of the parent's call. *)
Definition end_bar (barr : addr) : cprog unit :=
  modify (fun s => set_bars (delete barr (bars s)) s).

Section Run.
(** The application's functions. *)
Context (user : code_p -> addr -> cprog unit).

(** Runs a process in a par (parallel) construct *)
Definition run_in_par (code : code_p) (barr userArgs : addr) : cprog unit :=
  user code userArgs;; par_barr_sync barr;; terminate.
End Run.

(** An element of one of the argument arrays *)
Definition elem {B} (l : list B) (i : Z) : cprog B :=
  fetch (fun _ => if 0 <=? i then l !! Z.to_nat i else None).

(** Runs child processes in parallel on same processor as parent and with same
    priority as parent. *)
Definition par (barrier : addr) (code : list code_p) (userArgs stacksize : list Z)
    (nc : Z) : cprog unit :=
  parent <- get_current;;
  par_barr_init barrier parent nc;;
  PREPARE_TO_WAIT parent;;
  loop (fun i : Z =>
    if i <? nc then
      (cd <- elem code i;;
       st <- elem stacksize i;;
       pri <- pget parent p_pri;;
       pun <- pget parent p_pun;;
       ua <- elem userArgs i;;
       proc <- make_process CRunInPar cd barrier st pri pun ua;;
       enqueue proc;;
       ret (inl (i + 1)))
    else ret (inr tt)) 0;;
  relinquish;;
  end_bar barrier.

(** The start of the two prioritized constructs: the checks, the barrier, the
    level of the children. *)
Definition par_pri_start (barrier : addr) (nc : Z) : cprog (addr * Z) :=
  (if nc >? PRI_PROCS then plotz "Too many child processes" else ret tt);;
  parent <- get_current;;
  par_barr_init barrier parent nc;;
  ppri <- pget parent p_pri;;
  let level := pri_level ppri + 1 in
  (if level >? PRI_LEVELS then plotz "Too many PRI levels" else ret tt);;
  PREPARE_TO_WAIT parent;;
  ret (parent, level).

(** Runs child processes in parallel on same processing unit as parent with
    descending priorities starting with parent priority. *)
Definition par_pri (barrier : addr) (code : list code_p) (userArgs stacksize : list Z)
    (nc : Z) : cprog unit :=
  pl <- par_pri_start barrier nc;;
  let (parent, level) := pl : addr * Z in
  let delta := pri_delta level in
  pri <- pget parent p_pri;;
  loop (fun ip : Z * Z =>
    let (i, pri) := ip in
    if i <? nc then
      (cd <- elem code i;;
       st <- elem stacksize i;;
       pun <- pget parent p_pun;;
       ua <- elem userArgs i;;
       proc <- make_process CRunInPar cd barrier st (priority level pri) pun ua;;
       enqueue proc;;
       ret (inl (i + 1, pri + delta)))
    else ret (inr tt)) (0, pri);;
  relinquish;;
  end_bar barrier.

(** Hands a new process to its processor. *)
Definition place (parent proc pun : addr) : cprog unit :=
  pp <- pget parent p_pun;;
  if pun =? pp then enqueue proc else schedule proc.

(** Runs processes in parallel on designated processors at same priority as
    parent. *)
Definition placed_par (barrier : addr) (code : list code_p) (userArgs stacksize puns : list Z)
    (nc : Z) : cprog unit :=
  parent <- get_current;;
  par_barr_init barrier parent nc;;
  PREPARE_TO_WAIT parent;;
  loop (fun i : Z =>
    if i <? nc then
      (cd <- elem code i;;
       st <- elem stacksize i;;
       pri <- pget parent p_pri;;
       pun <- elem puns i;;
       ua <- elem userArgs i;;
       proc <- make_process CRunInPar cd barrier st pri pun ua;;
       place parent proc pun;;
       ret (inl (i + 1)))
    else ret (inr tt)) 0;;
  relinquish;;
  end_bar barrier.

(** Runs child processes in parallel on designated processors with descending
    priorities starting with parent priority. *)
Definition placed_par_pri (barrier : addr) (code : list code_p)
    (userArgs stacksize puns : list Z) (nc : Z) : cprog unit :=
  pl <- par_pri_start barrier nc;;
  let (parent, level) := pl : addr * Z in
  let delta := pri_delta level in
  pri <- pget parent p_pri;;
  loop (fun ip : Z * Z =>
    let (i, pri) := ip in
    if i <? nc then
      (cd <- elem code i;;
       st <- elem stacksize i;;
       pun <- elem puns i;;
       ua <- elem userArgs i;;
       proc <- make_process CRunInPar cd barrier st (priority level pri) pun ua;;
       place parent proc pun;;
       ret (inl (i + 1, pri + delta)))
    else ret (inr tt)) (0, pri);;
  relinquish;;
  end_bar barrier.
