(* ===== verification/Handlers.v ===== *)
(** * Handlers: the interrupt handlers (sched.c, hardware.c) *)

From S2P Require Import Prelude Prog State Hardware Exec Ipq Sched Timer Interrupt.

#[local] Open Scope prog_scope.

(** Handles scheduling interrupt *)
Definition handle_interprocessor_interrupt : cprog unit :=
  drain_ipq schedule0;;
  schedule_from_interrupt.

(** Handles given application-level interrupt *)
Definition handle_user_interrupt (uintr : Z) : cprog unit :=
  receiver <- transmit uintr;;
  if negb (receiver =? NULL) then schedule_from_interrupt else ret tt.

(** Handle incoming interrupt *)
Definition handle_interrupt (inum : Z) : cprog unit :=
  if inum =? INTR_INTERPROC then handle_interprocessor_interrupt
  else if inum =? INTR_TIMEOUT then handle_timeout_interrupt
  else if inum =? INTR_ELAPSED then handle_elapsed_time_interrupt
  else handle_user_interrupt (inum - INTR_USER0).

(** The signal handler: [ucontext] is the interrupted computation, with the
    signal mask [mask] it had, which is saved in the current process's record in
    case it is preempted. *)
Definition handle_signal (signo : Z) (mask : sigset) (ucontext : cprog unit) : cprog unit :=
  disable;;
  curr <- get_current;;
  sp <- pget curr p_stackptr;;
  hset (fun h => set_uctxs (<[sp := Suspended]> (uctxs h)) h);;
  SaveCtx sp (set_own_mask mask;; ucontext) (Ret tt);;
  base <- hget SIGBASE;;
  desc <- hfetch (fun h => intr_desc h !! (signo - base));;
  handle_interrupt (id_intr desc);;
  enable.

(** Defines interrupt handlers for current processor. *)
Definition define_interrupt_handlers : cprog unit :=
  pun <- getcpu;;
  (if pun =? 0 then
     (define_handler INTR_ELAPSED;;
      init_timer TIMER_ELAPSED;;
      t <- getTick;;
      set_timer_repeating TIMER_ELAPSED t)
   else ret tt);;
  define_handler INTR_TIMEOUT;;
  init_timer TIMER_TIMEOUT;;
  define_handler INTR_INTERPROC;;
  define_handler INTR_USER0;;
  define_handler INTR_USER1.
