(* ===== verification/Signals.v ===== *)
(** * Signals: interrupt numbers and signal numbers

    The emulated hardware gives each interrupt of each processor a signal
    number of its own.  [define_handler] keeps the two tables inverse to each
    other, so a signal sent for an interrupt runs the handler of that interrupt
    on the processor it is meant for. *)

From S2P Require Import Prelude Prog State Fixture Hardware Exec.
From S2P Require Import Dispatch Ipq Sched Timer Interrupt Handlers.

#[local] Open Scope prog_scope.

(** Every signal number given out is below the next one, leads back to its
    processor and interrupt, has a handler and is not blocked there. *)
Definition leads_back (h : hardware) (pun intr g : Z) : Prop :=
  SIGBASE h <= g < next_signo h /\
  intr_desc h !! (g - SIGBASE h) = Some (mkIntrDesc pun intr) /\
  g ∈ sigactions h /\ exists m, sigmask h !! pun = Some m /\ sigismember m g = false.
Definition signals_ok (h : hardware) : Prop :=
  forall pun intr g, signal_no h !! (pun, intr) = Some g -> g <> 0 -> leads_back h pun intr g.

(** The state [define_handler] leaves. *)
Definition handler_defined (c intr g : Z) (m : sigset) (h : hardware) : hardware :=
  set_sigactions ({[g]} ∪ sigactions h) (set_sigmask (<[c := sigdelset m g]> (sigmask h))
    (set_signal_no (<[(c, intr) := g]> (signal_no h))
      (set_intr_desc (<[g - SIGBASE h := mkIntrDesc c intr]> (intr_desc h))
        (set_next_signo (g + 1) h)))).

Lemma sigdelset_same m g : sigismember (sigdelset m g) g = false.
Proof. destruct m; simpl; [apply bool_decide_eq_false|apply negb_false_iff, bool_decide_eq_true]; set_solver. Qed.

Lemma sigdelset_keeps m g g' : sigismember m g' = false -> sigismember (sigdelset m g) g' = false.
Proof.
  destruct m; simpl; rewrite ?bool_decide_eq_false, ?negb_false_iff, ?bool_decide_eq_true; set_solver.
Qed.

Lemma define_handler_run c s intr g m :
  on_cpu c s -> next_signo (hw s) = g -> 0 <= intr < NINTR -> - 2 ^ 31 <= g < 2 ^ 31 - 1 ->
  is_Some (intr_desc (hw s) !! (g - SIGBASE (hw s))) ->
  is_Some (signal_no (hw s) !! (c, intr)) -> sigmask (hw s) !! c = Some m ->
  exec c (define_handler intr) s (Done tt (set_hw (handler_defined c intr g m (hw s)) s)).
Proof.
  intros Hc Hg Hi Hr [d Hd] [g0 Hg0] Hm. unfold define_handler.
  eapply exec_action; [by rewrite Hg|].
  assert (Hw : int32 (g + 1) = g + 1) by (unfold int32, wrapS; rewrite Z.mod_small; lia).
  rewrite Hw. apply exec_getcpu; [done|]. apply exec_hget. simpl SIGBASE.
  destruct Hc as [Hc _]. unfold NPUN, NINTR in *.
  assert (Eu : uint16 c = c /\ uint16 intr = intr)
    by (unfold uint16, wrapU; split; apply Z.mod_small; lia).
  destruct Eu as [-> ->]. unfold hstore.
  eapply exec_store; [unfold array_set; simpl; rewrite Hd; done|].
  eapply exec_store; [unfold array_set; simpl; rewrite Hg0; done|].
  eapply exec_store; [simpl; rewrite Hm; done|].
  rewrite <-(bind_ret_r (hset _)). apply exec_hset. apply exec_ret.
Qed.

Lemma handler_defined_ok c intr g m h :
  next_signo h = g -> sigmask h !! c = Some m -> SIGBASE h <= g -> signals_ok h ->
  signals_ok (handler_defined c intr g m h).
Proof.
  intros Hg Hm Hb Hok pun' intr' g' Hs Hg'. unfold handler_defined, leads_back in *. simpl in *.
  rewrite lookup_insert in Hs. case_decide as Hk.
  - injection Hk as <- <-. injection Hs as <-. rewrite !lookup_insert_eq.
    split_and!; [lia|lia|done|set_solver|]. eexists. split; [done|apply sigdelset_same].
  - destruct (Hok _ _ _ Hs Hg') as (Hr & Hd & Ha & m' & Hm' & Hn).
    rewrite lookup_insert_ne by lia. split_and!; [lia|lia|exact Hd|set_solver|].
    destruct (decide (pun' = c)) as [->|Hne].
    + rewrite lookup_insert_eq. eexists. split; [done|]. apply sigdelset_keeps. congruence.
    + rewrite lookup_insert_ne by done. by exists m'.
Qed.

(** A signal of processor [c] saves the interrupted computation in the record
    of the running process and runs the handler of its interrupt. *)
Lemma handle_signal_run c s g pun intr cur P mask ctx :
  on_cpu c s -> current s !! c = Some cur -> procs s !! cur = Some P ->
  intr_desc (hw s) !! (g - SIGBASE (hw s)) = Some (mkIntrDesc pun intr) ->
  let s1 := suspended (p_stackptr P) (masked c sigfillset s) in
  exists k, exec c (handle_signal g mask ctx) s
      (Saved (p_stackptr P) (set_own_mask mask;; ctx) k s1) /\
    forall o, exec c (handle_interrupt intr;; enable) s1 o -> exec c k s1 o.
Proof.
  intros Hc Hcur HP Hd s1. eexists. split.
  - unfold handle_signal. apply exec_disable. eapply exec_get_current; [done|exact Hcur|].
    eapply exec_pget; [exact HP|]. apply exec_hset. by exists 1%nat.
  - cbv beta. intros o He. cbn [bind]. apply exec_hget.
    eapply exec_hfetch; [exact Hd|]. exact He.
Qed.

(** ** A check of the tables *)

Definition leads_backb (h : hardware) (k : Z * Z) (g : Z) : bool :=
  (g =? 0) ||
  (bool_decide (SIGBASE h <= g < next_signo h) &&
   match intr_desc h !! (g - SIGBASE h) with
   | Some d => (id_pun d =? k.1) && (id_intr d =? k.2)
   | None => false
   end && bool_decide (g ∈ sigactions h) &&
   match sigmask h !! k.1 with Some m => negb (sigismember m g) | None => false end).

Lemma signals_ok_check h :
  forallb (fun kg => leads_backb h kg.1 kg.2) (map_to_list (signal_no h)) = true -> signals_ok h.
Proof.
  rewrite forallb_forall. intros Hall pun intr g Hs Hg.
  specialize (Hall ((pun, intr), g)). rewrite <-list_elem_of_In, elem_of_map_to_list in Hall.
  specialize (Hall Hs). unfold leads_backb, leads_back in *. cbn [fst snd] in Hall.
  apply orb_true_iff in Hall as [H|H]; [lia|]. rewrite !andb_true_iff, !bool_decide_eq_true in H.
  destruct H as [[[Hr Hd] Ha] Hm]. split_and!; [lia|lia| |done|].
  - destruct (intr_desc h !! (g - SIGBASE h)) as [[dp di]|]; [|done]. simpl in Hd.
    apply andb_true_iff in Hd as [Hp Hi]. f_equal. f_equal; lia.
  - destruct (sigmask h !! pun) as [m|]; [|done]. exists m. by apply negb_true_iff in Hm.
Qed.

(** ** The theorem *)

(** C31: signals reach the handler they were defined for.  [define_handler] gives
    the interrupt the next free signal number and keeps the tables consistent:
    every signal number given out leads back to its processor and interrupt,
    has a handler and is not blocked on that processor; the other interrupts
    keep theirs.  From then on, as long as the tables keep their entries, that
    signal, when it interrupts a process of any state of the system, saves the
    interrupted computation, with its signal mask, in the record of that
    process and runs the code of that interrupt, with all signals blocked. *)
Theorem define_handler_dispatch c s intr g m :
  on_cpu c s -> next_signo (hw s) = g -> 0 <= intr < NINTR ->
  SIGBASE (hw s) <= g -> - 2 ^ 31 <= g < 2 ^ 31 - 1 ->
  is_Some (intr_desc (hw s) !! (g - SIGBASE (hw s))) ->
  is_Some (signal_no (hw s) !! (c, intr)) -> sigmask (hw s) !! c = Some m ->
  signals_ok (hw s) ->
  exists s', exec c (define_handler intr) s (Done tt s') /\ signals_ok (hw s') /\
    signal_no (hw s') = <[(c, intr) := g]> (signal_no (hw s)) /\
    forall s2 cur P mask ctx,
      intr_desc (hw s2) = intr_desc (hw s') -> SIGBASE (hw s2) = SIGBASE (hw s') ->
      on_cpu c s2 -> current s2 !! c = Some cur -> procs s2 !! cur = Some P ->
      let s3 := suspended (p_stackptr P) (masked c sigfillset s2) in
      exists k, exec c (handle_signal g mask ctx) s2
          (Saved (p_stackptr P) (set_own_mask mask;; ctx) k s3) /\
        forall o, exec c (handle_interrupt intr;; enable) s3 o -> exec c k s3 o.
Proof.
  intros Hc Hg Hi Hb Hr Hd Hn Hm Hok.
  exists (set_hw (handler_defined c intr g m (hw s)) s). split_and!.
  - by apply define_handler_run.
  - by apply handler_defined_ok.
  - done.
  - intros s2 cur P mask ctx E1 E2 Hc2 Hcur HP. apply (handle_signal_run c s2 g c intr cur); try done.
    rewrite E1, E2. apply lookup_insert_eq.
Qed.

(** In the sample state, where the user's interrupts of processor 0 have no
    handler yet. *)
Definition sample_undefined : sys :=
  set_hw (set_signal_no (zeros2 2 5 0) (set_next_signo 44 sample_hw)) sample.

Lemma define_handler_dispatch_witness :
  exists s', exec 0 (define_handler INTR_USER0) sample_undefined (Done tt s') /\
    signal_no (hw s') !! (0, INTR_USER0) = Some 44 /\
    exists s2 k s3, intr_desc (hw s2) = intr_desc (hw s') /\
      exec 0 (handle_signal 44 sigemptyset (ret tt)) s2
        (Saved pA (set_own_mask sigemptyset;; ret tt) k s3).
Proof.
  destruct (define_handler_dispatch 0 sample_undefined INTR_USER0 44 sigemptyset) as (s' & H1 & _ & H2 & H3).
  - by vm_compute.
  - done.
  - done.
  - done.
  - done.
  - by eexists.
  - by eexists.
  - done.
  - by apply signals_ok_check.
  - exists s'. split; [exact H1|]. split; [by rewrite H2|].
    set (s2 := set_hw (set_intr_desc (intr_desc (hw s')) (set_SIGBASE (SIGBASE (hw s')) sample_hw)) sample).
    destruct (H3 s2 pA (sample_proc pA NULL 1024 0 PROC_READY) sigemptyset (ret tt)
      eq_refl eq_refl ltac:(by vm_compute) eq_refl eq_refl) as (k & Hk & _).
    exists s2, k. eexists. split; [done|exact Hk].
Defined.
