(* ===== verification/Boot.v ===== *)
(** * Boot: the start of the run (sched.c, hardware.c) *)

From S2P Require Import Prelude Prog State Hardware Exec Priority Ipq Sched Mutex.
From S2P Require Import Memory Timer Interrupt Proc Par Handlers.

#[local] Open Scope prog_scope.

(** Blocking every signal of a set, on top of those already blocked. *)
Definition sig_union (m1 m2 : sigset) : sigset :=
  match m1, m2 with
  | SigSet g1, SigSet g2 => SigSet (g1 ∪ g2)
  | SigSet g1, SigAllBut g2 => SigAllBut (g2 ∖ g1)
  | SigAllBut g1, SigSet g2 => SigAllBut (g1 ∖ g2)
  | SigAllBut g1, SigAllBut g2 => SigAllBut (g1 ∩ g2)
  end.

Definition upd_sigmask (cpu : Z) (f : sigset -> sigset) : cprog unit :=
  hstore (fun h => match sigmask h !! cpu with
                   | Some m => Some (set_sigmask (<[cpu := f m]> (sigmask h)) h)
                   | None => None
                   end).

(** Initializes a processor. *)
Definition init_processor (cpu : Z) : cprog unit :=
  me <- self;;
  hset (fun h => set_cpu_key (<[me := cpu + 1]> (cpu_key h)) h);;
  hstore (fun h => v ← array_set (thread_id h) cpu me; Some (set_thread_id v h));;
  upd_sigmask cpu (fun _ => sigemptyset);;
  lo <- hget sigrtmin;;
  loop (fun signo : Z =>
    hi <- hget sigrtmax;;
    if signo <=? hi then
      (upd_sigmask cpu (fun m => sigaddset m signo);; ret (inl (signo + 1)))
    else ret (inr tt)) lo;;
  define_interrupt_handlers;;
  m <- hfetch (fun h => sigmask h !! cpu);;
  old <- hfetch (fun h => thread_mask h !! me);;
  set_own_mask (sig_union old m).

(** The first thing executed by a newly created thread. *)
Definition run_process (pun : Z) : cprog unit :=
  arg <- hfetch (fun h => procArg h !! pun);;
  init_processor arg.1;;
  synchronize_processors;;
  arg <- hfetch (fun h => procArg h !! pun);;
  Resume arg.2.

(** Activates a processor, giving it a process to run.  The created thread
    inherits the signal mask of its creator; the machine of [Machine] starts it
    with [run_process]. *)
Definition activate_processor (pun : Z) (proc : addr) : cprog unit :=
  if pun =? 0 then init_processor 0
  else
    (sp <- pget proc p_stackptr;;
     hstore (fun h => v ← array_set (procArg h) pun (pun, sp); Some (set_procArg v h));;
     act (fun c s => match thread_mask (hw s) !! c with
                     | Some m => Ok tt (set_hw (set_thread_mask (<[pun := m]> (thread_mask (hw s)))
                                          (set_pending (<[pun := []]> (pending (hw s))) (hw s))) s)
                     | None => Fault
                     end)).

(** Initialize this module *)
Definition sched_init : cprog unit :=
  ipq_init;;
  loop (fun pun : Z =>
    if pun <? NPUN then (modify (upd_head pun NULL);; ret (inl (pun + 1)))
    else ret (inr tt)) 0;;
  loop (fun pun : Z =>
    if pun <? NPUN then (init_mutex (term_mutex pun);; ret (inl (pun + 1)))
    else ret (inr tt)) 0.

(** Starts the run *)
Definition initialize (tsize istacksize : Z) : cprog unit :=
  disable;;
  hardware_init;;
  memory_init (uint32 (tsize - istacksize));;
  interrupt_init;;
  timer_init;;
  sched_init;;
  proc <- make_process CNull CNull NULL istacksize INIT_PRI 0 NULL;;
  activate_processor 0 proc;;
  set_current proc;;
  idler <- make_process CIdle CNull NULL IDLE_STACK_SIZE IDLE_PRI 0 NULL;;
  enqueue0 idler;;
  loop (fun pun : Z =>
    if pun <? NPUN then
      (idler <- make_process CIdle CNull NULL IDLE_STACK_SIZE IDLE_PRI pun NULL;;
       modify (fun s => State.set_current (<[pun := idler]> (current s)) s);;
       modify (fun s => set_current_pri (<[pun := IDLE_PRI]> (current_pri s)) s);;
       activate_processor pun idler;;
       ret (inl (pun + 1)))
    else ret (inr tt)) 1;;
  synchronize_processors;;
  enable.

(** What a context that has not run yet runs ([makecontext]). *)
Definition code_prog (user : code_p -> addr -> cprog unit) (code arg1 : code_p)
    (arg2 userArgs : addr) : cprog unit :=
  match code with
  | CIdle => idle
  | CRunInPar => run_in_par user arg1 arg2 userArgs
  | CFinishTermination => finish_termination
  | CNull => act (fun _ _ => Fault)
  | CUser _ => user code userArgs
  end.
