(* ===== verification/Libc.v ===== *)
(** * Libc: what the sample applications use of C

    The applications under src/examples keep their variables in their stacks
    and in static storage, compute with [int]s and print.  Objects that the
    channels copy are bytes of the store ([bytes]); an [int] has four, least
    significant first.  The result of [int] arithmetic that does not fit is
    undefined behaviour, [Fault].  [printf] appends its text to [stdout]. *)

From Stdlib Require Import Ascii.
From stdpp Require Import pretty.
From S2P Require Import Prelude Prog State Hardware Exec Sched Proc Comm Rendezvous.

#[local] Open Scope prog_scope.

Definition INT_SIZE : nat := 4.
Definition is_int (v : Z) : bool := (- 2 ^ 31 <=? v) && (v <? 2 ^ 31).

(** The bytes of an [int], and back. *)
Definition int_bytes (v : Z) : list Z :=
  (fun i => Z.shiftr v (8 * Z.of_nat i) mod 256) <$> seq 0 INT_SIZE.
Definition bytes_int (l : list Z) : Z := int32 (foldr (fun b v => b + 256 * v) 0 l).

(** Objects: [n] bytes at [a] that hold what was there before, 0 at the first
    use; and the objects of the frame of the running process, in its stack. *)
Fixpoint make_bytes (m : gmap addr Z) (a : addr) (n : nat) : gmap addr Z :=
  match n with
  | O => m
  | S n => make_bytes (<[a := default 0 (m !! a)]> m) (a + 1) n
  end.
Definition object (a : addr) (n : nat) : cprog addr :=
  modify (fun s => set_bytes (make_bytes (bytes s) a n) s);; ret a.
Definition frame : cprog addr := p <- get_current;; ret (p + sizeof_Process).

(** Reading and writing [int]s (and pointers, which have the same size). *)
Definition load_int (a : addr) : cprog Z :=
  fetch (fun s => bytes_int <$> read_bytes (bytes s) a INT_SIZE).
Definition store_int (a v : Z) : cprog unit :=
  store (fun s => m ← write_bytes (bytes s) a (int_bytes v); Some (set_bytes m s)).
Definition int_result (v : Z) : cprog Z :=
  act (fun _ s => if is_int v then Ok v s else Fault).

(** String literals: [char]s up to a zero byte. *)
Definition char_codes (t : string) : list Z :=
  (fun c => Z.of_N (N_of_ascii c)) <$> String.list_ascii_of_string t.
Definition literal (a : addr) (t : string) : cprog unit :=
  let l := char_codes t ++ [0] in
  object a (length l);;
  store (fun s => m ← write_bytes (bytes s) a l; Some (set_bytes m s)).
Definition char_of (b : Z) : ascii := ascii_of_N (Z.to_N b).
Definition load_string (a : addr) : cprog string :=
  loop (fun at_ : addr * string =>
    b <- fetch (fun s => bytes s !! at_.1);;
    if b =? 0 then ret (inr at_.2)
    else ret (inl (at_.1 + 1, (at_.2 +:+ String (char_of b) EmptyString)%string))) (a, EmptyString).

(** Output *)
Definition printf (t : string) : cprog unit := modify (fun s => set_stdout (stdout s ++ [t]) s).
Definition nl : string := String (ascii_of_N 10) EmptyString.
Definition line (t : string) : string := (t +:+ nl)%string.
(** [%d] and [%llu] *)
Definition dec (v : Z) : string := pretty v.
Definition udec (v : Z) : string := pretty (v mod 2 ^ 64).

(** [main] returns 0. *)
Definition return_main : cprog unit := act (fun _ _ => Exit "return 0"%string).

(** ** Lemmas *)

(** An [int] is what its bytes say. *)
Lemma bytes_value v k n :
  foldr (fun b r => b + 256 * r) 0 ((fun i => Z.shiftr v (8 * Z.of_nat i) mod 256) <$> seq k n) =
  Z.shiftr v (8 * Z.of_nat k) mod 2 ^ (8 * Z.of_nat n).
Proof.
  revert k. induction n as [|n IH]; intros k; [by rewrite Z.mod_1_r|].
  cbn [seq fmap list_fmap foldr]. rewrite IH.
  replace (8 * Z.of_nat (S k)) with (8 * Z.of_nat k + 8) by lia.
  rewrite <-Z.shiftr_shiftr by lia. rewrite (Z.shiftr_div_pow2 _ 8) by lia.
  replace (2 ^ (8 * Z.of_nat (S n))) with (2 ^ 8 * 2 ^ (8 * Z.of_nat n))
    by (rewrite <-Z.pow_add_r by lia; f_equal; lia).
  by rewrite Z.rem_mul_r by lia.
Qed.

Lemma int_bytes_int v : is_int v = true -> bytes_int (int_bytes v) = v.
Proof.
  unfold is_int. rewrite andb_true_iff, Z.leb_le, Z.ltb_lt. intros Hv.
  unfold bytes_int, int_bytes. rewrite bytes_value. rewrite Z.shiftr_0_r.
  change (8 * Z.of_nat INT_SIZE) with 32. unfold int32, wrapS. change (32 - 1) with 31.
  rewrite Zplus_mod_idemp_l, Z.mod_small by lia. lia.
Qed.

Lemma length_int_bytes v : length (int_bytes v) = INT_SIZE.
Proof. done. Qed.

(** Bytes that can be read can be written. *)
Lemma write_bytes_total l : forall m a l0,
  read_bytes m a (length l) = Some l0 -> exists m', write_bytes m a l = Some m'.
Proof.
  induction l as [|b l IH]; intros m a l0; simpl; [by eauto|].
  destruct (m !! a) as [x|]; [|done]. simpl.
  destruct (read_bytes m (a + 1) (length l)) as [r|] eqn:Hr; [|done]. intros _.
  apply (IH _ _ r). rewrite <-Hr. apply read_bytes_ext. intros c Hc. rewrite lookup_insert_ne by lia. done.
Qed.

(** The bytes of two objects that do not overlap. *)
Lemma write_bytes_keeps m a l m' b n :
  write_bytes m a l = Some m' -> b + Z.of_nat n <= a \/ a + Z.of_nat (length l) <= b ->
  read_bytes m' b n = read_bytes m b n.
Proof.
  intros Hw Hd. apply read_bytes_ext. intros c Hc. apply (write_bytes_other _ _ _ _ _ Hw). lia.
Qed.

(** The [int] at [a] is [v]. *)
Definition holds_int (s : sys) (a v : Z) : Prop := read_bytes (bytes s) a INT_SIZE = Some (int_bytes v).

Section Ints.
Context (c : Z) {B : Type}.

Lemma exec_load_int a v (g : Z -> cprog B) s o :
  holds_int s a v -> is_int v = true -> exec c (g v) s o -> exec c (bind (load_int a) g) s o.
Proof.
  intros Ha Hv. apply exec_fetch. rewrite Ha. simpl. by rewrite int_bytes_int.
Qed.

Lemma exec_int_result v (g : Z -> cprog B) s o :
  is_int v = true -> exec c (g v) s o -> exec c (bind (int_result v) g) s o.
Proof. intros Hv. apply exec_action. by rewrite Hv. Qed.

Lemma exec_printf t (g : unit -> cprog B) s o :
  exec c (g tt) (set_stdout (stdout s ++ [t]) s) o -> exec c (bind (printf t) g) s o.
Proof. intros Hg. unfold printf. by apply exec_modify. Qed.
End Ints.

(** An [int] variable takes another value, and nothing but it changes. *)
Lemma store_int_done c a v v0 s :
  holds_int s a v0 ->
  exists m, exec c (store_int a v) s (Done tt (set_bytes m s)) /\
    write_bytes (bytes s) a (int_bytes v) = Some m /\ holds_int (set_bytes m s) a v.
Proof.
  intros Ha. destruct (write_bytes_total (int_bytes v) (bytes s) a (int_bytes v0) Ha) as (m & Hm).
  exists m. split_and!; [|exact Hm|].
  - rewrite <-(bind_ret_r (store_int a v)). eapply exec_store; [by rewrite Hm|apply exec_ret].
  - exact (write_bytes_read (bytes s) a (int_bytes v) m Hm).
Qed.
