(* ===== verification/Clients.v ===== *)
(** * Clients: the sample applications (src/examples)

    Each application is a [main] and the functions it runs in parallel, which
    [par] names by number: [<application>_user] says which number stands for
    which function.  Static variables, [main]'s variables and string literals
    have fixed addresses below the allocator's memory; the variables of the
    other functions are in the frame of the process that runs them.  The
    applications with "-mp" in their names put their processes on two
    processors; where such an application's functions are those of the
    application without, they are not repeated. *)

From S2P Require Import Prelude Prog State Hardware Exec Sched Comm Timer Alt Interrupt Par Boot Libc.

#[local] Open Scope prog_scope.
#[local] Open Scope string_scope.
#[local] Open Scope Z_scope.

(** Where the linker and [main] put things *)
Definition chan1 : addr := 0x1000.
Definition chan2 : addr := 0x1010.
Definition chan_array : addr := 0x1100.
Definition literals : addr := 0x4000.
Definition main_frame : addr := 0x8000.
Definition par_frame : addr := 0x9000.

Definition sizeof_Channel : Z := 16.

Definition TOTAL_MEMORY : Z := 0x40000000.

(** [while (true)] *)
Definition forever (body : cprog unit) : cprog unit :=
  loop (fun _ : unit => body;; ret (inl tt)) tt.

(** [for (i = 0; i < n; i++)] *)
Definition for_upto (n : Z) (body : Z -> cprog unit) : cprog unit :=
  loop (fun i : Z => if i <? n then (body i;; ret (inl (i + 1))) else ret (inr tt)) 0.

(** [x += 1] and [out(chan, &x, sizeof(x))] *)
Definition increment (x : addr) : cprog unit :=
  v <- load_int x;; v <- int_result (v + 1);; store_int x v.

(** [if (x % m == r) printf(before, x, after)] *)
Definition print_if (x : addr) (m r : Z) (before after : string) : cprog unit :=
  v <- load_int x;;
  if Z.rem v m =? r then (v <- load_int x;; printf (line (before +:+ dec v +:+ after))) else ret tt.

(** ** process.c *)

Definition process_child1 : cprog unit := printf (line "child1").
Definition process_child2 : cprog unit := printf (line "child2").
Definition process_user (code : code_p) (args : addr) : cprog unit :=
  match code with CUser 1 => process_child1 | CUser 2 => process_child2 | _ => ret tt end.
Definition process_main : cprog unit :=
  printf (line "process: create and execute child processs");;
  initialize TOTAL_MEMORY 8192;;
  par par_frame [CUser 1; CUser 2] [NULL; NULL] [2000; 2000] 2;;
  printf (line "After par");;
  return_main.

(** process-mp.c *)
Definition process_mp_main : cprog unit :=
  printf (line "process: child processes on different processors");;
  initialize TOTAL_MEMORY 8192;;
  placed_par par_frame [CUser 1; CUser 2] [NULL; NULL] [2000; 2000] [1; 0] 2;;
  printf (line "After par");;
  return_main.

(** ** yield.c *)

Definition yield_child1 : cprog unit := for_upto 10 (fun _ => printf (line "child1");; yield).
Definition yield_child2 : cprog unit := for_upto 20 (fun _ => printf (line "child2");; yield).
Definition yield_user (code : code_p) (args : addr) : cprog unit :=
  match code with CUser 1 => yield_child1 | CUser 2 => yield_child2 | _ => ret tt end.
Definition yield_main : cprog unit :=
  printf (line "yield: the yield function");;
  initialize TOTAL_MEMORY 8192;;
  par par_frame [CUser 1; CUser 2] [NULL; NULL] [2000; 2000] 2;;
  printf (line "After par");;
  return_main.

(** ** commun.c *)

Definition commun_child1 (arg : addr) : cprog unit :=
  let input := arg in
  f <- frame;;
  x <- object f INT_SIZE;;
  in_ input x 4;;
  v <- load_int x;;
  printf (line ("child1 read " +:+ dec v)).
Definition commun_child2 (arg : addr) : cprog unit :=
  let output := arg in
  f <- frame;;
  z <- object f INT_SIZE;;
  store_int z 72;;
  out output z 4;;
  v <- load_int z;;
  printf (line ("child2 wrote " +:+ dec v)).
Definition commun_user (code : code_p) (args : addr) : cprog unit :=
  match code with CUser 1 => commun_child1 args | CUser 2 => commun_child2 args | _ => ret tt end.
Definition commun_main : cprog unit :=
  printf (line "commun: simple send/receive");;
  initialize TOTAL_MEMORY 8192;;
  let chan := main_frame in
  init_channel chan;;
  par par_frame [CUser 1; CUser 2] [chan; chan] [2000; 2000] 2;;
  printf (line "After par");;
  return_main.

(** commun-mp.c *)
Definition commun_mp_main : cprog unit :=
  printf (line "commun-mp: simple send/receive,");;
  printf (line "sender and receiver on different processors");;
  initialize TOTAL_MEMORY 8192;;
  let chan := main_frame in
  init_channel chan;;
  placed_par par_frame [CUser 1; CUser 2] [chan; chan] [2000; 2000] [1; 0] 2;;
  printf (line "After par");;
  return_main.

(** ** ring0arg2.c *)

Definition ring0arg2_child1 : cprog unit :=
  printf (line "child1");;
  f <- frame;;
  x <- object f INT_SIZE;;
  store_int x 0;;
  out chan1 x 4;;
  forever (in_ chan2 x 4;; increment x;; out chan1 x 4).
Definition ring0arg2_child2 : cprog unit :=
  printf (line "child2");;
  f <- frame;;
  x <- object f INT_SIZE;;
  forever (in_ chan1 x 4;; print_if x 100000 0 "x = " "";; increment x;; out chan2 x 4).
Definition ring0arg2_user (code : code_p) (args : addr) : cprog unit :=
  match code with CUser 1 => ring0arg2_child1 | CUser 2 => ring0arg2_child2 | _ => ret tt end.
Definition ring0arg2_main : cprog unit :=
  printf (line "ring0arg2: two process ping pong, no process args");;
  initialize TOTAL_MEMORY 8192;;
  init_channel chan1;;
  init_channel chan2;;
  par par_frame [CUser 1; CUser 2] [NULL; NULL] [2000; 2000] 2;;
  printf (line "After par");;
  return_main.

(** ring0arg2-mp.c *)
Definition ring0arg2_mp_main : cprog unit :=
  printf (line "ring0arg2: two process ping pong (no process args)");;
  printf (line "with processes on different processors");;
  initialize TOTAL_MEMORY 8192;;
  init_channel chan1;;
  init_channel chan2;;
  placed_par par_frame [CUser 1; CUser 2] [NULL; NULL] [3000; 3000] [1; 0] 2;;
  printf (line "After par");;
  return_main.

(** ** ring1arg.c *)

Definition RING_SIZE : Z := 100.

Definition ring1arg_child (arg : addr) : cprog unit :=
  let i := arg in
  let iout := i in
  let iin := Z.rem (i - 1 + RING_SIZE) RING_SIZE in
  let output := chan_array + iout * sizeof_Channel in
  let input := chan_array + iin * sizeof_Channel in
  f <- frame;;
  x <- object f INT_SIZE;;
  store_int x 0;;
  (if i =? 0 then out output x 4 else ret tt);;
  forever (in_ input x 4;; print_if x 100000 0 "x = " "";; increment x;; out output x 4).
Definition ring1arg_user (code : code_p) (args : addr) : cprog unit :=
  match code with CUser 1 => ring1arg_child args | _ => ret tt end.
Definition ring1arg_main : cprog unit :=
  printf (line "ring1arg: pass token around ring (1 process arg)");;
  initialize TOTAL_MEMORY 8192;;
  for_upto RING_SIZE (fun i => init_channel (chan_array + i * sizeof_Channel));;
  let n := Z.to_nat RING_SIZE in
  par par_frame (replicate n (CUser 1)) (seqZ 0 RING_SIZE) (replicate n 2000) RING_SIZE;;
  printf (line "After par");;
  return_main.

(** ring1arg-mp.c *)
Definition ring1arg_mp_main : cprog unit :=
  printf (line "ring1arg-mp: send token around a ring (1 process arg)");;
  printf (line "with processes on alternating processors");;
  initialize TOTAL_MEMORY 8192;;
  for_upto RING_SIZE (fun i => init_channel (chan_array + i * sizeof_Channel));;
  let n := Z.to_nat RING_SIZE in
  placed_par par_frame (replicate n (CUser 1)) (seqZ 0 RING_SIZE) (replicate n 3000)
    ((fun i => Z.rem i 2) <$> seqZ 0 RING_SIZE) RING_SIZE;;
  printf (line "After par");;
  return_main.

(** ** alt2.c *)

(** The consumer's frame: two [int]s, the guards and the alternation. *)
Definition alt_frame (f : addr) (n : nat) : cprog (addr * addr) :=
  let gs := f + 0x20 in
  let alt := f + 0x60 in
  modify (fun s => set_guards (<[gs := replicate n (mkGuard 0 UNone)]> (guards s)) s);;
  ret (gs, alt).

Definition alt2_child1 : cprog unit :=
  printf (line "consumer");;
  f <- frame;;
  ga <- alt_frame f 2;;
  let (gs, alt) := ga : addr * addr in
  init_channel_guard (gs, 0) chan1;;
  init_channel_guard (gs, 1) chan2;;
  init_alt alt gs 2;;
  forever (
    selection <- fairSelect alt;;
    x <- object f INT_SIZE;;
    y <- object (f + 4) INT_SIZE;;
    if selection =? 0 then
      (in_ chan1 x 4;; print_if x 10000 0 "Consumer input " " from chan1")
    else if selection =? 1 then
      (in_ chan2 y 4;; print_if y 10000 1 "Consumer input " " from chan2")
    else printf (line ("Invalid selection " +:+ dec selection))).
Definition alt2_child2 : cprog unit :=
  printf (line "producer");;
  f <- frame;;
  expr <- object (f + 4) INT_SIZE;;
  loop (fun x : Z =>
    e <- int_result (2 * x);;
    store_int expr e;;
    out chan1 expr 4;;
    e <- int_result (2 * x);;
    e <- int_result (e + 1);;
    store_int expr e;;
    out chan2 expr 4;;
    x <- int_result (x + 1);;
    ret (inl x)) 0.
Definition alt2_user (code : code_p) (args : addr) : cprog unit :=
  match code with CUser 1 => alt2_child1 | CUser 2 => alt2_child2 | _ => ret tt end.
Definition alt2_main : cprog unit :=
  printf (line "alt2: alternation using two channels");;
  initialize TOTAL_MEMORY 8192;;
  init_channel chan1;;
  init_channel chan2;;
  par par_frame [CUser 1; CUser 2] [NULL; NULL] [3000; 2000] 2;;
  printf (line "After par");;
  return_main.

(** alt2-mp.c *)
Definition alt2_mp_main : cprog unit :=
  printf (line "alt2-mp: alternation using two channels,");;
  printf (line "with producer and consumer on different processors");;
  initialize TOTAL_MEMORY 8192;;
  init_channel chan1;;
  init_channel chan2;;
  placed_par par_frame [CUser 1; CUser 2] [NULL; NULL] [3000; 2000] [0; 1] 2;;
  printf (line "After par");;
  return_main.

(** ** alt3.c *)

(** The consumer, with [priSelect] in alt3.c and [fairSelect] in alt3-mp.c. *)
Definition alt3_consumer (select : addr -> cprog Z) : cprog unit :=
  printf (line "consumer");;
  f <- frame;;
  ga <- alt_frame f 2;;
  let (gs, alt) := ga : addr * addr in
  init_channel_guard (gs, 0) chan1;;
  init_channel_guard (gs, 1) chan2;;
  init_alt alt gs 2;;
  forever (
    selection <- select alt;;
    x <- object f INT_SIZE;;
    y <- object (f + 4) INT_SIZE;;
    if selection =? 0 then
      (in_ chan1 x 4;; print_if x 10000 0 "Consumer input " " from chan1")
    else if selection =? 1 then
      (in_ chan2 y 4;; print_if y 10000 1 "Consumer input " " from chan2")
    else printf (line ("Invalid selection " +:+ dec selection))).
Definition alt3_child1 : cprog unit := alt3_consumer priSelect.
Definition alt3_mp_child1 : cprog unit := alt3_consumer fairSelect.
Definition alt3_child2 : cprog unit :=
  printf (line "producer 1");;
  f <- frame;;
  expr <- object f INT_SIZE;;
  loop (fun x : Z =>
    e <- int_result (2 * x);;
    store_int expr e;;
    out chan1 expr 4;;
    x <- int_result (x + 1);;
    ret (inl x)) 0.
Definition alt3_child3 : cprog unit :=
  printf (line "producer 2");;
  f <- frame;;
  expr <- object f INT_SIZE;;
  loop (fun x : Z =>
    e <- int_result (2 * x);;
    e <- int_result (e + 1);;
    store_int expr e;;
    out chan2 expr 4;;
    x <- int_result (x + 1);;
    ret (inl x)) 0.
Definition alt3_user (child1 : cprog unit) (code : code_p) (args : addr) : cprog unit :=
  match code with
  | CUser 1 => child1
  | CUser 2 => alt3_child2
  | CUser 3 => alt3_child3
  | _ => ret tt
  end.
Definition alt3_main : cprog unit :=
  printf (line "alt3: alternation with consumer and two producers");;
  initialize TOTAL_MEMORY 8192;;
  init_channel chan1;;
  init_channel chan2;;
  par par_frame [CUser 1; CUser 2; CUser 3] [NULL; NULL; NULL] [3000; 2000; 2000] 3;;
  printf (line "After par");;
  return_main.

(** alt3-mp.c *)
Definition alt3_mp_main : cprog unit :=
  printf (line "alt2-mp: alternation with consumer and two producers,");;
  printf (line "with one producer on a different processor");;
  initialize TOTAL_MEMORY 8192;;
  init_channel chan1;;
  init_channel chan2;;
  placed_par par_frame [CUser 1; CUser 2; CUser 3] [NULL; NULL; NULL] [3000; 2000; 2000] [0; 1; 0] 3;;
  printf (line "After par");;
  return_main.

(** ** alttime.c *)

Definition ONESEC : Z := 1000000000.

Definition alttime_child1 : cprog unit :=
  printf (line "consumer");;
  f <- frame;;
  ga <- alt_frame f 2;;
  let (gs, alt) := ga : addr * addr in
  init_channel_guard (gs, 0) chan1;;
  init_alt alt gs 2;;
  forever (
    now <- Now;;
    init_timer_guard (gs, 1) (int64 (now + ONESEC));;
    selection <- fairSelect alt;;
    x <- object f INT_SIZE;;
    if selection =? 0 then
      (in_ chan1 x 4;; v <- load_int x;; printf (line ("*****Consumer input " +:+ dec v +:+ " from chan1")))
    else if selection =? 1 then
      (now <- Now;;
       printf (line ("*****Consumer times out at time " +:+ udec now));;
       out chan2 x 0)
    else printf (line ("Invalid selection " +:+ dec selection))).
Definition alttime_child2 : cprog unit :=
  printf (line "producer");;
  f <- frame;;
  x <- object f INT_SIZE;;
  store_int x 0;;
  forever (
    v <- load_int x;;
    printf (line ("Producer sending " +:+ dec v +:+ " on chan1"));;
    out chan1 x 4;;
    in_ chan2 x 0;;
    increment x).
Definition alttime_user (code : code_p) (args : addr) : cprog unit :=
  match code with CUser 1 => alttime_child1 | CUser 2 => alttime_child2 | _ => ret tt end.
Definition alttime_main : cprog unit :=
  printf (line "alttime: alternation alternately receives and times out");;
  initialize TOTAL_MEMORY 8192;;
  init_channel chan1;;
  init_channel chan2;;
  par par_frame [CUser 1; CUser 2] [NULL; NULL] [2000; 2000] 2;;
  printf (line "After par");;
  return_main.

(** alttime-mp.c *)
Definition alttime_mp_main : cprog unit :=
  printf (line "alttime: alternation alternately receives and times out");;
  printf (line "with producer and consumer on different processors");;
  initialize TOTAL_MEMORY 8192;;
  init_channel chan1;;
  init_channel chan2;;
  placed_par par_frame [CUser 1; CUser 2] [NULL; NULL] [2000; 2000] [0; 1] 2;;
  printf (line "After par");;
  return_main.

(** ** alttime0.c *)

(** [announce]: what alttime0-mp.c prints of each guard. *)
Definition alttime0_child (announce : Z -> cprog unit) : cprog unit :=
  printf (line "child");;
  f <- frame;;
  ga <- alt_frame f 1;;
  let (gs, alt) := ga : addr * addr in
  init_alt alt gs 1;;
  forever (
    now <- Now;;
    let t := int64 (now + ONESEC) in
    init_timer_guard (gs, 0) t;;
    announce t;;
    selection <- fairSelect alt;;
    if selection =? 0 then (now <- Now;; printf (line ("Timeout at " +:+ udec now)))
    else printf (line ("Invalid selection " +:+ dec selection))).
Definition alttime0_child1 : cprog unit := alttime0_child (fun _ => ret tt).
Definition alttime0_mp_child1 : cprog unit :=
  alttime0_child (fun t => printf (line ("Initialized timer guard to " +:+ udec t))).
Definition alttime0_user (child1 : cprog unit) (code : code_p) (args : addr) : cprog unit :=
  match code with CUser 1 => child1 | _ => ret tt end.
Definition alttime0_main : cprog unit :=
  printf (line "alttime0: Timeout in alternation");;
  initialize TOTAL_MEMORY 8192;;
  par par_frame [CUser 1] [NULL] [2000] 1;;
  printf (line "After par");;
  return_main.

(** alttime0-mp.c *)
Definition alttime0_mp_main : cprog unit :=
  printf (line "Timeout in alternation on processor 1");;
  initialize TOTAL_MEMORY 8192;;
  placed_par par_frame [CUser 1] [NULL] [2000] [1] 1;;
  printf (line "After par");;
  return_main.

(** ** after.c *)

(** [t = Now(); printf(what, t)] *)
Definition print_now (what : string) : cprog unit :=
  t <- Now;;
  printf (line (what +:+ udec t)).
(** The three waits, with [desc] the variable of [After]. *)
Definition after_waits (desc : addr) : cprog unit :=
  print_now "current time at beginning is ";;
  After desc 2000000000;;
  print_now "current time after After(2 sec) is ";;
  After desc 3000000000;;
  print_now "current time after After(3 sec) is  ";;
  After desc 4000000000;;
  print_now "current time after After(4 sec) is  ".
Definition after_main : cprog unit :=
  printf (line "After: tests interval timer and elapsed time timer");;
  initialize TOTAL_MEMORY 1024;;
  after_waits par_frame;;
  return_main.

(** after-mp.c *)
Definition after_mp_child : cprog unit :=
  printf (line "After-mp: tests interval timer and elapsed time timer on processor 1");;
  f <- frame;;
  after_waits (f + 0x40).
Definition after_mp_user (code : code_p) (args : addr) : cprog unit :=
  match code with CUser 1 => after_mp_child | _ => ret tt end.
Definition after_mp_main : cprog unit :=
  initialize TOTAL_MEMORY 1024;;
  printf (line "Initialized");;
  placed_par par_frame [CUser 1] [NULL] [8192] [1] 1;;
  return_main.

(** ** proc1arg.c *)

(** The end of both children *)
Definition wait_and_tell (who : string) (when : Z) : cprog unit :=
  f <- frame;;
  After (f + 0x40) when;;
  t <- GetCurrentTime;;
  printf (line ("******" +:+ who +:+ ":  current time is " +:+ udec t)).
Definition proc1arg_child1 (arg : addr) : cprog unit :=
  let msg := arg in
  t <- load_string msg;;
  printf (line ("child1 says " +:+ t));;
  wait_and_tell "child1" 5000000000.
Definition proc1arg_child2 : cprog unit :=
  printf (line "child2");;
  wait_and_tell "child2" 2000000000.
Definition proc1arg_user (code : code_p) (args : addr) : cprog unit :=
  match code with CUser 1 => proc1arg_child1 args | CUser 2 => proc1arg_child2 | _ => ret tt end.
Definition proc1arg_main : cprog unit :=
  literal literals "yabbadoo";;
  printf (line "proc1arg: pass argument to child process");;
  initialize TOTAL_MEMORY 8192;;
  par par_frame [CUser 1; CUser 2] [literals; NULL] [2000; 2000] 2;;
  printf (line "After par");;
  return_main.

(** proc1arg-mp.c *)
Definition proc1arg_mp_main : cprog unit :=
  literal literals "yabbadoo";;
  printf (line "proc1arg-mp: pass argument to child process");;
  printf (line "children on different processors");;
  initialize TOTAL_MEMORY 8192;;
  placed_par par_frame [CUser 1; CUser 2] [literals; NULL] [8192; 8192] [1; 0] 2;;
  printf (line "After par");;
  return_main.

(** ** procargs.c *)

Definition procargs_child1 (args : addr) : cprog unit :=
  let a := args in
  p <- load_int a;;
  t0 <- load_string p;;
  p <- load_int (a + 4);;
  t1 <- load_string p;;
  printf (line ("child1 says " +:+ t0 +:+ " " +:+ t1));;
  wait_and_tell "child1" 5000000000.
Definition procargs_user (code : code_p) (args : addr) : cprog unit :=
  match code with CUser 1 => procargs_child1 args | CUser 2 => proc1arg_child2 | _ => ret tt end.
Definition procargs_main : cprog unit :=
  literal literals "hello";;
  literal (literals + 8) "there";;
  initialize TOTAL_MEMORY 8192;;
  printf (line "Initialized");;
  a <- object main_frame 8;;
  store_int a literals;;
  store_int (a + 4) (literals + 8);;
  par par_frame [CUser 1; CUser 2] [a; NULL] [8192; 8192] 2;;
  printf (line "After par");;
  return_main.

(** ** intr.c *)

Definition intr_child1 : cprog unit :=
  printf (line "child1");;
  forever (receive 0;; printf (line "Received USER0")).
Definition intr_child2 : cprog unit :=
  printf (line "child2");;
  f <- frame;;
  forever (
    now <- Now;;
    After (f + 0x40) (int64 (now + ONESEC));;
    printf (line "About to send interrupt");;
    send_interrupt INTR_USER0).
Definition intr_user (code : code_p) (args : addr) : cprog unit :=
  match code with CUser 1 => intr_child1 | CUser 2 => intr_child2 | _ => ret tt end.
Definition intr_main : cprog unit :=
  printf (line "intr: simple demo of interrupt feature");;
  initialize TOTAL_MEMORY 8192;;
  par par_frame [CUser 1; CUser 2] [NULL; NULL] [3000; 3000] 2;;
  printf (line "After par");;
  return_main.

(** ** intr_pri.c *)

Definition intr_pri_child2 : cprog unit :=
  printf (line "child2");;
  t0 <- Now;;
  loop (fun t0 : Z =>
    printf ".";;
    t <- Now;;
    t <- loop (fun t : Z =>
           if int64 (t - t0) <? Z.quot ONESEC 2 then (t <- Now;; ret (inl t)) else ret (inr t)) t;;
    let t0 := t in
    printf (line "About to send interrupt");;
    send_interrupt INTR_USER0;;
    ret (inl t0)) t0.
Definition intr_pri_user (code : code_p) (args : addr) : cprog unit :=
  match code with CUser 1 => intr_child1 | CUser 2 => intr_pri_child2 | _ => ret tt end.
Definition intr_pri_main : cprog unit :=
  printf (line "intr_pri: interrupts with process priorities");;
  initialize TOTAL_MEMORY 8192;;
  par_pri par_frame [CUser 1; CUser 2] [NULL; NULL] [3000; 3000] 2;;
  printf (line "After par");;
  return_main.

(** ** ring.c and timing.c

    Both print a rate, computed in floating point; [per] is the text C prints
    for the quotient of two integers. *)
Section Rates.
Context (per : Z -> Z -> string).

(** [ElementArgs]: a number and two pointers *)
Definition sizeof_ElementArgs : Z := 12.
Definition element_args (i : Z) : addr := main_frame + i * sizeof_ElementArgs.

Definition ring_element (args : addr) : cprog unit :=
  let eargs := args in
  nr <- load_int eargs;;
  input <- load_int (eargs + 4);;
  output <- load_int (eargs + 8);;
  f <- frame;;
  x <- object f INT_SIZE;;
  (if nr =? 0 then (store_int x 1;; out output x 4) else ret tt);;
  t0 <- GetCurrentTime;;
  forever (
    in_ input x 4;;
    v <- load_int x;;
    (if Z.rem v 100000 =? 0 then
       (t <- GetCurrentTime;;
        printf (line ("After " +:+ dec v +:+ " communciations, rate = " +:+ per (int64 (t - t0)) v +:+
                      " ns/comm")))
     else ret tt);;
    increment x;;
    out output x 4).
Definition ring_user (code : code_p) (args : addr) : cprog unit :=
  match code with CUser 1 => ring_element args | _ => ret tt end.
(** What [main] of both ring programs does before [par]. *)
Definition ring_prepare : cprog unit :=
  for_upto RING_SIZE (fun i => init_channel (chan_array + i * sizeof_Channel));;
  for_upto RING_SIZE (fun i =>
    a <- object (element_args i) 12;;
    store_int a i;;
    store_int (a + 4) (chan_array + Z.rem (i - 1 + RING_SIZE) RING_SIZE * sizeof_Channel);;
    store_int (a + 8) (chan_array + i * sizeof_Channel)).
Definition ring_main : cprog unit :=
  printf (line ("ring: " +:+ dec RING_SIZE +:+ " processes pass messages around a ring"));;
  initialize TOTAL_MEMORY 8192;;
  ring_prepare;;
  let n := Z.to_nat RING_SIZE in
  par par_frame (replicate n (CUser 1)) (element_args <$> seqZ 0 RING_SIZE) (replicate n 2000) RING_SIZE;;
  printf (line "After par");;
  return_main.

(** ring-mp.c: in spite of what it prints and of the array [place] it fills in,
    it calls [par]. *)
Definition ring_mp_main : cprog unit :=
  printf (line ("ring: pass messages around a ring of " +:+ dec RING_SIZE +:+ " processes"));;
  printf (line "with processes on alternating processors");;
  initialize TOTAL_MEMORY 8192;;
  ring_prepare;;
  let n := Z.to_nat RING_SIZE in
  par par_frame (replicate n (CUser 1)) (element_args <$> seqZ 0 RING_SIZE) (replicate n 2000) RING_SIZE;;
  printf (line "After par");;
  return_main.

(** timing.c; [x] of [child2] is not initialized *)
Definition timing_reader (units : string) : cprog unit :=
  printf (line "child1");;
  t0 <- GetCurrentTime;;
  f <- frame;;
  x <- object f INT_SIZE;;
  forever (
    in_ chan2 x 4;;
    v <- load_int x;;
    if Z.rem v 100000 =? 0 then
      (t <- GetCurrentTime;;
       printf (line ("x = " +:+ dec v +:+ ", " +:+ per (int64 (t - t0)) v +:+ units)))
    else ret tt).
Definition timing_child1 : cprog unit := timing_reader " nsec per communiation".
Definition timing_mp_child1 : cprog unit := timing_reader " nsec per communication".
Definition timing_child2 : cprog unit :=
  printf (line "child2");;
  f <- frame;;
  x <- object f INT_SIZE;;
  forever (increment x;; out chan2 x 4).
Definition timing_user (child1 : cprog unit) (code : code_p) (args : addr) : cprog unit :=
  match code with CUser 1 => child1 | CUser 2 => timing_child2 | _ => ret tt end.
Definition timing_main : cprog unit :=
  printf (line "timing: communication performance");;
  initialize TOTAL_MEMORY 8192;;
  init_channel chan1;;
  init_channel chan2;;
  par par_frame [CUser 1; CUser 2] [NULL; NULL] [2000; 2000] 2;;
  printf (line "After par");;
  return_main.

(** timing-mp.c *)
Definition timing_mp_main : cprog unit :=
  printf (line "timing_mp: interprocessor communication performance");;
  initialize TOTAL_MEMORY 8192;;
  printf (line "Initialized");;
  init_channel chan1;;
  init_channel chan2;;
  placed_par par_frame [CUser 1; CUser 2] [NULL; NULL] [4000; 3000] [1; 0] 2;;
  printf (line "After par");;
  return_main.
End Rates.
