(* ===== verification/Machine.v ===== *)
(** * Machine: the processors together

    The state of the machine is the static data, the program each thread is
    running and the computations suspended in process records.  A step is one
    action of one thread, the delivery of a signal that a thread does not block,
    the start of a created thread, or the passing of time.  The step functions
    are executable; [run_all] drives them round robin. *)

From S2P Require Import Prelude Prog State Hardware Handlers Boot.

#[local] Open Scope prog_scope.

Record machine := mkMachine {
  m_sys : sys;
  m_run : gmap Z (cprog unit);
  m_saved : gmap addr (sigset * cprog unit) }.

Inductive mres :=
| Next (m : machine)
| Halted (what : string)
| Crashed
| Blocked.

Definition with_run (t : Z) (p : cprog unit) (m : machine) : machine :=
  mkMachine (m_sys m) (<[t := p]> (m_run m)) (m_saved m).
Definition with_sys (s : sys) (m : machine) : machine :=
  mkMachine s (m_run m) (m_saved m).
Definition mask_of (t : Z) (m : machine) : sigset :=
  default sigemptyset (thread_mask (hw (m_sys m)) !! t).
Definition with_mask (t : Z) (k : sigset) (m : machine) : machine :=
  with_sys (set_hw (set_thread_mask (<[t := k]> (thread_mask (hw (m_sys m)))) (hw (m_sys m)))
              (m_sys m)) m.
Definition with_saved (a : addr) (k : sigset) (p : cprog unit) (m : machine) : machine :=
  mkMachine (m_sys m) (m_run m) (<[a := (k, p)]> (m_saved m)).

Section Machine.
Context (user : code_p -> addr -> cprog unit).

(** [setcontext]: thread [t] goes on with the context saved at [a]. *)
Definition dispatch (t : Z) (a : addr) (m : machine) : mres :=
  match uctxs (hw (m_sys m)) !! a with
  | Some (Fresh k code arg1 arg2 ua) =>
      Next (with_mask t k (with_run t (code_prog user code arg1 arg2 ua) m))
  | Some Suspended =>
      match m_saved m !! a with
      | Some (k, p) => Next (with_mask t k (with_run t p m))
      | None => Crashed
      end
  | None => Crashed
  end.

(** One action of thread [t]. *)
Definition thread_step (t : Z) (m : machine) : mres :=
  match m_run m !! t with
  | None => Blocked
  | Some p =>
    match p with
    | Ret _ => Blocked
    | Act f k =>
        match f t (m_sys m) with
        | Ok b s => Next (with_run t (k b) (with_sys s m))
        | Exit what => Halted what
        | Fault => Crashed
        end
    | Loop body x k => Next (with_run t (bind (body x) (loop_k body k)) m)
    | Switch old new k => dispatch t new (with_saved old (mask_of t m) k m)
    | Resume new => dispatch t new m
    | SaveCtx a ctx k => Next (with_run t k (with_saved a (mask_of t m) ctx m))
    end
  end.

(** Delivery of a pending signal that thread [t] does not block and
    [handle_signal] is installed for, the one with the lowest number first
    (POSIX, for real-time signals); on return from the handler the mask of the
    interrupted computation is restored. *)
Definition lowest (l : list Z) : option Z := foldr (fun g o => Some (from_option (Z.min g) g o)) None l.
Definition deliverable (t : Z) (m : machine) : option (Z * list Z) :=
  let s := m_sys m in
  l ← pending (hw s) !! t;
  let ok g := negb (sigismember (mask_of t m) g) && bool_decide (g ∈ sigactions (hw s)) in
  g ← lowest (filter (fun g => ok g = true) l);
  ig ← list_find (fun x => x = g) l;
  Some (g, delete ig.1 l).
Definition deliver (t : Z) (m : machine) : mres :=
  match deliverable t m, m_run m !! t with
  | Some (g, l), Some p =>
      let k := mask_of t m in
      let s := m_sys m in
      let s' := set_hw (set_pending (<[t := l]> (pending (hw s))) (hw s)) s in
      Next (with_mask t sigfillset
             (with_run t (handle_signal g k p;; set_own_mask k;; p) (with_sys s' m)))
  | _, _ => Blocked
  end.

(** A thread that [pthread_create] made starts. *)
Definition start_thread (t : Z) (m : machine) : mres :=
  match pending (hw (m_sys m)) !! t, m_run m !! t with
  | Some _, None => Next (with_run t (run_process t) m)
  | _, _ => Blocked
  end.

(** The passing of [d] nanoseconds, not beyond the next expiration: running
    timers count down; one that reaches zero reloads and sends its signal to
    the thread of the processor the signal belongs to. *)
Definition tick_timer (d : Z) (p : ptimer) : ptimer * bool :=
  if pt_value p =? 0 then (p, false)
  else if d <? pt_value p then (mkTimer (pt_signo p) (pt_value p - d) (pt_interval p), false)
  else (mkTimer (pt_signo p) (pt_interval p) (pt_interval p), true).
Definition fired (d : Z) (s : sys) : list Z :=
  (fun ip => pt_signo ip.2) <$>
    filter (fun ip : Z * ptimer => (tick_timer d ip.2).2 = true) (map_to_list (ptimers (hw s))).
Definition send_fired (t : Z) (gs : list Z) (pend : gmap Z (list Z)) : gmap Z (list Z) :=
  alter (fun l => l ++ gs) t pend.
Definition pass_time (d : Z) (m : machine) : mres :=
  let s := m_sys m in
  let h := hw s in
  if (d <? 0) || negb (forallb (fun ip : Z * ptimer => (pt_value ip.2 =? 0) || (d <=? pt_value ip.2))
                        (map_to_list (ptimers h)))
  then Blocked
  else
    let gs := fired d s in
    let pun_of_sig g := from_option id_pun 0 (intr_desc h !! (g - SIGBASE h)) in
    let pend := foldl (fun pd g => send_fired (default 0 (thread_id h !! pun_of_sig g)) [g] pd)
                  (pending h) gs in
    Next (with_sys (set_hw (set_pending pend
                     (set_ptimers ((fun p => (tick_timer d p).1) <$> ptimers h) h)) s) m).

(** The step relation. *)
Inductive mstep : machine -> mres -> Prop :=
| step_thread t m r : thread_step t m = r -> r <> Blocked -> mstep m r
| step_signal t m m' : deliver t m = Next m' -> mstep m (Next m')
| step_start t m m' : start_thread t m = Next m' -> mstep m (Next m')
| step_time d m m' : pass_time d m = Next m' -> mstep m (Next m').

(** A step after which the machine goes on. *)
Definition mnext (m m' : machine) : Prop := mstep m (Next m').

(** An executable schedule: every thread in turn, signals first. *)
Definition turn (t : Z) (m : machine) : mres :=
  match deliver t m with
  | Next m' => Next m'
  | _ => match start_thread t m with
         | Next m' => Next m'
         | _ => thread_step t m
         end
  end.
Fixpoint run_all (fuel : nat) (m : machine) : mres :=
  match fuel with
  | O => Next m
  | S n =>
      match turn 0 m with
      | Halted w => Halted w
      | Crashed => Crashed
      | r0 =>
        let m0 := match r0 with Next m' => m' | _ => m end in
        match turn 1 m0 with
        | Halted w => Halted w
        | Crashed => Crashed
        | Next m1 => run_all n m1
        | Blocked => match r0 with Blocked => Blocked | _ => run_all n m0 end
        end
      end
  end.
End Machine.
