(* ===== verification/Adequacy.v ===== *)
(** * Adequacy: from runs of one processor to steps of the machine

    The specifications of the other files speak of [exec], the run of a program
    on one processor up to its next context switch.  Here such runs are steps
    of the [Machine]: whatever [exec] says a program does, a thread of the
    machine that runs it does, with the other threads at rest. *)

From S2P Require Import Prelude Prog State Fixture Hardware Exec.
From S2P Require Import Boot Machine.

#[local] Open Scope prog_scope.

Section Adequacy.
Context (user : code_p -> addr -> cprog unit).

(** A step of thread [t], and any number of them. *)
Definition tstep (t : Z) (m m' : machine) : Prop := thread_step user t m = Next m'.
Notation tsteps t := (rtc (tstep t)).

(** [m] with the state [s] and with thread [t] about to run [p]. *)
Definition running (t : Z) (p : cprog unit) (s : sys) (m : machine) : machine :=
  mkMachine s (<[t := p]> (m_run m)) (m_saved m).

Lemma running_lookup t p s m : m_run (running t p s m) !! t = Some p.
Proof. apply lookup_insert_eq. Qed.

Lemma with_run_running t p q s s' m :
  with_run t q (with_sys s' (running t p s m)) = running t q s' m.
Proof. unfold with_run, running. simpl. by rewrite insert_insert_eq. Qed.

Lemma tstep_act {B} t (f : Z -> sys -> res sys B) k s b s' m :
  f t s = Ok b s' -> tstep t (running t (Act f k) s m) (running t (k b) s' m).
Proof.
  intros Hf. unfold tstep, thread_step. rewrite running_lookup.
  change (m_sys (running t (Act f k) s m)) with s. rewrite Hf. by rewrite with_run_running.
Qed.

Lemma tstep_loop {X B} t (body : X -> cprog (X + B)) x k s m :
  tstep t (running t (Loop body x k) s m) (running t (bind (body x) (loop_k body k)) s m).
Proof.
  unfold tstep, thread_step. rewrite running_lookup. unfold with_run. simpl.
  by rewrite insert_insert_eq.
Qed.

(** What the machine has come to when a run of [p], followed by [k], stops
    with outcome [o]. *)
Definition stopped {A} (t : Z) (k : A -> cprog unit) (m : machine) (o : outcome sys A)
    (m' : machine) : Prop :=
  match o with
  | Done a s => m' = running t (k a) s m
  | Switched old new q s => m' = running t (Switch old new (bind q k)) s m
  | Resumed new s => m' = running t (Resume new) s m
  | Saved a ctx q s => m' = running t (SaveCtx a ctx (bind q k)) s m
  | Exited w s => m_sys m' = s /\ thread_step user t m' = Halted w
  | Faulted => thread_step user t m' = Crashed
  end.

Lemma exec_steps {A} t (p : cprog A) s o k m :
  exec t p s o -> exists m', tsteps t (running t (bind p k) s m) m' /\ stopped t k m o m'.
Proof.
  intros [n Hn]. revert A p k s o Hn.
  induction n as [|n IH]; intros A p k s o Hn; [done|].
  destruct p as [a|B f q|X B body x q|old new q|new|a ctx q]; cbn [eval] in Hn.
  - simplify_eq. eexists. by split; [apply rtc_refl|].
  - destruct (f t s) as [b s'|w|] eqn:Ef; simplify_eq.
    + destruct (IH _ _ k _ _ Hn) as (m' & Hm & Hs). exists m'. split; [|done].
      eapply rtc_l; [by apply tstep_act|exact Hm].
    + eexists. split; [apply rtc_refl|]. split; [done|]. unfold thread_step.
      rewrite running_lookup. simpl. by rewrite Ef.
    + eexists. split; [apply rtc_refl|]. simpl. unfold thread_step.
      rewrite running_lookup. simpl. by rewrite Ef.
  - destruct (eval n t (body x) s) as [ob|] eqn:Eb; [|done].
    destruct (IH _ _ (loop_k body (fun b => bind (q b) k)) _ _ Eb) as (m1 & Hm1 & Hs1).
    assert (Hfirst : tsteps t (running t (bind (Loop body x q) k) s m) m1).
    { eapply rtc_l; [apply tstep_loop|exact Hm1]. }
    assert (Hk : forall r, bind (loop_k body q r) k = loop_k body (fun b => bind (q b) k) r)
      by (intros; apply bind_loop_k).
    destruct ob as [r s1|old new q1 s1|new s1|a ctx q1 s1|w s1|]; simpl in Hn; simplify_eq;
      [|exists m1; split; [done|]; simpl in Hs1 |- *; subst..].
    + destruct (IH _ _ k _ _ Hn) as (m2 & Hm2 & Hs2). exists m2. split; [|done].
      etransitivity; [exact Hfirst|]. simpl in Hs1. subst m1. by rewrite <-Hk.
    + do 2 f_equal. rewrite bind_assoc. f_equal.
      apply FunctionalExtensionality.functional_extensionality. intros r. by rewrite Hk.
    + done.
    + do 2 f_equal. rewrite bind_assoc. f_equal.
      apply FunctionalExtensionality.functional_extensionality. intros r. by rewrite Hk.
    + done.
    + done.
  - simplify_eq. eexists. by split; [apply rtc_refl|].
  - simplify_eq. eexists. by split; [apply rtc_refl|].
  - simplify_eq. eexists. by split; [apply rtc_refl|].
Qed.

(** A run that ends in a context switch goes on with the computation saved
    for the process that gets the processor; the rest is saved. *)
Definition mask_in (t : Z) (s : sys) : sigset := default sigemptyset (thread_mask (hw s) !! t).

Lemma tstep_switch t old new k s m mk p :
  old <> new -> uctxs (hw s) !! new = Some Suspended -> m_saved m !! new = Some (mk, p) ->
  tstep t (running t (Switch old new k) s m)
    (running t p (masked t mk s) (with_saved old (mask_in t s) k m)).
Proof.
  intros Hne Hu Hm. unfold tstep, thread_step. rewrite running_lookup. unfold dispatch. simpl.
  rewrite Hu, lookup_insert_ne, Hm by done. unfold with_mask, with_run, with_sys, running. simpl.
  by rewrite insert_insert_eq.
Qed.

Lemma tstep_switch_fresh t old new mk code a1 a2 ua k s m :
  uctxs (hw s) !! new = Some (Fresh mk code a1 a2 ua) ->
  tstep t (running t (Switch old new k) s m)
    (running t (code_prog user code a1 a2 ua) (masked t mk s) (with_saved old (mask_in t s) k m)).
Proof.
  intros Hu. unfold tstep, thread_step. rewrite running_lookup. unfold dispatch. simpl.
  rewrite Hu. unfold with_mask, with_run, with_sys, running. simpl. by rewrite insert_insert_eq.
Qed.

Lemma exec_switch_steps {A} t (p : cprog A) s old new q s' k m mk p' :
  exec t p s (Switched old new q s') -> old <> new ->
  uctxs (hw s') !! new = Some Suspended -> m_saved m !! new = Some (mk, p') ->
  tsteps t (running t (bind p k) s m)
    (running t p' (masked t mk s') (with_saved old (mask_in t s') (bind q k) m)).
Proof.
  intros He Hne Hu Hm. destruct (exec_steps t p s _ k m He) as (m1 & H1 & ->).
  etransitivity; [exact H1|]. by apply rtc_once, tstep_switch.
Qed.

Lemma exec_done_steps {A} t (p : cprog A) s a s' k m :
  exec t p s (Done a s') -> tsteps t (running t (bind p k) s m) (running t (k a) s' m).
Proof. intros He. by destruct (exec_steps t p s _ k m He) as (m1 & H1 & ->). Qed.

Lemma enable_steps t s mk k m :
  on_cpu t s -> sigmask (hw s) !! t = Some mk ->
  tsteps t (running t (enable;; k) s m) (running t k (masked t mk s) m).
Proof.
  intros Hc Hm. apply (exec_done_steps t enable s tt (masked t mk s) (fun _ => k)).
  rewrite <-(bind_ret_r enable). eapply exec_enable; [done|exact Hm|apply exec_ret].
Qed.
End Adequacy.
