(* ===== verification/Meeting.v ===== *)
(** * Meeting: a rendezvous on the machine

    A process that communicates on an idle channel waits until its partner
    comes; the partner copies the message and makes it ready again.  Here the
    two operations, the wait, the two context switches and the wake-up are put
    together into one run of the machine of [Machine], from the code of the
    first process to the code that follows in both. *)

From S2P Require Import Prelude Prog State Fixture Linked Hardware.
From S2P Require Import Exec Priority Ipq Sched ReadyQueue Dispatch.
From S2P Require Import Mutex Comm Rendezvous Machine Adequacy.

#[local] Open Scope prog_scope.

(** ** What a scheduling step leaves alone *)

Lemma sched_step_chans s s' :
  sched_step s s' -> chans s' = chans s /\ mutexes s' = mutexes s /\ bytes s' = bytes s.
Proof. intros Hs. by rewrite (ss_rest _ _ Hs). Qed.

Lemma sched_step_sigmask s s' : sched_step s s' -> sigmask (hw s') = sigmask (hw s).
Proof. intros Hs. exact (f_equal sigmask (ss_hw _ _ Hs)). Qed.

Lemma sched_step_masked t k s : sched_step s (masked t k s).
Proof. by apply sched_step_ext. Qed.

Lemma chan_rep_frame s s' ch st :
  chans s' = chans s -> mutexes s' = mutexes s -> chan_rep s ch st -> chan_rep s' ch st.
Proof. intros H1 H2 [Hr Hm Hn]. by split; rewrite ?H1, ?H2. Qed.

Lemma transfer_frame s s' dest src len data mem :
  bytes s' = bytes s -> transfer s dest src len data mem -> transfer s' dest src len data mem.
Proof. intros H [? ? Hr Hw]. by split; rewrite ?H. Qed.

Lemma sched_ok_frame c s s' cur ql l :
  procs s' = procs s -> rdyQues s' = rdyQues s -> current s' = current s ->
  ipQues s' = ipQues s -> cpu_key (hw s') = cpu_key (hw s) ->
  sched_ok c s cur ql l -> sched_ok c s' cur ql l.
Proof.
  intros E1 E2 E3 E4 E5 [(C & q & Hcs) H2 H3].
  assert (Hp : forall x, pri_of s' x = pri_of s x) by (intros; unfold pri_of; by rewrite E1).
  split; [exists C, q; by eapply cpu_state_ext| |].
  - eapply rq_sorted_ext; [|exact H2]. intros x. by rewrite Hp.
  - eapply top_ext; [|exact H3]. intros x. by rewrite Hp.
Qed.

(** ** The two operations *)

(** [b]: the reader's side. *)
Definition op (b : bool) (ch a len : Z) : cprog unit := if b then in_ ch a len else out ch a len.
Definition waits (b : bool) (p a : addr) : chan_state := if b then Reading p a else Writing p a.
Definition sides (b : bool) (a1 a2 : addr) : addr := if b then a1 else a2.

Lemma op_first c b s cur C ch a len o :
  on_cpu c s -> current s !! c = Some cur -> procs s !! cur = Some C -> chan_rep s ch Idle ->
  exec c relinquish (deposited ch cur (waits b cur a) s) o -> exec c (op b ch a len) s o.
Proof. destruct b; [apply in_idle|apply out_idle]. Qed.

Lemma op_second c b s cur p a1 a2 ch len data mem o :
  on_cpu c s -> current s !! c = Some cur -> chan_rep s ch (waits b p a1) ->
  transfer s (sides b a1 a2) (sides b a2 a1) len data mem ->
  exec c (wake p) (delivered ch mem s) o -> exec c (op (negb b) ch a2 len) s o.
Proof. destruct b; [apply out_reading|apply in_writing]. Qed.

Section Meeting.
Context (user : code_p -> addr -> cprog unit).
Notation tsteps t := (rtc (tstep user t)).

(** The second half: the partner finds the first process waiting. *)
Lemma meet_second b t s f F w W L ch a1 a2 len data mem mk kw m :
  sched_ok t s w [] L -> procs s !! w = Some W -> procs s !! f = Some F ->
  p_sched_state F = PROC_WAITING -> p_pun F = t -> f <> NULL -> f <> w -> f ∉ L ->
  p_stackptr W <> p_stackptr F -> uctxs (hw s) !! p_stackptr F = Some Suspended ->
  chan_rep s ch (waits b f a1) -> transfer s (sides b a1 a2) (sides b a2 a1) len data mem ->
  sigmask (hw s) !! t = Some mk ->
  forall mf kf, m_saved m !! p_stackptr F = Some (mf, enable;; kf) ->
  exists s', bytes s' = mem /\ chan_rep s' ch Idle /\
    p_sched_state <$> procs s' !! f = Some PROC_READY /\
    thread_mask (hw s') !! t = Some mk /\ sched_step (delivered ch mem s) s' /\
    if pri_gt (p_pri F) (p_pri W) then
      exists ms, tsteps t (running t (op (negb b) ch a2 len;; kw) s m)
        (running t kf s' (with_saved (p_stackptr W) ms (enable;; kw) m)) /\
      sched_ok t s' f [] (rq_insert (pri_of s) w L)
    else
      tsteps t (running t (op (negb b) ch a2 len;; kw) s m) (running t kw s' m) /\
      sched_ok t s' w [] (rq_insert (pri_of s) f L).
Proof.
  intros Hok HW HF Hwait HFt Hf0 Hfw HfL Hst Huf Hch Ht Hmk mf kf Hsv.
  destruct (so_cpu _ _ _ _ _ Hok) as (W1 & q & Hcs).
  set (s1 := delivered ch mem s).
  assert (Hch1 : chan_rep s1 ch Idle) by (by eapply delivered_rep).
  assert (Hok1 : sched_ok t s1 w [] L) by (by apply (sched_ok_frame t s)).
  destruct (wake_own t s1 w [] L f F mk Hok1 HF HFt Hf0 Hwait ltac:(set_solver) Hmk)
    as (s2 & W2 & HW2 & Hstep & Hsts & _ & Hr).
  change (procs s1) with (procs s) in HW2. rewrite HW in HW2. injection HW2 as <-.
  change (pri_of s1) with (pri_of s) in Hr.
  destruct (sched_step_chans _ _ Hstep) as (Ec & Em & Eb).
  assert (Hop : forall o, exec t (wake f) s1 o -> exec t (op (negb b) ch a2 len) s o).
  { intros o. eapply op_second; [apply Hcs|apply Hcs|exact Hch|exact Ht]. }
  assert (Hready : p_sched_state <$> procs s2 !! f = Some PROC_READY).
  { unfold sts in Hsts. destruct (procs s2 !! f); simpl in *; congruence. }
  assert (Hch2 : chan_rep s2 ch Idle) by (by apply (chan_rep_frame s1)).
  destruct (pri_gt (p_pri F) (p_pri W)).
  - destruct Hr as (He & _ & Hok2). exists (masked t mk (masked t mf s2)).
    split_and!; [done|by apply (chan_rep_frame s2)|done|simpl; apply lookup_insert_eq| |].
    { etrans; [exact Hstep|]. etrans; apply sched_step_masked. }
    exists (mask_in t s2). split.
    + etransitivity.
      * eapply (exec_switch_steps user t _ s _ _ enable s2); [by apply Hop|done| |exact Hsv].
        by apply (ss_ctxs _ _ Hstep).
      * apply enable_steps; [|simpl; by rewrite (sched_step_sigmask _ _ Hstep)].
        destruct (so_cpu _ _ _ _ _ Hok2) as (F2 & q2 & Hcs2). apply Hcs2.
    + by do 2 apply sched_ok_masked.
  - destruct Hr as (He & Hm & Hok2). exists s2. split_and!; [done..| |done].
    exact (exec_done_steps user t _ s tt s2 (fun _ => kw) m (Hop _ He)).
Qed.

(** The first half: [f] leaves itself in the channel, and the next process gets
    the processor. *)
Lemma meet_first b t s f F ql l q w W L ch a1 len mw p kf m :
  cpu_state t s f F q ql l -> rq_sorted (pri_of s) l ->
  rq_insert_all (pri_of s) ql l = w :: L -> procs s !! w = Some W ->
  p_stackptr W <> p_stackptr F -> chan_rep s ch Idle -> a1 <> NULL ->
  uctxs (hw s) !! p_stackptr W = Some Suspended ->
  m_saved m !! p_stackptr W = Some (mw, p) ->
  exists s' mf F', tsteps t (running t (op b ch a1 len;; kf) s m)
      (running t p s' (with_saved (p_stackptr F) mf (enable;; kf) m)) /\
    sched_ok t s' w [] L /\ chan_rep s' ch (waits b f a1) /\
    sched_step (deposited ch f (waits b f a1) s) s' /\ f <> w /\ f ∉ L /\
    procs s' !! f = Some F' /\ p_sched_state F' = PROC_WAITING /\
    uctxs (hw s') !! p_stackptr F = Some Suspended.
Proof.
  intros Hcs Hso HL HW Hst Hch H1 Huw Hsv.
  destruct (deposit_relinquish t s ch (waits b f a1) f F q ql l w L Hcs HL)
    as (s1 & q1 & W1 & N & He & HW1 & Hne & HfL & Hstep & Hcs1 & Hwait & Hsts & Huf).
  rewrite HW in HW1. injection HW1 as <-.
  destruct (sched_step_chans _ _ Hstep) as (Ec & Em & Eb).
  destruct (procs s1 !! f) as [F1|] eqn:HF1; [|done]. simpl in Hwait. injection Hwait as Hwait.
  pose proof (cs_proc _ _ _ _ _ _ _ Hcs) as HF.
  assert (Hpri : forall x, pri_of s1 x = pri_of s x).
  { intros x. rewrite (sp_pri _ _ Hstep). apply (pri_of_quiet _ (quiet_sched_state _) f (with_chan ch _ s)). }
  exists (masked t mw s1), (mask_in t s1), F1. split_and!; try done.
  - eapply exec_switch_steps; [|done| |exact Hsv].
    + eapply op_first; [apply Hcs|apply Hcs|exact HF|exact Hch|exact He].
    + by apply (ss_ctxs _ _ Hstep).
  - apply sched_ok_masked. eapply (sched_ok_taken t (deposited ch f (waits b f a1) s) s1 ql l);
      [|rewrite <-HL; apply rq_insert_all_ext|exact Hstep|exact Hcs1].
    + eapply rq_sorted_ext; [|exact Hso]. intros x. by rewrite <-Hpri, (sp_pri _ _ Hstep).
    + intros x. by rewrite <-Hpri, (sp_pri _ _ Hstep).
  - apply (chan_rep_frame (with_chan ch (waits b f a1) s)); [done..|].
    eapply with_chan_rep; [exact Hch|]. destruct b; (split; [apply Hcs|done]).
  - etrans; [exact Hstep|apply sched_step_masked].
Qed.

(** C1: a whole rendezvous, on the machine.  [f] communicates on an idle channel
    ([b]: it reads) and is the first to come; the next process [w] of its
    processor then does the opposite operation.  The machine goes from the code
    of [f] to the code that follows, in the process of the two that has the
    higher priority ([w] if they are equal): by then the destination holds the
    message, the channel is idle again, both processes are ready, interrupts are
    enabled, the scheduler's invariant holds, and the other process is suspended
    in front of the code that follows in it. *)
Theorem rendezvous b t s f F ql l q w W L ch a1 a2 len data mem mk mw kf kw m :
  cpu_state t s f F q ql l -> rq_sorted (pri_of s) l ->
  rq_insert_all (pri_of s) ql l = w :: L -> procs s !! w = Some W ->
  p_stackptr W <> p_stackptr F -> chan_rep s ch Idle -> a1 <> NULL -> a2 <> NULL ->
  transfer s (sides b a1 a2) (sides b a2 a1) len data mem ->
  sigmask (hw s) !! t = Some mk -> uctxs (hw s) !! p_stackptr W = Some Suspended ->
  m_saved m !! p_stackptr W = Some (mw, op (negb b) ch a2 len;; kw) ->
  exists s', read_bytes (bytes s') (sides b a1 a2) (Z.to_nat len) = Some data /\
    chan_rep s' ch Idle /\ p_sched_state <$> procs s' !! f = Some PROC_READY /\
    thread_mask (hw s') !! t = Some mk /\
    exists mf, let m1 := with_saved (p_stackptr F) mf (enable;; kf) m in
    if pri_gt (p_pri F) (p_pri W) then
      exists ms, tsteps t (running t (op b ch a1 len;; kf) s m)
        (running t kf s' (with_saved (p_stackptr W) ms (enable;; kw) m1)) /\
      sched_ok t s' f [] (rq_insert (pri_of s) w L)
    else
      tsteps t (running t (op b ch a1 len;; kf) s m) (running t kw s' m1) /\
      sched_ok t s' w [] (rq_insert (pri_of s) f L).
Proof.
  intros Hcs Hso HL HW Hst Hch H1 H2 Ht Hmk Huw Hsv.
  destruct (meet_first b t s f F ql l q w W L ch a1 len mw _ kf m Hcs Hso HL HW Hst Hch H1 Huw Hsv)
    as (s2 & mf & F1 & Hfirst & Hok & Hch1 & Hstep & Hfw & HfL & HF1 & Hwait & Huf).
  destruct (sched_step_chans _ _ Hstep) as (_ & _ & Eb).
  destruct (so_cpu _ _ _ _ _ Hok) as (N & q2 & Hcs2).
  pose proof (cs_proc _ _ _ _ _ _ _ Hcs) as HF. pose proof (cs_proc _ _ _ _ _ _ _ Hcs2) as HN.
  assert (HF0 : procs (deposited ch f (waits b f a1) s) !! f = Some (set_sched_state PROC_PREPARING_TO_WAIT F))
    by (simpl; by rewrite lookup_alter_eq, HF).
  assert (HW0 : procs (deposited ch f (waits b f a1) s) !! w = Some W)
    by (simpl; by rewrite lookup_alter_ne).
  pose proof (same_fields _ _ f _ _ Hstep HF0 HF1) as (EF1 & EF2 & EF3).
  pose proof (same_fields _ _ w _ _ Hstep HW0 HN) as (EN1 & EN2 & EN3). simpl in EF1, EF2, EF3.
  destruct (meet_second b t s2 f F1 w N L ch a1 a2 len data mem mk kw
    (with_saved (p_stackptr F) mf (enable;; kf) m) Hok HN HF1 Hwait
    ltac:(by rewrite EF2, (cs_pun _ _ _ _ _ _ _ Hcs)) (cs_nonnull _ _ _ _ _ _ _ Hcs)
    Hfw HfL ltac:(by rewrite EN3, EF3) ltac:(by rewrite EF3) Hch1
    (transfer_frame s s2 _ _ _ _ _ Eb Ht) ltac:(by rewrite (sched_step_sigmask _ _ Hstep))
    mf kf ltac:(rewrite EF3; apply lookup_insert_eq))
    as (s' & Hb & Hch' & Hr & Hm' & _ & Hend).
  exists s'. split_and!; [|done..|].
  { rewrite Hb. by apply (transfer_result _ _ _ _ _ _ Ht). }
  exists mf. rewrite EF1, EN1, EN3 in Hend.
  assert (Hins : forall p k, rq_insert (pri_of s2) p k = rq_insert (pri_of s) p k).
  { intros. apply rq_insert_ext. intros x. rewrite (sp_pri _ _ Hstep).
    apply (pri_of_quiet _ (quiet_sched_state _) f (with_chan ch _ s)). }
  rewrite !Hins in Hend. destruct (pri_gt (p_pri F) (p_pri W)).
  - destruct Hend as (ms & Hs2 & Hok'). exists ms. split; [by etransitivity|done].
  - destruct Hend as (Hs2 & Hok'). split; [by etransitivity|done].
Qed.
End Meeting.

(** ** At a concrete input: [pA] reads, [pB] writes *)

Definition sample_meeting : sys := suspended pB (sample_chan Idle sample).
Definition sample_machine : machine :=
  mkMachine sample ∅ {[pB := (sigemptyset, op false chA 0x3000 2;; ret tt)]}.

Lemma rendezvous_witness :
  exists s' m', rtc (tstep (fun _ _ => ret tt) 0)
      (running 0 (op true chA 0x4000 2;; ret tt) sample_meeting sample_machine)
      (running 0 (ret tt) s' m') /\
    read_bytes (bytes s') 0x4000 2 = Some [1; 2] /\ sched_ok 0 s' pB [] [pA; idle0].
Proof.
  destruct (rendezvous (fun _ _ => ret tt) true 0 sample_meeting pA
    (sample_proc pA NULL 1024 0 PROC_READY) [] [pB; idle0] empty_ipq pB
    (sample_proc pB idle0 1024 0 PROC_READY) [idle0] chA 0x4000 0x3000 2 [1; 2] sample_after
    sigemptyset sigemptyset (ret tt) (ret tt) sample_machine)
    as (s' & Hb & _ & _ & _ & mf & Hr).
  - by apply (cpu_state_ext 0 (sample_chan Idle sample)), sample_chan_cpu.
  - repeat constructor.
  - by vm_compute.
  - done.
  - done.
  - apply (chan_rep_frame (sample_chan Idle sample)); [done..|by apply sample_chan_rep].
  - done.
  - done.
  - apply (transfer_frame (sample_chan Idle sample)); [done|apply (sample_transfer Idle)].
  - by vm_compute.
  - by vm_compute.
  - exact (lookup_singleton_eq pB _).
  - assert (Hl : rq_insert (pri_of sample_meeting) pA [idle0] = [pA; idle0]) by by vm_compute.
    rewrite Hl in Hr. exists s'. eexists. destruct Hr as [Hs Hok].
    split; [exact Hs|]. split; [exact Hb|exact Hok].
Defined.
