(* ===== verification/Receive.v ===== *)
(** * Receive: waiting for an interrupt

    A process waits for an interrupt of its processor with [receive]; the
    handler calls [transmit], with interrupts disabled. *)

From S2P Require Import Prelude Prog State Fixture Linked Hardware.
From S2P Require Import Exec Priority Ipq Sched ReadyQueue Dispatch Interrupt Meeting.

#[local] Open Scope prog_scope.

Section Transmit.
Context (c : Z) (s : sys) (cur : addr) (C : Process) (q : IPQueue) (ql l : list addr) (intr : Z).
Context (Hcs : cpu_state c s cur C q ql l).

(** The state after the exchange on [waiting], and that on the receiver. *)
Definition taken : sys := upd_intr (c, intr) NULL s.
Definition readied (r : addr) : sys := upd_proc r (set_sched_state PROC_READY) taken.

Lemma transmit_start r o :
  interrupts s !! (c, intr) = Some r ->
  exec c ((if negb (r =? NULL) then
     (old_state <- xchg_sched_state r PROC_READY;;
      if old_state =? PROC_WAITING then (enqueue0 r;; schedule_from_interrupt) else ret tt)
   else ret tt);; ret r) taken o ->
  exec c (transmit intr) s o.
Proof.
  intros Hi He. pose proof Hcs as [Hq Hcur HC HCp _ _]. unfold transmit.
  eapply exec_get_current; [apply Hq|exact Hcur|]. eapply exec_pget; [exact HC|]. rewrite HCp.
  eapply exec_action; [by rewrite Hi|]. exact He.
Qed.

Lemma taken_cpu : cpu_state c taken cur C q ql l.
Proof. by apply (cpu_state_ext c s). Qed.

Lemma transmit_nobody : interrupts s !! (c, intr) = Some NULL -> exec c (transmit intr) s (Done NULL taken).
Proof. intros Hi. eapply transmit_start; [exact Hi|]. apply exec_ret. Qed.

(** A receiver that has not got as far as waiting finds itself ready. *)
Lemma transmit_early r R :
  interrupts s !! (c, intr) = Some r -> r <> NULL -> procs s !! r = Some R ->
  p_sched_state R <> PROC_WAITING -> exec c (transmit intr) s (Done r (readied r)).
Proof.
  intros Hi Hr HR Hst. eapply transmit_start; [exact Hi|]. zb. rewrite bind_assoc.
  eapply exec_xchg_sched; [exact HR|]. zb. apply exec_ret.
Qed.

(** A waiting receiver is queued; the running process is preempted if it is
    now outranked. *)
Lemma transmit_waiting r R :
  interrupts s !! (c, intr) = Some r -> r <> NULL -> procs s !! r = Some R ->
  p_pun R = c -> p_sched_state R = PROC_WAITING -> r ∉ cur :: ql ++ l ->
  exists s1 C1, sched_step taken s1 /\ p_pri C1 = p_pri C /\
    cpu_state c s1 cur C1 q ql (rq_insert (pri_of s) r l) /\
    forall o, exec c (schedule_from_interrupt;; ret r) s1 o -> exec c (transmit intr) s o.
Proof.
  intros Hi Hr HR HRp Hst Hfresh.
  pose proof (cpu_state_quiet c _ r _ cur C q ql l (quiet_sched_state PROC_READY) taken_cpu) as Hcs1.
  rewrite decide_False in Hcs1 by set_solver. fold (readied r) in Hcs1.
  assert (HR1 : procs (readied r) !! r = Some (set_sched_state PROC_READY R))
    by (simpl; by rewrite lookup_alter_eq, HR).
  destruct (enqueue0_spec c (readied r) r _ c l HR1 HRp Hr ltac:(set_solver)
    (qs_rdy _ _ _ _ _ (cs_queues _ _ _ _ _ _ _ Hcs1))) as (s1 & He & Hl & Hs & _).
  destruct (sbq_lookup _ _ (sbl_sbq _ _ Hs) cur C (cs_proc _ _ _ _ _ _ _ Hcs1)) as [n Hn].
  exists s1, (set_next n C). split_and!.
  - etrans; [exact (sched_step_quiet _ r taken (quiet_sched_state PROC_READY))|].
    exact (sbq_sched_step _ _ (sbl_sbq _ _ Hs)).
  - done.
  - erewrite (rq_insert_ext (pri_of s) (pri_of (readied r))).
    2: { intros x. symmetry. exact (pri_of_quiet _ (quiet_sched_state _) r taken x). }
    pose proof Hcs1 as [Hq1 Hcur1 _ HCp1 Hcur0 Hfr1].
    eapply cpu_state_step; [exact Hcs1|by apply sbq_same_procs, sbl_sbq| | | |exact Hl| |exact Hn|done..| |].
    + eapply sbq_on_cpu; [by apply sbl_sbq|apply Hq1].
    + rewrite (sbl_ipq _ _ Hs). apply Hq1.
    + apply Hq1.
    + by rewrite (sbq_current _ _ (sbl_sbq _ _ Hs)).
    + reflexivity.
    + rewrite rq_insert_perm. rewrite <-Permutation_middle.
      pose proof (qs_nodup _ _ _ _ _ Hq1). rewrite !NoDup_cons. set_solver.
  - intros o Hk. eapply transmit_start; [exact Hi|]. zb. rewrite bind_assoc.
    eapply exec_xchg_sched; [exact HR|]. rewrite Hst. zb. rewrite bind_assoc.
    eapply exec_bind_done; [exact He|exact Hk].
Qed.
End Transmit.

(** ** The theorem *)

(** A queue that nobody outranks makes no preemption. *)
Lemma schedule_from_interrupt_top c s cur C q ql l :
  cpu_state c s cur C q ql l -> Forall (fun x => pri_le (pri_of s x) (p_pri C) = true) l ->
  exec c schedule_from_interrupt s (Done tt s).
Proof.
  intros Hcs Htop. eapply schedule_from_interrupt_stay; [apply Hcs..|].
  intros x L ->. apply Forall_cons in Htop as [Hx _]. rewrite pri_le_gt in Hx.
  by destruct (pri_gt _ _).
Qed.

(** A receiver that waits. *)
Lemma transmit_wakes c s cur ql l intr r R :
  sched_ok c s cur ql l -> interrupts s !! (c, intr) = Some r -> r <> NULL ->
  procs s !! r = Some R -> p_pun R = c -> p_sched_state R = PROC_WAITING -> r ∉ cur :: ql ++ l ->
  exists s', interrupts s' = <[(c, intr) := NULL]> (interrupts s) /\
    if pri_gt (pri_of s r) (pri_of s cur) then
      exists n L, exec c (transmit intr) s (Resumed n s') /\
        rq_insert_all (pri_of s) ql (r :: l) = n :: L /\
        sched_ok c s' n [] (rq_insert (pri_of s) cur L)
    else
      exec c (transmit intr) s (Done r s') /\ sched_ok c s' cur ql (rq_insert (pri_of s) r l).
Proof.
  intros [(C & q & Hcs) Hso Htop] Hi Hr HRr HRp Hw Hfresh.
  assert (Ecur : pri_of s cur = p_pri C) by exact (pri_of_lookup _ _ _ (cs_proc _ _ _ _ _ _ _ Hcs)).
  destruct (transmit_waiting c s cur C q ql l intr Hcs r R Hi Hr HRr HRp Hw Hfresh)
    as (s1 & C1 & Hstep & HC1 & Hcs1 & Hrun).
  assert (Ei : forall s', sched_step s1 s' -> interrupts s' = <[(c, intr) := NULL]> (interrupts s))
    by (intros s' Hs'; rewrite (ss_rest _ _ Hs'); simpl; by rewrite (ss_rest _ _ Hstep)).
  assert (Ep : forall x, pri_of s1 x = pri_of s x) by exact (sp_pri _ _ Hstep).
  assert (Hso1 : rq_sorted (pri_of s1) (rq_insert (pri_of s) r l))
    by (eapply rq_sorted_ext; [|by apply rq_insert_sorted]; intros x; by rewrite Ep).
  destruct (pri_gt (pri_of s r) (pri_of s cur)) eqn:Hgt.
  - assert (Hins : rq_insert (pri_of s) r l = r :: l).
    { apply (rq_insert_between (pri_of s) r [] l); [constructor|].
      eapply Forall_impl; [exact Htop|]. intros x Hx. simpl in Hx.
      rewrite pri_le_gt, negb_false_iff. unfold pri_gt, pri_le in *. lia. }
    rewrite Hins in *.
    destruct (rq_insert_all (pri_of s) ql (r :: l)) as [|n L] eqn:HL.
    { pose proof (rq_insert_all_perm (pri_of s) ql (r :: l)) as Hp. rewrite HL in Hp.
      by apply Permutation_nil_l, eq_sym, app_nil in Hp as [_ ?]. }
    assert (HL' : rq_insert_all (pri_of s1) ql (r :: l) = n :: L)
      by (rewrite <-HL; by apply rq_insert_all_ext).
    destruct (schedule_from_interrupt_preempt c s1 cur C1 q ql r l n L Hcs1)
      as (s2 & q' & N' & He & Hs2 & Hcs2); [by rewrite Ep, HC1, <-Ecur|exact HL'|].
    exists s2. split; [by apply Ei|]. exists n, L. split_and!; [apply Hrun; by eapply exec_bind|done|].
    rewrite <-(rq_insert_ext _ _ cur L Ep).
    eapply (sched_ok_preempted c s1 s2 cur ql r l); [exact Hso1|by rewrite !Ep|exact HL'|exact Hs2|exact Hcs2].
  - exists s1. split; [by apply Ei|].
    assert (Htop1 : Forall (fun x => pri_le (pri_of s x) (pri_of s cur) = true) (rq_insert (pri_of s) r l))
      by (apply top_insert; [by rewrite pri_le_gt, Hgt|done]).
    split; [|split; [by eauto|exact Hso1|eapply top_ext; [|exact Htop1]; intros x; by rewrite Ep]].
    apply Hrun. eapply exec_bind_done; [|apply exec_ret].
    eapply schedule_from_interrupt_top; [exact Hcs1|]. eapply Forall_impl; [exact Htop1|].
    intros x. simpl. by rewrite Ep, HC1, Ecur.
Qed.


