(* ===== verification/Remote.v ===== *)
(** * Remote: making a process of another processor ready

    [schedule] hands a process of another processor to that processor's
    interprocessor queue and interrupts it; the handler there drains the queue
    and gives the processor to the process if it outranks the running one.
    Here the handler on every branch, and the whole way on the machine, from
    the waking processor's code to the woken process's. *)

From S2P Require Import Prelude Prog State Fixture Linked Hardware Exec Priority Ipq.
From S2P Require Import Sched ReadyQueue Dispatch Comm Rendezvous Timer Interrupt Handlers Signals Par.
From S2P Require Import Machine Adequacy Meeting.

#[local] Open Scope prog_scope.

(** ** The handler *)

Lemma same_procs_before s s' x X' :
  same_procs s s' -> procs s' !! x = Some X' ->
  exists X, procs s !! x = Some X /\ p_stackptr X = p_stackptr X'.
Proof.
  intros Hs HX'. pose proof (sp_stack _ _ Hs x) as E. unfold stack_of in E. rewrite HX' in E.
  destruct (procs s !! x) as [X|]; [|done]. exists X. by simplify_eq/=.
Qed.

Section Handler.
Context (c : Z).

(** Taking the first process out of the interprocessor queue. *)
Lemma pop_ready s cur x ql l :
  sched_ok c s cur (x :: ql) l ->
  exists s1 X, exec c ipq_remove s (Done x s1) /\ sched_step s s1 /\ procs s1 = procs s /\
    sched_ok c s1 cur ql l /\ procs s !! x = Some X /\ p_pun X = c /\ x <> NULL /\ x ∉ cur :: ql ++ l /\
    hw s1 = hw s /\ (forall d, d <> c -> ipQues s1 !! d = ipQues s !! d) /\ elsewhere c s s1.
Proof.
  intros [(C & q & Hcs) Hso Htop]. pose proof Hcs as [Hq Hcur HC HCp Hcur0 Hfr].
  destruct (queues_elem _ _ _ _ _ x Hq ltac:(rewrite elem_of_app, elem_of_cons; auto)) as (X & HX & HXp & HX0).
  pose proof Hq as [Hc Hiq Hr Hl Hrd Hnd]. cbn [app] in Hnd, Hfr.
  apply NoDup_cons in Hnd as [Hxl Hnd]. apply not_elem_of_cons in Hfr as [Hcx Hfr].
  assert (Hs : sched_step s (ipq_removed c (nextRem q) s)).
  { apply sbq_sched_step. etrans; apply sbq_upd_ipq. }
  exists (ipq_removed c (nextRem q) s), X. split_and!; [|exact Hs|done| |done..|by apply not_elem_of_cons|done| |by apply elsewhere_ext].
  - by eapply ipq_remove_cons.
  - split; [|exact Hso|exact Htop].
    exists C, (set_nextRem (next_slot (nextRem q)) (set_slot (nextRem q) NULL q)).
    eapply cpu_state_step; [exact Hcs|exact Hs|exact Hc| |by eapply ipq_removed_rep| |exact Hcur|exact HC|done..| |].
    + simpl. by rewrite !lookup_alter_eq, Hiq.
    + by eapply rdy_rep_ext; [| |exact Hl].
    + apply list_subseteq_cons; reflexivity.
    + by constructor.
  - intros d Hd. simpl. by rewrite !lookup_alter_ne.
Qed.

Lemma pop_none s cur l : sched_ok c s cur [] l -> exec c ipq_remove s (Done NULL s).
Proof.
  intros [(C & q & Hcs) _ _]. pose proof (cs_queues _ _ _ _ _ _ _ Hcs) as [Hc Hiq Hr _ _ _].
  by eapply ipq_remove_empty.
Qed.

Lemma schedule_from_interrupt_ok s cur ql l :
  sched_ok c s cur ql l -> exec c schedule_from_interrupt s (Done tt s).
Proof.
  intros [(C & q & Hcs) _ Htop]. eapply schedule_from_interrupt_stay; [apply Hcs..|].
  intros x L ->. apply Forall_cons in Htop as [Hx _].
  rewrite (pri_of_lookup _ _ _ (cs_proc _ _ _ _ _ _ _ Hcs)), pri_le_gt in Hx.
  by destruct (pri_gt _ _).
Qed.

(** The loop of the handler, and the handler as the loop. *)
Definition ipi_body (p : addr) : cprog (addr + unit) :=
  if negb (p =? NULL) then (schedule0 p;; n <- ipq_remove;; ret (inl n)) else ret (inr tt).

Lemma handler_loop :
  handle_interprocessor_interrupt =
  bind ipq_remove (fun p => Loop ipi_body p (fun _ => schedule_from_interrupt)).
Proof. unfold handle_interprocessor_interrupt, drain_ipq. by rewrite bind_assoc. Qed.

Lemma handler_none s cur l :
  sched_ok c s cur [] l -> exec c handle_interprocessor_interrupt s (Done tt s).
Proof.
  intros Hok. rewrite handler_loop. eapply exec_bind_done; [by eapply pop_none|].
  eapply (exec_loop c _ _ _ _ (inr tt)); [apply exec_ret|]. by eapply schedule_from_interrupt_ok.
Qed.

(** One process that does not outrank the running one, or one that does. *)
Lemma handler_enqueue s cur x ql l :
  sched_ok c s cur (x :: ql) l -> pri_le (pri_of s x) (pri_of s cur) = true ->
  exists s1, sched_step s s1 /\ (forall y, sts s1 y = sts s y) /\
    sched_ok c s1 cur ql (rq_insert (pri_of s) x l) /\
    forall o, exec c handle_interprocessor_interrupt s1 o -> exec c handle_interprocessor_interrupt s o.
Proof.
  intros Hok Hle. destruct (pop_ready _ _ _ _ _ Hok) as (s0 & X & Hpop & Hs0 & Ep & Hok0 & HX & HXp & HX0 & Hfr & _).
  assert (Epri : forall y, pri_of s0 y = pri_of s y) by (intros; unfold pri_of; by rewrite Ep).
  destruct (schedule0_own c s0 cur ql l x X Hok0) as (s1 & C & HC & Hs1 & Hst & _ & Hr); [by rewrite Ep|done..|].
  rewrite Ep in HC. rewrite (pri_of_lookup _ _ _ HX), (pri_of_lookup _ _ _ HC), pri_le_gt in Hle.
  destruct (pri_gt (p_pri X) (p_pri C)); [done|]. destruct Hr as (He & _ & Hok1).
  exists s1. split_and!; [by etrans| | |].
  - intros y. rewrite Hst. unfold sts. by rewrite Ep.
  - by rewrite <-(rq_insert_ext _ _ x l Epri).
  - intros o Ho. rewrite handler_loop. eapply exec_bind_done; [exact Hpop|]. apply exec_unroll.
    unfold ipi_body at 1. zb. rewrite bind_assoc. eapply exec_bind_done; [exact He|].
    rewrite bind_assoc. by rewrite handler_loop in Ho.
Qed.

Lemma handler_preempt s cur x ql l :
  sched_ok c s cur (x :: ql) l -> pri_le (pri_of s x) (pri_of s cur) = false ->
  exists s1 C X, procs s !! cur = Some C /\ procs s !! x = Some X /\
    sched_step s s1 /\ (forall y, sts s1 y = sts s y) /\
    sched_ok c s1 x ql (rq_insert (pri_of s) cur l) /\
    uctxs (hw s1) = <[p_stackptr C := Suspended]> (uctxs (hw s)) /\
    (forall d, d <> c -> ipQues s1 !! d = ipQues s !! d) /\ elsewhere c s s1 /\
    exec c handle_interprocessor_interrupt s
      (Switched (p_stackptr C) (p_stackptr X) handle_interprocessor_interrupt s1).
Proof.
  intros Hok Hle. destruct (pop_ready _ _ _ _ _ Hok) as (s0 & X & Hpop & Hs0 & Ep & Hok0 & HX & HXp & HX0 & Hfr & Eh0 & Ei0 & Hel0).
  assert (Epri : forall y, pri_of s0 y = pri_of s y) by (intros; unfold pri_of; by rewrite Ep).
  destruct (schedule0_own c s0 cur ql l x X Hok0) as (s1 & C & HC & Hs1 & Hst & [Ei1 Hel1] & Hr); [by rewrite Ep|done..|].
  rewrite Ep in HC. rewrite (pri_of_lookup _ _ _ HX), (pri_of_lookup _ _ _ HC), pri_le_gt in Hle.
  destruct (pri_gt (p_pri X) (p_pri C)); [|done]. destruct Hr as (He & Hu & Hok1).
  exists s1, C, X. split_and!; [done|done|by etrans| | |by rewrite Hu, Eh0| |by etrans|].
  - intros y. rewrite Hst. unfold sts. by rewrite Ep.
  - by rewrite <-(rq_insert_ext _ _ cur l Epri).
  - intros d Hd. by rewrite Ei1, Ei0.
  - rewrite handler_loop. eapply exec_bind_done; [exact Hpop|]. apply exec_unroll.
    unfold ipi_body at 1. zb. rewrite bind_assoc. eapply exec_bind; [exact He|].
    cbn [after bind]. by rewrite bind_assoc.
Qed.
End Handler.

(** C28: the handler of the interprocessor interrupt, on every branch.  The
    processes other processors have made ready are taken in order: each that
    does not outrank the running process is queued in priority order; the first
    that does gets the processor, the running process being suspended into the
    queue in the middle of its handler.  What it then has left to do is the
    handler again, for the processes that were behind.  The invariant holds at
    either end, and no process changes its state. *)
Theorem handle_interprocessor_interrupt_correct c s cur ql l :
  sched_ok c s cur ql l ->
  let (low, high) := span (fun x => pri_le (pri_of s x) (pri_of s cur)) ql in
  exists s', sched_step s s' /\ (forall y, sts s' y = sts s y) /\
    match high with
    | [] => exec c handle_interprocessor_interrupt s (Done tt s') /\
        sched_ok c s' cur [] (rq_insert_all (pri_of s) low l)
    | x :: rest => exists C X, procs s !! cur = Some C /\ procs s !! x = Some X /\
        exec c handle_interprocessor_interrupt s
          (Switched (p_stackptr C) (p_stackptr X) handle_interprocessor_interrupt s') /\
        uctxs (hw s') !! p_stackptr C = Some Suspended /\
        sched_ok c s' x rest (rq_insert (pri_of s) cur (rq_insert_all (pri_of s) low l))
    end.
Proof.
  revert s l. induction ql as [|x ql IH]; intros s l Hok; simpl.
  - exists s. split_and!; [done..|by eapply handler_none|done].
  - destruct (pri_le (pri_of s x) (pri_of s cur)) eqn:Hle.
    + destruct (handler_enqueue c s cur x ql l Hok Hle) as (s1 & Hs1 & Hst1 & Hok1 & Hrun).
      assert (Ep : forall y, pri_of s1 y = pri_of s y) by apply Hs1.
      specialize (IH s1 _ Hok1). rewrite (span_ext _ (fun x => pri_le (pri_of s x) (pri_of s cur))) in IH
        by (intros; by rewrite !Ep).
      destruct (span (fun x => pri_le (pri_of s x) (pri_of s cur)) ql) as [low high]; simpl.
      destruct IH as (s' & Hs' & Hst' & IH). exists s'. split_and!; [by etrans|by intros; rewrite Hst'|].
      rewrite (rq_insert_all_ext _ (pri_of s)) in IH by done.
      destruct high as [|y rest]; [destruct IH as [He Hok']; by split; [apply Hrun|]|].
      destruct IH as (C1 & Y1 & HC1 & HY1 & He & Hu & Hok').
      destruct (same_procs_before s s1 cur C1 Hs1 HC1) as (C & HC & EC).
      destruct (same_procs_before s s1 y Y1 Hs1 HY1) as (Y & HY & EY).
      exists C, Y. rewrite EC, EY. rewrite (rq_insert_ext _ (pri_of s)) in Hok' by done.
      split_and!; [done..|by apply Hrun|done|done].
    + destruct (handler_preempt c s cur x ql l Hok Hle)
        as (s' & C & X & HC & HX & Hs' & Hst' & Hok' & Hu & _ & _ & He).
      exists s'. split_and!; [done..|]. exists C, X. by rewrite Hu, lookup_insert_eq.
Qed.

(** ** The way on the machine *)

(** A process put into the interprocessor queue. *)
Lemma sched_ok_announced c s cur ql l p P :
  sched_ok c s cur ql l -> procs s !! p = Some P -> p_pun P = c -> p <> NULL -> p ∉ cur :: ql ++ l ->
  Z.of_nat (length ql) < QSIZE - 1 ->
  exists q, ipQues s !! c = Some q /\ ipq_rep q ql /\
    sched_ok c (ipq_added c (nextAdd q) p s) cur (ql ++ [p]) l.
Proof.
  intros [(C & q & Hcs) Hso Htop] HP HPp Hp0 Hfr Hlen. pose proof Hcs as [Hq Hcur HC HCp Hcur0 Hfc].
  pose proof Hq as [Hc Hiq Hr Hl Hrd Hnd]. exists q. split_and!; [done..|].
  apply not_elem_of_cons in Hfr as [Hpc Hfr].
  split; [|exact Hso|exact Htop].
  exists C, (set_slot (nextAdd q) p (set_nextAdd (next_slot (nextAdd q)) q)).
  assert (Hperm : (ql ++ [p]) ++ l ≡ₚ p :: ql ++ l)
    by (rewrite <-app_assoc; symmetry; apply Permutation_middle).
  split; [|done..|by rewrite Hperm; apply not_elem_of_cons]. split.
  - exact Hc.
  - simpl. by rewrite !lookup_alter_eq, Hiq.
  - by apply ipq_added_rep.
  - by eapply rdy_rep_ext; [| |exact Hl].
  - apply Forall_app. split; [exact Hrd|]. apply Forall_singleton. split_and!; [done| |by eexists].
    unfold pun_of. simpl. by rewrite HP.
  - rewrite Hperm. by constructor.
Qed.

Section Machine.
Context (user : code_p -> addr -> cprog unit).
Notation mnexts := (rtc (mnext user)).

Lemma tsteps_mnext t m m' : rtc (tstep user t) m m' -> mnexts m m'.
Proof.
  induction 1 as [|m1 m2 m3 H _ IH]; [done|]. eapply rtc_l; [|exact IH]. by apply (step_thread user t).
Qed.

Lemma tstep_save t a ctx k s m :
  tstep user t (running t (SaveCtx a ctx k) s m) (running t k s (with_saved a (mask_in t s) ctx m)).
Proof.
  unfold tstep, thread_step. rewrite running_lookup. unfold with_saved, with_run, running. simpl.
  by rewrite insert_insert_eq.
Qed.

(** What the delivery of the only pending signal does. *)
Definition sig_taken (t : Z) (s : sys) : sys := set_hw (set_pending (<[t := []]> (pending (hw s))) (hw s)) s.
Lemma deliver_one t g k p m :
  pending (hw (m_sys m)) !! t = Some [g] -> thread_mask (hw (m_sys m)) !! t = Some k ->
  sigismember k g = false -> g ∈ sigactions (hw (m_sys m)) -> m_run m !! t = Some p ->
  mnext user m (running t (handle_signal g k p;; set_own_mask k;; p)
                  (masked t sigfillset (sig_taken t (m_sys m))) m).
Proof.
  intros Hp Hk Hg Ha Hr. apply (step_signal user t). unfold deliver, deliverable, mask_of.
  rewrite Hp, Hk, Hr. cbn [mbind option_bind default from_option]. change (id k) with k.
  assert (Hl : filter (fun x => negb (sigismember k x) && bool_decide (x ∈ sigactions (hw (m_sys m))) = true) [g] = [g]).
  { by rewrite filter_cons_True by (by rewrite Hg, bool_decide_eq_true_2). }
  rewrite Hl. cbn [lowest foldr from_option mbind option_bind list_find].
  rewrite decide_True by done. reflexivity.
Qed.

(** The handler of a signal, up to the handler of its interrupt. *)
Lemma handle_signal_steps t s g intr pun cur P k p m :
  on_cpu t s -> current s !! t = Some cur -> procs s !! cur = Some P ->
  intr_desc (hw s) !! (g - SIGBASE (hw s)) = Some (mkIntrDesc pun intr) ->
  let s1 := suspended (p_stackptr P) (masked t sigfillset s) in
  exists h, (forall o, exec t (handle_interrupt intr;; enable) s1 o -> exec t h s1 o) /\
    mnexts (running t (handle_signal g k p;; set_own_mask k;; p) s m)
      (running t (h;; set_own_mask k;; p) s1
        (with_saved (p_stackptr P) sigfillset (set_own_mask k;; p) m)).
Proof.
  intros Hc Hcur HP Hd s1. destruct (handle_signal_run t s g pun intr cur P k p Hc Hcur HP Hd) as (h & He & Hh).
  exists h. split; [exact Hh|]. apply (tsteps_mnext t).
  destruct (exec_steps user t _ s _ (fun _ => set_own_mask k;; p) m He) as (m1 & Hm1 & ->).
  etransitivity; [exact Hm1|]. apply rtc_once.
  assert (Hm : mask_in t (suspended (p_stackptr P) (masked t sigfillset s)) = sigfillset)
    by (unfold mask_in; simpl; by rewrite lookup_insert_eq).
  rewrite <-Hm at 2. apply tstep_save.
Qed.
End Machine.

(** What the processors know of each other's signals: the interprocessor
    interrupt of processor [c] is signal [g], which thread [c] does not block
    and which is not pending. *)
Record reachable (c g : Z) (mk : sigset) (s : sys) : Prop := {
  re_thread : thread_id (hw s) !! c = Some c;
  re_signo : signal_no (hw s) !! (c, INTR_INTERPROC) = Some g;
  re_nonzero : g <> 0;
  re_pending : pending (hw s) !! c = Some [];
  re_mask : thread_mask (hw s) !! c = Some mk;
  re_open : sigismember mk g = false;
  re_tables : signals_ok (hw s) }.

(** The state after the waking processor's part. *)
Definition announced (c1 c2 g a p : Z) (mk1 : sigset) (s : sys) : sys :=
  masked c1 mk1 (signalled c2 g [] (ipq_added c2 a p
    (masked c1 sigfillset (upd_proc p (set_sched_state PROC_READY) s)))).

Lemma wake_announced c1 c2 s p P g mk1 mk2 q :
  on_cpu c1 s -> sigmask (hw s) !! c1 = Some mk1 -> procs s !! p = Some P -> p_pun P = c2 -> c1 <> c2 ->
  p_sched_state P = PROC_WAITING -> reachable c2 g mk2 s ->
  ipQues s !! c2 = Some q -> ipq_rep q [] ->
  exec c1 (wake p) s (Done tt (announced c1 c2 g (nextAdd q) p mk1 s)).
Proof.
  intros Hc Hmk HP HPp Hne Hst [R1 R2 R3 R4 R5 R6 R7] Hq Hr. unfold wake.
  eapply exec_xchg_sched; [exact HP|]. rewrite Hst. zb. unfold schedule. apply exec_disable.
  set (s1 := masked c1 sigfillset _).
  assert (HP1 : procs s1 !! p = Some (set_sched_state PROC_READY P)) by (simpl; by rewrite lookup_alter_eq, HP).
  eapply exec_bind_done.
  - eapply (schedule0_remote c1 s1 p _ q [] c2 g []); [done|exact HP1|simpl; congruence|simpl; by rewrite HPp|done|done|].
    split_and!; simpl; by rewrite ?HPp.
  - rewrite <-(bind_ret_r enable). eapply exec_enable; [done|exact Hmk|]. simpl. rewrite HPp. apply exec_ret.
Qed.

Section Arrive.
Context (user : code_p -> addr -> cprog unit).
Notation mnexts := (rtc (mnext user)).

(** What the arrival of the interrupt leaves alone: of the hardware, everything
    but the signal itself, the mask of the thread and the context saved under
    [sp]. *)
Record arrived (c : Z) (sp : addr) (s s' : sys) : Prop := {
  av_step : sched_step (sig_taken c s) s';
  av_sts : forall y, sts s' y = sts s y;
  av_ctxs : uctxs (hw s') = <[sp := Suspended]> (uctxs (hw s));
  av_ipq : forall d, d <> c -> ipQues s' !! d = ipQues s !! d;
  av_elsewhere : elsewhere c s s' }.

(** The interrupt arrives while processor [c] runs [w], one process being
    announced that outranks [w]: up to the switch to it. *)
Lemma arrive_switch c g m w W L p P mk k :
  let s := m_sys m in
  sched_ok c s w [p] L -> procs s !! w = Some W -> procs s !! p = Some P -> m_run m !! c = Some k ->
  signal_no (hw s) !! (c, INTR_INTERPROC) = Some g -> g <> 0 -> signals_ok (hw s) ->
  pending (hw s) !! c = Some [g] -> thread_mask (hw s) !! c = Some mk -> sigismember mk g = false ->
  pri_gt (p_pri P) (p_pri W) = true ->
  exists s', mnexts m (running c (Switch (p_stackptr W) (p_stackptr P)
      ((handle_interprocessor_interrupt;; enable);; set_own_mask mk;; k)) s'
      (with_saved (p_stackptr W) sigfillset (set_own_mask mk;; k) m)) /\
    arrived c (p_stackptr W) s s' /\ sched_ok c s' p [] (rq_insert (pri_of s) w L).
Proof.
  intros s Hok HW HP Hrun Hno Hg0 Htab Hpend Hmk Hopen Hgt.
  destruct (Htab _ _ _ Hno Hg0) as (_ & Hdesc & Hact & mh & Hmh & _).
  set (s2 := masked c sigfillset (sig_taken c s)).
  assert (Hok2 : sched_ok c s2 w [p] L) by by apply (sched_ok_frame c s).
  pose proof (deliver_one user c g mk k m Hpend Hmk Hopen Hact Hrun) as Hd. fold s s2 in Hd.
  destruct (so_cpu _ _ _ _ _ Hok2) as (W1 & q & Hcs).
  destruct (handle_signal_steps user c s2 g INTR_INTERPROC c w W mk k m) as (h & Hh & Hsteps);
    [apply Hcs|apply Hcs|done|done|].
  set (s3 := suspended (p_stackptr W) (masked c sigfillset s2)) in *.
  set (m3 := with_saved (p_stackptr W) sigfillset (set_own_mask mk;; k) m) in *.
  assert (Hok3 : sched_ok c s3 w [p] L) by by apply (sched_ok_frame c s).
  assert (Epri : forall x, pri_of s3 x = pri_of s x) by done.
  destruct (handler_preempt c s3 w p [] L Hok3) as (s4 & C & X & HC & HX & Hs4 & Hsts & Hok4 & Hu4 & Hi4 & Hel4 & He).
  { by rewrite !Epri, (pri_of_lookup _ _ _ HP), (pri_of_lookup _ _ _ HW), pri_le_gt, Hgt. }
  change (procs s3) with (procs s) in HC, HX. rewrite HW in HC. rewrite HP in HX. simplify_eq.
  exists s4. split_and!; [|split|exact Hok4].
  - eapply rtc_l; [exact Hd|]. etransitivity; [exact Hsteps|]. apply (tsteps_mnext user c).
    destruct (exec_steps user c h s3 (Switched (p_stackptr C) (p_stackptr X) (handle_interprocessor_interrupt;; enable) s4)
      (fun _ => set_own_mask mk;; k) m3) as (m4 & Hm4 & ->); [|exact Hm4].
    apply Hh. eapply exec_bind; [exact He|reflexivity].
  - etrans; [|exact Hs4]. etrans; [|apply sched_step_suspended].
    etrans; [apply (sched_step_masked c sigfillset)|apply sched_step_masked].
  - exact Hsts.
  - rewrite Hu4. simpl. by rewrite insert_insert_eq.
  - exact Hi4.
  - etrans; [|exact Hel4]. apply elsewhere_ext; [done..|]. intros d Hdc. simpl. by rewrite !lookup_insert_ne.
Qed.

(** One process being announced, whether it outranks [w] or not. *)
Lemma arrive c g m w W L p P mk k mp kp :
  let s := m_sys m in
  sched_ok c s w [p] L -> procs s !! w = Some W -> procs s !! p = Some P ->
  p_stackptr W <> p_stackptr P -> uctxs (hw s) !! p_stackptr P = Some Suspended ->
  m_saved m !! p_stackptr P = Some (mp, kp) -> m_run m !! c = Some k ->
  signal_no (hw s) !! (c, INTR_INTERPROC) = Some g -> g <> 0 -> signals_ok (hw s) ->
  pending (hw s) !! c = Some [g] -> thread_mask (hw s) !! c = Some mk -> sigismember mk g = false ->
  exists m', mnexts m m' /\ (forall t, t <> c -> m_run m' !! t = m_run m !! t) /\
    (forall y, sts (m_sys m') y = sts s y) /\
    if pri_gt (p_pri P) (p_pri W) then
      m_run m' !! c = Some kp /\ thread_mask (hw (m_sys m')) !! c = Some mp /\
      sched_ok c (m_sys m') p [] (rq_insert (pri_of s) w L) /\
      uctxs (hw (m_sys m')) !! p_stackptr W = Some Suspended /\
      exists mw, m_saved m' !! p_stackptr W =
        Some (mw, (handle_interprocessor_interrupt;; enable);; set_own_mask mk;; k)
    else
      m_run m' !! c = Some k /\ thread_mask (hw (m_sys m')) !! c = Some mk /\
      sched_ok c (m_sys m') w [] (rq_insert (pri_of s) p L).
Proof.
  intros s Hok HW HP Hst Hu Hsv Hrun Hno Hg0 Htab Hpend Hmk Hopen.
  destruct (pri_gt (p_pri P) (p_pri W)) eqn:Hgt.
  { destruct (arrive_switch c g m w W L p P mk k Hok HW HP Hrun Hno Hg0 Htab Hpend Hmk Hopen Hgt)
      as (s4 & Hsteps & [_ Hsts Hu4 _ _] & Hok4). fold s in Hsteps, Hsts, Hu4, Hok4.
    eexists. split_and!.
    - etransitivity; [exact Hsteps|]. apply (tsteps_mnext user c), rtc_once, tstep_switch; [exact Hst| |].
      + rewrite Hu4. by rewrite lookup_insert_ne.
      + simpl. by rewrite lookup_insert_ne.
    - intros t Ht. simpl. by rewrite lookup_insert_ne.
    - exact Hsts.
    - simpl. by rewrite lookup_insert_eq.
    - simpl. by rewrite lookup_insert_eq.
    - by apply sched_ok_masked.
    - simpl. by rewrite Hu4, lookup_insert_eq.
    - eexists. simpl. by rewrite lookup_insert_eq. }
  destruct (Htab _ _ _ Hno Hg0) as (_ & Hdesc & Hact & mh & Hmh & _).
  set (s2 := masked c sigfillset (sig_taken c s)).
  assert (Hok2 : sched_ok c s2 w [p] L) by by apply (sched_ok_frame c s).
  pose proof (deliver_one user c g mk k m Hpend Hmk Hopen Hact Hrun) as Hd. fold s s2 in Hd.
  destruct (so_cpu _ _ _ _ _ Hok2) as (W1 & q & Hcs).
  destruct (handle_signal_steps user c s2 g INTR_INTERPROC c w W mk k m) as (h & Hh & Hsteps);
    [apply Hcs|apply Hcs|done|done|].
  set (s3 := suspended (p_stackptr W) (masked c sigfillset s2)) in *.
  set (m3 := with_saved (p_stackptr W) sigfillset (set_own_mask mk;; k) m) in *.
  assert (Hok3 : sched_ok c s3 w [p] L) by by apply (sched_ok_frame c s).
  pose proof (handle_interprocessor_interrupt_correct c s3 w [p] L Hok3) as Hi.
  assert (Epri : forall x, pri_of s3 x = pri_of s x) by done.
  cbn [span] in Hi. rewrite !Epri, (pri_of_lookup _ _ _ HP), (pri_of_lookup _ _ _ HW), pri_le_gt in Hi.
  rewrite Hgt in Hi. cbn [negb] in Hi. destruct Hi as (s4 & Hs4 & Hsts & He & Hok4).
  assert (Hmh4 : sigmask (hw s4) !! c = Some mh) by by rewrite (sched_step_sigmask _ _ Hs4).
  exists (running c k (masked c mk (masked c mh s4)) m3). split_and!.
  - eapply rtc_l; [exact Hd|]. etransitivity; [exact Hsteps|]. apply (tsteps_mnext user c).
    etransitivity.
    + apply (exec_done_steps user c h s3 tt (masked c mh s4)). apply Hh.
      eapply exec_bind_done; [exact He|]. rewrite <-(bind_ret_r enable).
      eapply exec_enable; [|exact Hmh4|apply exec_ret].
      destruct (so_cpu _ _ _ _ _ Hok4) as (C4 & q4 & Hcs4). apply Hcs4.
    + apply (exec_done_steps user c (set_own_mask mk) _ tt _ (fun _ => k)).
      eapply exec_act; [reflexivity|apply exec_ret].
  - intros t Ht. simpl. by rewrite lookup_insert_ne.
  - exact Hsts.
  - simpl. by rewrite lookup_insert_eq.
  - simpl. by rewrite lookup_insert_eq.
  - by do 2 apply sched_ok_masked.
Qed.
End Arrive.

(** C7: making a process of another processor ready, on the machine with both
    processors.  [p] waits on its processor [c2], where [w] runs with its
    interrupts open; processor [c1] wakes it.  [wake] returns there with [p]
    marked ready, announced and signalled, and with the interrupts enabled; and
    then the machine gets, by the signal and its handler on [c2] alone, to where
    [p] runs its own code again if it outranks [w], and otherwise to where [w]
    goes on exactly as before the interrupt with [p] in the ready queue.  In the
    first case [w] has been put back into the ready queue, and what is saved for
    it is the rest of the handler, the reinstalling of its signal mask and then
    its own code.  The scheduler's invariant holds on [c2]. *)
Theorem remote_wake user c1 c2 s w W L p P g mk1 mk2 k1 k2 mp kp m :
  c1 <> c2 -> on_cpu c1 s -> sigmask (hw s) !! c1 = Some mk1 ->
  sched_ok c2 s w [] L -> procs s !! w = Some W ->
  procs s !! p = Some P -> p_pun P = c2 -> p_sched_state P = PROC_WAITING -> p <> NULL -> p ∉ w :: L ->
  p_stackptr W <> p_stackptr P -> uctxs (hw s) !! p_stackptr P = Some Suspended ->
  m_saved m !! p_stackptr P = Some (mp, kp) -> m_run m !! c2 = Some k2 -> reachable c2 g mk2 s ->
  exists s1, rtc (mnext user) (running c1 (wake p;; k1) s m) (running c1 k1 s1 m) /\
    sts s1 p = Some (PROC_READY, p_alt_state P) /\ thread_mask (hw s1) !! c1 = Some mk1 /\
    pending (hw s1) !! c2 = Some [g] /\ sched_ok c2 s1 w [p] L /\
    exists m', rtc (mnext user) (running c1 k1 s1 m) m' /\ m_run m' !! c1 = Some k1 /\
      (forall y, sts (m_sys m') y = sts s1 y) /\
      if pri_gt (p_pri P) (p_pri W) then
        m_run m' !! c2 = Some kp /\ thread_mask (hw (m_sys m')) !! c2 = Some mp /\
        sched_ok c2 (m_sys m') p [] (rq_insert (pri_of s) w L) /\
        uctxs (hw (m_sys m')) !! p_stackptr W = Some Suspended /\
        exists mw, m_saved m' !! p_stackptr W =
          Some (mw, (handle_interprocessor_interrupt;; enable);; set_own_mask mk2;; k2)
      else
        m_run m' !! c2 = Some k2 /\ thread_mask (hw (m_sys m')) !! c2 = Some mk2 /\
        sched_ok c2 (m_sys m') w [] (rq_insert (pri_of s) p L).
Proof.
  intros Hne Hc1 Hmk1 Hok HW HP HPp Hwait Hp0 HpL Hst Hu Hsv Hrun Hre.
  pose proof Hre as [R1 R2 R3 R4 R5 R6 R7].
  set (sr := upd_proc p (set_sched_state PROC_READY) s). set (s0 := masked c1 sigfillset sr).
  assert (Hok0 : sched_ok c2 s0 w [] L) by (apply sched_ok_masked, sched_ok_quiet; auto with cxp).
  assert (HP0 : procs s0 !! p = Some (set_sched_state PROC_READY P)) by (simpl; by rewrite lookup_alter_eq, HP).
  assert (Hpw : p <> w) by (intros ->; apply HpL; by left).
  assert (HW0 : procs s0 !! w = Some W) by (simpl; by rewrite lookup_alter_ne).
  destruct (sched_ok_announced c2 s0 w [] L p _ Hok0 HP0 HPp Hp0 HpL ltac:(done)) as (q & Hq & Hr & Hok1).
  set (s1 := announced c1 c2 g (nextAdd q) p mk1 s).
  assert (Hok2 : sched_ok c2 s1 w [p] L) by (apply sched_ok_masked; by apply (sched_ok_frame c2 (ipq_added c2 (nextAdd q) p s0))).
  exists s1. split_and!.
  - apply (tsteps_mnext user c1), (exec_done_steps user c1 (wake p) s tt s1 (fun _ => k1)).
    by eapply wake_announced.
  - unfold sts. change (procs s1) with (procs s0). by rewrite HP0.
  - simpl. by rewrite lookup_insert_eq.
  - simpl. by rewrite lookup_insert_eq.
  - exact Hok2.
  - destruct (arrive user c2 g (running c1 k1 s1 m) w W L p (set_sched_state PROC_READY P) mk2 k2 mp kp)
      as (m' & Hm' & Hrest & Hsts & Hfin); try done.
    + simpl. by rewrite lookup_insert_ne.
    + simpl. by rewrite lookup_insert_eq.
    + simpl. by rewrite !lookup_insert_ne.
    + exists m'. split_and!; [done| |done|].
      * rewrite Hrest by done. apply lookup_insert_eq.
      * assert (Epri : forall x, pri_of s1 x = pri_of s x) by (intros x; apply (pri_of_quiet _ (quiet_sched_state _))).
        rewrite !(rq_insert_ext _ _ _ _ Epri) in Hfin. exact Hfin.
Qed.

(** Processor 0 of the sample state, with [pH] (which outranks the running
    process) and [pL] announced, and with nobody announced. *)
Lemma handle_interprocessor_interrupt_correct_witness :
  (exists s', exec 0 handle_interprocessor_interrupt sample_remote
       (Switched pA pH handle_interprocessor_interrupt s') /\
     sched_ok 0 s' pH [pL] [pB; pA; idle0]) /\
  (exists s', exec 0 handle_interprocessor_interrupt sample (Done tt s')).
Proof.
  split.
  - assert (Hok : sched_ok 0 sample_remote pA [pH; pL] [pB; idle0]).
    { split; [eexists _, _; exact sample_cpu|exact sample_sorted|by repeat constructor]. }
    destruct (handle_interprocessor_interrupt_correct 0 sample_remote pA [pH; pL] [pB; idle0] Hok)
      as (s' & _ & _ & C & X & HC & HX & He & _ & Hok').
    assert (C = sample_proc pA NULL 1024 0 PROC_READY) as -> by (vm_compute in HC; by injection HC as <-).
    assert (X = sample_proc pH NULL 512 0 PROC_WAITING) as -> by (vm_compute in HX; by injection HX as <-).
    exists s'. split; [exact He|exact Hok'].
  - destruct (handle_interprocessor_interrupt_correct 0 sample pA [] [pB; idle0] sample_ok)
      as (s' & _ & _ & He & _). exists s'. exact He.
Defined.

(** [pS], of value [v], waits on processor 1, where [pR] runs; processor 0
    wakes it. *)
Definition sample_apart (v : Z) : sys :=
  set_hw (set_next_signo 51 (set_uctxs {[pS := Suspended]} sample_hw))
    (set_procs (<[pS := sample_proc pS NULL v 1 PROC_WAITING]> sample_procs) sample).
Definition sample_two (v : Z) : machine :=
  mkMachine (sample_apart v) {[1 := yield]} {[pS := (sigemptyset, relinquish)]}.

Lemma sample_apart_ok v : v ∈ [512; 1024] -> sched_ok 1 (sample_apart v) pR [] [idle1].
Proof.
  intros Hv. repeat (apply elem_of_cons in Hv as [->|Hv]; [|]); [..|by apply not_elem_of_nil in Hv].
  all: split; [|repeat constructor|by repeat constructor].
  all: eexists _, empty_ipq; split; [|reflexivity..|done|concrete_nodup].
  all: split; [by vm_compute|reflexivity|exact empty_ipq_rep| |constructor|concrete_nodup].
  all: split; [reflexivity|concrete_linked|concrete_forall].
Qed.

Lemma sample_apart_reachable v : reachable 1 48 sigemptyset (sample_apart v).
Proof. split; try done. by apply signals_ok_check. Qed.

Lemma remote_wake_witness :
  (exists m, rtc (mnext (fun _ _ => ret tt)) (running 0 (wake pS;; ret tt) (sample_apart 512) (sample_two 512)) m /\
     m_run m !! 1 = Some relinquish /\ sched_ok 1 (m_sys m) pS [] [pR; idle1]) /\
  (exists m, rtc (mnext (fun _ _ => ret tt)) (running 0 (wake pS;; ret tt) (sample_apart 1024) (sample_two 1024)) m /\
     m_run m !! 1 = Some yield /\ sched_ok 1 (m_sys m) pR [] [pS; idle1]).
Proof.
  split.
  - destruct (remote_wake (fun _ _ => ret tt) 0 1 (sample_apart 512) pR (sample_proc pR NULL 1024 1 PROC_READY)
      [idle1] pS (sample_proc pS NULL 512 1 PROC_WAITING) 48 sigemptyset sigemptyset (ret tt) yield
      sigemptyset relinquish (sample_two 512)) as (s1 & H1 & _ & _ & _ & _ & m & H2 & _ & _ & H3 & _ & H4 & _);
      [done|by vm_compute|done|by apply sample_apart_ok; left|done..|concrete_nodup|done|done|done|done|apply sample_apart_reachable|].
    exists m. split_and!; [by etransitivity|exact H3|exact H4].
  - destruct (remote_wake (fun _ _ => ret tt) 0 1 (sample_apart 1024) pR (sample_proc pR NULL 1024 1 PROC_READY)
      [idle1] pS (sample_proc pS NULL 1024 1 PROC_WAITING) 48 sigemptyset sigemptyset (ret tt) yield
      sigemptyset relinquish (sample_two 1024)) as (s1 & H1 & _ & _ & _ & _ & m & H2 & _ & _ & H3 & _ & H4);
      [done|by vm_compute|done|by apply sample_apart_ok; right; left|done..|concrete_nodup|done|done|done|done|apply sample_apart_reachable|].
    exists m. split_and!; [by etransitivity|exact H3|exact H4].
Defined.
(** ** A parent that is still running *)

(** The parent [pA] of one child on the other processor has not given up
    processor 0 yet, with only the idle process of the processor ready; [pB],
    of the same priority, and [pH], of a higher one, wait. *)
Definition sample_barrier : sys :=
  set_bars {[0x900 := mkParBarrier 1 pA]}
    (set_rdyQues (<[0 := idle0]> (rdyQues sample))
      (set_procs (<[pA := sample_proc pA NULL 1024 0 PROC_PREPARING_TO_WAIT]>
         (<[pB := sample_proc pB NULL 1024 0 PROC_WAITING]> (procs sample))) sample)).

Definition barrier_child : cprog unit := par_barr_sync 0x900;; wake pB;; wake pH.
Definition sample_child_done : sys := end_state 200 1 barrier_child sample_barrier.

(** C34: a child that ends before its parent has given up the processor loses
    processes of the parent's processor.  [par_barr_sync] hands the parent to
    its processor without looking at its state, as [wake] does; when [pB] and
    [pH] are woken after it, the handler on the parent's processor queues the
    parent while it runs, [pB] behind it, and the parent a second time when it
    suspends it for [pH]: [pB] is unlinked, and ends up ready, not running, and
    in no queue. *)
Theorem barrier_window_loses_process :
  sched_ok 0 sample_barrier pA [] [idle0] /\
  exists s1, exec 1 (par_barr_sync 0x900;; wake pB;; wake pH) sample_barrier (Done tt s1) /\
    exists k s2, exec 0 handle_interprocessor_interrupt s1 (Switched pA pH k s2) /\
      sts s2 pB = Some (PROC_READY, ALT_NONE) /\ current s2 !! 0 = Some pH /\
      rdy_rep s2 0 [pA; idle0] /\ (nextRem <$> ipQues s2 !! 0) = (nextAdd <$> ipQues s2 !! 0).
Proof.
  split.
  - split; [|repeat constructor|by repeat constructor].
    eexists _, empty_ipq; split; [|reflexivity..|done|concrete_nodup].
    split; [by vm_compute|reflexivity|exact empty_ipq_rep| |constructor|concrete_nodup].
    split; [reflexivity|concrete_linked|concrete_forall].
  - exists sample_child_done. split; [apply end_done; by vm_compute|].
    destruct (end_spec 200 0 handle_interprocessor_interrupt sample_child_done (Left pA pH)) as [k Hk]; [by vm_compute|].
    eexists k, _. split_and!; [exact Hk|by vm_compute..| |by vm_compute].
    split; [by vm_compute|concrete_linked|concrete_forall].
Qed.
