(* ===== verification/Life.v ===== *)
(** * Life: how processes end and begin

    [terminate] moves to the termination stack of its processor and
    [finish_termination] releases the process record and passes the processor
    on; [build_process] and [make_process] cut a record from the heap. *)

From S2P Require Import Prelude Prog State Fixture Linked Hardware.
From S2P Require Import Exec Priority Ipq Sched ReadyQueue Dispatch.
From S2P Require Import Mutex Memory Heap Timer Proc Handlers.
From S2P Require Import Boot Machine Adequacy.

#[local] Open Scope prog_scope.

(** ** Frames *)

(** The queues of a processor depend only on the records in them. *)
Lemma queues_agree c s s' q ql l :
  rdyQues s' = rdyQues s -> ipQues s' !! c = ipQues s !! c -> cpu_key (hw s') = cpu_key (hw s) ->
  (forall x, x ∈ ql ++ l -> procs s' !! x = procs s !! x) ->
  queues c s q ql l -> queues c s' q ql l.
Proof.
  intros E1 E2 E3 E4 [H1 H2 H3 [R1 R2 R3] H5 H6].
  assert (Hp : forall x, x ∈ ql ++ l -> pun_of s' x = pun_of s x)
    by (intros x Hx; unfold pun_of; by rewrite E4).
  split; [unfold on_cpu; by rewrite E3|by rewrite E2|done| | |done].
  - split; [by rewrite E1| |].
    + eapply linked_agree; [|exact R2]. intros x Hx. by rewrite E4 by set_solver.
    + intros x Hx. rewrite Hp by set_solver. auto.
  - rewrite Forall_forall in H5 |- *. intros x Hx. destruct (H5 x Hx) as (Hx0 & Hxp & HX).
    split_and!; [done|by rewrite Hp by set_solver|by rewrite E4 by set_solver].
Qed.

(** ** Termination *)

Lemma terminate_run c s cur C k :
  on_cpu c s -> current s !! c = Some cur -> procs s !! cur = Some C -> p_pun C = c ->
  mutexes s !! term_mutex c = Some false -> thread_mask (hw s) !! c = Some k ->
  exec c terminate s (Resumed (p_stackptr C)
    (set_hw (set_uctxs (<[p_stackptr C := Fresh k CFinishTermination CNull NULL NULL]> (uctxs (hw s)))
       (hw s)) (upd_mutex (term_mutex c) true s))).
Proof.
  intros Hc Hcur HC HCp Hm Hk. unfold terminate.
  eapply exec_get_current; [exact Hc|exact Hcur|]. xstep1. rewrite HCp.
  eapply (claim_free (release := release_mutex)); [exact Hm|]. unfold set_stack.
  eapply exec_pget; [exact HC|]. unfold own_mask. eapply exec_action; [simpl; by rewrite Hk|].
  apply exec_hset. apply exec_resume.
Qed.

(** The end of [finish_termination]; [s] is the state after the release of the
    record. *)
Lemma pass_on_run c s q ql l n L :
  queues c s q ql l -> rq_insert_all (pri_of s) ql l = n :: L ->
  is_Some (mutexes s !! term_mutex c) ->
  exists s' q' N', exec c (disable;; release_mutex (term_mutex c);; newproc <- take c;;
      set_current newproc;; restore_context newproc) s (Resumed (A := unit) n s') /\
    sched_step (upd_mutex (term_mutex c) false s) s' /\ cpu_state c s' n N' q' [] L /\
    (forall x, sts s' x = sts s x) /\ uctxs (hw s') = uctxs (hw s) /\
    ipQues s' = <[c := q']> (ipQues s) /\ elsewhere c s s'.
Proof.
  intros Hq HL Hm. set (s0 := upd_mutex (term_mutex c) false (masked c sigfillset s)).
  assert (Hq0 : queues c s0 q ql l) by by apply (queues_agree c s).
  assert (Hn : n ∈ ql ++ l) by (rewrite <-(rq_insert_all_perm (pri_of s)), HL; left).
  destruct (queues_elem _ _ _ _ _ n Hq0 Hn) as (N & HN & HNp & Hn0).
  assert (HL0 : rq_insert_all (pri_of s0) ql l = n :: L) by exact HL.
  assert (Hnd : NoDup (n :: L)) by (rewrite <-HL, rq_insert_all_perm; apply Hq).
  destruct (take_spec c s0 q ql l Hq0) as (s1 & q' & Ht & Hd). rewrite HL0 in Ht, Hd.
  apply elsewhere_drained in Hd as Hel. destruct Hd as (Hl1 & Hs1 & Hi1 & Hr1 & _).
  destruct (sbq_lookup _ _ Hs1 n N HN) as [v HN1].
  assert (Hc1 : on_cpu c s1) by (eapply sbq_on_cpu; [exact Hs1|apply Hq0]).
  exists (made_current c n (p_pri N) s1), q', (set_next v N). split_and!.
  - apply exec_disable. eapply (release_taken (claim := claim_mutex)); [exact Hm|].
    eapply exec_bind_done; [exact Ht|]. eapply exec_set_current; [exact Hc1|exact HN1|done|].
    apply exec_resume.
  - etrans; [by apply (sched_step_ext _ s0)|]. etrans; [by apply sbq_sched_step|].
    by apply sched_step_ext.
  - apply NoDup_cons in Hnd as [HnL Hnd]. split; [split|..]; try done.
    + simpl. rewrite Hi1. by rewrite lookup_insert_eq.
    + by apply rdy_rep_made_current.
    + simpl. by rewrite lookup_insert_eq.
  - intros x. exact (sbq_sts _ _ x Hs1).
  - simpl. by rewrite (sbq_hw _ _ Hs1).
  - exact Hi1.
  - etrans; [apply (elsewhere_ext c s s0); [done..|intros d Hd; simpl; by rewrite lookup_insert_ne]|]. etrans; [exact Hel|apply elsewhere_made_current].
Qed.

Lemma sched_step_none s s' x : sched_step s s' -> procs s !! x = None -> procs s' !! x = None.
Proof. intros Hs. apply same_procs_none, Hs. Qed.

Section Termination.
Context (user : code_p -> addr -> cprog unit).
Notation tsteps t := (rtc (tstep user t)).

(** [setcontext] to a context that has not run, and to a suspended one. *)
Lemma tstep_fresh t a k code a1 a2 ua s m :
  uctxs (hw s) !! a = Some (Fresh k code a1 a2 ua) ->
  tstep user t (running t (Resume a) s m) (running t (code_prog user code a1 a2 ua) (masked t k s) m).
Proof.
  intros Hu. unfold tstep, thread_step. rewrite running_lookup. unfold dispatch. simpl.
  rewrite Hu. unfold with_mask, with_run, with_sys, running. simpl. by rewrite insert_insert_eq.
Qed.

Lemma tstep_resume t a k p s m :
  uctxs (hw s) !! a = Some Suspended -> m_saved m !! a = Some (k, p) ->
  tstep user t (running t (Resume a) s m) (running t p (masked t k s) m).
Proof.
  intros Hu Hm. unfold tstep, thread_step. rewrite running_lookup. unfold dispatch. simpl.
  rewrite Hu, Hm. unfold with_mask, with_run, with_sys, running. simpl. by rewrite insert_insert_eq.
Qed.

Lemma exec_resumed_steps {A} t (p : cprog A) s new s' k m :
  exec t p s (Resumed new s') -> tsteps t (running t (bind p k) s m) (running t (Resume new) s' m).
Proof. intros He. by destruct (exec_steps user t p s _ k m He) as (m1 & H1 & ->). Qed.

(** The state in which [terminate] looks for the next process: the record of
    [cur] is on the free list before [fr], its context is that of the
    termination stack, whose mutex has been claimed and released. *)
Definition ended (t : Z) (k : sigset) (cur : addr) (C : Process) (fr : addr) (s : sys) : sys :=
  upd_mutex (term_mutex t) false (upd_list (p_index C) cur (upd_chain cur fr
    (masked t k (set_hw (set_uctxs
        (<[p_stackptr C := Fresh k CFinishTermination CNull NULL NULL]> (uctxs (hw s))) (hw s))
      (upd_mutex (term_mutex t) true s))))).

(** What passing the processor on changes. *)
Record passed_on (s s' : sys) : Prop := {
  po_step :> sched_step s s';
  po_sts : forall x, sts s' x = sts s x;
  po_ctxs : uctxs (hw s') = uctxs (hw s) }.

Lemma terminate_steps t s cur C q ql l n L base carved free k m rest :
  cpu_state t s cur C q ql l -> rq_sorted (pri_of s) l ->
  rq_insert_all (pri_of s) ql l = n :: L ->
  heap_ok base s carved free -> live carved free cur (p_index C) ->
  mutexes s !! mutex_mem = Some false -> mutexes s !! term_mutex t = Some false ->
  thread_mask (hw s) !! t = Some k ->
  exists s', tsteps t (running t (terminate;; rest) s m) (running t (Resume n) s' m) /\
    passed_on (ended t k cur C (first (free (p_index C))) s) s' /\
    sched_ok t s' n [] L /\ procs s' !! cur = None /\
    heap_ok base s' carved (upd_free (p_index C) (cur :: free (p_index C)) free) /\
    elsewhere t s s' /\ (forall d, d <> t -> ipQues s' !! d = ipQues s !! d).
Proof.
  intros Hcs Hso HL Hk Hlive Hmm Hmt Hmask.
  pose proof Hcs as [Hq Hcur HC HCp Hcur0 Hfr].
  pose proof (terminate_run t s cur C k (qs_cpu _ _ _ _ _ Hq) Hcur HC HCp Hmt Hmask) as Hterm.
  set (s1 := set_hw _ _) in Hterm. set (s2 := masked t k s1).
  destruct (release_back t base s2 carved free (p_index C) cur ltac:(by apply (heap_ok_frame base s))
    Hlive ltac:(simpl; by rewrite lookup_insert_ne)) as [Hrel Hk3].
  set (s3 := upd_list _ _ _) in Hrel, Hk3.
  assert (Hp3 : forall x, x <> cur -> procs s3 !! x = procs s !! x)
    by (intros x Hx; simpl; by rewrite lookup_delete_ne).
  assert (Hpri : forall x, x ∈ ql ++ l -> pri_of s3 x = pri_of s x).
  { intros x Hx. unfold pri_of. rewrite Hp3; [done|]. intros ->. done. }
  assert (Hq3 : queues t s3 q ql l).
  { apply (queues_agree t s); [done..| |done]. intros x Hx. apply Hp3. intros ->. done. }
  assert (HL3 : rq_insert_all (pri_of s3) ql l = n :: L)
    by (rewrite <-HL; by apply rq_insert_all_agree).
  destruct (pass_on_run t s3 q ql l n L Hq3 HL3 ltac:(simpl; rewrite lookup_insert_eq; by eexists))
    as (s4 & q' & N' & Hfin & Hstep & Hcs4 & Hsts & Hu & Hi & Hel).
  assert (Hrun : exec t (code_prog user CFinishTermination CNull NULL NULL) s2 (Resumed n s4)).
  { simpl. unfold finish_termination. eapply exec_get_current; [apply Hq|exact Hcur|].
    eapply exec_pget; [exact HC|]. eapply exec_pget; [exact HC|]. rewrite HCp.
    eapply exec_bind_done; [exact Hrel|]. exact Hfin. }
  exists s4. split_and!.
  - etransitivity; [by apply exec_resumed_steps|].
    eapply rtc_l; [apply tstep_fresh; simpl; by rewrite lookup_insert_eq|].
    rewrite <-(bind_ret_r (code_prog _ _ _ _ _)). by apply exec_resumed_steps.
  - split; [exact Hstep|exact Hsts|exact Hu].
  - eapply (sched_ok_taken t (upd_mutex (term_mutex t) false s3)); [|exact HL3|exact Hstep|exact Hcs4].
    eapply rq_sorted_agree; [|exact Hso]. intros x Hx. symmetry. apply Hpri. set_solver.
  - eapply sched_step_none; [exact Hstep|]. simpl. by rewrite lookup_delete_eq.
  - apply (heap_ok_frame base s3); [by rewrite (ss_rest _ _ Hstep)..|exact Hk3].
  - etrans; [|exact Hel]. apply elsewhere_agree; [done..|intros d Hd; simpl; by rewrite lookup_insert_ne|].
    intros x X HX HXp. rewrite Hp3; [done|]. intros ->. congruence.
  - intros d Hd. rewrite Hi. by apply lookup_insert_ne.
Qed.

Lemma ended_step t k cur C fr s s' :
  sched_step (ended t k cur C fr s) s' -> mutexes s !! term_mutex t = Some false ->
  mutexes s' = mutexes s /\ hw_kept (hw s') = hw_kept (hw s) /\
  (forall x, x <> p_stackptr C -> uctxs (hw s) !! x = Some Suspended -> uctxs (hw s') !! x = Some Suspended).
Proof.
  intros Hs Hm. split_and!.
  - rewrite (ss_rest _ _ Hs). simpl. by rewrite insert_insert_eq, insert_id.
  - by rewrite (ss_hw _ _ Hs).
  - intros x Hx Hu. apply (ss_ctxs _ _ Hs). simpl. by rewrite lookup_insert_ne.
Qed.

(** C26: [terminate] ends a process, on the machine.  Whatever was to follow the
    call is never run: the thread goes through the termination stack to the
    first process of the merged queue, under which the scheduler's invariant
    holds.  By then the record of the process is gone, its block and no other has
    become free, and the termination stack can be claimed again. *)
Theorem terminate_correct t s cur C q ql l n L base carved free k mn pn m rest :
  cpu_state t s cur C q ql l -> rq_sorted (pri_of s) l ->
  rq_insert_all (pri_of s) ql l = n :: L ->
  heap_ok base s carved free -> live carved free cur (p_index C) ->
  mutexes s !! mutex_mem = Some false -> mutexes s !! term_mutex t = Some false ->
  thread_mask (hw s) !! t = Some k ->
  n <> p_stackptr C -> uctxs (hw s) !! n = Some Suspended -> m_saved m !! n = Some (mn, pn) ->
  exists s', tsteps t (running t (terminate;; rest) s m) (running t pn s' m) /\
    sched_ok t s' n [] L /\ procs s' !! cur = None /\
    heap_ok base s' carved (upd_free (p_index C) (cur :: free (p_index C)) free) /\
    mutexes s' = mutexes s /\ thread_mask (hw s') !! t = Some mn.
Proof.
  intros Hcs Hso HL Hk Hlive Hmm Hmt Hmask Hn Hu Hsv.
  destruct (terminate_steps t s cur C q ql l n L base carved free k m rest Hcs Hso HL Hk Hlive Hmm Hmt Hmask)
    as (s4 & Hsteps & Hstep & Hok & Hdead & Hk4 & _).
  destruct (ended_step _ _ _ _ _ _ _ Hstep Hmt) as (Em & _ & Hus).
  exists (masked t mn s4). split_and!.
  - etransitivity; [exact Hsteps|]. apply rtc_once, tstep_resume; [by apply Hus|exact Hsv].
  - by apply sched_ok_masked.
  - exact Hdead.
  - by apply (heap_ok_frame base s4).
  - exact Em.
  - simpl. by rewrite lookup_insert_eq.
Qed.
End Termination.


(** ** At concrete inputs: [pA] is the only block, and terminates *)

Definition sample_pA : gmap addr Z := {[pA := 6]}.

Lemma sample_pA_heap : heap_ok pA sample sample_pA (fun _ => []).
Proof.
  pose proof sample_heap as [_ H2 _ _ _]. split; [by vm_compute|exact H2|set_solver| |].
  - intros a i. unfold sample_pA. rewrite lookup_singleton. case_decide; intros; simplify_eq.
    vm_compute. split_and!; congruence.
  - intros a i b j. unfold sample_pA. rewrite !lookup_singleton.
    repeat case_decide; intros; simplify_eq.
Qed.

Lemma sample_pA_live : live sample_pA (fun _ => []) pA 6.
Proof. split; [done|set_solver]. Qed.

Lemma terminate_correct_witness :
  exists s', rtc (tstep (fun _ _ => ret tt) 0)
      (running 0 (terminate;; ret tt) (suspended pB sample)
         (mkMachine sample ∅ {[pB := (sigemptyset, enable)]}))
      (running 0 enable s' (mkMachine sample ∅ {[pB := (sigemptyset, enable)]})) /\
    procs s' !! pA = None.
Proof.
  destruct (terminate_correct (fun _ _ => ret tt) 0 (suspended pB sample) pA
    (sample_proc pA NULL 1024 0 PROC_READY) empty_ipq [] [pB; idle0] pB [idle0] pA sample_pA
    (fun _ => []) sigemptyset sigemptyset enable (mkMachine sample ∅ {[pB := (sigemptyset, enable)]})
    (ret tt)) as (s' & Hs & _ & Hp & _).
  - by apply (cpu_state_ext 0 sample), sample_cpu_local.
  - repeat constructor.
  - by vm_compute.
  - by apply (heap_ok_frame pA sample), sample_pA_heap.
  - exact sample_pA_live.
  - done.
  - done.
  - done.
  - done.
  - done.
  - exact (lookup_singleton_eq pB _).
  - exists s'. split; assumption.
Defined.

