(* ===== verification/Spawn.v ===== *)
(** * Spawn: creating processes

    [build_process] and [make_process] cut a process record from the heap and
    give it a context; the constructs of [Par] hand each new process to its
    processor, and let the parent wait.  The ready queues hold records in blocks
    that are in use, so a new record is never one that is queued.  The loops are
    treated once for all four constructs; then follow [par] and [par_pri]. *)

From S2P Require Import Prelude Prog State Fixture Linked Hardware.
From S2P Require Import Exec Priority Ipq Sched ReadyQueue Dispatch.
From S2P Require Import Mutex Memory Heap Proc Par Life.

#[local] Open Scope prog_scope.

(** Every process record is a block in use, of the size class it says. *)
Definition rooted (s : sys) (carved : gmap addr Z) (free : Z -> list addr) : Prop :=
  forall x X, procs s !! x = Some X -> live carved free x (p_index X).

Lemma rooted_step s s' carved free :
  (forall x, stack_of s' x = stack_of s x) -> rooted s carved free -> rooted s' carved free.
Proof.
  intros Hs Hr x X HX. specialize (Hs x). unfold stack_of in Hs. rewrite HX in Hs.
  destruct (procs s !! x) as [Y|] eqn:HY; simplify_eq/=. replace (p_index X) with (p_index Y) by congruence.
  by apply Hr.
Qed.

(** What creating processes leaves alone: the records there are but for their
    links, and everything but the queues, the heap, the saved contexts and the
    interrupts under way. *)
Definition hw_quiet (h : hardware) : hardware := set_pending ∅ (hw_kept h).
Record spawn_frame (s s' : sys) : Prop := {
  pf_old : forall x X, procs s !! x = Some X -> exists n, procs s' !! x = Some (set_next n X);
  pf_hw : hw_quiet (hw s') = hw_quiet (hw s);
  pf_ctxs : forall x X, procs s !! x = Some X -> uctxs (hw s') !! x = uctxs (hw s) !! x;
  pf_rest : s' = set_hw (hw s') (set_procs (procs s') (set_rdyQues (rdyQues s') (set_ipQues (ipQues s')
    (set_tail (tail s') (set_procmemlist (procmemlist s') s))))) }.

#[export] Instance spawn_frame_preorder : PreOrder spawn_frame.
Proof.
  split.
  - intros s. split; [|done|done|by destruct s]. intros x X HX. exists (p_next X). by destruct X.
  - intros s1 s2 s3 [H1 H2 H3 H4] [H5 H6 H7 H8]. split.
    + intros x X HX. destruct (H1 x X HX) as [n Hn]. destruct (H5 _ _ Hn) as [n' Hn']. by exists n'.
    + by rewrite H6.
    + intros x X HX. destruct (H1 x X HX) as [n Hn]. by rewrite (H7 _ _ Hn), (H3 _ _ HX).
    + rewrite H8, H4. reflexivity.
Qed.

(** A process record just made for processor [pun], with the context its code
    starts in. *)
Record newborn (pun : Z) (s : sys) (x : addr) (pri : Z) (code arg1 : code_p) (arg2 ua : addr) : Prop := {
  nb_record : exists n i, procs s !! x = Some (mkProcess x n i pri pun ALT_NONE PROC_WAITING);
  nb_ctx : exists k, uctxs (hw s) !! x = Some (Fresh k code arg1 arg2 ua) }.

(** A child of a construct, and its record just made. *)
Record child := mkChild { cd_code : code_p; cd_arg : addr; cd_pri : Z; cd_pun : Z }.
Definition born (barr : addr) (s : sys) (x : addr) (ch : child) : Prop :=
  newborn (cd_pun ch) s x (cd_pri ch) CRunInPar (cd_code ch) barr (cd_arg ch).

(** Those of [kids], the records of the children [chs], that are for [d]. *)
Definition sent_to (d : Z) (kids : list addr) (chs : list child) : list addr :=
  (filter (fun x => x.2 = d) (zip kids (cd_pun <$> chs))).*1.

Lemma sent_to_snoc d kids chs a ch :
  length kids = length chs ->
  sent_to d (kids ++ [a]) (chs ++ [ch]) =
    sent_to d kids chs ++ (if decide (cd_pun ch = d) then [a] else []).
Proof.
  intros Hlen. unfold sent_to. rewrite fmap_app, zip_with_app by by rewrite length_fmap.
  rewrite filter_app, fmap_app. f_equal. simpl. rewrite filter_cons. simpl. by case_decide.
Qed.

Lemma sent_to_all d kids chs :
  length kids = length chs -> Forall (fun ch => cd_pun ch = d) chs -> sent_to d kids chs = kids.
Proof.
  unfold sent_to. revert chs. induction kids as [|x kids IH]; intros [|ch chs] Hlen; try done.
  injection Hlen as Hlen. intros [Hd Hall]%Forall_cons. simpl. rewrite filter_cons_True by done.
  simpl. by rewrite IH.
Qed.

Lemma sent_to_length d kids chs :
  length kids = length chs -> length (sent_to d kids chs) = length (filter (fun ch => cd_pun ch = d) chs).
Proof.
  unfold sent_to. revert chs. induction kids as [|x kids IH]; intros [|ch chs] Hlen; try done.
  injection Hlen as Hlen. simpl. rewrite !filter_cons. simpl. case_decide; simpl; by rewrite IH.
Qed.

(** The queues of the other processors have grown by [add], each entry with its
    interrupt. *)
Definition posted (c : Z) (s s' : sys) (add : Z -> list addr) : Prop :=
  forall d q ql t g pl, d <> c -> ipQues s !! d = Some q -> ipq_rep q ql -> ipi_target s d t g pl ->
    exists q', ipQues s' !! d = Some q' /\ ipq_rep q' (ql ++ add d) /\
      ipi_target s' d t g (pl ++ replicate (length (add d)) g).

(** The signals of the processor's own thread. *)
Definition own_pending (c : Z) (s s' : sys) : Prop := forall t,
  thread_id (hw s) !! c = Some t -> pending (hw s') !! t = pending (hw s) !! t.

Lemma own_pending_trans c s1 s2 s3 :
  hw_quiet (hw s2) = hw_quiet (hw s1) -> own_pending c s1 s2 -> own_pending c s2 s3 -> own_pending c s1 s3.
Proof.
  intros Hh H1 H2 t Ht. rewrite H2, H1; [done..|]. rewrite <-Ht. exact (f_equal (fun h => thread_id h !! c) Hh).
Qed.

Lemma own_pending_same c s s' : hw_kept (hw s') = hw_kept (hw s) -> own_pending c s s'.
Proof. intros Hh t _. exact (f_equal (fun h => pending h !! t) Hh). Qed.

Lemma posted_same c s s' :
  (forall d, d <> c -> ipQues s' !! d = ipQues s !! d) -> hw_kept (hw s') = hw_kept (hw s) ->
  posted c s s' (fun _ => []).
Proof.
  intros Hi Hh d q ql t g pl Hd Hq Hr Ht. exists q. rewrite !app_nil_r, Hi by done.
  split_and!; [done..|]. destruct Ht as (H1 & H2 & H3 & H4).
  split_and!; [rewrite <-H1; exact (f_equal (fun h => thread_id h !! d) Hh)|
    rewrite <-H2; exact (f_equal (fun h => signal_no h !! (d, INTR_INTERPROC)) Hh)|done|
    rewrite <-H4; exact (f_equal (fun h => pending h !! t) Hh)].
Qed.

Lemma posted_trans c s1 s2 s3 f g :
  posted c s1 s2 f -> posted c s2 s3 g -> posted c s1 s3 (fun d => f d ++ g d).
Proof.
  intros H1 H2 d q ql t gs pl Hd Hq Hr Ht. destruct (H1 d q ql t gs pl Hd Hq Hr Ht) as (q2 & Hq2 & Hr2 & Ht2).
  destruct (H2 _ _ _ _ _ _ Hd Hq2 Hr2 Ht2) as (q3 & Hq3 & Hr3 & Ht3).
  exists q3. by rewrite length_app, replicate_add, !app_assoc.
Qed.

Lemma posted_ext c s s' f g : (forall d, d <> c -> f d = g d) -> posted c s s' f -> posted c s s' g.
Proof. intros E H d q ql t gs pl Hd. rewrite <-E by done. by apply H. Qed.

Section Spawn.
Context (c base : Z).

(** ** One process *)

Lemma build_process_run s carved free stacksize pri pun :
  heap_ok base s carved free -> mutexes s !! mutex_mem = Some false ->
  0 <= stacksize -> stacksize + sizeof_Process <= 24576 ->
  24576 <= taillen s -> tail s + 24576 < 2 ^ 32 ->
  exists a i s' carved' free', exec c (build_process stacksize pri pun) s
      (Done a (set_procs (<[a := mkProcess NULL NULL i (uint16 pri) (uint16 pun) ALT_NONE PROC_WAITING]>
                 (procs s)) s')) /\
    valid_index i /\ stacksize + sizeof_Process <= block_len i /\
    (forall j, 0 <= j < i -> block_len j < stacksize + sizeof_Process) /\
    heap_ok base s' carved' free' /\ (forall j, ~ live carved free a j) /\ live carved' free' a i /\
    (forall b j, live carved free b j -> live carved' free' b j) /\ a <> NULL /\
    mem_frame s s' /\ tail s' <= tail s + 24576.
Proof.
  intros Hk Hm Hs0 Hs Htl Hw. unfold sizeof_Process in *.
  assert (Hu : uint32 (stacksize + 16) = stacksize + 16) by (unfold uint32, wrapU; apply Z.mod_small; lia).
  destruct (find_mem_index_ok c (stacksize + 16) s Hs) as (i & Hfi & Hi & Hfit & Hsmall).
  pose proof (block_len_bounds i Hi) as Hb.
  destruct (allocate_spec c base s carved free i Hk Hi Hm ltac:(lia) ltac:(lia))
    as (a & s' & carved' & free' & Ha & Hk' & Hn & Hl & Hlive & _ & _ & Hf & Ht).
  assert (Hui : uint16 i = i) by (unfold uint16, wrapU, valid_index in *; apply Z.mod_small; lia).
  assert (Ha0 : a <> NULL).
  { destruct (hk_carved _ _ _ _ Hk' _ _ (proj1 Hl)) as (_ & Hge & _).
    pose proof (hk_base _ _ _ _ Hk'). unfold NULL. lia. }
  exists a, i, s', carved', free'. split_and!; try done; [| |lia].
  - unfold build_process, sizeof_Process. rewrite Hu. eapply exec_bind_done; [exact Hfi|]. cbv beta. rewrite Hui.
    eapply exec_bind_done; [exact Ha|]. cbv beta. zb. apply exec_modify.
    replace (procs s') with (procs s) by (by rewrite Hf). apply exec_ret.
  - intros b j Hbl. apply Hlive; [|done]. intros ->. by eapply Hn.
Qed.

Lemma make_process_run s carved free code arg1 arg2 stacksize pri pun ua k :
  heap_ok base s carved free -> rooted s carved free -> mutexes s !! mutex_mem = Some false ->
  thread_mask (hw s) !! c = Some k ->
  0 <= stacksize -> stacksize + sizeof_Process <= 24576 ->
  24576 <= taillen s -> tail s + 24576 < 2 ^ 32 -> 0 <= pri < 2 ^ 16 -> 0 <= pun < 2 ^ 16 ->
  exists a s' carved' free', exec c (make_process code arg1 arg2 stacksize pri pun ua) s (Done a s') /\
    heap_ok base s' carved' free' /\ rooted s' carved' free' /\ a <> NULL /\ procs s !! a = None /\
    newborn pun s' a pri code arg1 arg2 ua /\
    spawn_frame s s' /\ ipQues s' = ipQues s /\ hw_kept (hw s') = hw_kept (hw s) /\ elsewhere c s s' /\ rdyQues s' = rdyQues s /\ (forall x, x <> a -> procs s' !! x = procs s !! x) /\
    (forall x, x <> a -> uctxs (hw s') !! x = uctxs (hw s) !! x) /\
    thread_mask (hw s') = thread_mask (hw s) /\ tail s' <= tail s + 24576.
Proof.
  intros Hk Hroot Hm Hmask Hs0 Hs Htl Hw Hp Hc.
  destruct (build_process_run s carved free stacksize pri pun Hk Hm Hs0 Hs Htl Hw)
    as (a & i & s' & carved' & free' & He & _ & _ & _ & Hk' & Hn & Hl & Hlive & Ha0 & Hf & Ht).
  assert (Hup : uint16 pri = pri) by (unfold uint16, wrapU; apply Z.mod_small; lia).
  assert (Huc : uint16 pun = pun) by (unfold uint16, wrapU; apply Z.mod_small; lia).
  assert (Hna : procs s !! a = None).
  { destruct (procs s !! a) as [X|] eqn:HX; [|done]. by destruct (Hn _ (Hroot _ _ HX)). }
  assert (Ehw : hw s' = hw s) by (by rewrite Hf).
  rewrite Hup, Huc in He. unfold make_process. eexists a, _, carved', free'. split_and!.
  - eapply exec_bind_done; [exact He|]. unfold build_context. rewrite bind_assoc.
    eapply exec_pset; [simpl; apply lookup_insert_eq|]. rewrite bind_assoc. unfold own_mask.
    eapply exec_action; [simpl; by rewrite Ehw, Hmask|].
    apply exec_hset. apply exec_ret.
  - by apply (heap_ok_frame base s').
  - intros x X HX. simpl in HX.
    destruct (decide (x = a)) as [->|Hxa].
    + rewrite lookup_alter_eq, lookup_insert_eq in HX. by simplify_eq/=.
    + rewrite lookup_alter_ne, lookup_insert_ne in HX by done. apply Hlive, (Hroot _ _ HX).
  - done.
  - done.
  - split; [exists NULL, i; simpl; by rewrite lookup_alter_eq, lookup_insert_eq|].
    exists k. simpl. by rewrite lookup_insert_eq.
  - split.
    + intros x X HX. exists (p_next X). simpl.
      rewrite lookup_alter_ne, lookup_insert_ne by congruence. rewrite HX. by destruct X.
    + simpl. by rewrite Ehw.
    + intros x X HX. simpl. rewrite lookup_insert_ne by congruence. by rewrite Ehw.
    + simpl. rewrite Hf. by destruct s.
  - simpl. by rewrite Hf.
  - simpl. by rewrite Ehw.
  - apply elsewhere_agree; [simpl; by rewrite Hf|simpl; by rewrite Hf|simpl; by rewrite Ehw|].
    intros x X HX _. simpl. by rewrite lookup_alter_ne, lookup_insert_ne by congruence.
  - simpl. by rewrite Hf.
  - intros x Hx. simpl. by rewrite lookup_alter_ne, lookup_insert_ne.
  - intros x Hx. simpl. rewrite lookup_insert_ne by done. by rewrite Ehw.
  - simpl. by rewrite Ehw.
  - exact Ht.
Qed.

(** ** To its processor *)

Lemma enqueue_run s cur C q ql l p P mk :
  cpu_state c s cur C q ql l -> procs s !! p = Some P -> p_pun P = c -> p <> NULL ->
  p ∉ cur :: ql ++ l -> sigmask (hw s) !! c = Some mk ->
  exists s' C', exec c (enqueue p) s (Done tt s') /\ same_but_links (masked c mk s) s' /\ elsewhere c s s' /\
    cpu_state c s' cur C' q ql (rq_insert (pri_of s) p l).
Proof.
  intros Hcs HP HPp Hp0 Hpl Hm. apply (cpu_state_masked c c sigfillset) in Hcs.
  set (s0 := masked c sigfillset s) in *. destruct (id Hcs) as [Hq Hcur HC HCp H0 Hfr].
  destruct (enqueue0_spec c s0 p P c l HP HPp Hp0 ltac:(set_solver) (qs_rdy _ _ _ _ _ Hq))
    as (s1 & He & Hl & Hs & Ho). apply sbl_sbq in Hs as Hs'.
  destruct (sbq_lookup _ _ Hs' cur C HC) as [n Hn].
  assert (Hc1 : on_cpu c s1) by (eapply sbq_on_cpu; [exact Hs'|apply Hq]).
  exists (masked c mk s1), (set_next n C). split_and!.
  - unfold enqueue. apply exec_disable. eapply exec_bind_done; [exact He|].
    rewrite <-(bind_ret_r enable).
    eapply exec_enable; [exact Hc1|by rewrite (sbq_hw _ _ Hs')|apply exec_ret].
  - split; [apply Hs|]. rewrite (sbl_rest _ _ Hs). unfold masked, s0. simpl.
    unfold masked, set_hw, set_thread_mask. simpl. by rewrite insert_insert_eq.
  - etrans; [apply (elsewhere_masked c sigfillset)|]. etrans; [|apply elsewhere_masked].
    by apply elsewhere_enqueued.
  - apply cpu_state_masked.
    eapply cpu_state_step; [exact Hcs|by apply sbq_same_procs|exact Hc1| | |exact Hl| |exact Hn|done..| |].
    + rewrite (sbl_ipq _ _ Hs). apply Hq.
    + apply Hq.
    + by rewrite (sbq_current _ _ Hs').
    + reflexivity.
    + rewrite rq_insert_perm. rewrite <-Permutation_middle.
      pose proof (qs_nodup _ _ _ _ _ Hq). rewrite !NoDup_cons. set_solver.
Qed.

(** Handing over a record changes only the queues, the links, the mask of the
    thread and the interrupts under way. *)
Record handed (s s' : sys) : Prop := {
  hd_elsewhere : elsewhere c s s';
  hd_queues : same_but_queues (set_hw (hw s') s) s';
  hd_hw : hw_quiet (hw s') = hw_quiet (hw s);
  hd_own : own_pending c s s';
  hd_ctxs : uctxs (hw s') = uctxs (hw s);
  hd_mask : is_Some (thread_mask (hw s') !! c) }.

Lemma handed_frame s s' : handed s s' -> spawn_frame s s'.
Proof.
  intros [_ Hs Hh _ Hu _]. split; [|exact Hh|by rewrite Hu|].
  - intros x X HX. by apply (sbq_lookup _ _ Hs).
  - rewrite (sbq_rest _ _ Hs). reflexivity.
Qed.

(** A processor with room in its queue, and a thread of its own to interrupt. *)
Definition takes_more (s : sys) (d more : Z) : Prop := exists q ql t g pl,
  ipQues s !! d = Some q /\ ipq_rep q ql /\ ipi_target s d t g pl /\
  (forall d', thread_id (hw s) !! d' = Some t -> d' = d) /\
  Z.of_nat (length ql) + more <= QSIZE - 1.

Lemma schedule_posted s d p P mk :
  on_cpu c s -> procs s !! p = Some P -> p_pun P = d -> d <> c -> p <> NULL ->
  takes_more s d 1 -> sigmask (hw s) !! c = Some mk ->
  exists s', exec c (schedule p) s (Done tt s') /\ handed s s' /\ procs s' = procs s /\
    rdyQues s' = rdyQues s /\ ipQues s' !! c = ipQues s !! c /\
    posted c s s' (fun d' => if decide (d = d') then [p] else []).
Proof.
  intros Hc HP HPd Hd Hp0 (q & ql & t & g & pl & Hq & Hr & Ht & Hap & Hlen) Hmk. subst d.
  pose proof (schedule0_remote c (masked c sigfillset s) p P q ql t g pl Hc HP Hd Hq Hr ltac:(lia) Ht) as He.
  eexists (masked c mk _). split_and!.
  - unfold schedule. apply exec_disable. eapply exec_bind_done; [exact He|].
    rewrite <-(bind_ret_r enable). eapply exec_enable; [exact Hc|exact Hmk|apply exec_ret].
  - split; [|split; [done|reflexivity]|done| |done|].
    2: { intros t' Ht'. simpl. rewrite lookup_insert_ne; [done|]. intros ->. by apply Hd, eq_sym, Hap. }
    { apply elsewhere_ext; [done..|]. intros d' Hd'. simpl. by rewrite !lookup_insert_ne. } simpl. rewrite lookup_insert_eq. by eexists.
  - done.
  - done.
  - simpl. by rewrite !lookup_alter_ne.
  - intros d' q' ql' t' g' pl' Hd' Hq' Hr' (H1 & H2 & H3 & H4). unfold ipi_target. simpl.
    case_decide as E.
    + subst d'. rewrite Hq in Hq'. injection Hq' as <-.
      destruct Ht as (T1 & T2 & _ & T4). simplify_eq.
      assert (ql' = ql) as -> by by eapply ipq_rep_unique.
      eexists. rewrite !lookup_alter_eq, Hq, lookup_insert_eq. split; [reflexivity|].
      split; [|done]. by apply ipq_added_rep; [|lia|].
    + exists q'. rewrite !app_nil_r, !lookup_alter_ne by done. split_and!; [done..|].
      rewrite lookup_insert_ne; [done|]. intros <-. apply E. symmetry. by apply Hap.
Qed.

(** A processor's state depends only on its queues and the records in them. *)
Lemma cpu_state_agree s s' cur C q ql l :
  rdyQues s' = rdyQues s -> ipQues s' !! c = ipQues s !! c -> cpu_key (hw s') = cpu_key (hw s) ->
  current s' = current s -> (forall x, x ∈ cur :: ql ++ l -> procs s' !! x = procs s !! x) ->
  cpu_state c s cur C q ql l -> cpu_state c s' cur C q ql l.
Proof.
  intros E1 E2 E3 E4 Hp [Hq Hcur HC HCp H0 Hfr].
  split; [|by rewrite E4|rewrite Hp; [done|by left]|done..].
  apply (queues_agree c s); try done. intros x Hx. apply Hp. by right.
Qed.

Definition hand (pun p : Z) : cprog unit := if pun =? c then enqueue p else schedule p.

Lemma hand_run s cur C q ql l p P mk :
  cpu_state c s cur C q ql l -> procs s !! p = Some P -> p <> NULL -> p ∉ cur :: ql ++ l ->
  sigmask (hw s) !! c = Some mk -> (p_pun P = c \/ takes_more s (p_pun P) 1) ->
  exists s' C', exec c (hand (p_pun P) p) s (Done tt s') /\ handed s s' /\
    cpu_state c s' cur C' q ql (if decide (p_pun P = c) then rq_insert (pri_of s) p l else l) /\
    posted c s s' (fun d => if decide (p_pun P = d) then [p] else []).
Proof.
  intros Hcs HP Hp0 Hpl Hmk Hroom. unfold hand. case_decide as E.
  - rewrite E, Z.eqb_refl.
    destruct (enqueue_run s cur C q ql l p P mk Hcs HP E Hp0 Hpl Hmk) as (s' & C' & He & Hs & Hel & Hcs').
    pose proof (sbq_hw _ _ (sbl_sbq _ _ Hs)) as Eh.
    exists s', C'. split_and!; [exact He| |exact Hcs'|].
    + split; [exact Hel| |by rewrite Eh|by apply own_pending_same; rewrite Eh|by rewrite Eh|rewrite Eh; simpl; rewrite lookup_insert_eq; by eexists].
      pose proof (sbl_sbq _ _ Hs) as [Hp Hrest]. split; [exact Hp|]. rewrite Eh. exact Hrest.
    + eapply (posted_ext _ _ _ (fun _ => [])); [intros d Hd; by rewrite decide_False|].
      apply posted_same; [by rewrite (sbl_ipq _ _ Hs)|by rewrite Eh].
  - destruct Hroom as [?|Hroom]; [done|]. rewrite (proj2 (Z.eqb_neq _ _) E).
    destruct (schedule_posted s (p_pun P) p P mk (qs_cpu _ _ _ _ _ (cs_queues _ _ _ _ _ _ _ Hcs)) HP eq_refl E Hp0 Hroom Hmk)
      as (s' & He & Hh & Ep & Er & Ei & Hpost).
    exists s', C. split_and!; [exact He|exact Hh| |exact Hpost].
    pose proof (sbq_rest _ _ (hd_queues _ _ Hh)) as Erest.
    apply (cpu_state_agree s); [done|done|exact (f_equal cpu_key (hd_hw _ _ Hh))|by rewrite Erest|by rewrite Ep|exact Hcs].
Qed.

Lemma newborn_frame s s' x pun pri code arg1 arg2 ua :
  spawn_frame s s' -> newborn pun s x pri code arg1 arg2 ua -> newborn pun s' x pri code arg1 arg2 ua.
Proof.
  intros Hf [(n & i & HX) [k Hk]]. split.
  - destruct (pf_old _ _ Hf _ _ HX) as [n' Hn]. by exists n', i.
  - exists k. by rewrite (pf_ctxs _ _ Hf _ _ HX).
Qed.

Lemma spawn_frame_pri s s' x X : spawn_frame s s' -> procs s !! x = Some X -> pri_of s' x = pri_of s x.
Proof.
  intros Hf HX. destruct (pf_old _ _ Hf _ _ HX) as [n Hn]. by rewrite (pri_of_lookup _ _ _ HX), (pri_of_lookup _ _ _ Hn).
Qed.

Lemma cpu_state_elem s cur C q ql l x :
  cpu_state c s cur C q ql l -> x ∈ cur :: ql ++ l -> is_Some (procs s !! x).
Proof.
  intros Hcs [->|Hx]%elem_of_cons; [eexists; apply Hcs|].
  destruct (queues_elem _ _ _ _ _ x (cs_queues _ _ _ _ _ _ _ Hcs) Hx) as (X & HX & _). by eexists.
Qed.

(** ** A batch of processes

    [kids] have been made and handed to their processors, one for each of the
    children [chs], since the state [s0]. *)
Section Batch.
Context (s0 : sys) (cur : addr) (q : IPQueue) (ql l : list addr) (barr : addr) (mk : sigset).
Context (Hmk : sigmask (hw s0) !! c = Some mk) (Hmem : mutexes s0 !! mutex_mem = Some false).
Context (Hbig : 24576 <= taillen s0).

Record spawned (s : sys) (kids : list addr) (chs : list child)
    (carved : gmap addr Z) (free : Z -> list addr) : Prop := {
  sw_cpu : exists C, cpu_state c s cur C q ql (rq_insert_all (pri_of s) (sent_to c kids chs) l);
  sw_heap : heap_ok base s carved free;
  sw_rooted : rooted s carved free;
  sw_mask : is_Some (thread_mask (hw s) !! c);
  sw_frame : spawn_frame s0 s;
  sw_fresh : Forall (fun x => procs s0 !! x = None) kids;
  sw_nodup : NoDup kids;
  sw_kids : Forall2 (born barr s) kids chs;
  sw_elsewhere : elsewhere c s0 s;
  sw_own : own_pending c s0 s;
  sw_posted : posted c s0 s (fun d => sent_to d kids chs);
  sw_tail : tail s <= tail s0 + 24576 * Z.of_nat (length kids);
  sw_only : forall y, procs s0 !! y = None -> y ∉ kids -> procs s !! y = None }.

(** Those already queued keep their order. *)
Lemma queue_kept s s' C K :
  spawn_frame s s' -> cpu_state c s cur C q ql (rq_insert_all (pri_of s) K l) ->
  rq_insert_all (pri_of s') K l = rq_insert_all (pri_of s) K l.
Proof.
  intros Hf Hcs. apply rq_insert_all_agree. intros x Hx.
  destruct (cpu_state_elem _ _ _ _ _ _ x Hcs) as [X HX]; [rewrite rq_insert_all_perm; set_solver|].
  by eapply spawn_frame_pri.
Qed.

(** The queue of the caller's own processor, after [a] is handed to its one. *)
Lemma queue_grows s s1 s2 C C2 A a kids chs ch :
  spawn_frame s s2 -> spawn_frame s1 s2 -> length kids = length chs ->
  cpu_state c s cur C q ql (rq_insert_all (pri_of s) (sent_to c kids chs) l) ->
  cpu_state c s1 cur C q ql (rq_insert_all (pri_of s) (sent_to c kids chs) l) ->
  procs s1 !! a = Some A ->
  cpu_state c s2 cur C2 q ql (if decide (cd_pun ch = c)
    then rq_insert (pri_of s1) a (rq_insert_all (pri_of s) (sent_to c kids chs) l)
    else rq_insert_all (pri_of s) (sent_to c kids chs) l) ->
  cpu_state c s2 cur C2 q ql (rq_insert_all (pri_of s2) (sent_to c (kids ++ [a]) (chs ++ [ch])) l).
Proof.
  intros Hf Hf2 Hlen Hcs Hcs1 HA Hcs2. rewrite sent_to_snoc by done. case_decide.
  - rewrite rq_insert_all_snoc, (queue_kept s s2 C) by done.
    erewrite (rq_insert_agree (pri_of s2) (pri_of s1)); [exact Hcs2|]. intros x Hx.
    destruct (decide (x = a)) as [->|Hxa]; [by eapply spawn_frame_pri|].
    destruct (cpu_state_elem _ _ _ _ _ _ x Hcs1) as [X HX]; [set_solver|]. by eapply spawn_frame_pri.
  - rewrite app_nil_r, (queue_kept s s2 C) by done. exact Hcs2.
Qed.

Lemma spawned_lengths s kids chs carved free : spawned s kids chs carved free -> length kids = length chs.
Proof. intros Hsp. by eapply Forall2_length, sw_kids. Qed.

(** A processor that takes all of [more] processes has room after some. *)
Lemma takes_more_later s kids chs carved free d more :
  spawned s kids chs carved free -> d <> c -> takes_more s0 d more ->
  takes_more s d (more - Z.of_nat (length (sent_to d kids chs))).
Proof.
  intros Hsp Hd (q0 & qd & t & g & pl & Hq & Hr & Ht & Hap & Hlen).
  destruct (sw_posted _ _ _ _ _ Hsp d q0 qd t g pl Hd Hq Hr Ht) as (q' & Hq' & Hr' & Ht').
  exists q', (qd ++ sent_to d kids chs), t, g. eexists. split_and!; [done..| |rewrite length_app; lia].
  intros d'. pose proof (f_equal thread_id (pf_hw _ _ (sw_frame _ _ _ _ _ Hsp))) as E. cbn in E. rewrite E. apply Hap.
Qed.

Lemma takes_more_ext s s' d n :
  ipQues s' = ipQues s -> hw_kept (hw s') = hw_kept (hw s) -> takes_more s d n -> takes_more s' d n.
Proof.
  intros Ei Eh (q0 & qd & t & g & pl & Hq & Hr & (T1 & T2 & T3 & T4) & Hap & Hlen).
  pose proof (f_equal thread_id Eh) as E. cbn in E. exists q0, qd, t, g, pl. rewrite Ei. split_and!; [done..| |by rewrite E|done].
  split_and!; [| |done|].
  - rewrite <-T1. exact (f_equal (fun h => thread_id h !! d) Eh).
  - rewrite <-T2. exact (f_equal (fun h => signal_no h !! (d, INTR_INTERPROC)) Eh).
  - rewrite <-T4. exact (f_equal (fun h => pending h !! t) Eh).
Qed.

Lemma takes_more_le s d n m : m <= n -> takes_more s d n -> takes_more s d m.
Proof. intros Hle (q0 & qd & t & g & pl & H1 & H2 & H3 & H4 & H5). exists q0, qd, t, g, pl. split_and!; [done..|lia]. Qed.

Lemma spawn_one s kids chs carved free ch st :
  spawned s kids chs carved free -> 0 <= st -> st + sizeof_Process <= 24576 ->
  tail s0 + 24576 * (Z.of_nat (length kids) + 1) < 2 ^ 32 ->
  0 <= cd_pri ch < 2 ^ 16 -> 0 <= cd_pun ch < 2 ^ 16 ->
  (cd_pun ch = c \/ takes_more s (cd_pun ch) 1) ->
  exists a s1 s2 carved' free',
    exec c (make_process CRunInPar (cd_code ch) barr st (cd_pri ch) (cd_pun ch) (cd_arg ch)) s (Done a s1) /\
    spawn_frame s s1 /\ exec c (hand (cd_pun ch) a) s1 (Done tt s2) /\
    spawned s2 (kids ++ [a]) (chs ++ [ch]) carved' free'.
Proof.
  intros Hsp Hst Hst' Hroom Hpri Hpun Htake. pose proof (spawned_lengths _ _ _ _ _ Hsp) as Hlen.
  destruct Hsp as [[C Hcs] Hk Hroot [k Hmask] Hf Hfresh Hnd Hkids Hel Hown Hpost Ht Honly].
  destruct (make_process_run s carved free CRunInPar (cd_code ch) barr st (cd_pri ch) (cd_pun ch) (cd_arg ch) k Hk Hroot
    ltac:(by rewrite (pf_rest _ _ Hf)) Hmask Hst Hst' ltac:(by rewrite (pf_rest _ _ Hf)) ltac:(lia) Hpri Hpun)
    as (a & s1 & carved' & free' & He1 & Hk1 & Hroot1 & Ha0 & Hna & Hnb & Hf1 & Ei1 & Eh1 & Hel1 & Erd & Hp1 & Hu1 & Emask & Ht1).
  assert (Hacl : a ∉ cur :: ql ++ rq_insert_all (pri_of s) (sent_to c kids chs) l).
  { intros Hin. destruct (cpu_state_elem _ _ _ _ _ _ _ Hcs Hin) as [X HX]. congruence. }
  assert (Hcs1 : cpu_state c s1 cur C q ql (rq_insert_all (pri_of s) (sent_to c kids chs) l)).
  { apply (cpu_state_agree s); [exact Erd|by rewrite Ei1|exact (f_equal cpu_key Eh1)|
      by rewrite (pf_rest _ _ Hf1)| |exact Hcs]. intros x Hx. apply Hp1. intros ->. by apply Hacl. }
  destruct (nb_record _ _ _ _ _ _ _ _ Hnb) as (nx & ix & HA).
  destruct (hand_run s1 cur C q ql _ a _ mk Hcs1 HA Ha0 Hacl) as (s2 & C2 & He2 & Hh2 & Hcs2 & Hpost2).
  { rewrite <-Hmk. transitivity (sigmask (hw s) !! c); [exact (f_equal (fun h => sigmask h !! c) Eh1)|].
    exact (f_equal (fun h => sigmask h !! c) (pf_hw _ _ Hf)). }
  { destruct Htake; [by left|right]. by apply (takes_more_ext s). }
  apply handed_frame in Hh2 as Hf2. cbn [p_pun] in He2, Hcs2, Hpost2.
  assert (Hf02 : spawn_frame s s2) by (by etrans). pose proof (sbq_rest _ _ (hd_queues _ _ Hh2)) as Er.
  exists a, s1, s2, carved', free'. split; [exact He1|]. split; [exact Hf1|]. split; [exact He2|].
  assert (Hna0 : procs s0 !! a = None).
  { destruct (procs s0 !! a) as [X|] eqn:HX; [|done]. destruct (pf_old _ _ Hf _ _ HX) as [n Hn]. congruence. }
  split.
  - exists C2. by apply (queue_grows s s1 s2 C C2 _ a kids chs ch Hf02 Hf2 Hlen Hcs Hcs1 HA).
  - apply (heap_ok_frame base s1); [by rewrite Er..|done].
  - eapply rooted_step; [exact (sp_stack _ _ (sbq_same_procs _ _ (hd_queues _ _ Hh2)))|].
    intros x X HX. by eapply Hroot1.
  - exact (hd_mask _ _ Hh2).
  - by etrans.
  - apply Forall_app. by split; [|apply Forall_singleton].
  - apply NoDup_app. split_and!; [done| |apply NoDup_singleton]. intros x Hx ->%list_elem_of_singleton.
    apply list_elem_of_lookup in Hx as [i Hx]. destruct (Forall2_lookup_l _ _ _ _ _ Hkids Hx) as (cx & _ & (n' & i' & HX) & _).
    congruence.
  - apply Forall2_app; [|constructor; [|constructor]].
    + eapply Forall2_impl; [exact Hkids|]. intros x sp. by apply newborn_frame.
    + by apply (newborn_frame s1).
  - etrans; [exact Hel|]. etrans; [exact Hel1|exact (hd_elsewhere _ _ Hh2)].
  - eapply own_pending_trans; [exact (pf_hw _ _ Hf)|exact Hown|].
    eapply own_pending_trans; [exact (pf_hw _ _ Hf1)|by apply own_pending_same|exact (hd_own _ _ Hh2)].
  - eapply posted_ext; [|exact (posted_trans _ _ _ _ _ _ (posted_trans _ _ _ _ _ _ Hpost
      (posted_same c s s1 ltac:(by rewrite Ei1) Eh1)) Hpost2)].
    intros d _. cbv beta. by rewrite app_nil_r, sent_to_snoc.
  - rewrite length_app, Er. simpl. lia.
  - intros y Hy [Hyk Hya]%not_elem_of_app. specialize (Honly y Hy Hyk). rewrite not_elem_of_cons in Hya.
    apply (same_procs_none _ _ y (sbq_same_procs _ _ (hd_queues _ _ Hh2))). simpl. rewrite Hp1; [exact Honly|apply Hya].
Qed.

(** The loops of the constructs: a job is the code, the user's argument and the
    size of the stack of a child; [st i] are the loop's variables before turn
    [i], in which a child of priority [pr i] is made for processor [pu i] and
    handed over by [give i]. *)
Context (jobs : list (code_p * addr * Z)) {X : Type} (body : X -> cprog (X + unit)).
Context (st : nat -> X) (pr pu : nat -> Z) (give : nat -> addr -> cprog unit).
Context (C0 : Process) (HC0 : procs s0 !! cur = Some C0).

Record turns_make : Prop := {
  tm_turn : forall i j s n o, jobs !! i = Some j -> procs s !! cur = Some (set_next n C0) ->
    exec c (a <- make_process CRunInPar j.1.1 barr j.2 (pr i) (pu i) j.1.2;;
            give i a;; ret (inl (st (S i)))) s o -> exec c (body (st i)) s o;
  tm_give : forall i a s n o, procs s !! cur = Some (set_next n C0) ->
    exec c (hand (pu i) a) s o -> exec c (give i a) s o;
  tm_end : forall s, exec c (body (st (length jobs))) s (Done (inr tt) s) }.

Definition child_of (i : nat) (j : code_p * addr * Z) : child := mkChild j.1.1 j.1.2 (pr i) (pu i).
Definition children : list child := imap child_of jobs.

(** What the loop relies on: priorities and processors are 16 bit numbers, and
    the other processors' queues have room for all that is sent to them. *)
Record sendable : Prop := {
  sd_pri : forall i, (i < length jobs)%nat -> 0 <= pr i < 2 ^ 16;
  sd_pun : forall i, (i < length jobs)%nat -> 0 <= pu i < 2 ^ 16;
  sd_room : forall i, (i < length jobs)%nat -> pu i = c \/
    takes_more s0 (pu i) (Z.of_nat (length (filter (fun ch => cd_pun ch = pu i) children))) }.

(** Of those bound for a processor, one at least is left before its turn. *)
Lemma one_more past j todo kids i :
  jobs = past ++ j :: todo -> length kids = length (imap child_of past) -> i = length past ->
  1 <= Z.of_nat (length (filter (fun ch => cd_pun ch = pu i) children)) -
       Z.of_nat (length (sent_to (pu i) kids (imap child_of past))).
Proof.
  intros Hjobs Hlen ->. rewrite sent_to_length by done. unfold children.
  rewrite Hjobs, imap_app, filter_app, length_app. simpl.
  rewrite Nat.add_0_r, filter_cons_True by done. simpl. lia.
Qed.

Lemma spawn_loop todo past s kids carved free :
  turns_make -> sendable -> jobs = past ++ todo ->
  spawned s kids (imap child_of past) carved free ->
  Forall (fun j => 0 <= j.2 /\ j.2 + sizeof_Process <= 24576) todo ->
  tail s0 + 24576 * Z.of_nat (length jobs) < 2 ^ 32 ->
  exists s' kids' carved' free',
    exec c (loop body (st (length past))) s (Done tt s') /\
    spawned s' kids' children carved' free'.
Proof.
  intros [Hturn Hgive Hend] [Hpri Hpun Hsd] Hjobs Hsp Hsz Hroom.
  revert past s kids carved free Hjobs Hsp.
  induction todo as [|[[cd ua] sz] todo IH]; intros past s kids carved free Hjobs Hsp.
  - rewrite app_nil_r in Hjobs. subst past. exists s, kids, carved, free. split; [|done].
    apply (exec_loop c _ _ _ _ (inr tt) s); [apply Hend|apply exec_ret].
  - apply Forall_cons in Hsz as [[Hst Hst'] Hsz]. simpl in Hst, Hst'.
    pose proof (f_equal length Hjobs) as Hlen. rewrite length_app in Hlen. simpl in Hlen.
    pose proof (spawned_lengths _ _ _ _ _ Hsp) as Hkl. pose proof Hkl as Hkl'. rewrite length_imap in Hkl'.
    destruct (spawn_one s kids _ carved free (child_of (length past) (cd, ua, sz)) sz Hsp Hst Hst' ltac:(lia)
      (Hpri (length past) ltac:(lia)) (Hpun (length past) ltac:(lia)))
      as (a & s1 & s2 & carved' & free' & He1 & Hf1 & He2 & Hsp2).
    { destruct (decide (pu (length past) = c)) as [E|E]; [by left|right]. cbn [cd_pun child_of].
      destruct (Hsd (length past) ltac:(lia)) as [?|Htake]; [done|].
      eapply takes_more_le; [|by eapply takes_more_later]. by eapply one_more. }
    destruct (IH Hsz (past ++ [(cd, ua, sz)]) s2 (kids ++ [a]) carved' free')
      as (s' & kids' & cv & fr & He & Hsp').
    { by rewrite <-app_assoc. }
    { rewrite imap_app. simpl. by rewrite Nat.add_0_r. }
    exists s', kids', cv, fr. split; [|done].
    apply (exec_loop c _ _ _ _ (inl (st (length (past ++ [(cd, ua, sz)])))) s2); [|exact He].
    destruct (pf_old _ _ (sw_frame _ _ _ _ _ Hsp) _ _ HC0) as [n HC].
    apply (Hturn (length past) (cd, ua, sz) s n); [by rewrite Hjobs, lookup_app_r, Nat.sub_diag by lia|done|].
    eapply exec_bind_done; [exact He1|]. destruct (pf_old _ _ Hf1 _ _ HC) as [n1 HC1].
    eapply exec_bind_done; [exact (Hgive (length past) a s1 n1 _ HC1 He2)|].
    rewrite length_app. simpl. rewrite Nat.add_1_r. apply exec_ret.
Qed.
End Batch.
End Spawn.

(** A child that waits in a queue is still as it was made after a step of the
    scheduler. *)
Lemma newborn_step c s s' x pri code arg1 arg2 ua :
  sched_step s s' -> sts s' x = sts s x -> uctxs (hw s') !! x = uctxs (hw s) !! x ->
  newborn c s x pri code arg1 arg2 ua -> newborn c s' x pri code arg1 arg2 ua.
Proof.
  intros Hs Hst Hu [(n & i & HX) [k Hk]]. split.
  - destruct (sp_dom _ _ Hs x) as [X' HX']; [by eexists|].
    pose proof (sp_pri _ _ Hs x) as H1. pose proof (sp_pun _ _ Hs x) as H2.
    pose proof (sp_stack _ _ Hs x) as H3.
    unfold pri_of, pun_of, stack_of, sts in *. rewrite HX, HX' in *. simpl in *.
    destruct X' as [sp nx ix pr pu al sc]. simpl in *. simplify_eq. by exists nx, i.
  - exists k. by rewrite Hu.
Qed.

(** ** Until the parent waits *)

(** What a construct leaves alone. *)
Record par_wait (s s' : sys) (cur : addr) (C : Process) : Prop := {
  pw_mutexes : mutexes s' = mutexes s;
  pw_bytes : bytes s' = bytes s;
  pw_hw : hw_quiet (hw s') = hw_quiet (hw s);
  pw_ctx : uctxs (hw s') !! cur = Some Suspended;
  pw_old : forall x X, procs s !! x = Some X -> exists X', procs s' !! x = Some X' /\
    p_pri X' = p_pri X /\ p_pun X' = p_pun X /\ p_stackptr X' = p_stackptr X;
  pw_ctxs : forall x X, procs s !! x = Some X -> x <> cur -> uctxs (hw s') !! x = uctxs (hw s) !! x;
  pw_parent : exists P, procs s' !! cur = Some P /\ p_stackptr P = cur /\ p_pri P = p_pri C /\
    p_pun P = p_pun C }.

(** What a construct leaves: the children [kids], one for each of [chs], made in
    blocks nobody was using and handed to their processors: those of the parent's
    own queued, the others in the queues of theirs; the barrier, which counts
    them; the parent waiting, and the processor given to [n], the first of the
    queue. *)
Record placed (c base : Z) (s : sys) (cur : addr) (ql l : list addr) (barr : addr)
    (chs : list child) (s' : sys) (kids : list addr) (n : addr) (L : list addr)
    (carved' : gmap addr Z) (free' : Z -> list addr) : Prop := {
  pl_fresh : Forall (fun x => procs s !! x = None) kids;
  pl_nodup : NoDup kids;
  pl_kids : Forall2 (born barr s') kids chs;
  pl_queue : n :: L = rq_insert_all (pri_of s') ql (rq_insert_all (pri_of s') (sent_to c kids chs) l);
  pl_posted : posted c s s' (fun d => sent_to d kids chs);
  pl_elsewhere : elsewhere c s s';
  pl_own : own_pending c s s';
  pl_ok : sched_ok c s' n [] L;
  pl_bar : bars s' !! barr = Some (mkParBarrier (int32 (Z.of_nat (length chs))) cur);
  pl_waits : p_sched_state <$> procs s' !! cur = Some PROC_WAITING;
  pl_heap : heap_ok base s' carved' free';
  pl_rooted : rooted s' carved' free';
  pl_only : forall y, procs s !! y = None -> y ∉ kids -> procs s' !! y = None }.

(** The same, when all are for the parent's processor: one for each of
    [specs], its function, its argument and its priority. *)
Record parted (c base : Z) (s : sys) (cur : addr) (ql l : list addr) (barr : addr)
    (specs : list (code_p * addr * Z)) (s' : sys) (kids : list addr) (n : addr) (L : list addr)
    (carved' : gmap addr Z) (free' : Z -> list addr) : Prop := {
  pd_fresh : Forall (fun x => procs s !! x = None) kids;
  pd_nodup : NoDup kids;
  pd_kids : Forall2 (fun x sp => newborn c s' x sp.2 CRunInPar sp.1.1 barr sp.1.2) kids specs;
  pd_queue : n :: L = rq_insert_all (pri_of s') ql (rq_insert_all (pri_of s') kids l);
  pd_ok : sched_ok c s' n [] L;
  pd_bar : bars s' !! barr = Some (mkParBarrier (int32 (Z.of_nat (length specs))) cur);
  pd_waits : p_sched_state <$> procs s' !! cur = Some PROC_WAITING;
  pd_heap : heap_ok base s' carved' free';
  pd_rooted : rooted s' carved' free';
  pd_only : forall y, procs s !! y = None -> y ∉ kids -> procs s' !! y = None }.

Lemma placed_parted c base s cur ql l barr specs s' kids n L carved free :
  placed c base s cur ql l barr ((fun sp => mkChild sp.1.1 sp.1.2 sp.2 c) <$> specs) s' kids n L carved free ->
  parted c base s cur ql l barr specs s' kids n L carved free.
Proof.
  intros [Hfresh Hnd Hkids Hq _ _ _ Hok Hbar Hw Hk Hroot Honly].
  rewrite sent_to_all in Hq by (first [by eapply Forall2_length|by apply Forall_fmap, Forall_true]).
  rewrite Forall2_fmap_r in Hkids. rewrite length_fmap in Hbar. by split.
Qed.

(** The state in which the children are made. *)
Definition parting (barr cur : addr) (nc : nat) (s : sys) : sys :=
  upd_proc cur (set_sched_state PROC_PREPARING_TO_WAIT)
    (upd_bar barr (mkParBarrier (int32 (Z.of_nat nc)) cur) s).

Lemma parting_cpu c barr s cur C q ql l nc :
  cpu_state c s cur C q ql l ->
  cpu_state c (parting barr cur nc s) cur (set_sched_state PROC_PREPARING_TO_WAIT C) q ql l.
Proof.
  intros Hcs. unfold parting. set (s1 := upd_bar barr _ s).
  pose proof (cpu_state_ext c s s1 cur C q ql l eq_refl eq_refl eq_refl eq_refl eq_refl Hcs) as Hcs1.
  pose proof (cpu_state_quiet c _ cur s1 cur C q ql l (quiet_sched_state PROC_PREPARING_TO_WAIT) Hcs1) as H.
  by rewrite decide_True in H.
Qed.

(** The children are still as they were made when the parent has given the
    processor away. *)
Lemma born_wait s s' cur kids chs barr :
  sched_step s s' -> (forall x, x <> cur -> sts s' x = sts s x) ->
  uctxs (hw s') = <[cur := Suspended]> (uctxs (hw s)) -> cur ∉ kids ->
  Forall2 (born barr s) kids chs -> Forall2 (born barr s') kids chs.
Proof.
  intros Hstep Hsts Hu Hcur Hkids.
  apply Forall2_same_length_lookup_2; [by eapply Forall2_length|]. intros i x ch Hx Hch.
  apply list_elem_of_lookup_2 in Hx as Hxin. assert (Hne : x <> cur) by congruence.
  apply (newborn_step _ s); [done|by apply Hsts| |exact (Forall2_lookup_lr _ _ _ _ _ _ Hkids Hx Hch)].
  rewrite Hu. by apply lookup_insert_ne.
Qed.

Lemma spawned_par_wait barr s cur C nc s1 s' :
  procs s !! cur = Some C -> p_stackptr C = cur -> spawn_frame (parting barr cur nc s) s1 ->
  sched_step s1 s' -> uctxs (hw s') = <[p_stackptr C := Suspended]> (uctxs (hw s1)) ->
  par_wait s s' cur C.
Proof.
  intros HC Hst Hf Hstep Hu.
  assert (HC0 : procs (parting barr cur nc s) !! cur = Some (set_sched_state PROC_PREPARING_TO_WAIT C))
    by (simpl; by rewrite lookup_alter_eq, HC).
  destruct (pf_old _ _ Hf _ _ HC0) as [nx HC1].
  pose proof (pf_rest _ _ Hf) as Er. pose proof (ss_rest _ _ Hstep) as Er'. split.
  - by rewrite Er', Er.
  - by rewrite Er', Er.
  - transitivity (hw_quiet (hw s1)); [exact (f_equal (set_pending ∅) (ss_hw _ _ Hstep))|exact (pf_hw _ _ Hf)].
  - by rewrite Hu, Hst, lookup_insert_eq.
  - intros x X HX.
    assert (HX1 : exists X1, procs s1 !! x = Some X1 /\ p_pri X1 = p_pri X /\ p_pun X1 = p_pun X /\
      p_stackptr X1 = p_stackptr X).
    { destruct (decide (x = cur)) as [->|Hx]; [eexists; split; [exact HC1|]; by simplify_eq|].
      destruct (pf_old _ _ Hf x X) as [v Hv]; [simpl; by rewrite lookup_alter_ne|].
      eexists. by split; [exact Hv|]. }
    destruct HX1 as (X1 & HX1 & F1 & F2 & F3).
    destruct (sp_dom _ _ Hstep x ltac:(by eexists)) as [X' HX'].
    destruct (same_fields _ _ x _ _ Hstep HX1 HX') as (E1 & E2 & E3).
    exists X'. by rewrite E1, E2, E3.
  - intros x X HX Hx. rewrite Hu, Hst, lookup_insert_ne by done.
    eapply (pf_ctxs _ _ Hf). simpl. by rewrite lookup_alter_ne.
  - destruct (sp_dom _ _ Hstep cur ltac:(by eexists)) as [P HP].
    destruct (same_fields _ _ cur _ _ Hstep HC1 HP) as (E1 & E2 & E3).
    exists P. simpl in *. by rewrite E1, E2, E3.
Qed.

(** The children are handed over, and the parent gives the processor away. *)
Lemma spawned_wait c base s cur C q ql l carved free barr chs s1 kids nc :
  cpu_state c s cur C q ql l -> rq_sorted (pri_of s) l -> p_stackptr C = cur ->
  sent_to c kids chs ++ l <> [] -> nc = length chs ->
  spawned c base (parting barr cur nc s) cur q ql l barr s1 kids chs carved free ->
  exists s' n L N,
    exec c (relinquish;; end_bar barr) s1 (Switched cur (p_stackptr N) (enable;; end_bar barr) s') /\
    procs s' !! n = Some N /\ placed c base s cur ql l barr chs s' kids n L carved free /\
    par_wait s s' cur C /\ cur ∉ n :: L.
Proof.
  intros Hcs Hso Hst Hne -> Hsp. apply (parting_cpu c barr _ _ _ _ _ _ (length chs)) in Hcs as Hcs0.
  set (s0 := parting barr cur (length chs) s) in *.
  destruct Hsp as [[C1 Hcs1] Hk1 Hroot1 _ Hf Hfresh Hnd Hkids Hel Hown Hpost _ Honly].
  pose proof (cs_proc _ _ _ _ _ _ _ Hcs) as HC. pose proof (cs_proc _ _ _ _ _ _ _ Hcs0) as HC0.
  destruct (pf_old _ _ Hf _ _ HC0) as [nx HC1]. pose proof (cs_proc _ _ _ _ _ _ _ Hcs1) as HC1'.
  rewrite HC1 in HC1'. injection HC1' as <-.
  set (lq := rq_insert_all (pri_of s1) (sent_to c kids chs) l) in *.
  destruct (rq_insert_all (pri_of s1) ql lq) as [|n L] eqn:HL.
  { exfalso. apply (f_equal length) in HL. unfold lq in HL. rewrite !rq_insert_all_perm, !length_app in HL.
    apply Hne, length_zero_iff_nil. rewrite length_app. simpl in HL. lia. }
  destruct (relinquish_wait c s1 cur _ q ql lq n L Hcs1 eq_refl HL)
    as (s' & q' & N & N' & He & HN & Hstep & Hcs' & Hwait & Hsts & Hu & Hi & Hel').
  destruct (same_fields _ _ n _ _ Hstep HN (cs_proc _ _ _ _ _ _ _ Hcs')) as (_ & _ & EN).
  assert (Hprik : forall ps ks, rq_insert_all (pri_of s') ps ks = rq_insert_all (pri_of s1) ps ks)
    by (intros; apply rq_insert_all_ext; intros; apply (sp_pri _ _ Hstep)).
  exists s', n, L, N'. split_and!.
  - eapply exec_bind; [exact He|]. simpl. by rewrite EN, Hst.
  - exact (cs_proc _ _ _ _ _ _ _ Hcs').
  - split.
    + eapply Forall_impl; [exact Hfresh|]. intros x Hx. simpl in Hx.
      destruct (decide (cur = x)) as [->|]; [by rewrite lookup_alter_eq, HC in Hx|].
      by rewrite lookup_alter_ne in Hx.
    + exact Hnd.
    + apply (born_wait s1 s' cur); [exact Hstep|exact Hsts|by rewrite Hu; simpl; rewrite Hst| |exact Hkids].
      intros Hin. rewrite Forall_forall in Hfresh. specialize (Hfresh _ Hin). congruence.
    + unfold lq in HL. by rewrite !Hprik, HL.
    + eapply posted_ext; [|exact (posted_trans _ _ _ _ _ _ (posted_trans _ _ _ _ _ _ (posted_same c s s0 (fun _ _ => eq_refl) eq_refl) Hpost)
        (posted_same c s1 s' ltac:(intros d Hd; by rewrite Hi, lookup_insert_ne) (ss_hw _ _ Hstep)))].
      intros d _. cbv beta. by rewrite app_nil_r.
    + etrans; [|exact Hel']. etrans; [|exact Hel].
      etrans; [by apply (elsewhere_ext c s (upd_bar barr (mkParBarrier (int32 (Z.of_nat (length chs))) cur) s))|].
      apply elsewhere_quiet; auto with cxp.
    + eapply own_pending_trans; [exact (pf_hw _ _ Hf)|exact Hown|by apply own_pending_same, Hstep].
    + eapply (sched_ok_taken c s1); [|exact HL|exact Hstep|exact Hcs'].
      unfold lq. apply rq_insert_all_sorted. eapply rq_sorted_agree; [|exact Hso]. intros x Hx.
      destruct (cpu_state_elem c s0 cur _ q ql l x Hcs0) as [X HX]; [set_solver|].
      rewrite (spawn_frame_pri s0 s1 x X Hf HX).
      symmetry. apply (pri_of_quiet _ (quiet_sched_state _) cur (upd_bar barr _ s)).
    + rewrite (ss_rest _ _ Hstep). simpl. rewrite (pf_rest _ _ Hf). simpl. apply lookup_insert_eq.
    + exact Hwait.
    + apply (heap_ok_frame base s1); [by rewrite (ss_rest _ _ Hstep)..|exact Hk1].
    + eapply rooted_step; [exact (sp_stack _ _ Hstep)|exact Hroot1].
    + intros y Hy Hyk. apply (same_procs_none s1); [apply Hstep|]. apply Honly; [|exact Hyk].
      simpl. by rewrite lookup_alter_ne by congruence.
  - by eapply spawned_par_wait.
  - destruct (next_proc _ _ _ _ _ _ _ _ _ Hcs1 HL) as (_ & _ & _ & _ & Hnd').
    rewrite !NoDup_cons in Hnd'. set_solver.
Qed.

(** What a call of one of the constructs requires. *)
Record may_part (c base : Z) (s : sys) (cur : addr) (C : Process) (q : IPQueue) (ql l : list addr)
    (carved : gmap addr Z) (free : Z -> list addr) (jobs : list (code_p * addr * Z))
    (mk k : sigset) : Prop := {
  mp_cpu : cpu_state c s cur C q ql l;
  mp_sorted : rq_sorted (pri_of s) l;
  mp_stack : p_stackptr C = cur;
  mp_heap : heap_ok base s carved free;
  mp_rooted : rooted s carved free;
  mp_lock : mutexes s !! mutex_mem = Some false;
  mp_sigmask : sigmask (hw s) !! c = Some mk;
  mp_mask : thread_mask (hw s) !! c = Some k;
  mp_jobs : jobs <> [];
  mp_sizes : Forall (fun j => 0 <= j.2 /\ j.2 + sizeof_Process <= 24576) jobs;
  mp_big : 24576 <= taillen s;
  mp_room : tail s + 24576 * Z.of_nat (length jobs) < 2 ^ 32 }.

(** The whole of a construct after its start, whatever its loop. *)
Lemma spawn_and_wait c base s cur C q ql l carved free jobs mk k barr {X} body (st : nat -> X) pr pu give :
  may_part c base s cur C q ql l carved free jobs mk k ->
  turns_make c cur barr jobs body st pr pu give (set_sched_state PROC_PREPARING_TO_WAIT C) ->
  sendable c s jobs pr pu ->
  (forall kids, length kids = length jobs -> sent_to c kids (children jobs pr pu) ++ l <> []) ->
  exists s' kids n L N carved' free',
    exec c (loop body (st O);; relinquish;; end_bar barr) (parting barr cur (length jobs) s)
      (Switched cur (p_stackptr N) (enable;; end_bar barr) s') /\
    procs s' !! n = Some N /\
    placed c base s cur ql l barr (children jobs pr pu) s' kids n L carved' free' /\
    par_wait s s' cur C /\ cur ∉ n :: L.
Proof.
  intros [Hcs Hso Hst Hk Hroot Hmm Hmk Hmask Hne Hsz Hbig Hroom] Hturns [Hpri Hpun Hsd] Hlocal.
  apply (parting_cpu c barr _ _ _ _ _ _ (length jobs)) in Hcs as Hcs0.
  set (s0 := parting barr cur (length jobs) s) in *.
  assert (Hsp0 : spawned c base s0 cur q ql l barr s0 [] [] carved free).
  { split; [by eexists|by apply (heap_ok_frame base s)| |by exists k|done|constructor|constructor|constructor|done|done| |simpl; lia|done].
    - eapply rooted_step; [|exact Hroot]. apply (sp_stack _ _ (same_procs_quiet _ cur (upd_bar barr _ s)
        (quiet_sched_state PROC_PREPARING_TO_WAIT))).
    - by apply posted_same. }
  assert (Hsd0 : sendable c s0 jobs pr pu).
  { split; [done..|]. intros i Hi. destruct (Hsd i Hi) as [E|Htake]; [by left|right]. by apply (takes_more_ext s). }
  destruct (spawn_loop c base s0 cur q ql l barr mk Hmk Hmm Hbig jobs body st pr pu give _
    (cs_proc _ _ _ _ _ _ _ Hcs0) jobs [] s0 [] carved free Hturns)
    as (s1 & kids & carved' & free' & Hloop & Hsp); [done..|].
  pose proof (spawned_lengths _ _ _ _ _ _ _ _ _ _ _ _ _ Hsp) as Hlen.
  assert (Hlc : length (children jobs pr pu) = length jobs) by (unfold children; apply length_imap).
  destruct (spawned_wait c base s cur C q ql l carved' free' barr (children jobs pr pu) s1 kids (length jobs))
    as (s' & n & L & N & He & HN & Hpd & Hpw & Hap'); [done..|apply Hlocal; congruence|done|done|].
  exists s', kids, n, L, N, carved', free'. split_and!; [|done..]. by eapply exec_bind_done.
Qed.

(** [elem] on one component of the jobs. *)
Lemma exec_elem {A B D} c (f : A -> B) (l : list A) i j (g : B -> cprog D) s o :
  l !! i = Some j -> exec c (g (f j)) s o -> exec c (bind (elem (f <$> l) (Z.of_nat i)) g) s o.
Proof.
  intros Hj Hg. unfold elem. eapply exec_fetch; [|exact Hg].
  zb. by rewrite Nat2Z.id, list_lookup_fmap, Hj.
Qed.

(** ** The constructs *)

Section Constructs.
Context (c base : Z) (s : sys) (cur : addr) (C : Process) (q : IPQueue) (ql l : list addr).
Context (carved : gmap addr Z) (free : Z -> list addr) (jobs : list (code_p * addr * Z)).
Context (mk k : sigset) (barr : addr).
Context (Hmp : may_part c base s cur C q ql l carved free jobs mk k).

(** The arguments the C functions take as arrays. *)
Notation codes := ((fun j => j.1.1) <$> jobs).
Notation args := ((fun j => j.1.2) <$> jobs).
Notation stacks := (snd <$> jobs).
Notation count := (Z.of_nat (length jobs)).

Lemma own_processor : 0 <= c < 2 ^ 16.
Proof.
  pose proof (qs_cpu _ _ _ _ _ (cs_queues _ _ _ _ _ _ _ (mp_cpu _ _ _ _ _ _ _ _ _ _ _ _ _ Hmp))) as Hc.
  unfold on_cpu, NPUN in Hc. lia.
Qed.

(** The constructs whose children are all for the parent's processor. *)
Lemma spawn_own {X} body (st : nat -> X) pr :
  turns_make c cur barr jobs body st pr (fun _ => c) (fun _ => enqueue) (set_sched_state PROC_PREPARING_TO_WAIT C) ->
  (forall i, (i < length jobs)%nat -> 0 <= pr i < 2 ^ 16) ->
  exists s' kids n L N carved' free',
    exec c (loop body (st O);; relinquish;; end_bar barr) (parting barr cur (length jobs) s)
      (Switched cur (p_stackptr N) (enable;; end_bar barr) s') /\ procs s' !! n = Some N /\
    parted c base s cur ql l barr (imap (fun i j => (j.1, pr i)) jobs) s' kids n L carved' free' /\
    par_wait s s' cur C /\ cur ∉ n :: L.
Proof.
  intros Hturns Hpri. pose proof own_processor as Hc.
  assert (Hown : Forall (fun ch => cd_pun ch = c) (children jobs pr (fun _ => c))).
  { apply Forall_forall. intros ch Hch. unfold children in Hch. apply elem_of_lookup_imap in Hch as (i & j & -> & _). done. }
  destruct (spawn_and_wait c base s cur C q ql l carved free jobs mk k barr body st pr (fun _ => c)
    (fun _ => enqueue) Hmp Hturns) as (s' & kids & n & L & N & cv & fr & He & HN & Hpd & Hpw & Hap).
  - split; [done|done|]. by left.
  - intros kids Hlen. rewrite sent_to_all by (first [done|unfold children; by rewrite length_imap]).
    pose proof (mp_jobs _ _ _ _ _ _ _ _ _ _ _ _ _ Hmp). by destruct kids, jobs.
  - exists s', kids, n, L, N, cv, fr. split_and!; [done..| |done|done]. apply placed_parted.
    replace (_ <$> _) with (children jobs pr (fun _ => c)); [exact Hpd|].
    unfold children. rewrite fmap_imap. by apply imap_ext.
Qed.

Lemma par_run :
  0 <= p_pri C < 2 ^ 16 ->
  exists s' kids n L N carved' free',
    exec c (par barr codes args stacks count) s
      (Switched cur (p_stackptr N) (enable;; end_bar barr) s') /\ procs s' !! n = Some N /\
    parted c base s cur ql l barr ((fun j => (j.1, p_pri C)) <$> jobs) s' kids n L carved' free' /\
    par_wait s s' cur C /\ cur ∉ n :: L.
Proof.
  intros Hpri. pose proof (mp_cpu _ _ _ _ _ _ _ _ _ _ _ _ _ Hmp) as Hcs.
  destruct (spawn_own
    (fun i : Z => if i <? count then
        (cd <- elem codes i;; st <- elem stacks i;; pri <- pget cur p_pri;; pun <- pget cur p_pun;;
         ua <- elem args i;; proc <- make_process CRunInPar cd barr st pri pun ua;;
         enqueue proc;; ret (inl (i + 1)))
      else ret (inr tt)) Z.of_nat (fun _ => p_pri C))
    as (s' & kids & n & L & N & cv & fr & He & HN & Hpd & Hpw & Hap); [split|done|].
  - intros i j s2 nx o Hj HC2 Ho. pose proof (lookup_lt_Some _ _ _ Hj) as Hi. zb.
    eapply exec_elem; [exact Hj|]. eapply exec_elem; [exact Hj|]. eapply exec_pget; [exact HC2|].
    eapply exec_pget; [exact HC2|]. eapply exec_elem; [exact Hj|]. simpl p_pri. simpl p_pun.
    rewrite (cs_pun _ _ _ _ _ _ _ Hcs). replace (Z.of_nat i + 1) with (Z.of_nat (S i)) by lia. exact Ho.
  - intros i a s2 nx o _. unfold hand. by rewrite Z.eqb_refl.
  - intros s2. zb. apply exec_ret.
  - exists s', kids, n, L, N, cv, fr. split_and!; [|done| |done..].
    + unfold par. eapply exec_get_current; [apply Hcs|apply Hcs|]. unfold par_barr_init.
      apply exec_modify. unfold PREPARE_TO_WAIT. eapply exec_pset; [apply Hcs|]. exact He.
    + by rewrite <-(imap_const (fun j => (j.1, p_pri C)) jobs).
Qed.

(** The children of [par_pri] are made with ever lower priorities. *)
Lemma child_pri_decreases i j :
  pri_ok (p_pri C) -> pri_level (p_pri C) < PRI_LEVELS -> 0 <= i < j -> j < PRI_PROCS ->
  pri_gt (child_pri (p_pri C) i) (child_pri (p_pri C) j) = true.
Proof.
  intros Hok Hl Hi Hj. destruct (child_pri_fields _ i Hok Hl ltac:(lia)) as (_ & _ & E1).
  destruct (child_pri_fields _ j Hok Hl ltac:(lia)) as (_ & _ & E2).
  destruct (pri_delta_step (pri_level (p_pri C))) as [_ Hd];
    [pose proof (pri_level_range _ (proj1 Hok)); lia|].
  unfold pri_gt. apply Z.ltb_lt. fold (pri_value (child_pri (p_pri C) i)) (pri_value (child_pri (p_pri C) j)).
  rewrite E1, E2. nia.
Qed.

(** The priority is computed in 16 bits, which loses nothing. *)
Lemma child_pri_priority p i :
  0 <= pri_level p < 8 -> pri_level p < PRI_LEVELS ->
  child_pri p i = priority (pri_level p + 1) (p + i * pri_delta (pri_level p + 1)).
Proof.
  intros Hr Hl. unfold child_pri.
  destruct (priority_bits (pri_level p + 1) (p + i * pri_delta (pri_level p + 1))) as [Hb _];
    [unfold PRI_LEVELS in *; lia|].
  unfold uint16, wrapU. by rewrite Z.mod_small.
Qed.

(** The start of the prioritized constructs. *)
Lemma par_pri_start_ok {B} (g : addr * Z -> cprog B) o :
  pri_level (p_pri C) < PRI_LEVELS -> count <= PRI_PROCS ->
  exec c (g (cur, pri_level (p_pri C) + 1)) (parting barr cur (length jobs) s) o ->
  exec c (bind (par_pri_start barr count) g) s o.
Proof.
  intros Hl Hn Hg. pose proof (mp_cpu _ _ _ _ _ _ _ _ _ _ _ _ _ Hmp) as Hcs.
  unfold par_pri_start. rewrite bind_assoc. zb. apply exec_bind_ret.
  rewrite bind_assoc. eapply exec_get_current; [apply Hcs|apply Hcs|]. unfold par_barr_init. rewrite bind_assoc.
  apply exec_modify. rewrite bind_assoc. eapply exec_pget; [apply Hcs|].
  replace (_ >? PRI_LEVELS) with false by (rewrite Z.gtb_ltb; symmetry; apply Z.ltb_ge; lia).
  rewrite bind_assoc. apply exec_bind_ret. unfold PREPARE_TO_WAIT. rewrite bind_assoc.
  eapply exec_pset; [apply Hcs|]. by apply exec_bind_ret.
Qed.

Lemma par_pri_start_many {B} (g : addr * Z -> cprog B) :
  PRI_PROCS < count -> exec c (bind (par_pri_start barr count) g) s (Exited "Too many child processes" s).
Proof. intros Hn. unfold par_pri_start. rewrite !bind_assoc. zb. apply exec_plotz. Qed.

Lemma par_pri_start_deep {B} (g : addr * Z -> cprog B) :
  count <= PRI_PROCS -> pri_level (p_pri C) = PRI_LEVELS ->
  exec c (bind (par_pri_start barr count) g) s
    (Exited "Too many PRI levels" (upd_bar barr (mkParBarrier (int32 count) cur) s)).
Proof.
  intros Hn Hl. pose proof (mp_cpu _ _ _ _ _ _ _ _ _ _ _ _ _ Hmp) as Hcs.
  unfold par_pri_start. rewrite bind_assoc. zb. apply exec_bind_ret. rewrite bind_assoc.
  eapply exec_get_current; [apply Hcs|apply Hcs|]. unfold par_barr_init. rewrite bind_assoc.
  apply exec_modify. rewrite bind_assoc. eapply exec_pget; [apply Hcs|]. rewrite Hl.
  rewrite !bind_assoc. apply exec_plotz.
Qed.

Definition pri_specs : list (code_p * addr * Z) :=
  imap (fun i j => (j.1, child_pri (p_pri C) (Z.of_nat i))) jobs.

Lemma par_pri_run :
  pri_ok (p_pri C) -> pri_level (p_pri C) < PRI_LEVELS -> count <= PRI_PROCS ->
  exists s' kids n L N carved' free',
    exec c (par_pri barr codes args stacks count) s
      (Switched cur (p_stackptr N) (enable;; end_bar barr) s') /\ procs s' !! n = Some N /\
    parted c base s cur ql l barr pri_specs s' kids n L carved' free'.
Proof.
  intros Hok Hl Hn. pose proof (mp_cpu _ _ _ _ _ _ _ _ _ _ _ _ _ Hmp) as Hcs.
  set (level := pri_level (p_pri C) + 1).
  pose proof (pri_level_range _ (proj1 Hok)) as Hlr.
  destruct (spawn_own
    (fun ip : Z * Z => let (i, pri) := ip in if i <? count then
        (cd <- elem codes i;; st <- elem stacks i;; pun <- pget cur p_pun;; ua <- elem args i;;
         proc <- make_process CRunInPar cd barr st (priority level pri) pun ua;;
         enqueue proc;; ret (inl (i + 1, pri + pri_delta level)))
      else ret (inr tt)) (fun i => (Z.of_nat i, p_pri C + Z.of_nat i * pri_delta level))
      (fun i => child_pri (p_pri C) (Z.of_nat i)))
    as (s' & kids & n & L & N & cv & fr & He & HN & Hpd & _); [split| |].
  - intros i j s2 nx o Hj HC2 Ho. pose proof (lookup_lt_Some _ _ _ Hj) as Hi. zb.
    eapply exec_elem; [exact Hj|]. eapply exec_elem; [exact Hj|].
    eapply exec_pget; [exact HC2|]. eapply exec_elem; [exact Hj|]. simpl p_pun.
    rewrite (cs_pun _ _ _ _ _ _ _ Hcs), <-(child_pri_priority _ _ Hlr Hl). fold level.
    replace (Z.of_nat i + 1) with (Z.of_nat (S i)) by lia.
    replace (p_pri C + Z.of_nat i * pri_delta level + pri_delta level)
      with (p_pri C + Z.of_nat (S i) * pri_delta level) by lia. exact Ho.
  - intros i a s2 nx o _. unfold hand. by rewrite Z.eqb_refl.
  - intros s2. zb. apply exec_ret.
  - intros i Hi. apply child_pri_fields; [done|done|lia].
  - exists s', kids, n, L, N, cv, fr. split_and!; [|done..].
    replace (p_pri C + Z.of_nat 0 * pri_delta level) with (p_pri C) in He by lia.
    apply (par_pri_start_ok); [done|done|]. fold level.
    eapply exec_pget; [simpl; by rewrite lookup_alter_eq, (cs_proc _ _ _ _ _ _ _ Hcs)|]. exact He.
Qed.

(** [par] with at least one child.  For every element of its arguments a
    process is made, in order: in a block nobody was using, with the priority
    and the processor of the parent, about to run [run_in_par] with its function,
    its argument and the barrier.  All are queued behind their equals; the
    barrier counts them; the parent waits, and the processor goes to the first
    of the queue, under which the scheduler's and the heap's invariants hold. *)
Theorem par_correct :
  0 <= p_pri C < 2 ^ 16 ->
  exists s' kids n L N carved' free',
    exec c (par barr codes args stacks count) s
      (Switched cur (p_stackptr N) (enable;; end_bar barr) s') /\ procs s' !! n = Some N /\
    parted c base s cur ql l barr ((fun j => (j.1, p_pri C)) <$> jobs) s' kids n L carved' free'.
Proof.
  intros Hpri. destruct (par_run Hpri) as (s' & kids & n & L & N & cv & fr & H1 & H2 & H3 & _).
  by exists s', kids, n, L, N, cv, fr.
Qed.

(** C25: [par_pri], on every branch.  More children than priorities of a level,
    or a level too deep, end the program.  Otherwise the children are made and
    queued like those of [par], but the priority of child [i] is the one
    [par_pri_intervals] speaks of, so that each child outranks the next; the
    parent waits, and the processor goes to the first of the queue. *)
Theorem par_pri_correct :
  pri_ok (p_pri C) ->
  if count >? PRI_PROCS then
    exec c (par_pri barr codes args stacks count) s (Exited "Too many child processes" s)
  else if pri_level (p_pri C) =? PRI_LEVELS then
    exec c (par_pri barr codes args stacks count) s
      (Exited "Too many PRI levels" (upd_bar barr (mkParBarrier (int32 count) cur) s))
  else
    exists s' kids n L N carved' free',
      exec c (par_pri barr codes args stacks count) s
        (Switched cur (p_stackptr N) (enable;; end_bar barr) s') /\ procs s' !! n = Some N /\
      parted c base s cur ql l barr pri_specs s' kids n L carved' free' /\
      forall i j x y, (i < j)%nat -> kids !! i = Some x -> kids !! j = Some y ->
        pri_gt (pri_of s' x) (pri_of s' y) = true.
Proof.
  intros Hok. pose proof (mp_cpu _ _ _ _ _ _ _ _ _ _ _ _ _ Hmp) as Hcs.
  destruct (Z.gtb_spec count PRI_PROCS) as [Hn|Hn]; [by apply par_pri_start_many|].
  destruct (Z.eqb_spec (pri_level (p_pri C)) PRI_LEVELS) as [Hl|Hl]; [by apply par_pri_start_deep|].
  assert (Hl' : pri_level (p_pri C) < PRI_LEVELS) by (pose proof (proj1 (proj2 Hok)); lia).
  destruct (par_pri_run Hok Hl' Hn) as (s' & kids & n & L & N & cv & fr & H1 & H2 & H3).
  exists s', kids, n, L, N, cv, fr. split_and!; [done..|]. intros i j x y Hij Hx Hy.
  assert (Hp : forall i x, kids !! i = Some x ->
      (i < length jobs)%nat /\ pri_of s' x = child_pri (p_pri C) (Z.of_nat i)).
  { intros i' x' Hx'. destruct (Forall2_lookup_l _ _ _ _ _ (pd_kids _ _ _ _ _ _ _ _ _ _ _ _ _ _ H3) Hx')
      as (sp & Hsp & (nx & ix & HX) & _). unfold pri_specs in Hsp.
    apply list_lookup_imap_Some in Hsp as (jb & Hjb & ->).
    split; [by eapply lookup_lt_Some|]. by rewrite (pri_of_lookup _ _ _ HX). }
  destruct (Hp i x Hx) as [_ ->]. destruct (Hp j y Hy) as [Hjl ->].
  apply child_pri_decreases; [done|done|lia|lia].
Qed.
End Constructs.

(** ** At a concrete input: [pA] runs one child

    The records of the sample state as blocks of 256 bytes. *)
Definition sample_blocks : gmap addr Z := (fun _ => 6) <$> sample_procs.

Lemma sample_blocks_heap : heap_ok pA sample sample_blocks (fun _ => []).
Proof.
  pose proof sample_heap as [_ H2 _ _ _]. split; [by vm_compute|exact H2|set_solver| |].
  - assert (Hd : map_Forall (fun a i => i = 6 /\ pA <= a /\ a + 256 <= tail sample) sample_blocks)
      by (apply (bool_decide_unpack _); by vm_compute).
    intros a i Ha. destruct (Hd a i Ha) as (-> & H1 & H3).
    split_and!; [by vm_compute|exact H1|exact H3].
  - assert (Hd : map_Forall (fun a i => map_Forall (fun b j => a = b \/
        a + block_len i <= b \/ b + block_len j <= a) sample_blocks) sample_blocks)
      by (apply (bool_decide_unpack _); by vm_compute).
    intros a i b j Ha Hb Hab. destruct (Hd a i Ha b j Hb) as [?|?]; [done|done].
Qed.

Lemma sample_rooted : rooted sample sample_blocks (fun _ => []).
Proof.
  assert (Hd : map_Forall (fun x X => sample_blocks !! x = Some (p_index X)) sample_procs)
    by (apply (bool_decide_unpack _); by vm_compute).
  intros x X HX. split; [exact (Hd x X HX)|set_solver].
Qed.

Definition sample_job : code_p * addr * Z := (CUser 7, 0x1234, 100).

Definition sample_room : sys := set_taillen 60000 sample.

Lemma sample_may_part jobs :
  jobs <> [] -> Forall (fun j => 0 <= j.2 /\ j.2 + sizeof_Process <= 24576) jobs ->
  tail sample_room + 24576 * Z.of_nat (length jobs) < 2 ^ 32 ->
  may_part 0 pA sample_room pA (sample_proc pA NULL 1024 0 PROC_READY) empty_ipq [] [pB; idle0]
    sample_blocks (fun _ => []) jobs sigemptyset sigemptyset.
Proof.
  intros Hne Hsz Hroom.
  split; [|repeat constructor|done| |exact sample_rooted|done|done|done|exact Hne|exact Hsz|by vm_compute|exact Hroom].
  - by apply (cpu_state_ext 0 sample), sample_cpu_local.
  - by apply (heap_ok_frame pA sample), sample_blocks_heap.
Qed.

Lemma par_correct_witness :
  exists s' kids N, exec 0 (par 0x9000 [CUser 7] [0x1234] [100] 1) sample_room
      (Switched pA (p_stackptr N) (enable;; end_bar 0x9000) s') /\
    Forall2 (fun x j => newborn 0 s' x 0x2400 CRunInPar j.1.1 0x9000 j.1.2) kids [sample_job] /\
    bars s' !! 0x9000 = Some (mkParBarrier 1 pA).
Proof.
  destruct (par_correct 0 pA sample_room pA _ empty_ipq [] [pB; idle0] sample_blocks (fun _ => [])
    [sample_job] sigemptyset sigemptyset 0x9000 (sample_may_part [sample_job] ltac:(done)
      ltac:(by repeat constructor) ltac:(by vm_compute)) ltac:(done))
    as (s' & kids & n & L & N & cv & fr & He & _ & Hpd).
  exists s', kids, N. split; [exact He|]. split; [|exact (pd_bar _ _ _ _ _ _ _ _ _ _ _ _ _ _ Hpd)].
  pose proof (pd_kids _ _ _ _ _ _ _ _ _ _ _ _ _ _ Hpd) as Hk. by rewrite Forall2_fmap_r in Hk.
Defined.

(** [pA], of level 1, has two children of level 2; nine would be too many. *)
Lemma par_pri_correct_witness :
  (exists s' kids N, exec 0 (par_pri 0x9000 [CUser 7; CUser 7] [0x1234; 0x1234] [100; 100] 2) sample_room
      (Switched pA (p_stackptr N) (enable;; end_bar 0x9000) s') /\
    Forall2 (fun x sp => newborn 0 s' x sp.2 CRunInPar sp.1.1 0x9000 sp.1.2) kids
      [(CUser 7, 0x1234, 0x4400); (CUser 7, 0x1234, 0x4440)]) /\
  exec 0 (par_pri 0x9000 (replicate 9 (CUser 7)) (replicate 9 0x1234) (replicate 9 100) 9) sample_room
    (Exited "Too many child processes" sample_room).
Proof.
  assert (Hok : pri_ok (p_pri (sample_proc pA NULL 1024 0 PROC_READY))).
  { split; [by vm_compute|]. split; [by vm_compute|by exists 2]. }
  split.
  - destruct (par_pri_correct 0 pA sample_room pA _ empty_ipq [] [pB; idle0] sample_blocks (fun _ => [])
      [sample_job; sample_job] sigemptyset sigemptyset 0x9000 (sample_may_part [sample_job; sample_job] ltac:(done)
        ltac:(by repeat constructor) ltac:(by vm_compute)) Hok)
      as (s' & kids & n & L & N & cv & fr & He & _ & Hpd & _).
    exists s', kids, N. split; [exact He|exact (pd_kids _ _ _ _ _ _ _ _ _ _ _ _ _ _ Hpd)].
  - exact (par_pri_correct 0 pA sample_room pA _ empty_ipq [] [pB; idle0] sample_blocks (fun _ => [])
      (replicate 9 sample_job) sigemptyset sigemptyset 0x9000 (sample_may_part (replicate 9 sample_job) ltac:(done)
        ltac:(by repeat constructor) ltac:(by vm_compute)) Hok).
Defined.
