(* ===== verification/Placed.v ===== *)
(** * Placed: parallel constructs over several processors

    [placed_par] and [placed_par_pri] make their children the way [par] and
    [par_pri] do and hand each to the processor it is meant for: to the ready
    queue when that is the parent's own, and otherwise, with an interrupt, to
    the other processor's interprocessor queue. *)

From S2P Require Import Prelude Prog State Fixture Linked Hardware.
From S2P Require Import Exec Priority Ipq Sched ReadyQueue Dispatch.
From S2P Require Import Mutex Memory Heap Proc Par Life Spawn.

#[local] Open Scope prog_scope.

Section Placed.
Context (c base : Z) (s : sys) (cur : addr) (C : Process) (q : IPQueue) (ql l : list addr).
Context (carved : gmap addr Z) (free : Z -> list addr) (jobs : list (code_p * addr * Z)).
Context (mk k : sigset) (barr : addr) (puns : list Z).
Context (Hmp : may_part c base s cur C q ql l carved free jobs mk k).

Notation codes := ((fun j => j.1.1) <$> jobs).
Notation args := ((fun j => j.1.2) <$> jobs).
Notation stacks := (snd <$> jobs).
Notation count := (Z.of_nat (length jobs)).

(** The processor of child [i]. *)
Notation pun_at := (fun i => nth i puns 0).

(** What a call requires besides: a processor for every child, with room in its
    queue for all the children it gets if it is not the parent's own; and a
    process to go on with, which waits in the ready queue. *)
Record may_place : Prop := {
  my_puns : length puns = length jobs;
  my_next : l <> [];
  my_room : Forall (fun d => 0 <= d < 2 ^ 16 /\
    (d = c \/ takes_more s d (Z.of_nat (length (filter (fun d' => d' = d) puns))))) puns }.
Context (Hmy : may_place).

Definition placed_specs (pr : nat -> Z) : list child := children jobs pr pun_at.

(** The children bound for a processor are as many as the array says. *)
Lemma bound_for pr d :
  length (filter (fun ch => cd_pun ch = d) (placed_specs pr)) = length (filter (fun d' => d' = d) puns).
Proof.
  assert (E : cd_pun <$> placed_specs pr = puns).
  { unfold placed_specs, children. rewrite fmap_imap. apply list_eq. intros i. rewrite list_lookup_imap.
    destruct (jobs !! i) as [j|] eqn:Hj; simpl.
    - symmetry. apply lookup_nth. rewrite (my_puns Hmy). by eapply lookup_lt_Some.
    - symmetry. apply lookup_ge_None. rewrite (my_puns Hmy). by apply lookup_ge_None. }
  rewrite <-E. by rewrite filter_fmap, length_fmap.
Qed.

Lemma placed_sendable pr :
  (forall i, (i < length jobs)%nat -> 0 <= pr i < 2 ^ 16) -> sendable c s jobs pr pun_at.
Proof.
  intros Hpri. destruct Hmy as [Hlen _ Hroom]. rewrite Forall_forall in Hroom.
  assert (Hin : forall i, (i < length jobs)%nat -> nth i puns 0 ∈ puns).
  { intros i Hi. apply list_elem_of_In, nth_In. lia. }
  split; [done|intros i Hi; by apply Hroom, Hin|]. intros i Hi.
  destruct (proj2 (Hroom _ (Hin i Hi))) as [E|Htake]; [by left|right].
  pose proof (bound_for pr (nth i puns 0)) as E. unfold placed_specs in E. by rewrite E.
Qed.

(** Handing over, as the constructs do it. *)
Lemma place_hand i a s' n o :
  procs s' !! cur = Some (set_next n (set_sched_state PROC_PREPARING_TO_WAIT C)) ->
  exec c (hand c (nth i puns 0) a) s' o -> exec c (place cur a (nth i puns 0)) s' o.
Proof.
  intros HC Ho. unfold place. eapply exec_pget; [exact HC|]. simpl p_pun.
  by rewrite (cs_pun _ _ _ _ _ _ _ (mp_cpu _ _ _ _ _ _ _ _ _ _ _ _ _ Hmp)).
Qed.

Lemma exec_elem_pun {D} i j (g : Z -> cprog D) s' o :
  jobs !! i = Some j -> exec c (g (nth i puns 0)) s' o -> exec c (bind (elem puns (Z.of_nat i)) g) s' o.
Proof.
  intros Hj%lookup_lt_Some Hg. rewrite <-(my_puns Hmy) in Hj. unfold elem. eapply exec_fetch; [|exact Hg].
  zb. rewrite Nat2Z.id. by apply lookup_nth.
Qed.

Lemma spawn_placed {X} body (st : nat -> X) pr :
  turns_make c cur barr jobs body st pr pun_at (fun i a => place cur a (nth i puns 0))
    (set_sched_state PROC_PREPARING_TO_WAIT C) ->
  (forall i, (i < length jobs)%nat -> 0 <= pr i < 2 ^ 16) ->
  exists s' kids n L N carved' free',
    exec c (loop body (st O);; relinquish;; end_bar barr) (parting barr cur (length jobs) s)
      (Switched cur (p_stackptr N) (enable;; end_bar barr) s') /\ procs s' !! n = Some N /\
    placed c base s cur ql l barr (placed_specs pr) s' kids n L carved' free' /\
    par_wait s s' cur C /\ cur ∉ n :: L.
Proof.
  intros Hturns Hpri. eapply spawn_and_wait; [exact Hmp|exact Hturns|by apply placed_sendable|].
  intros kids _ [_ E]%app_eq_nil. by apply (my_next Hmy).
Qed.

(** ** The constructs *)

Lemma placed_par_run :
  0 <= p_pri C < 2 ^ 16 ->
  exists s' kids n L N carved' free',
    exec c (placed_par barr codes args stacks puns count) s
      (Switched cur (p_stackptr N) (enable;; end_bar barr) s') /\ procs s' !! n = Some N /\
    placed c base s cur ql l barr (placed_specs (fun _ => p_pri C)) s' kids n L carved' free' /\
    par_wait s s' cur C /\ cur ∉ n :: L.
Proof.
  intros Hpri. pose proof (mp_cpu _ _ _ _ _ _ _ _ _ _ _ _ _ Hmp) as Hcs.
  destruct (spawn_placed
    (fun i : Z => if i <? count then
        (cd <- elem codes i;; st <- elem stacks i;; pri <- pget cur p_pri;; pun <- elem puns i;;
         ua <- elem args i;; proc <- make_process CRunInPar cd barr st pri pun ua;;
         place cur proc pun;; ret (inl (i + 1)))
      else ret (inr tt)) Z.of_nat (fun _ => p_pri C))
    as (s' & kids & n & L & N & cv & fr & He & Hr); [split|done|].
  - intros i j s2 nx o Hj HC2 Ho. pose proof (lookup_lt_Some _ _ _ Hj) as Hi. zb.
    eapply exec_elem; [exact Hj|]. eapply exec_elem; [exact Hj|]. eapply exec_pget; [exact HC2|].
    eapply exec_elem_pun; [exact Hj|]. eapply exec_elem; [exact Hj|]. simpl p_pri.
    replace (Z.of_nat i + 1) with (Z.of_nat (S i)) by lia. exact Ho.
  - intros i a s2 nx o. apply place_hand.
  - intros s2. zb. apply exec_ret.
  - exists s', kids, n, L, N, cv, fr. split; [|exact Hr].
    unfold placed_par. eapply exec_get_current; [apply Hcs|apply Hcs|]. unfold par_barr_init.
    apply exec_modify. unfold PREPARE_TO_WAIT. eapply exec_pset; [apply Hcs|]. exact He.
Qed.

Lemma placed_par_pri_run :
  pri_ok (p_pri C) -> pri_level (p_pri C) < PRI_LEVELS -> count <= PRI_PROCS ->
  exists s' kids n L N carved' free',
    exec c (placed_par_pri barr codes args stacks puns count) s
      (Switched cur (p_stackptr N) (enable;; end_bar barr) s') /\ procs s' !! n = Some N /\
    placed c base s cur ql l barr (placed_specs (fun i => child_pri (p_pri C) (Z.of_nat i))) s' kids n L
      carved' free'.
Proof.
  intros Hok Hl Hn. pose proof (mp_cpu _ _ _ _ _ _ _ _ _ _ _ _ _ Hmp) as Hcs.
  set (level := pri_level (p_pri C) + 1). pose proof (pri_level_range _ (proj1 Hok)) as Hlr.
  destruct (spawn_placed
    (fun ip : Z * Z => let (i, pri) := ip in if i <? count then
        (cd <- elem codes i;; st <- elem stacks i;; pun <- elem puns i;; ua <- elem args i;;
         proc <- make_process CRunInPar cd barr st (priority level pri) pun ua;;
         place cur proc pun;; ret (inl (i + 1, pri + pri_delta level)))
      else ret (inr tt)) (fun i => (Z.of_nat i, p_pri C + Z.of_nat i * pri_delta level))
      (fun i => child_pri (p_pri C) (Z.of_nat i)))
    as (s' & kids & n & L & N & cv & fr & He & HN & Hpd & _); [split| |].
  - intros i j s2 nx o Hj HC2 Ho. pose proof (lookup_lt_Some _ _ _ Hj) as Hi. zb.
    eapply exec_elem; [exact Hj|]. eapply exec_elem; [exact Hj|].
    eapply exec_elem_pun; [exact Hj|]. eapply exec_elem; [exact Hj|].
    rewrite <-(child_pri_priority _ _ Hlr Hl). fold level.
    replace (Z.of_nat i + 1) with (Z.of_nat (S i)) by lia.
    replace (p_pri C + Z.of_nat i * pri_delta level + pri_delta level)
      with (p_pri C + Z.of_nat (S i) * pri_delta level) by lia. exact Ho.
  - intros i a s2 nx o. apply place_hand.
  - intros s2. zb. apply exec_ret.
  - intros i Hi. apply child_pri_fields; [done|done|lia].
  - exists s', kids, n, L, N, cv, fr. split; [|done].
    replace (p_pri C + Z.of_nat 0 * pri_delta level) with (p_pri C) in He by lia.
    apply (par_pri_start_ok c base s cur C q ql l carved free jobs mk k barr Hmp); [done|done|]. fold level.
    eapply exec_pget; [simpl; by rewrite lookup_alter_eq, (cs_proc _ _ _ _ _ _ _ Hcs)|]. exact He.
Qed.

Lemma placed_specs_zip (pri : Z) :
  placed_specs (fun _ => pri) = zip_with (fun j d => mkChild j.1.1 j.1.2 pri d) jobs puns.
Proof.
  unfold placed_specs, children. apply list_eq. intros i. rewrite list_lookup_imap, lookup_zip_with.
  destruct (jobs !! i) as [j|] eqn:Hj; [|done]. apply lookup_lt_Some in Hj.
  rewrite <-(my_puns Hmy) in Hj. by rewrite (lookup_nth puns i 0 Hj).
Qed.


(** [placed_par_pri], on every branch: the checks of [par_pri], the priorities
    of its children, and the processors of [placed_par]. *)
Theorem placed_par_pri_correct :
  pri_ok (p_pri C) ->
  if count >? PRI_PROCS then
    exec c (placed_par_pri barr codes args stacks puns count) s (Exited "Too many child processes" s)
  else if pri_level (p_pri C) =? PRI_LEVELS then
    exec c (placed_par_pri barr codes args stacks puns count) s
      (Exited "Too many PRI levels" (upd_bar barr (mkParBarrier (int32 count) cur) s))
  else
    exists s' kids n L N carved' free',
      exec c (placed_par_pri barr codes args stacks puns count) s
        (Switched cur (p_stackptr N) (enable;; end_bar barr) s') /\ procs s' !! n = Some N /\
      placed c base s cur ql l barr (placed_specs (fun i => child_pri (p_pri C) (Z.of_nat i)))
        s' kids n L carved' free'.
Proof.
  intros Hok. destruct (Z.gtb_spec count PRI_PROCS) as [Hn|Hn]; [by eapply par_pri_start_many|].
  destruct (Z.eqb_spec (pri_level (p_pri C)) PRI_LEVELS) as [Hl|Hl]; [by eapply par_pri_start_deep|].
  apply placed_par_pri_run; [done| |lia]. pose proof (proj1 (proj2 Hok)). lia.
Qed.
End Placed.

(** ** At a concrete input

    [pA] runs three children: one on its own processor, two on the other. *)
Definition sample_puns : list Z := [1; 0; 1].

Lemma sample_may_place : may_place 0 sample_room [pB; idle0] [sample_job; sample_job; sample_job] sample_puns.
Proof.
  assert (H1 : takes_more sample_room 1 2).
  { exists empty_ipq, [], 1, 48, []. split_and!; [by vm_compute|exact empty_ipq_rep| | |by vm_compute].
    - split_and!; [by vm_compute..|done|by vm_compute].
    - assert (Hd : map_Forall (fun d t => t = 1 -> d = 1) (thread_id (hw sample_room)))
        by (apply (bool_decide_unpack _); by vm_compute).
      intros d' Hd'. exact (Hd d' 1 Hd' eq_refl). }
  split; [done..|]. unfold sample_puns at 2. rewrite !Forall_cons, Forall_nil.
  split_and!; first [done|by left|by right].
Qed.

