(* ===== verification/Join.v ===== *)
(** * Join: a parallel construct from beginning to end

    The children [par] has made run one after the other, each to its end; the
    last one to reach the barrier makes the parent ready again, which goes on
    after the construct. *)

From S2P Require Import Prelude Prog State Fixture Linked Hardware.
From S2P Require Import Exec Priority Ipq Sched ReadyQueue Dispatch.
From S2P Require Import Mutex Memory Heap Proc Par.
From S2P Require Import Boot Machine Adequacy Meeting Life Spawn.

#[local] Open Scope prog_scope.

(** ** The barrier *)

Definition bar_count (n : Z) (parent : addr) (barr : addr) (s : sys) : sys :=
  upd_bar barr (mkParBarrier n parent) s.

Lemma sync_waiting c s barr n parent :
  bars s !! barr = Some (mkParBarrier n parent) -> 1 < n < 2 ^ 31 ->
  exec c (par_barr_sync barr) s (Done tt (bar_count (n - 1) parent barr s)).
Proof.
  intros Hb Hn. unfold par_barr_sync. eapply exec_action; [by rewrite Hb|]. simpl pb_children.
  simpl pb_parent. zb. replace (int32 (n - 1)) with (n - 1); [apply exec_ret|].
  unfold int32, wrapS. rewrite Z.mod_small; lia.
Qed.

Lemma sync_last c s barr parent o :
  bars s !! barr = Some (mkParBarrier 1 parent) ->
  exec c (schedule parent) (bar_count 0 parent barr s) o -> exec c (par_barr_sync barr) s o.
Proof.
  intros Hb He. unfold par_barr_sync. eapply exec_action; [by rewrite Hb|]. simpl pb_children.
  simpl pb_parent. zb. eapply exec_fetch; [simpl; by rewrite lookup_insert_eq|exact He].
Qed.

Section Join.
Context (user : code_p -> addr -> cprog unit) (eff : code_p * addr * Z -> gmap addr Z -> gmap addr Z).
Context (t base : Z) (cur barr : addr) (pr : Z) (mk : sigset) (l : list addr).
Notation tsteps := (rtc (tstep user t)).
Notation job := (code_p * addr * Z)%type.

(** A function of the application that runs to its end, and does nothing but
    change the data of the application. *)
Definition computes (j : job) : Prop :=
  forall s, exec t (user j.1.1 j.1.2) s (Done tt (set_bytes (eff j (bytes s)) s)).

(** The child [x] runs, the children [xs] wait in the ready queue before [l],
    and the parent waits for the barrier. *)
Record joining (xs : list addr) (js : list job) (s : sys) (x : addr)
    (carved : gmap addr Z) (free : Z -> list addr) : Prop := {
  jn_ok : sched_ok t s x [] (xs ++ l);
  jn_low : Forall (fun y => pri_le pr (pri_of s y) = false) l;
  jn_child : exists X, procs s !! x = Some X /\ p_stackptr X = x /\ p_pri X = pr;
  jn_kids : Forall2 (fun y j => newborn t s y pr CRunInPar j.1.1 barr j.1.2) xs js;
  jn_parent : exists P, procs s !! cur = Some P /\ p_stackptr P = cur /\ p_pri P = pr /\
    p_pun P = t;
  jn_apart : cur <> NULL /\ cur ∉ x :: xs ++ l;
  jn_ctx : uctxs (hw s) !! cur = Some Suspended;
  jn_bar : bars s !! barr = Some (mkParBarrier (Z.of_nat (S (length xs))) cur);
  jn_few : Z.of_nat (S (length xs)) < 2 ^ 31;
  jn_heap : heap_ok base s carved free;
  jn_rooted : rooted s carved free;
  jn_mem : mutexes s !! mutex_mem = Some false;
  jn_term : mutexes s !! term_mutex t = Some false;
  jn_sig : sigmask (hw s) !! t = Some mk }.

Lemma newborn_same s s' y pri code arg1 arg2 ua :
  procs s' !! y = procs s !! y -> uctxs (hw s') !! y = uctxs (hw s) !! y ->
  newborn t s y pri code arg1 arg2 ua -> newborn t s' y pri code arg1 arg2 ua.
Proof. intros E1 E2 [H1 H2]. split; by rewrite ?E1, ?E2. Qed.

(** Changes of other data, and of the mask of the thread. *)
Lemma joining_bytes xs js s x carved free b :
  joining xs js s x carved free -> joining xs js (set_bytes b s) x carved free.
Proof.
  intros []. split; try done.
  - by apply (sched_ok_frame t s).
  - eapply Forall2_impl; [exact jn_kids0|]. intros y j. by apply newborn_same.
  - by apply (heap_ok_frame base s).
Qed.

Lemma joining_masked xs js s x carved free k :
  joining xs js s x carved free -> joining xs js (masked t k s) x carved free.
Proof.
  intros []. split; try done.
  - by apply (sched_ok_frame t s).
  - eapply Forall2_impl; [exact jn_kids0|]. intros y j. by apply newborn_same.
  - by apply (heap_ok_frame base s).
Qed.

(** ** The end of a child *)

(** What is left of a child's state after it has ended. *)
Lemma ended_frame k x X fr s s' :
  passed_on (ended t k x X fr s) s' -> mutexes s !! term_mutex t = Some false ->
  mutexes s' = mutexes s /\ bytes s' = bytes s /\ bars s' = bars s /\
  hw_kept (hw s') = hw_kept (hw s) /\
  (forall y, y <> x -> stack_of s' y = stack_of s y /\ pri_of s' y = pri_of s y /\ pun_of s' y = pun_of s y) /\
  (forall y, y <> x -> y <> p_stackptr X -> uctxs (hw s') !! y = uctxs (hw s) !! y) /\
  (forall y, y <> x -> y <> p_stackptr X -> forall pri code arg1 arg2 ua,
     newborn t s y pri code arg1 arg2 ua -> newborn t s' y pri code arg1 arg2 ua).
Proof.
  intros [Hs Hsts Hu] Hm. destruct (ended_step _ _ _ _ _ _ _ Hs Hm) as (Em & Eh & _).
  assert (Hp : forall y, y <> x -> procs (ended t k x X fr s) !! y = procs s !! y)
    by (intros y Hy; simpl; by rewrite lookup_delete_ne).
  assert (Hc : forall y, y <> p_stackptr X -> uctxs (hw (ended t k x X fr s)) !! y = uctxs (hw s) !! y)
    by (intros y Hy; simpl; by rewrite lookup_insert_ne).
  split_and!; [done|by rewrite (ss_rest _ _ Hs)..|exact Eh| | |].
  - intros y Hy. rewrite (sp_stack _ _ Hs), (sp_pri _ _ Hs), (sp_pun _ _ Hs).
    unfold stack_of, pri_of, pun_of. by rewrite Hp.
  - intros y _ Hy. by rewrite Hu, Hc.
  - intros y Hy Hy' pri code arg1 arg2 ua Hn.
    eapply newborn_step; [exact Hs|apply Hsts|by rewrite Hu|].
    eapply newborn_same; [by apply Hp|by apply Hc|exact Hn].
Qed.

Lemma rooted_ended s s' carved free x X :
  procs s !! x = Some X -> procs s' !! x = None ->
  (forall y, y <> x -> stack_of s' y = stack_of s y) ->
  rooted s carved free ->
  rooted s' carved (upd_free (p_index X) (x :: free (p_index X)) free).
Proof.
  intros HX Hx Hy Hr y Y HY. destruct (decide (y = x)) as [->|Hne]; [congruence|].
  specialize (Hy y Hne). unfold stack_of in Hy. rewrite HY in Hy.
  destruct (procs s !! y) as [Z0|] eqn:HZ; simplify_eq/=.
  destruct (Hr _ _ HZ) as [H1 H2]. replace (p_index Y) with (p_index Z0) by congruence.
  split; [done|]. unfold upd_free. destruct (decide (p_index Z0 = p_index X)) as [E|E]; [|done].
  rewrite E in H2. set_solver.
Qed.

Lemma child_passes y ys j js s x carved free m :
  joining (y :: ys) (j :: js) s x carved free -> is_Some (thread_mask (hw s) !! t) ->
  exists s' carved' free',
    tsteps (running t (par_barr_sync barr;; terminate) s m)
      (running t (code_prog user CRunInPar j.1.1 barr j.1.2) s' m) /\
    joining ys js s' y carved' free' /\ is_Some (thread_mask (hw s') !! t) /\ bytes s' = bytes s /\ procs s' !! x = None /\
    forall z, procs s !! z = None -> procs s' !! z = None.
Proof.
  intros [Hok Hlow (X & HX & HXs & HXp) Hkids Hpar [Hcur0 Hap] Hctx Hbar Hfew Hk Hroot Hmm Hmt Hsig] [k Hmask].
  apply Forall2_cons in Hkids as [Hy Hkids]. simpl length in Hbar, Hfew.
  set (s1 := bar_count (Z.of_nat (S (S (length ys))) - 1) cur barr s).
  assert (Hsync : exec t (par_barr_sync barr) s (Done tt s1)) by (apply sync_waiting; [done|lia]).
  apply (sched_ok_frame t s s1) in Hok; [|done..]. destruct (so_cpu _ _ _ _ _ Hok) as (X1 & q & Hcs).
  assert (X1 = X) as -> by (pose proof (cs_proc _ _ _ _ _ _ _ Hcs) as H; change (procs s1) with (procs s) in H; congruence).
  destruct (terminate_steps user t s1 x X q [] (y :: ys ++ l) y (ys ++ l) base carved free k m (ret tt) Hcs
    (so_sorted _ _ _ _ _ Hok) eq_refl ltac:(by apply (heap_ok_frame base s)) (Hroot _ _ HX) Hmm Hmt Hmask)
    as (s' & Hsteps & Hpo & Hok' & Hx & Hk' & _).
  destruct (ended_frame _ _ _ _ s1 s' Hpo Hmt) as (Em & Eb & Ebar & Eh & Ep & Eu & Enb).
  pose proof (qs_nodup _ _ _ _ _ (cs_queues _ _ _ _ _ _ _ Hcs)) as Hnd. simpl in Hnd.
  pose proof (cs_fresh _ _ _ _ _ _ _ Hcs) as Hfr. simpl in Hfr.
  assert (Hne : forall z, z ∈ cur :: y :: ys ++ l -> z <> x /\ z <> p_stackptr X).
  { rewrite HXs. intros z Hz. split; intros ->; set_solver. }
  assert (Hnb : forall z (jz : job), z ∈ y :: ys -> newborn t s z pr CRunInPar jz.1.1 barr jz.1.2 ->
    newborn t s' z pr CRunInPar jz.1.1 barr jz.1.2).
  { intros z jz Hz Hn. apply Enb; [apply Hne; set_solver..|]. by apply (newborn_same s). }
  apply Hnb in Hy as [(n & i & HY) [ky Hky]]; [|set_solver].
  exists (masked t ky s'), carved, (upd_free (p_index X) (x :: free (p_index X)) free).
  split_and!; [| |simpl; rewrite lookup_insert_eq; by eexists|done|done|].
  - etransitivity; [by apply (exec_done_steps user t)|]. rewrite <-(bind_ret_tt terminate).
    etransitivity; [exact Hsteps|]. apply rtc_once. by apply tstep_fresh.
  - apply joining_masked. split; try done.
    + rewrite Forall_forall in Hlow |- *. intros z Hz.
      rewrite (proj1 (proj2 (Ep z (proj1 (Hne z ltac:(set_solver)))))). by apply Hlow.
    + by eexists.
    + apply Forall2_same_length_lookup_2; [by eapply Forall2_length|]. intros i' z jz Hz Hjz.
      apply list_elem_of_lookup_2 in Hz as Hzin.
      apply Hnb; [set_solver|]. exact (Forall2_lookup_lr _ _ _ _ _ _ Hkids Hz Hjz).
    + destruct Hpar as (P & HP & HPs & HPp & HPu).
      destruct (Ep cur (proj1 (Hne cur ltac:(set_solver)))) as (E1 & E2 & E3).
      unfold stack_of, pri_of, pun_of in E1, E2, E3. change (procs s1) with (procs s) in E1, E2, E3.
      rewrite HP in E1, E2, E3. simpl in E1, E2, E3.
      destruct (procs s' !! cur) as [P'|]; simplify_eq/=. exists P'. split_and!; congruence.
    + split; [done|]. set_solver.
    + rewrite Eu by (apply Hne; set_solver). exact Hctx.
    + rewrite Ebar. simpl. rewrite lookup_insert_eq. do 2 f_equal. lia.
    + lia.
    + apply (rooted_ended s1); [done|done| |done]. intros z Hz. apply Ep, Hz.
    + by rewrite Em.
    + by rewrite Em.
    + rewrite <-Hsig. exact (f_equal (fun h => sigmask h !! t) Eh).
  - intros z Hz. change (procs s' !! z = None).
    eapply sched_step_none; [exact Hpo|]. simpl. rewrite lookup_delete_None. by right.
Qed.

(** ** The end of the last child *)

(** The parent runs again, with no trace of the construct but what its
    children computed. *)
Record joined (s : sys) (b : gmap addr Z) (carved : gmap addr Z) (free : Z -> list addr) : Prop := {
  jd_ok : sched_ok t s cur [] l;
  jd_bar : bars s !! barr = None;
  jd_bytes : bytes s = b;
  jd_heap : heap_ok base s carved free;
  jd_rooted : rooted s carved free;
  jd_mask : thread_mask (hw s) !! t = Some mk }.

(** The last child finds the barrier down to it, and readies the parent, which is
    queued before the processes of lower priority. *)
Lemma parent_readied s x carved free :
  joining [] [] s x carved free ->
  exists s2 X q, exec t (par_barr_sync barr) s (Done tt s2) /\ sched_step (bar_count 0 cur barr s) s2 /\
    cpu_state t s2 x X q [] (cur :: l) /\ rq_sorted (pri_of s2) (cur :: l) /\ p_stackptr X = x /\
    thread_mask (hw s2) !! t = Some mk /\ heap_ok base s2 carved free /\ rooted s2 carved free.
Proof.
  intros [Hok Hlow (X & HX & HXs & HXp) _ (P & HP & HPs & HPp & HPu) [Hcur0 Hap] Hctx Hbar _ Hk Hroot Hmm Hmt Hsig].
  set (s1 := bar_count 0 cur barr s).
  apply (sched_ok_frame t s s1) in Hok; [|done..].
  destruct (schedule_own t s1 x [] l cur P mk Hok HP HPu Hcur0 ltac:(set_solver) Hsig)
    as (s2 & X1 & HX1 & Hstep & _ & Hr).
  change (procs s1) with (procs s) in HX1. assert (X1 = X) as -> by congruence.
  assert (Hgt : pri_gt (p_pri P) (p_pri X) = false).
  { rewrite HPp, HXp. pose proof (pri_le_refl pr) as Hle. rewrite pri_le_gt in Hle. by destruct (pri_gt pr pr). }
  rewrite Hgt in Hr. destruct Hr as (He & Hmask & Hok2).
  assert (Hins : rq_insert (pri_of s1) cur l = cur :: l).
  { apply (rq_insert_between (pri_of s1) cur [] l); [constructor|].
    rewrite (pri_of_lookup s1 cur P HP), HPp. exact Hlow. }
  simpl app in Hok2. rewrite Hins in Hok2.
  destruct (so_cpu _ _ _ _ _ Hok2) as (X2 & q & Hcs).
  destruct (same_fields s1 s2 x X X2 Hstep HX (cs_proc _ _ _ _ _ _ _ Hcs)) as (_ & _ & EXs).
  exists s2, X2, q. split_and!; [by apply (sync_last t s barr cur)|exact Hstep|exact Hcs|
    exact (so_sorted _ _ _ _ _ Hok2)|congruence|exact Hmask| |].
  - by apply (heap_ok_frame base s); [rewrite (ss_rest _ _ Hstep)..|].
  - by eapply rooted_step; [exact (sp_stack _ _ Hstep)|].
Qed.

(** The parent goes on where it waited. *)
Lemma parent_resumes s m km rest :
  on_cpu t s -> uctxs (hw s) !! cur = Some Suspended -> sigmask (hw s) !! t = Some mk ->
  m_saved m !! cur = Some (km, (enable;; end_bar barr;; rest)%prog) ->
  let s4 := masked t mk (masked t km s) in
  tsteps (running t (Resume cur) s m) (running t rest (set_bars (delete barr (bars s4)) s4) m).
Proof.
  intros Hcpu Hu Hsig Hsv s4. eapply rtc_l; [by apply tstep_resume|].
  etransitivity; [apply (enable_steps user t); [exact Hcpu|exact Hsig]|].
  apply (exec_done_steps user t (end_bar barr) s4 tt _ (fun _ => rest)).
  unfold end_bar. rewrite <-(bind_ret_r (modify _)). apply exec_modify. apply exec_ret.
Qed.

Lemma last_child s x carved free m km rest :
  joining [] [] s x carved free ->
  m_saved m !! cur = Some (km, (enable;; end_bar barr;; rest)%prog) ->
  exists s' carved' free',
    tsteps (running t (par_barr_sync barr;; terminate) s m) (running t rest s' m) /\
    joined s' (bytes s) carved' free' /\ procs s' !! x = None /\
    forall z, procs s !! z = None -> procs s' !! z = None.
Proof.
  intros Hjn Hsv. destruct (parent_readied s x carved free Hjn)
    as (s2 & X2 & q & Hsync & Hstep & Hcs & Hso & HXs & Hmask & Hk2 & Hroot2).
  destruct Hjn as [_ _ _ _ _ [Hcur0 Hap] Hctx _ _ _ _ Hmm Hmt Hsig].
  pose proof (cs_proc _ _ _ _ _ _ _ Hcs) as HX2.
  destruct (sched_step_chans _ _ Hstep) as (_ & Em2 & Eb2).
  destruct (terminate_steps user t s2 x X2 q [] (cur :: l) cur l base carved free mk m (ret tt) Hcs
    Hso eq_refl Hk2
    (Hroot2 _ _ HX2) ltac:(by rewrite Em2) ltac:(by rewrite Em2) Hmask)
    as (s3 & Hsteps & Hpo & Hok3 & Hx & Hk3 & _).
  destruct (ended_frame _ _ _ _ s2 s3 Hpo ltac:(by rewrite Em2)) as (Em & Eb & Ebar & Eh & Ep & Eu & _).
  assert (Hcx : cur <> x) by set_solver.
  assert (Hu3 : uctxs (hw s3) !! cur = Some Suspended).
  { rewrite Eu; [by apply (ss_ctxs _ _ Hstep)|done|by rewrite HXs]. }
  assert (Hsig3 : sigmask (hw s3) !! t = Some mk).
  { rewrite <-Hsig. transitivity (sigmask (hw s2) !! t); [exact (f_equal (fun h => sigmask h !! t) Eh)|].
    exact (f_equal (fun h => sigmask h !! t) (ss_hw _ _ Hstep)). }
  assert (Hcpu : on_cpu t s3) by (destruct (so_cpu _ _ _ _ _ Hok3) as (? & ? & Hcs3); apply Hcs3).
  eexists _, carved, (upd_free (p_index X2) (x :: free (p_index X2)) free). split_and!.
  - etransitivity; [apply (exec_done_steps user t _ _ tt s2); exact Hsync|].
    rewrite <-(bind_ret_tt terminate). etransitivity; [exact Hsteps|]. by apply parent_resumes.
  - split.
    + apply (sched_ok_frame t s3); done.
    + simpl. by rewrite lookup_delete_eq.
    + simpl. by rewrite Eb, Eb2.
    + by apply (heap_ok_frame base s3).
    + apply (rooted_ended s2); [done|exact Hx| |done]. intros z Hz. exact (proj1 (Ep z Hz)).
    + simpl. by rewrite lookup_insert_eq.
  - exact Hx.
  - intros z Hz. change (procs s3 !! z = None). eapply sched_step_none; [exact Hpo|].
    simpl. rewrite lookup_delete_None. right. by eapply sched_step_none.
Qed.

(** ** All the children *)

Lemma child_computes j p s m :
  computes j -> exec t (user j.1.1 j.1.2) s (Done tt (set_bytes (eff j (bytes s)) s)) ->
  tsteps (running t (user j.1.1 j.1.2;; p) s m) (running t p (set_bytes (eff j (bytes s)) s) m).
Proof. intros _ He. by apply (exec_done_steps user t _ _ tt _ (fun _ => p)). Qed.

Lemma children_run js : forall j xs s x carved free m km rest,
  Forall computes (j :: js) -> joining xs js s x carved free ->
  is_Some (thread_mask (hw s) !! t) ->
  m_saved m !! cur = Some (km, (enable;; end_bar barr;; rest)%prog) ->
  exists s' carved' free',
    tsteps (running t (code_prog user CRunInPar j.1.1 barr j.1.2) s m) (running t rest s' m) /\
    joined s' (foldl (fun b j => eff j b) (bytes s) (j :: js)) carved' free' /\
    Forall (fun z => procs s' !! z = None) (x :: xs) /\
    forall z, procs s !! z = None -> procs s' !! z = None.
Proof.
  induction js as [|j2 js IH]; intros j xs s x carved free m km rest [Hj Hjs]%Forall_cons Hjn Hmask Hsv;
    set (s1 := set_bytes (eff j (bytes s)) s);
    apply (joining_bytes _ _ _ _ _ _ (eff j (bytes s))) in Hjn; fold s1 in Hjn;
    pose proof (child_computes j (par_barr_sync barr;; terminate) s m Hj (Hj s)) as Hfirst.
  - pose proof (jn_kids _ _ _ _ _ _ Hjn) as Hk. apply Forall2_nil_inv_r in Hk as ->.
    destruct (last_child s1 x carved free m km rest Hjn Hsv) as (s' & cv & fr & Hs & Hd & Hx & Hn).
    exists s', cv, fr. split_and!; [by etransitivity|exact Hd|by repeat constructor|exact Hn].
  - pose proof (jn_kids _ _ _ _ _ _ Hjn) as Hk.
    apply Forall2_cons_inv_r in Hk as (y & ys & _ & _ & ->).
    destruct (child_passes y ys j2 js s1 x carved free m Hjn Hmask)
      as (s2 & cv & fr & Hs & Hjn2 & Hmask2 & Eb & Hx & Hn).
    destruct (IH j2 ys s2 y cv fr m km rest Hjs Hjn2 Hmask2 Hsv) as (s3 & cv3 & fr3 & Hs3 & Hd & Hys & Hn3).
    exists s3, cv3, fr3. split_and!.
    + etransitivity; [exact Hfirst|]. by etransitivity.
    + rewrite Eb in Hd. exact Hd.
    + constructor; [by apply Hn3|exact Hys].
    + intros z Hz. by apply Hn3, Hn.
Qed.
End Join.

(** The state in which [par] has given the processor to its first child. *)
Lemma parted_joining t base s cur C q l carved free barr j js mk k s' kids n L cv fr :
  may_part t base s cur C q [] l carved free (j :: js) mk k ->
  Forall (fun y => pri_le (p_pri C) (pri_of s y) = false) l ->
  mutexes s !! term_mutex t = Some false -> 0 <= tail s ->
  parted t base s cur [] l barr ((fun j => (j.1, p_pri C)) <$> j :: js) s' kids n L cv fr ->
  par_wait s s' cur C -> cur ∉ n :: L ->
  exists xs X kx, kids = n :: xs /\ procs s' !! n = Some X /\ p_stackptr X = n /\
    uctxs (hw s') !! n = Some (Fresh kx CRunInPar j.1.1 barr j.1.2) /\ length xs = length js /\
    joining t base cur barr (p_pri C) mk l xs js (masked t kx s') n cv fr.
Proof.
  intros Hmp Hlow Hmt Htail [_ _ Hkids HL Hok Hbar _ Hk Hroot _] [Em _ Eh Hctx Hold _ Hparent] Hap.
  rewrite Forall2_fmap_r in Hkids. rewrite length_fmap in Hbar. simpl in Hkids.
  pose proof (mp_room _ _ _ _ _ _ _ _ _ _ _ _ _ Hmp) as Hroom. simpl length in Hroom.
  pose proof (mp_cpu _ _ _ _ _ _ _ _ _ _ _ _ _ Hmp) as Hcs.
  assert (Hpk : Forall (fun x => pri_of s' x = p_pri C) kids).
  { apply Forall_forall. intros x Hx. apply list_elem_of_lookup in Hx as [i Hx].
    destruct (Forall2_lookup_l _ _ _ _ _ Hkids Hx) as (jx & _ & (n' & i' & HX) & _).
    by rewrite (pri_of_lookup _ _ _ HX). }
  assert (Hlow' : Forall (fun y => pri_le (p_pri C) (pri_of s' y) = false) l).
  { rewrite Forall_forall in Hlow |- *. intros y Hy.
    destruct (cpu_state_elem t s cur C q [] l y Hcs ltac:(set_solver)) as [Y HY].
    destruct (Hold _ _ HY) as (Y' & HY' & E & _).
    rewrite (pri_of_lookup _ _ _ HY'), E, <-(pri_of_lookup _ _ _ HY). by apply Hlow. }
  simpl rq_insert_all at 1 in HL. rewrite (rq_insert_all_equal _ _ kids l Hpk Hlow') in HL.
  apply Forall2_cons_inv_r in Hkids as (x & xs & [(nx & ix & HX) [kx Hkx]] & Hxs & ->).
  injection HL as -> ->. assert (Hlen : length xs = length js) by by eapply Forall2_length.
  exists xs. eexists. exists kx. split_and!; [done|exact HX|done|done|done|]. apply joining_masked. split; try done.
  - by eexists.
  - destruct Hparent as (P & HP & E1 & E2 & E3). exists P.
    rewrite E3, (cs_pun _ _ _ _ _ _ _ Hcs). done.
  - split; [apply Hcs|exact Hap].
  - rewrite Hbar. do 2 f_equal. simpl length. rewrite Hlen. unfold int32, wrapS. rewrite Z.mod_small; lia.
  - lia.
  - rewrite Em. apply Hmp.
  - by rewrite Em.
  - rewrite <-(mp_sigmask _ _ _ _ _ _ _ _ _ _ _ _ _ Hmp). exact (f_equal (fun h => sigmask h !! t) Eh).
Qed.

(** ** The theorem *)

(** C3: [par] runs its children to the end and goes on, on the machine.  The
    parent calls [par] with at least one child, of functions that run to their
    end, while only processes of lower priority are ready.  Every child is
    made, runs in its turn, ends and is gone; the last to reach the barrier
    readies the parent, which gets the processor next and goes on with what
    follows the call: with the children's computations done in order, the
    barrier gone, no record left that was not there before, the ready queue as
    it was, and the invariants of the scheduler and the heap restored. *)
Theorem par_joins user eff t base s cur C q l carved free barr jobs mk k m rest :
  may_part t base s cur C q [] l carved free jobs mk k -> 0 <= p_pri C < 2 ^ 16 ->
  Forall (fun y => pri_le (p_pri C) (pri_of s y) = false) l ->
  mutexes s !! term_mutex t = Some false -> Forall (computes user eff t) jobs -> 0 <= tail s ->
  exists s' m' kids carved' free',
    rtc (tstep user t)
      (running t (par barr ((fun j => j.1.1) <$> jobs) ((fun j => j.1.2) <$> jobs) (snd <$> jobs)
                    (Z.of_nat (length jobs));; rest) s m)
      (running t rest s' m') /\
    joined t base cur barr mk l s' (foldl (fun b j => eff j b) (bytes s) jobs) carved' free' /\
    length kids = length jobs /\ NoDup kids /\ Forall (fun x => procs s !! x = None) kids /\
    forall y, procs s !! y = None -> procs s' !! y = None.
Proof.
  intros Hmp Hpri Hlow Hmt Hcomp Htail.
  destruct (par_run t base s cur C q [] l carved free jobs mk k barr Hmp Hpri)
    as (s' & kids & n & L & N & cv & fr & He & HN & Hpd & Hpw & Hap).
  pose proof (mp_jobs _ _ _ _ _ _ _ _ _ _ _ _ _ Hmp) as Hne. destruct jobs as [|j js]; [done|].
  destruct (parted_joining t base s cur C q l carved free barr j js mk k s' kids n L cv fr Hmp Hlow Hmt Htail
    Hpd Hpw Hap) as (xs & X & kx & -> & HX & HXs & Hkx & Hlen & Hjn).
  assert (N = X) as -> by congruence. rewrite HXs in He.
  set (m1 := with_saved cur (mask_in t s') (enable;; end_bar barr;; rest) m).
  destruct (children_run user eff t base cur barr (p_pri C) mk l js j xs (masked t kx s') n cv fr m1
    (mask_in t s') rest Hcomp Hjn) as (s'' & cv' & fr' & Hrun & Hjd & Hgone & Hnone).
  { simpl. rewrite lookup_insert_eq. by eexists. }
  { apply lookup_insert_eq. }
  exists s'', m1, (n :: xs), cv', fr'. split_and!.
  - destruct (exec_steps user t _ s _ (fun _ => rest) m He) as (m2 & Hsteps & ->).
    etransitivity; [exact Hsteps|]. eapply rtc_l; [by apply tstep_switch_fresh|].
    rewrite bind_assoc. exact Hrun.
  - change (bytes (masked t kx s')) with (bytes s') in Hjd. by rewrite (pw_bytes _ _ _ _ Hpw) in Hjd.
  - simpl. by rewrite Hlen.
  - exact (pd_nodup _ _ _ _ _ _ _ _ _ _ _ _ _ _ Hpd).
  - exact (pd_fresh _ _ _ _ _ _ _ _ _ _ _ _ _ _ Hpd).
  - intros y Hy. destruct (decide (y ∈ n :: xs)) as [Hin|Hout].
    + rewrite Forall_forall in Hgone. by apply Hgone.
    + apply Hnone. by apply (pd_only _ _ _ _ _ _ _ _ _ _ _ _ _ _ Hpd).
Qed.

(** ** At a concrete input: [pA] runs two children, which each set a byte *)

Definition sample_user (code : code_p) (ua : addr) : cprog unit :=
  modify (fun s => set_bytes (<[ua := 1]> (bytes s)) s).
Definition sample_eff (j : code_p * addr * Z) (b : gmap addr Z) : gmap addr Z := <[j.1.2 := 1]> b.
Definition sample_jobs : list (code_p * addr * Z) := [(CUser 7, 0x8000, 100); (CUser 8, 0x8001, 500)].
Definition sample_quiet : sys := upd_head 0 idle0 sample_room.

Lemma sample_computes t j : computes sample_user sample_eff t j.
Proof. intros s. unfold sample_user. rewrite <-(bind_ret_r (modify _)). apply exec_modify, exec_ret. Qed.

Lemma sample_quiet_cpu :
  cpu_state 0 sample_quiet pA (sample_proc pA NULL 1024 0 PROC_READY) empty_ipq [] [idle0].
Proof.
  split; [|reflexivity..|done|concrete_nodup].
  split; [by vm_compute|reflexivity|exact empty_ipq_rep| |constructor|concrete_nodup].
  split; [reflexivity|concrete_linked|concrete_forall].
Qed.

Lemma par_joins_witness :
  exists s' m', rtc (tstep sample_user 0)
      (running 0 (par 0x9000 [CUser 7; CUser 8] [0x8000; 0x8001] [100; 500] 2;; ret tt) sample_quiet
        (mkMachine sample ∅ ∅))
      (running 0 (ret tt) s' m') /\
    bytes s' = <[0x8001 := 1]> (<[0x8000 := 1]> ∅) /\ current s' !! 0 = Some pA.
Proof.
  destruct (par_joins sample_user sample_eff 0 pA sample_quiet pA
    (sample_proc pA NULL 1024 0 PROC_READY) empty_ipq [idle0] sample_blocks (fun _ => []) 0x9000
    sample_jobs sigemptyset sigemptyset (mkMachine sample ∅ ∅) (ret tt))
    as (s' & m' & kids & cv & fr & He & Hd & _).
  - split; [exact sample_quiet_cpu|repeat constructor|done| |exact sample_rooted|done..|
      by repeat constructor|by vm_compute|by vm_compute].
    by apply (heap_ok_frame pA sample), sample_blocks_heap.
  - done.
  - by repeat constructor.
  - done.
  - repeat constructor; apply sample_computes.
  - by vm_compute.
  - exists s', m'. split; [exact He|]. split; [exact (jd_bytes _ _ _ _ _ _ _ _ _ _ Hd)|].
    destruct (so_cpu _ _ _ _ _ (jd_ok _ _ _ _ _ _ _ _ _ _ Hd)) as (C & q & Hcs).
    exact (cs_current _ _ _ _ _ _ _ Hcs).
Defined.
