(* ===== verification/Across.v ===== *)
(** * Across: a child on another processor, from the call to what follows it

    The parent gives a child to another processor with [placed_par] and waits;
    the interrupt reaches that processor, which runs the child to its end and
    goes on with what it did before; the child has announced the parent to the
    parent's processor, which the interrupt reaches in turn and which gives
    itself back to the parent.  The steps of each processor leave the state of
    the other alone ([away]), so the run is composed of the theorems about one
    processor at a time. *)

From S2P Require Import Prelude Prog State Fixture Linked Hardware.
From S2P Require Import Exec Priority Ipq Sched ReadyQueue Dispatch.
From S2P Require Import Mutex Memory Heap Proc Par Handlers Signals.
From S2P Require Import Boot Machine Adequacy Meeting Remote Life Spawn Placed Join.

#[local] Open Scope prog_scope.

(** ** What a processor's steps leave alone of the others *)

(** The records of other processors' processes, seen from outside. *)
Definition same_record (X X' : Process) : Prop :=
  p_pri X' = p_pri X /\ p_pun X' = p_pun X /\ p_stackptr X' = p_stackptr X.

(** The steps of processor [t], except for what it sends to other processors. *)
Record away (t : Z) (s s' : sys) : Prop := {
  aw_elsewhere : elsewhere t s s';
  aw_hw : hw_quiet (hw s') = hw_quiet (hw s);
  aw_procs : forall y Y, procs s !! y = Some Y -> p_pun Y <> t ->
    exists Y', procs s' !! y = Some Y' /\ same_record Y Y';
  aw_ctxs : forall y Y, procs s !! y = Some Y -> p_pun Y <> t ->
    uctxs (hw s) !! y = Some Suspended -> uctxs (hw s') !! y = Some Suspended }.

#[export] Instance away_preorder t : PreOrder (away t).
Proof.
  split.
  - intros s. split; [done|done| |done]. intros y Y HY _. by exists Y.
  - intros s1 s2 s3 [H1 H2 H3 H4] [H5 H6 H7 H8]. split; [by etrans|by rewrite H6| |].
    2: { intros y Y HY Hp Hu. destruct (H3 y Y HY Hp) as (Y' & HY' & _ & E & _).
      apply (H8 y Y' HY'); [congruence|by apply (H4 y Y)]. }
    intros y Y HY Hp. destruct (H3 y Y HY Hp) as (Y' & HY' & E1 & E2 & E3).
    destruct (H7 y Y' HY' ltac:(congruence)) as (Y2 & HY2 & E4 & E5 & E6).
    exists Y2. split; [exact HY2|]. split_and!; congruence.
Qed.

Lemma away_ext t s s' :
  procs s' = procs s -> rdyQues s' = rdyQues s -> current s' = current s ->
  (forall d, d <> t -> thread_mask (hw s') !! d = thread_mask (hw s) !! d) ->
  hw_quiet (hw s') = hw_quiet (hw s) -> uctxs (hw s') = uctxs (hw s) -> away t s s'.
Proof.
  intros E1 E2 E3 E4 E5 E6. split; [|done| |by rewrite E6].
  - apply elsewhere_ext; [done..| |done]. intros d _. by rewrite E3.
  - intros y Y HY _. rewrite E1. by exists Y.
Qed.

Lemma away_masked t k s : away t s (masked t k s).
Proof. apply away_ext; try done. intros d Hd. simpl. by rewrite lookup_insert_ne. Qed.

Lemma away_step t s s' : sched_step s s' -> elsewhere t s s' -> away t s s'.
Proof.
  intros Hs Hel. split; [done|exact (f_equal (set_pending ∅) (ss_hw _ _ Hs))| |].
  - intros y Y HY _. destruct (sp_dom _ _ Hs y ltac:(by eexists)) as [Y' HY'].
    exists Y'. split; [done|exact (same_fields s s' y _ _ Hs HY HY')].
  - intros y Y _ _. apply Hs.
Qed.

(** The processes of the other processor [d] keep their priorities. *)
Lemma away_record c d s s' w ql l y :
  away c s s' -> d <> c -> sched_ok d s w ql l -> y ∈ w :: ql ++ l ->
  exists Y', procs s' !! y = Some Y' /\ p_pun Y' = d /\ pri_of s' y = pri_of s y.
Proof.
  intros Ha Hd [(W & q & Hcs) _ _] Hy.
  assert (HY : exists Y, procs s !! y = Some Y /\ p_pun Y = d).
  { apply elem_of_cons in Hy as [->|Hy]; [exists W; split; apply Hcs|].
    destruct (queues_elem _ _ _ _ _ _ (cs_queues _ _ _ _ _ _ _ Hcs) Hy) as (Y & HY & HYp & _). by exists Y. }
  destruct HY as (Y & HY & HYp). destruct (aw_procs _ _ _ Ha y Y HY ltac:(congruence)) as (Y' & HY' & E1 & E2 & _).
  exists Y'. split_and!; [done|congruence|by rewrite (pri_of_lookup _ _ _ HY), (pri_of_lookup _ _ _ HY')].
Qed.

(** The state of the other processor [d] after processor [c] has sent it
    [add]. *)
Lemma sched_ok_away c d s s' w ql l q' add :
  away c s s' -> d <> c -> sched_ok d s w ql l ->
  ipQues s' !! d = Some q' -> ipq_rep q' (ql ++ add) -> Forall (ready_for s' d) add -> NoDup add ->
  (forall y, y ∈ add -> y ∉ w :: ql ++ l) -> sched_ok d s' w (ql ++ add) l.
Proof.
  intros Ha Hd Hok Hq' Hr' Hready Hnd Hfresh.
  assert (Hpri : forall y, y ∈ w :: ql ++ l -> exists Y', procs s' !! y = Some Y' /\ p_pun Y' = d /\ pri_of s' y = pri_of s y)
    by (intros y; by eapply away_record).
  pose proof Ha as [Hel Hh _ _]. destruct Hok as [(W & q & Hcs) Hso Htop].
  pose proof Hcs as [Hq Hcur HW HWp Hw0 Hwf].
  destruct (Hpri w ltac:(by left)) as (W' & HW' & HWp' & Ew).
  assert (Hnd' : NoDup ((ql ++ add) ++ l)).
  { rewrite <-app_assoc, (Permutation_app_comm add l), app_assoc. apply NoDup_app.
    split_and!; [apply Hq| |done]. intros y Hy Hya. apply (Hfresh y Hya). by right. }
  split.
  - exists W', q'. split; [|by rewrite (el_current _ _ _ Hel)|done..|].
    + split; [|done|done|by apply (el_rdy _ _ _ Hel), Hq| |exact Hnd'].
      * pose proof (qs_cpu _ _ _ _ _ Hq) as [H1 H2]. split; [done|].
        rewrite <-H2. exact (f_equal (fun h => cpu_key h !! d) Hh).
      * apply Forall_app. split; [|done]. apply Forall_forall. intros y Hy.
        pose proof (qs_ready _ _ _ _ _ Hq) as Hrd. rewrite Forall_forall in Hrd.
        destruct (Hrd y Hy) as (Hy0 & _). destruct (Hpri y ltac:(set_solver)) as (Y' & HY' & HYp' & _).
        split_and!; [done|unfold pun_of; by rewrite HY'|by eexists].
    + rewrite <-app_assoc, !elem_of_app. intros [Hin|[Hin|Hin]]; [apply Hwf; set_solver| |apply Hwf; set_solver].
      apply (Hfresh w Hin). by left.
  - eapply rq_sorted_agree; [|exact Hso]. intros y Hy. destruct (Hpri y ltac:(set_solver)) as (_ & _ & _ & E). by rewrite E.
  - rewrite Forall_forall in Htop |- *. intros y Hy.
    destruct (Hpri y ltac:(set_solver)) as (_ & _ & _ & E). rewrite E, Ew. by apply Htop.
Qed.

Lemma sched_ok_alone c d s s' w ql l :
  away c s s' -> d <> c -> ipQues s' !! d = ipQues s !! d -> sched_ok d s w ql l -> sched_ok d s' w ql l.
Proof.
  intros Ha Hd Ei Hok. destruct (so_cpu _ _ _ _ _ Hok) as (W & q & Hcs).
  pose proof (cs_queues _ _ _ _ _ _ _ Hcs) as Hq. rewrite <-(app_nil_r ql).
  eapply (sched_ok_away c d s s' w ql l q []); [exact Ha|exact Hd|exact Hok|by rewrite Ei, (qs_ipq _ _ _ _ _ Hq)|
    rewrite app_nil_r; apply Hq|constructor|constructor|]. intros y Hy. by apply elem_of_nil in Hy.
Qed.

(** The tables of the signals do not depend on what the processors change. *)
Lemma signals_ok_quiet h h' : hw_quiet h' = hw_quiet h -> signals_ok h -> signals_ok h'.
Proof. intros E H. change (signals_ok (hw_quiet h')). rewrite E. exact H. Qed.

(** ** The parent, waiting on its processor *)

Section Across.
Context (user : code_p -> addr -> cprog unit) (eff : code_p * addr * Z -> gmap addr Z -> gmap addr Z).
Context (c d base : Z) (cur barr : addr) (pr : Z) (Hcd : d <> c).
Context (n : addr) (L : list addr) (gc : Z) (mkc mn : sigset).
Notation mnexts := (rtc (mnext user)).
Notation job := (code_p * addr * Z)%type.

(** Processor [c] runs [n], with its interrupts open; [cur] waits, and [qc] have
    been announced, with the signals [pc]. *)
Record waiting (s : sys) (qc : list addr) (pc : list Z) : Prop := {
  wt_ok : sched_ok c s n qc L;
  wt_next : exists N, procs s !! n = Some N /\ p_stackptr N = n /\ pri_gt pr (p_pri N) = true /\
    Forall (fun y => pri_le (p_pri N) (pri_of s y) = false) L;
  wt_parent : exists P, procs s !! cur = Some P /\ p_stackptr P = cur /\ p_pri P = pr /\ p_pun P = c;
  wt_apart : cur <> NULL /\ cur ∉ n :: L;
  wt_ctx : uctxs (hw s) !! cur = Some Suspended;
  wt_mask : thread_mask (hw s) !! c = Some mn;
  wt_open : sigismember mn gc = false;
  wt_pending : pending (hw s) !! c = Some pc;
  wt_thread : forall t, thread_id (hw s) !! t = Some c <-> t = c;
  wt_signo : signal_no (hw s) !! (c, INTR_INTERPROC) = Some gc /\ gc <> 0;
  wt_tables : signals_ok (hw s);
  wt_sigmask : sigmask (hw s) !! c = Some mkc }.

(** What the other processor does without announcing anything. *)
Lemma waiting_away s s' qc pc :
  away d s s' -> ipQues s' !! c = ipQues s !! c -> pending (hw s') !! c = pending (hw s) !! c ->
  waiting s qc pc -> waiting s' qc pc.
Proof.
  intros Ha Ei Ep [Hok (N & HN & HNs & HNp & HNl) (P & HP & HPs & HPp & HPu) Hap Hctx Hmask Hopen Hpend Hth [Hsg Hg0] Htab Hsm].
  pose proof Ha as [Hel Hh Hp Hu].
  assert (HNu : p_pun N = c).
  { destruct (so_cpu _ _ _ _ _ Hok) as (N1 & q & Hcs). pose proof (cs_proc _ _ _ _ _ _ _ Hcs) as E.
    rewrite HN in E. injection E as ->. apply Hcs. }
  destruct (Hp n N HN ltac:(congruence)) as (N' & HN' & E1 & E2 & E3).
  destruct (Hp cur P HP ltac:(congruence)) as (P' & HP' & E4 & E5 & E6). split; try done.
  - eapply (sched_ok_alone d c s); [exact Ha|by apply not_eq_sym|exact Ei|exact Hok].
  - exists N'. rewrite E1, E3. split_and!; [done..|]. rewrite Forall_forall in HNl |- *. intros y Hy.
    destruct (away_record d c s s' n qc L y Ha ltac:(by apply not_eq_sym) Hok ltac:(set_solver)) as (_ & _ & _ & ->).
    by apply HNl.
  - exists P'. by rewrite E4, E5, E6.
  - by apply (Hu cur P HP ltac:(congruence)).
  - rewrite (el_mask _ _ _ Hel); [exact Hmask|by apply not_eq_sym].
  - by rewrite Ep.
  - intros t. rewrite <-Hth. by rewrite (f_equal (fun h => thread_id h !! t) Hh : thread_id (hw s') !! t = thread_id (hw s) !! t).
  - rewrite <-Hsg. split; [exact (f_equal (fun h => signal_no h !! (c, INTR_INTERPROC)) Hh)|exact Hg0].
  - by eapply signals_ok_quiet.
  - rewrite <-Hsm. exact (f_equal (fun h => sigmask h !! c) Hh).
Qed.

(** The parent's processor is told, and goes back to the parent. *)
Lemma parent_returns s rest mp kn m :
  waiting s [cur] [gc] -> m_sys m = s -> m_run m !! c = Some kn ->
  m_saved m !! cur = Some (mp, (enable;; end_bar barr;; rest)%prog) ->
  exists s' m', mnexts m (running c rest s' m') /\ (forall t, t <> c -> m_run m' !! t = m_run m !! t) /\
    sched_ok c s' cur [] (n :: L) /\ thread_mask (hw s') !! c = Some mkc /\
    bars s' = delete barr (bars s) /\ bytes s' = bytes s /\ away c s s' /\
    pending (hw s') = <[c := []]> (pending (hw s)) /\
    ipQues s' !! d = ipQues s !! d /\ (forall y, procs s !! y = None -> procs s' !! y = None) /\
    (forall carved free, heap_ok base s carved free -> heap_ok base s' carved free) /\
    (forall carved free, rooted s carved free -> rooted s' carved free).
Proof.
  intros [Hok (N & HN & HNs & HNp & HNl) (P & HP & HPs & HPp & HPu) _ Hctx Hmask Hopen Hpend _ [Hsg Hg0] Htab Hsm] <- Hrun Hsv.
  destruct (so_cpu _ _ _ _ _ Hok) as (N1 & q & Hcs).
  assert (Hnc : n <> cur) by (intros E; apply (cs_fresh _ _ _ _ _ _ _ Hcs); rewrite E; set_solver).
  destruct (arrive_switch user c gc m n N L cur P mn kn Hok HN HP Hrun Hsg Hg0 Htab Hpend Hmask Hopen ltac:(by rewrite HPp))
    as (s4 & Hsteps & [Hstep Hsts Hu4 Hi4 Hel4] & Hok4). rewrite HNs, HPs in *.
  rewrite (rq_insert_between _ n [] L) in Hok4; [|constructor|by rewrite (pri_of_lookup _ _ _ HN)].
  cbn [app] in Hok4. pose proof (ss_rest _ _ Hstep) as Er.
  set (m4 := with_saved n sigfillset (set_own_mask mn;; kn) m) in *.
  pose proof (sched_step_sigmask _ _ Hstep) as Esm.
  assert (Hcpu : on_cpu c s4) by (destruct (so_cpu _ _ _ _ _ Hok4) as (? & ? & Hcs4); apply Hcs4).
  set (s6 := masked c mkc (masked c mp s4)).
  exists (set_bars (delete barr (bars s6)) s6). eexists. split_and!.
  - etransitivity; [exact Hsteps|]. apply (tsteps_mnext user c).
    eapply rtc_l; [apply tstep_switch; [exact Hnc|by rewrite Hu4, lookup_insert_ne|]|].
    { simpl. by rewrite lookup_insert_ne. }
    etransitivity; [apply (enable_steps user c); [exact Hcpu|simpl; rewrite Esm; exact Hsm]|].
    apply (exec_done_steps user c (end_bar barr) s6 tt _ (fun _ => rest)).
    unfold end_bar. rewrite <-(bind_ret_r (modify _)). apply exec_modify. apply exec_ret.
  - intros t Ht. done.
  - by apply (sched_ok_frame c s4).
  - simpl. by rewrite lookup_insert_eq.
  - simpl. by rewrite (ss_rest _ _ Hstep).
  - simpl. by rewrite (ss_rest _ _ Hstep).
  - etrans; [|apply (away_ext c s6); done]. etrans; [|apply away_masked]. etrans; [|apply away_masked].
    destruct (away_step c _ _ Hstep) as [_ Hh Hp _].
    { etrans; [|exact Hel4]. by apply elsewhere_ext. }
    split; [exact Hel4|exact Hh|exact Hp|]. intros a Y _ _ Hs.
    rewrite Hu4, lookup_insert. by case_decide.
  - exact (f_equal pending (ss_hw _ _ Hstep)).
  - simpl. by apply Hi4.
  - intros y Hy. exact (sched_step_none _ _ y Hstep Hy).
  - intros carved free. apply heap_ok_frame; simpl; by rewrite Er.
  - intros carved free Hr. eapply (rooted_step (sig_taken c (m_sys m))); [exact (sp_stack _ _ Hstep)|exact Hr].
Qed.

(** ** The child, running on its processor *)

Context (w : addr) (Lw : list addr) (mkd : sigset).

Record child_runs (s : sys) (x : addr) (carved : gmap addr Z) (free : Z -> list addr) : Prop := {
  cr_ok : sched_ok d s x [] (w :: Lw);
  cr_stack : exists X, procs s !! x = Some X /\ p_stackptr X = x;
  cr_next : uctxs (hw s) !! w = Some Suspended;
  cr_heap : heap_ok base s carved free;
  cr_rooted : rooted s carved free;
  cr_mem : mutexes s !! mutex_mem = Some false;
  cr_term : mutexes s !! term_mutex d = Some false;
  cr_sigmask : sigmask (hw s) !! d = Some mkd;
  cr_thread : thread_id (hw s) !! d = Some d;
  cr_mask : is_Some (thread_mask (hw s) !! d) }.

Lemma child_runs_bytes s x carved free b : child_runs s x carved free -> child_runs (set_bytes b s) x carved free.
Proof. intros []. split; try done; [by apply (sched_ok_frame d s)|by apply (heap_ok_frame base s)]. Qed.

Lemma waiting_bytes s qc pc b : waiting s qc pc -> waiting (set_bytes b s) qc pc.
Proof. intros []. split; try done. by apply (sched_ok_frame c s). Qed.

(** The child reaches the barrier, and announces the parent. *)
Lemma parent_announced s x carved free :
  waiting s [] [] -> child_runs s x carved free -> bars s !! barr = Some (mkParBarrier 1 cur) ->
  exists s', exec d (par_barr_sync barr) s (Done tt s') /\ waiting s' [cur] [gc] /\
    child_runs s' x carved free /\ bytes s' = bytes s /\ procs s' = procs s /\
    pending (hw s') !! d = pending (hw s) !! d.
Proof.
  intros Hw [Hok Hst Hnext Hk Hroot Hmm Hmt Hsm Hthd Hmask] Hbar.
  pose proof Hw as [Hokc _ (P & HP & HPs & HPp & HPu) [Hcur0 Hap] _ _ _ Hpend Hth [Hsg Hg0] _ _].
  set (s1 := bar_count 0 cur barr s).
  assert (Hw1 : waiting s1 [] []) by (eapply (waiting_away s); [by apply away_ext|done..|exact Hw]).
  apply (sched_ok_frame d s s1) in Hok as Hok1; [|done..].
  destruct (so_cpu _ _ _ _ _ Hok1) as (X1 & qd & Hcs). destruct (so_cpu _ _ _ _ _ Hokc) as (N & q & Hcsc).
  pose proof (cs_queues _ _ _ _ _ _ _ Hcsc) as Hqc.
  assert (Ht : ipi_target s1 c c gc []) by (split_and!; [by apply Hth|exact Hsg|exact Hg0|exact Hpend]).
  assert (Htake : takes_more s1 c 1).
  { exists q, [], c, gc, []. split_and!; [apply Hqc|apply Hqc|exact Ht|intros d'; apply Hth|by vm_compute]. }
  destruct (schedule_posted d s1 c cur P mkd (qs_cpu _ _ _ _ _ (cs_queues _ _ _ _ _ _ _ Hcs)) HP HPu
    (not_eq_sym Hcd) Hcur0 Htake Hsm) as (s2 & He & [Hel Hsbq Hh Hown Hu Hm] & Ep & Er & Ei & Hpost).
  destruct (Hpost c q [] c gc [] (not_eq_sym Hcd) (qs_ipq _ _ _ _ _ Hqc) (qs_ipq_rep _ _ _ _ _ Hqc) Ht)
    as (q' & Hq' & Hr' & (T1 & T2 & _ & T4)).
  rewrite decide_True in Hr', T4 by done. pose proof (sbq_rest _ _ Hsbq) as Erest.
  assert (Ha : away d s1 s2).
  { split; [exact Hel|exact Hh| |by rewrite Hu]. intros y Y HY _. rewrite Ep. by exists Y. }
  exists s2. split_and!; [by apply (sync_last d s barr cur)| | |by rewrite Erest|exact Ep|by apply Hown].
  - destruct Hw1 as [A1 (N1 & B1 & B2 & B3 & B4) (P1 & A3) A4 A5 A6 A7 A8 A9 A10 A11 A12]. split; try done.
    + apply (sched_ok_away d c s1 s2 n [] L q' [cur]); [exact Ha|by apply not_eq_sym|exact A1|done|done| | |].
      * apply Forall_singleton. split_and!; [done|unfold pun_of; rewrite Ep; change (procs s1) with (procs s); by rewrite HP|].
        rewrite Ep. by exists P.
      * apply NoDup_singleton.
      * intros y ->%list_elem_of_singleton. exact Hap.
    + exists N1. rewrite Ep. split_and!; [done..|]. eapply Forall_impl; [exact B4|]. intros y. unfold pri_of. by rewrite Ep.
    + exists P1. by rewrite Ep.
    + by rewrite Hu.
    + rewrite (el_mask _ _ _ Hel); [exact A6|by apply not_eq_sym].
    + intros t. rewrite <-A9. by rewrite (f_equal (fun h => thread_id h !! t) Hh : thread_id (hw s2) !! t = thread_id (hw s1) !! t).
    + by eapply signals_ok_quiet.
    + rewrite <-A12. exact (f_equal (fun h => sigmask h !! c) Hh).
  - split; try done.
    + destruct Hok1 as [_ Hso Htop]. assert (E : forall y, pri_of s1 y = pri_of s2 y) by (intros y; unfold pri_of; by rewrite Ep).
      split; [|by eapply rq_sorted_ext|by eapply top_ext]. exists X1, qd.
      apply (cpu_state_agree d s1); [done|done|exact (f_equal cpu_key Hh)|by rewrite Erest|by intros; rewrite Ep|exact Hcs].
    + by rewrite Ep.
    + by rewrite Hu.
    + by apply (heap_ok_frame base s); [rewrite Erest..|].
    + intros y Y. rewrite Ep. apply Hroot.
    + by rewrite Erest.
    + by rewrite Erest.
    + rewrite <-Hsm. exact (f_equal (fun h => sigmask h !! d) Hh).
    + rewrite <-Hthd. exact (f_equal (fun h => thread_id h !! d) Hh).
Qed.

(** The child ends, and the processor goes on with what it did. *)
Lemma child_leaves s x carved free mw kd k m :
  waiting s [cur] [gc] -> child_runs s x carved free -> w <> x ->
  m_saved m !! w = Some (mw, ((handle_interprocessor_interrupt;; enable);; set_own_mask k;; kd)%prog) ->
  exists s' carved' free', mnexts (running d terminate s m) (running d kd s' m) /\ waiting s' [cur] [gc] /\
    sched_ok d s' w [] Lw /\ thread_mask (hw s') !! d = Some k /\ bytes s' = bytes s /\
    pending (hw s') = pending (hw s) /\ heap_ok base s' carved' free' /\ rooted s' carved' free' /\
    procs s' !! x = None /\ (forall y, procs s !! y = None -> procs s' !! y = None).
Proof.
  intros Hw [Hok (X & HX & HXs) Hnext Hk Hroot Hmm Hmt Hsm _ [kx Hmask]] Hwx Hsv.
  destruct (so_cpu _ _ _ _ _ Hok) as (X1 & qd & Hcs). pose proof (cs_proc _ _ _ _ _ _ _ Hcs) as HX1.
  rewrite HX in HX1. injection HX1 as <-.
  destruct (terminate_steps user d s x X qd [] (w :: Lw) w Lw base carved free kx m (ret tt) Hcs
    (so_sorted _ _ _ _ _ Hok) eq_refl Hk (Hroot _ _ HX) Hmm Hmt Hmask)
    as (s1 & Hsteps & Hpo & Hok1 & Hx & Hk1 & Hel & Hi).
  destruct (ended_frame _ _ _ _ _ s s1 Hpo Hmt) as (Em & Eb & _ & Eh & Ep & Eu & _).
  assert (Hne : forall y Y, procs s !! y = Some Y -> p_pun Y <> d -> y <> x).
  { intros y Y HY HYp ->. rewrite HX in HY. injection HY as <-. by apply HYp, (cs_pun _ _ _ _ _ _ _ Hcs). }
  assert (Ha : away d s s1).
  { split; [exact Hel|exact (f_equal (set_pending ∅) Eh)| |].
    - intros y Y HY HYp.
      pose proof (Hne y Y HY HYp) as Hyx.
      destruct (Ep y Hyx) as (E1 & E2 & E3). unfold stack_of, pri_of, pun_of in E1, E2, E3. rewrite HY in E1, E2, E3.
      destruct (procs s1 !! y) as [Y'|]; simplify_eq/=. by exists Y'.
    - intros y Y HY HYp Hs.
      pose proof (Hne y Y HY HYp) as Hyx.
      rewrite Eu; [exact Hs|exact Hyx|by rewrite HXs]. }
  set (s2 := masked d mw s1). set (s3 := masked d mkd s2). set (s4 := masked d k s3).
  assert (Hok4 : sched_ok d s4 w [] Lw) by (by do 3 apply sched_ok_masked).
  assert (Hcpu : on_cpu d s2) by (destruct (so_cpu _ _ _ _ _ Hok1) as (? & ? & Hcs1); apply Hcs1).
  assert (Esm : sigmask (hw s2) !! d = Some mkd) by (rewrite <-Hsm; exact (f_equal (fun h => sigmask h !! d) Eh)).
  exists s4, carved. eexists. split_and!; [| |exact Hok4|simpl; by rewrite lookup_insert_eq|exact Eb| | | |exact Hx|].
  - apply (tsteps_mnext user d). rewrite <-(bind_ret_tt terminate). etransitivity; [exact Hsteps|].
    eapply rtc_l; [apply tstep_resume; [|exact Hsv]|].
    { rewrite Eu; [exact Hnext|exact Hwx|by rewrite HXs]. }
    rewrite bind_assoc. etransitivity.
    { apply (exec_done_steps user d _ s2 tt s2). eapply handler_none. by apply sched_ok_masked. }
    etransitivity; [apply (enable_steps user d); [exact Hcpu|exact Esm]|].
    apply (exec_done_steps user d (set_own_mask k) s3 tt s4 (fun _ => kd)).
    eapply exec_act; [reflexivity|apply exec_ret].
  - apply (waiting_away s); [|exact (Hi c (not_eq_sym Hcd))|exact (f_equal (fun h => pending h !! c) Eh)|exact Hw].
    etrans; [exact Ha|]. etrans; [apply away_masked|]. etrans; apply away_masked.
  - exact (f_equal pending Eh).
  - by apply (heap_ok_frame base s1).
  - apply (rooted_ended s); [exact HX|exact Hx| |exact Hroot]. intros y Hy. by apply (Ep y).
  - intros y Hy. eapply (sched_step_none _ _ y Hpo). simpl. rewrite lookup_delete_None. by right.
Qed.

(** The whole run of the child. *)
Lemma child_across j s x carved free mw kd k m :
  waiting s [] [] -> child_runs s x carved free -> bars s !! barr = Some (mkParBarrier 1 cur) ->
  computes user eff d j -> w <> x ->
  m_saved m !! w = Some (mw, ((handle_interprocessor_interrupt;; enable);; set_own_mask k;; kd)%prog) ->
  exists s' carved' free',
    mnexts (running d (code_prog user CRunInPar j.1.1 barr j.1.2) s m) (running d kd s' m) /\
    waiting s' [cur] [gc] /\ sched_ok d s' w [] Lw /\ thread_mask (hw s') !! d = Some k /\
    bytes s' = eff j (bytes s) /\ pending (hw s') !! d = pending (hw s) !! d /\
    heap_ok base s' carved' free' /\ rooted s' carved' free' /\
    procs s' !! x = None /\ (forall y, procs s !! y = None -> procs s' !! y = None).
Proof.
  intros Hw Hr Hbar Hj Hwx Hsv. set (s1 := set_bytes (eff j (bytes s)) s).
  destruct (parent_announced s1 x carved free) as (s2 & He & Hw2 & Hr2 & Eb2 & Ep2 & Epd2);
    [by apply waiting_bytes|by apply child_runs_bytes|exact Hbar|].
  destruct (child_leaves s2 x carved free mw kd k m Hw2 Hr2 Hwx Hsv)
    as (s3 & cv & fr & Hsteps & Hw3 & Hok3 & Hm3 & Eb3 & Epd3 & Hk3 & Hr3 & Hx3 & Hn3).
  exists s3, cv, fr. split_and!; [|exact Hw3|exact Hok3|exact Hm3|by rewrite Eb3, Eb2|by rewrite Epd3, Epd2|exact Hk3|exact Hr3|exact Hx3|].
  - etransitivity; [|exact Hsteps]. apply (tsteps_mnext user d).
    etransitivity; [apply (exec_done_steps user d _ s tt s1 (fun _ => par_barr_sync barr;; terminate)); exact (Hj s)|].
    apply (exec_done_steps user d (par_barr_sync barr) s1 tt s2 (fun _ => terminate)). exact He.
  - intros y Hy. apply Hn3. by rewrite Ep2.
Qed.

(** ** The child, announced to its processor *)

Record child_sent (j : job) (gd : Z) (k : sigset) (s : sys) (x : addr)
    (carved : gmap addr Z) (free : Z -> list addr) : Prop := {
  ct_ok : sched_ok d s w [x] Lw;
  ct_next : exists W, procs s !! w = Some W /\ p_stackptr W = w /\ pri_gt pr (p_pri W) = true /\
    Forall (fun y => pri_le (p_pri W) (pri_of s y) = false) Lw;
  ct_born : newborn d s x pr CRunInPar j.1.1 barr j.1.2;
  ct_bar : bars s !! barr = Some (mkParBarrier 1 cur);
  ct_heap : heap_ok base s carved free;
  ct_rooted : rooted s carved free;
  ct_mem : mutexes s !! mutex_mem = Some false;
  ct_term : mutexes s !! term_mutex d = Some false;
  ct_sigmask : sigmask (hw s) !! d = Some mkd;
  ct_thread : thread_id (hw s) !! d = Some d;
  ct_mask : thread_mask (hw s) !! d = Some k;
  ct_open : sigismember k gd = false;
  ct_pending : pending (hw s) !! d = Some [gd];
  ct_signo : signal_no (hw s) !! (d, INTR_INTERPROC) = Some gd /\ gd <> 0 }.

(** The interrupt arrives, and the child starts. *)
Lemma child_arrives j gd k s x carved free kd m :
  waiting s [] [] -> child_sent j gd k s x carved free -> m_sys m = s -> m_run m !! d = Some kd ->
  exists s' m', mnexts m (running d (code_prog user CRunInPar j.1.1 barr j.1.2) s' m') /\
    waiting s' [] [] /\ child_runs s' x carved free /\ bars s' !! barr = Some (mkParBarrier 1 cur) /\
    bytes s' = bytes s /\ pending (hw s') !! d = Some [] /\ w <> x /\ (forall y, procs s !! y = None -> procs s' !! y = None) /\
    (forall t, t <> d -> m_run m' !! t = m_run m !! t) /\
    (exists mw, m_saved m' !! w = Some (mw, ((handle_interprocessor_interrupt;; enable);; set_own_mask k;; kd)%prog)) /\
    (forall a, a <> w -> m_saved m' !! a = m_saved m !! a).
Proof.
  intros Hw [Hok (W & HW & HWs & HWp & Hlow) [(nx & ix & HX) [kx Hkx]] Hbar Hk Hroot Hmm Hmt Hsm Hthd Hmask Hopen Hpend [Hsg Hg0]]
    <- Hrun.
  assert (Hwx : w <> x).
  { destruct (so_cpu _ _ _ _ _ Hok) as (W1 & q & Hcs). pose proof (cs_fresh _ _ _ _ _ _ _ Hcs). set_solver. }
  destruct (arrive_switch user d gd m w W Lw x _ k kd Hok HW HX Hrun Hsg Hg0 (wt_tables _ _ _ Hw) Hpend Hmask Hopen HWp)
    as (s4 & Hsteps & [Hstep Hsts Hu4 Hi4 Hel4] & Hok4). cbn [p_stackptr] in Hsteps. rewrite HWs in *.
  rewrite (rq_insert_between _ w [] Lw) in Hok4; [|constructor|by rewrite (pri_of_lookup _ _ _ HW)].
  cbn [app] in Hok4. pose proof (ss_rest _ _ Hstep) as Er.
  set (m4 := with_saved w sigfillset (set_own_mask k;; kd) m) in *.
  assert (Ha : away d (m_sys m) s4).
  { destruct (away_step d _ _ Hstep) as [_ Hh Hp _]; [etrans; [|exact Hel4]; by apply elsewhere_ext|].
    split; [exact Hel4|exact Hh|exact Hp|]. intros a Y _ _ Hs.
    rewrite Hu4, lookup_insert. by case_decide. }
  assert (Epend : pending (hw s4) = <[d := []]> (pending (hw (m_sys m)))) by exact (f_equal pending (ss_hw _ _ Hstep)).
  exists (masked d kx s4). eexists. split_and!.
  - etransitivity; [exact Hsteps|]. apply (tsteps_mnext user d), rtc_once, tstep_switch_fresh.
    rewrite Hu4, lookup_insert_ne by done. exact Hkx.
  - apply (waiting_away (m_sys m)); [by etrans; [exact Ha|apply away_masked]|by apply Hi4, not_eq_sym| |exact Hw].
    simpl. rewrite Epend. by apply lookup_insert_ne.
  - split.
    + by apply sched_ok_masked.
    + destruct (so_cpu _ _ _ _ _ Hok4) as (X4 & q4 & Hcs4). pose proof (cs_proc _ _ _ _ _ _ _ Hcs4) as HX4.
      exists X4. split; [exact HX4|]. by destruct (same_fields (sig_taken d (m_sys m)) s4 x _ _ Hstep HX HX4) as (_ & _ & E).
    + simpl. by rewrite Hu4, lookup_insert_eq.
    + apply (heap_ok_frame base (m_sys m)); [simpl; by rewrite Er..|exact Hk].
    + eapply (rooted_step (sig_taken d (m_sys m))); [exact (sp_stack _ _ Hstep)|exact Hroot].
    + simpl. by rewrite Er.
    + simpl. by rewrite Er.
    + simpl. by rewrite (sched_step_sigmask _ _ Hstep).
    + rewrite <-Hthd. exact (f_equal (fun h => thread_id h !! d) (ss_hw _ _ Hstep)).
    + simpl. rewrite lookup_insert_eq. by eexists.
  - simpl. by rewrite Er.
  - simpl. by rewrite Er.
  - simpl. by rewrite Epend, lookup_insert_eq.
  - exact Hwx.
  - intros y Hy. exact (sched_step_none _ _ y Hstep Hy).
  - done.
  - eexists. simpl. by rewrite lookup_insert_eq.
  - intros a Haw. simpl. by rewrite !lookup_insert_ne.
Qed.

(** ** The call *)

(** What the call requires.  The parent's processor has [n] to go on with, which
    was suspended with its interrupts open; the other processor runs [w]; the
    parent outranks both, and each the rest of its queue.  Both processors can be
    interrupted, and no interrupt is under way. *)
Record may_send (s : sys) (C : Process) (q : IPQueue) (carved : gmap addr Z) (free : Z -> list addr)
    (j : job) (k kd : sigset) (gd : Z) (kn : cprog unit) (m : machine) : Prop := {
  ms_part : may_part c base s cur C q [] (n :: L) carved free [j] mkc k;
  ms_pri : p_pri C = pr /\ 0 <= pr < 2 ^ 16;
  ms_next : exists N, procs s !! n = Some N /\ p_stackptr N = n /\ pri_gt pr (p_pri N) = true /\
    Forall (fun y => pri_le (p_pri N) (pri_of s y) = false) L;
  ms_saved : uctxs (hw s) !! n = Some Suspended /\ m_saved m !! n = Some (mn, kn) /\ sigismember mn gc = false;
  ms_other : sched_ok d s w [] Lw;
  ms_runs : exists W, procs s !! w = Some W /\ p_stackptr W = w /\ pri_gt pr (p_pri W) = true /\
    Forall (fun y => pri_le (p_pri W) (pri_of s y) = false) Lw;
  ms_here : reachable c gc k s;
  ms_there : reachable d gd kd s;
  ms_threads : forall t t' i, thread_id (hw s) !! t = Some i -> thread_id (hw s) !! t' = Some i -> t = t';
  ms_sigmask : sigmask (hw s) !! d = Some mkd;
  ms_term : mutexes s !! term_mutex d = Some false }.

Lemma may_send_place s C q carved free j k kd gd kn m :
  may_send s C q carved free j k kd gd kn m -> may_place c s (n :: L) [j] [d].
Proof.
  intros [_ _ _ _ Hok _ _ [T1 T2 T3 T4 _ _ _] Hth _ _]. destruct (so_cpu _ _ _ _ _ Hok) as (W & qd & Hcs).
  pose proof (cs_queues _ _ _ _ _ _ _ Hcs) as Hq. pose proof (qs_cpu _ _ _ _ _ Hq) as [Hd _].
  split; [done..|]. apply Forall_singleton. split; [unfold NPUN in Hd; lia|right].
  rewrite filter_cons_True by done. exists qd, [], d, gd, []. split_and!; [apply Hq|apply Hq|done| |by vm_compute].
  intros d' Hd'. by eapply Hth.
Qed.

(** What the other processor finds in its queue, and its signal. *)
Lemma child_posted s s1 kd gd x X f :
  away c s s1 -> sched_ok d s w [] Lw -> reachable d gd kd s -> posted c s s1 f -> f d = [x] ->
  procs s !! x = None -> procs s1 !! x = Some X -> p_pun X = d -> x <> NULL ->
  sched_ok d s1 w [x] Lw /\ pending (hw s1) !! d = Some [gd].
Proof.
  intros Ha Hok [T1 T2 T3 T4 _ _ _] Hpost Ef Hx HX HXp Hx0. destruct (so_cpu _ _ _ _ _ Hok) as (W & q & Hcs).
  pose proof (cs_queues _ _ _ _ _ _ _ Hcs) as Hq.
  destruct (Hpost d q [] d gd [] Hcd (qs_ipq _ _ _ _ _ Hq) (qs_ipq_rep _ _ _ _ _ Hq) ltac:(done))
    as (q' & Hq' & Hr' & _ & _ & _ & Hp'). rewrite Ef in Hr', Hp'. split; [|exact Hp'].
  apply (sched_ok_away c d s s1 w [] Lw q' [x]); [exact Ha|exact Hcd|exact Hok|exact Hq'|exact Hr'| |apply NoDup_singleton|].
  - apply Forall_singleton. split_and!; [done|unfold pun_of; by rewrite HX|by exists X].
  - intros y ->%list_elem_of_singleton Hin. apply elem_of_cons in Hin as [->|Hin].
    + rewrite (cs_proc _ _ _ _ _ _ _ Hcs) in Hx. done.
    + destruct (queues_elem _ _ _ _ _ _ Hq Hin) as (Y & HY & _). congruence.
Qed.

(** Only the parent's own processor has seen the call. *)
Lemma wait_away s s1 C q l : 
  cpu_state c s cur C q [] l -> elsewhere c s s1 -> par_wait s s1 cur C -> away c s s1.
Proof.
  intros Hcs Hel [_ _ Eh _ Hold Hctxs _]. split; [exact Hel|exact Eh| |].
  - intros y Y HY _. by apply Hold.
  - intros y Y HY HYp. rewrite (Hctxs y Y HY); [done|]. intros ->.
    rewrite (cs_proc _ _ _ _ _ _ _ Hcs) in HY. injection HY as <-. by apply HYp, (cs_pun _ _ _ _ _ _ _ Hcs).
Qed.

(** The state in which the parent's processor goes on with [n]. *)
Lemma goes_waiting s C q carved free j k kd gd kn m s1 :
  may_send s C q carved free j k kd gd kn m -> par_wait s s1 cur C -> sched_ok c s1 n [] L ->
  own_pending c s s1 -> waiting (masked c mn s1) [] [].
Proof.
  intros [Hmp [HCp _] (N & HN & HNs & HNp & HNl) (_ & _ & Hopen) _ _ [Tc1 Tc2 Tc3 Tc4 _ _ Tc7] _ Hth _ _]
    [_ _ Eh Hctx Hold _ (P & HP & HPs & HPp & HPu)] Hok Hown.
  pose proof (mp_cpu _ _ _ _ _ _ _ _ _ _ _ _ _ Hmp) as Hcs.
  destruct (Hold n N HN) as (N' & HN' & EN1 & _ & EN3). split; try done.
  - by apply sched_ok_masked.
  - exists N'. rewrite EN1, EN3. split_and!; [done..|]. rewrite Forall_forall in HNl |- *. intros y Hy.
    destruct (queues_elem _ _ _ _ _ y (cs_queues _ _ _ _ _ _ _ Hcs) ltac:(right; exact Hy)) as (Y & HY & _).
    destruct (Hold y Y HY) as (Y' & HY' & E & _). change (pri_of (masked c mn s1) y) with (pri_of s1 y).
    rewrite (pri_of_lookup _ _ _ HY'), E, <-(pri_of_lookup _ _ _ HY). by apply HNl.
  - exists P. rewrite HPp, HPu. split_and!; [done..|exact (cs_pun _ _ _ _ _ _ _ Hcs)].
  - split; [exact (cs_nonnull _ _ _ _ _ _ _ Hcs)|exact (cs_fresh _ _ _ _ _ _ _ Hcs)].
  - simpl. by rewrite lookup_insert_eq.
  - simpl. by rewrite (Hown c Tc1).
  - intros t. simpl. rewrite (f_equal (fun h => thread_id h !! t) Eh : thread_id (hw s1) !! t = thread_id (hw s) !! t).
    split; [intros Ht; by eapply Hth|by intros ->].
  - rewrite <-Tc2. split; [exact (f_equal (fun h => signal_no h !! (c, INTR_INTERPROC)) Eh)|exact Tc3].
  - by apply (signals_ok_quiet (hw s)).
  - rewrite <-(mp_sigmask _ _ _ _ _ _ _ _ _ _ _ _ _ Hmp). exact (f_equal (fun h => sigmask h !! c) Eh).
Qed.

(** What the other processor has been sent. *)
Lemma goes_sent s C q carved free j k kd gd kn m s1 x n1 L1 cv fr :
  may_send s C q carved free j k kd gd kn m -> par_wait s s1 cur C ->
  placed c base s cur [] (n :: L) barr (placed_specs [j] [d] (fun _ => pr)) s1 [x] n1 L1 cv fr ->
  child_sent j gd kd (masked c mn s1) x cv fr.
Proof.
  intros [Hmp _ _ _ Hokd (W & HW & HWs & HWp & HWl) _ Hrd _ Hsmd Hterm] Hpw
    [Hfresh _ Hkids _ Hpost Hel _ _ Hbar _ Hk Hroot _].
  pose proof (wait_away _ _ _ _ _ (mp_cpu _ _ _ _ _ _ _ _ _ _ _ _ _ Hmp) Hel Hpw) as Ha.
  destruct Hpw as [Em _ Eh _ Hold _ _], (id Hrd) as [Td1 Td2 Td3 _ Td5 Td6 _].
  pose proof (proj1 (Forall_singleton _ _) Hfresh) as Hx. cbv beta in Hx.
  apply Forall2_cons in Hkids as [Hborn _]. destruct (nb_record _ _ _ _ _ _ _ _ Hborn) as (nx & ix & HX).
  assert (Hx0 : x <> NULL).
  { destruct (hk_carved _ _ _ _ Hk _ _ (proj1 (Hroot _ _ HX))) as (_ & Hge & _).
    pose proof (hk_base _ _ _ _ Hk). unfold NULL. lia. }
  destruct (child_posted s s1 kd gd x _ _ Ha Hokd Hrd Hpost
    ltac:(unfold sent_to; simpl; by rewrite filter_cons_True) Hx HX eq_refl Hx0) as [Hokd1 Hpd].
  destruct (Hold w W HW) as (W' & HW' & EW1 & _ & EW3). split; try done.
  - by apply sched_ok_masked.
  - exists W'. rewrite EW1, EW3. split_and!; [done..|]. rewrite Forall_forall in HWl |- *. intros y Hy.
    destruct (away_record c d s s1 w [] Lw y Ha Hcd Hokd ltac:(set_solver)) as (_ & _ & _ & E).
    change (pri_of (masked c mn s1) y) with (pri_of s1 y). rewrite E. by apply HWl.
  - apply (newborn_same d s1); [done..|exact Hborn].
  - by apply (heap_ok_frame base s1).
  - simpl. rewrite Em. apply Hmp.
  - simpl. by rewrite Em.
  - rewrite <-Hsmd. exact (f_equal (fun h => sigmask h !! d) Eh).
  - rewrite <-Td1. exact (f_equal (fun h => thread_id h !! d) Eh).
  - simpl. rewrite lookup_insert_ne by (by apply not_eq_sym). by rewrite (el_mask _ _ _ Hel).
  - rewrite <-Td2. split; [exact (f_equal (fun h => signal_no h !! (d, INTR_INTERPROC)) Eh)|exact Td3].
Qed.

(** The call, up to where the parent's processor goes on with [n]. *)
Lemma child_goes s C q carved free j k kd gd kn rest m :
  may_send s C q carved free j k kd gd kn m ->
  exists s' x mp carved' free',
    mnexts (running c (placed_par barr [j.1.1] [j.1.2] [j.2] [d] 1;; rest) s m)
      (running c kn s' (with_saved cur mp (enable;; end_bar barr;; rest) m)) /\
    waiting s' [] [] /\ child_sent j gd kd s' x carved' free' /\ bytes s' = bytes s /\
    (forall y, procs s !! y = None -> y <> x -> procs s' !! y = None).
Proof.
  intros Hms. pose proof (may_send_place _ _ _ _ _ _ _ _ _ _ _ Hms) as Hmy.
  destruct (id Hms) as [Hmp [HCp Hpr] (N & HN & HNs & _) (Hun & Hsv & _) _ _ _ _ _ _ _].
  destruct (placed_par_run c base s cur C q [] (n :: L) carved free [j] mkc k barr [d] Hmp Hmy ltac:(by rewrite HCp))
    as (s1 & kids & n1 & L1 & N1 & cv & fr & He & HN1 & Hpl & Hpw & _).
  rewrite HCp in Hpl. destruct (id Hpl) as [_ _ Hkids Hq _ _ Hown Hok _ _ _ _ Honly].
  apply Forall2_cons_inv_r in Hkids as (x & xs & _ & Hxs & ->). apply Forall2_nil_inv_r in Hxs as ->.
  unfold sent_to in Hq. simpl in Hq. rewrite filter_cons_False in Hq by done. simpl in Hq. injection Hq as -> ->.
  pose proof (goes_sent _ _ _ _ _ _ _ _ _ _ _ _ _ _ _ _ _ Hms Hpw Hpl) as Hsent.
  pose proof (goes_waiting _ _ _ _ _ _ _ _ _ _ _ _ Hms Hpw Hok Hown) as Hw.
  exists (masked c mn s1), x, (mask_in c s1), cv, fr.
  split_and!; [|exact Hw|exact Hsent|exact (pw_bytes _ _ _ _ Hpw)|].
  2: { intros y Hy Hyx. by apply Honly; [|intros ->%list_elem_of_singleton]. }
  apply (tsteps_mnext user c).
  destruct (pw_old _ _ _ _ Hpw n N HN) as (N' & HN' & _ & _ & EN').
  rewrite HN1 in HN'. injection HN' as <-. rewrite EN', HNs in He.
  assert (Hnc : cur <> n) by (intros ->; apply (cs_fresh _ _ _ _ _ _ _ (mp_cpu _ _ _ _ _ _ _ _ _ _ _ _ _ Hmp)); by left).
  etransitivity; [apply (exec_switch_steps user c _ _ _ _ _ _ (fun _ => rest) m mn kn He Hnc); [|exact Hsv]|].
  { by rewrite (pw_ctxs _ _ _ _ Hpw n N HN (not_eq_sym Hnc)). }
  rewrite bind_assoc. reflexivity.
Qed.

(** ** The theorem *)

(** C4: a child on another processor, from the call to what follows it, on the
    machine with both processors.  The parent, of processor [c], calls
    [placed_par] with a child for processor [d], where [w], of lower priority,
    runs.  The parent's processor goes on with [n]; the interrupt reaches [d],
    which preempts [w] and runs the child to its end; the child, the last to
    reach the barrier, sends the parent to its processor, and [d] goes back to
    [w], which continues where it was; the interrupt the child sent reaches [c],
    which preempts [n] for the parent; and the parent goes on with what follows
    the call.  Then the child's computation is done, the barrier is gone and no
    record left that was not there before, no interrupt is under way, the masks
    are as they should be, and the invariants of both schedulers and of the heap
    hold again.  This is the run in which the parent waits before the child
    starts; [Remote] has what can happen when the child ends earlier. *)
Theorem placed_child_joins s C q carved free j k kd gd kn kw rest m :
  may_send s C q carved free j k kd gd kn m -> m_run m !! d = Some kw -> computes user eff d j ->
  exists s' m' carved' free',
    mnexts (running c (placed_par barr [j.1.1] [j.1.2] [j.2] [d] 1;; rest) s m) (running c rest s' m') /\
    m_run m' !! d = Some kw /\
    sched_ok c s' cur [] (n :: L) /\ sched_ok d s' w [] Lw /\
    thread_mask (hw s') !! c = Some mkc /\ thread_mask (hw s') !! d = Some kd /\
    pending (hw s') !! c = Some [] /\ pending (hw s') !! d = Some [] /\
    bytes s' = eff j (bytes s) /\ bars s' !! barr = None /\
    heap_ok base s' carved' free' /\ rooted s' carved' free' /\
    forall y, procs s !! y = None -> procs s' !! y = None.
Proof.
  intros Hms Hrun Hj.
  assert (Hcw : cur <> w).
  { intros Ecw. destruct (so_cpu _ _ _ _ _ (ms_other _ _ _ _ _ _ _ _ _ _ _ Hms)) as (W & qd & Hcsd).
    pose proof (mp_cpu _ _ _ _ _ _ _ _ _ _ _ _ _ (ms_part _ _ _ _ _ _ _ _ _ _ _ Hms)) as Hcs.
    pose proof (cs_proc _ _ _ _ _ _ _ Hcs) as E.
    rewrite Ecw, (cs_proc _ _ _ _ _ _ _ Hcsd) in E. injection E as ->.
    apply Hcd. by rewrite <-(cs_pun _ _ _ _ _ _ _ Hcs), <-(cs_pun _ _ _ _ _ _ _ Hcsd). }
  destruct (child_goes _ _ _ _ _ _ _ _ _ _ rest _ Hms) as (s1 & x & mp & cv & fr & Hs1 & Hw1 & Hc1 & Eb1 & Hn1).
  set (m1 := running c kn s1 _) in Hs1.
  destruct (child_arrives j gd kd s1 x cv fr kw m1 Hw1 Hc1 eq_refl) as
    (s2 & m2 & Hs2 & Hw2 & Hr2 & Hb2 & Eb2 & Hp2 & Hwx & Hn2 & Hrun2 & [mw Hsv2] & Hsvo);
    [simpl; by rewrite lookup_insert_ne by (by apply not_eq_sym)|].
  destruct (child_across j s2 x cv fr mw kw kd m2 Hw2 Hr2 Hb2 Hj Hwx Hsv2)
    as (s3 & cv3 & fr3 & Hs3 & Hw3 & Hok3 & Hm3 & Eb3 & Hp3 & Hk3 & Hroot3 & Hx3 & Hn3).
  destruct (parent_returns s3 rest mp kn (running d kw s3 m2) Hw3 eq_refl) as
    (s4 & m4 & Hs4 & Hrun4 & Hok4 & Hm4 & Ebar & Eb4 & Ha4 & Ep4 & Ei4 & Hn4 & Hk4 & Hroot4).
  { simpl. rewrite lookup_insert_ne by done. rewrite Hrun2 by (by apply not_eq_sym). simpl. by rewrite lookup_insert_eq. }
  { simpl. rewrite Hsvo by done. simpl. by rewrite lookup_insert_eq. }
  exists s4, m4, cv3, fr3. split_and!; [| |exact Hok4| |exact Hm4| | | | | |by apply Hk4|by apply Hroot4|].
  - etransitivity; [exact Hs1|]. etransitivity; [exact Hs2|]. etransitivity; [exact Hs3|exact Hs4].
  - rewrite Hrun4 by done. simpl. by rewrite lookup_insert_eq.
  - by apply (sched_ok_alone c d s3).
  - by rewrite (el_mask _ _ _ (aw_elsewhere _ _ _ Ha4)).
  - by rewrite Ep4, lookup_insert_eq.
  - by rewrite Ep4, lookup_insert_ne, Hp3 by (by apply not_eq_sym).
  - by rewrite Eb4, Eb3, Eb2, Eb1.
  - by rewrite Ebar, lookup_delete_eq.
  - intros y Hy. apply Hn4. destruct (decide (y = x)) as [->|Hyx]; [exact Hx3|]. by apply Hn3, Hn2, Hn1.
Qed.
End Across.

(** ** At a concrete input

    [pA] runs one child on processor 1, where [pR], of lower priority, runs;
    the idle process of its own processor goes on meanwhile. *)
Definition sample_across : sys :=
  set_hw (set_next_signo 51 (set_uctxs {[idle0 := Suspended]} sample_hw))
    (set_procs (<[pR := sample_proc pR NULL 1536 1 PROC_READY]> sample_procs) sample_quiet).
Definition sample_pair : machine :=
  mkMachine sample_across {[1 := relinquish]} {[idle0 := (sigemptyset, idle)]}.

Lemma sample_across_part :
  may_part 0 pA sample_across pA (sample_proc pA NULL 1024 0 PROC_READY) empty_ipq [] [idle0]
    sample_blocks (fun _ => []) [(CUser 7, 0x8000, 100)] sigemptyset sigemptyset.
Proof.
  split; [|repeat constructor|done| | |done..|by repeat constructor|by vm_compute|by vm_compute].
  - apply (cpu_state_agree 0 sample_quiet); [done..| |exact sample_quiet_cpu].
    intros x Hx. simpl. rewrite lookup_insert_ne; [done|]. intros <-. revert Hx. by concrete_nodup.
  - by apply (heap_ok_frame pA sample), sample_blocks_heap.
  - eapply (rooted_step sample); [|exact sample_rooted]. intros x. unfold stack_of. simpl.
    rewrite lookup_insert. case_decide; [by subst|done].
Qed.

Lemma sample_across_ok : sched_ok 1 sample_across pR [] [idle1].
Proof.
  split; [|repeat constructor|by repeat constructor].
  eexists _, empty_ipq; split; [|reflexivity..|done|concrete_nodup].
  split; [by vm_compute|reflexivity|exact empty_ipq_rep| |constructor|concrete_nodup].
  split; [reflexivity|concrete_linked|concrete_forall].
Qed.

Lemma sample_across_reachable :
  reachable 0 43 sigemptyset sample_across /\ reachable 1 48 sigemptyset sample_across.
Proof. split; (split; try done; by apply signals_ok_check). Qed.

Lemma sample_may_send :
  may_send 0 1 pA pA 0x2400 idle0 [] 43 sigemptyset sigemptyset pR [idle1] sigemptyset sample_across
    (sample_proc pA NULL 1024 0 PROC_READY) empty_ipq sample_blocks (fun _ => []) (CUser 7, 0x8000, 100)
    sigemptyset sigemptyset 48 idle sample_pair.
Proof.
  destruct sample_across_reachable as [Hr0 Hr1].
  split; try done.
  - exact sample_across_part.
  - eexists. split_and!; [reflexivity|done..|constructor].
  - exact sample_across_ok.
  - eexists. split_and!; [reflexivity|done..|by repeat constructor].
  - intros t t' i Ht Ht'.
    assert (Hd : map_Forall (fun d i => d = i) (thread_id (hw sample_across)))
      by (apply (bool_decide_unpack _); by vm_compute).
    by rewrite (Hd t i Ht), (Hd t' i Ht').
Qed.

Lemma placed_child_joins_witness :
  exists s' m', rtc (mnext sample_user)
      (running 0 (placed_par 0x9000 [CUser 7] [0x8000] [100] [1] 1;; ret tt) sample_across sample_pair)
      (running 0 (ret tt) s' m') /\
    m_run m' !! 1 = Some relinquish /\ sched_ok 0 s' pA [] [idle0] /\ sched_ok 1 s' pR [] [idle1] /\
    bytes s' = {[0x8000 := 1]}.
Proof.
  destruct (placed_child_joins sample_user sample_eff 0 1 pA pA 0x9000 0x2400 ltac:(done) idle0 [] 43
    sigemptyset sigemptyset pR [idle1] sigemptyset sample_across (sample_proc pA NULL 1024 0 PROC_READY) empty_ipq
    sample_blocks (fun _ => []) (CUser 7, 0x8000, 100) sigemptyset sigemptyset 48 idle relinquish (ret tt) sample_pair
    sample_may_send eq_refl (sample_computes 1 _))
    as (s' & m' & cv & fr & H1 & H2 & H3 & H4 & _ & _ & _ & _ & H5 & _).
  exists s', m'. split_and!; [exact H1|exact H2|exact H3|exact H4|by rewrite H5].
Defined.
