(* ===== verification/Start.v ===== *)
(** * Start: from power on to the application

    The run of [initialize] on the machine, with both processors: the steps of
    the machine from the state before [main] to the application's first action,
    and the invariants of the other files in the state they lead to. *)

From S2P Require Import Prelude Prog State Fixture Linked Hardware.
From S2P Require Import Exec Priority Ipq Sched ReadyQueue Dispatch.
From S2P Require Import Mutex Memory Heap Signals Boot Machine Meeting Life Spawn.

#[local] Open Scope prog_scope.

Lemma turn_next user t m m' : turn user t m = Next m' -> mnext user m m'.
Proof.
  unfold turn. intros Ht. destruct (deliver t m) as [m1|w| |] eqn:Ed.
  1: simplify_eq; by eapply step_signal.
  all: destruct (start_thread t m) as [m1|w'| |] eqn:Es.
  all: try (simplify_eq; by eapply step_start).
  all: eapply step_thread; [exact Ht|done].
Qed.

Lemma run_all_next user n : forall m m', run_all user n m = Next m' -> rtc (mnext user) m m'.
Proof.
  induction n as [|n IH]; intros m m' Hr; cbn [run_all] in Hr; [by simplify_eq|].
  destruct (turn user 0 m) as [m0|w| |] eqn:E0; try done.
  - eapply rtc_l; [by eapply turn_next|].
    destruct (turn user 1 m0) as [m1|w| |] eqn:E1; try done; [|by apply IH].
    eapply rtc_l; [by eapply turn_next|by apply IH].
  - destruct (turn user 1 m) as [m1|w| |] eqn:E1; try done.
    eapply rtc_l; [by eapply turn_next|by apply IH].
Qed.

(** ** A system

    Real-time signals 34 to 64, [malloc] gives memory at 0x100000, and [tid] is
    the number of the first timer. *)
Definition powered (tid : Z) (main : cprog unit) : machine :=
  mkMachine (power_on 34 64 0x100000 tid) {[0 := main]} ∅.

(** 100000 bytes of memory and an initial process with a stack of 4096 bytes *)

Section System.
Context (user : code_p -> addr -> cprog unit) (app : cprog unit).

Definition boot : machine :=
  powered 0 (initialize 100000 4096;; app).

(** The machine just before the application's first action. *)
Definition boot_turns : nat := 551.
Definition booted : machine :=
  match run_all user boot_turns boot with Next m => m | _ => boot end.

Lemma boot_runs : run_all user boot_turns boot = Next booted.
Proof.
  unfold booted. destruct (run_all user boot_turns boot) as [m|w| |] eqn:E; [done|exfalso..].
  all: assert (H : match run_all user boot_turns boot with Next _ => true | _ => false end = true)
         by (vm_compute; reflexivity); by rewrite E in H.
Qed.

Definition init_proc : addr := 0x100000.
Definition idler0 : addr := 0x101800.
Definition idler1 : addr := 0x104000.
Definition boot_procs : gmap addr Process :=
  list_to_map [(init_proc, mkProcess init_proc NULL 15 INIT_PRI 0 ALT_NONE PROC_WAITING);
               (idler0, mkProcess idler0 NULL 17 IDLE_PRI 0 ALT_NONE PROC_WAITING);
               (idler1, mkProcess idler1 NULL 17 IDLE_PRI 1 ALT_NONE PROC_WAITING)].
Definition boot_carved : gmap addr Z := p_index <$> boot_procs.

(** The parts of the state the invariants speak of. *)
Definition boot_state : sys :=
  set_procs boot_procs (set_rdyQues {[0 := idler0; 1 := NULL]}
    (State.set_current {[0 := init_proc; 1 := idler1]}
      (set_ipQues {[0 := empty_ipq; 1 := empty_ipq]} (set_tail 0x106800 sample)))).

Lemma booted_state :
  procs (m_sys booted) = procs boot_state /\ rdyQues (m_sys booted) = rdyQues boot_state /\
  current (m_sys booted) = current boot_state /\ ipQues (m_sys booted) = ipQues boot_state /\
  cpu_key (hw (m_sys booted)) = cpu_key (hw boot_state) /\
  tail (m_sys booted) = tail boot_state /\ procmemlist (m_sys booted) = procmemlist boot_state /\
  chain (m_sys booted) = chain boot_state.
Proof. split_and!; vm_compute; reflexivity. Qed.
End System.

(** ** The invariants *)

Lemma boot_sched0 : sched_ok 0 boot_state init_proc [] [idler0].
Proof.
  split; [|repeat constructor|by repeat constructor].
  eexists _, empty_ipq. split; [|reflexivity..|done|concrete_nodup].
  split; [by vm_compute|reflexivity|exact empty_ipq_rep| |constructor|concrete_nodup].
  split; [reflexivity|concrete_linked|concrete_forall].
Qed.

Lemma boot_sched1 : sched_ok 1 boot_state idler1 [] [].
Proof.
  split; [|repeat constructor|by repeat constructor].
  eexists _, empty_ipq. split; [|reflexivity..|done|concrete_nodup].
  split; [by vm_compute|reflexivity|exact empty_ipq_rep| |constructor|concrete_nodup].
  split; [reflexivity|concrete_linked|concrete_forall].
Qed.

Lemma boot_heap : heap_ok 0x100000 boot_state boot_carved (fun _ => []).
Proof.
  pose proof sample_heap as [_ H2 _ _ _]. split; [by vm_compute|exact H2|set_solver| |].
  - assert (Hd : map_Forall (fun a i => (0 <= i < 21) /\ 0x100000 <= a /\ a + block_len i <= 0x106800) boot_carved)
      by (apply (bool_decide_unpack _); by vm_compute).
    exact Hd.
  - assert (Hd : map_Forall (fun a i => map_Forall (fun b j => a = b \/
        a + block_len i <= b \/ b + block_len j <= a) boot_carved) boot_carved)
      by (apply (bool_decide_unpack _); by vm_compute).
    intros a i b j Ha Hb Hab. destruct (Hd a i Ha b j Hb) as [?|?]; [done|done].
Qed.

Lemma boot_rooted : rooted boot_state boot_carved (fun _ => []).
Proof.
  intros x X HX. split; [|set_solver]. unfold boot_carved.
  change (procs boot_state) with boot_procs in HX. by rewrite lookup_fmap, HX.
Qed.

(** The theorem below, and every invariant of a processor, mean by "interrupts
    enabled" that the thread's signal mask is the one its processor's handlers
    left. *)
Record ready_to_run (s : sys) : Prop := {
  rt_cpu0 : sched_ok 0 s init_proc [] [idler0];
  rt_cpu1 : sched_ok 1 s idler1 [] [];
  rt_heap : heap_ok 0x100000 s boot_carved (fun _ => []);
  rt_rooted : rooted s boot_carved (fun _ => []);
  rt_mutexes : forall m, m ∈ [mutex_mem; term_mutex 0; term_mutex 1] -> mutexes s !! m = Some false;
  rt_enabled : is_Some (sigmask (hw s) !! 0) /\ thread_mask (hw s) !! 0 = sigmask (hw s) !! 0;
  rt_signals : signals_ok (hw s);
  rt_open : forall g, g ∈ [34; 35; 36; 37; 38] ->
    (fun m => sigismember m g) <$> thread_mask (hw s) !! 0 = Some false }.

