(* ===== verification/Pingpong.v ===== *)
(** * Pingpong: ring0arg2.c runs on

    Two processes of one processor send an [int] back and forth over two
    channels, each incrementing it ([Clients], src/examples/ring0arg2.c).  One
    exchange is put together from the rendezvous of [Meeting]; the run goes on
    from power on for as long as the [int] can be incremented. *)

From Stdlib Require Import FunctionalExtensionality.
From S2P Require Import Prelude Prog State Fixture Linked Hardware Exec Priority Ipq.
From S2P Require Import Sched ReadyQueue Dispatch Mutex Proc Comm Rendezvous Par Boot.
From S2P Require Import Libc Clients Machine Adequacy Meeting Remote Start.

#[local] Open Scope prog_scope.
#[local] Open Scope string_scope.
#[local] Open Scope Z_scope.

(** ** Incrementing *)

Lemma increment_done c x v s :
  holds_int s x v -> is_int v = true -> is_int (v + 1) = true ->
  exists m, exec c (increment x) s (Done tt (set_bytes m s)) /\
    write_bytes (bytes s) x (int_bytes (v + 1)) = Some m /\ holds_int (set_bytes m s) x (v + 1).
Proof.
  intros Hx Hv Hv1. destruct (store_int_done c x (v + 1) v s Hx) as (m & He & Hm).
  exists m. split; [|exact Hm]. unfold increment.
  eapply exec_load_int; [exact Hx|exact Hv|]. by apply exec_int_result.
Qed.

(** What [print_if] adds to the output. *)
Definition printed (v m r : Z) (before after : string) : list string :=
  if Z.rem v m =? r then [line (before +:+ dec v +:+ after)] else [].

Lemma print_if_done c x v m r b a s :
  holds_int s x v -> is_int v = true ->
  exec c (print_if x m r b a) s (Done tt (set_stdout (stdout s ++ printed v m r b a)%list s)).
Proof.
  intros Hx Hv. unfold print_if, printed. eapply exec_load_int; [exact Hx|exact Hv|].
  destruct (Z.rem v m =? r).
  - eapply exec_load_int; [exact Hx|exact Hv|].
    rewrite <-(bind_ret_r (printf _)). apply exec_printf, exec_ret.
  - rewrite app_nil_r. by destruct s; apply exec_ret.
Qed.

(** ** One exchange *)

(** Between two exchanges: [w] runs, and is about to read from [cf], where [f]
    waits with its [int] [v] at [xf]; nobody is in the other channel. *)
Record at_net (t : Z) (L : list addr) (mk : sigset) (f w sf sw cf cw xf xw v : Z) (s : sys) : Prop := {
  an_sched : sched_ok t s w [] L;
  an_waiting : exists F, procs s !! f = Some F /\ p_sched_state F = PROC_WAITING /\ p_pun F = t /\
    p_stackptr F = sf;
  an_stack : p_stackptr <$> procs s !! w = Some sw;
  an_context : uctxs (hw s) !! sf = Some Suspended;
  an_full : chan_rep s cf (Writing f xf);
  an_idle : chan_rep s cw Idle;
  an_value : holds_int s xf v;
  an_room : exists v', holds_int s xw v';
  an_mask : sigmask (hw s) !! t = Some mk }.

(** What does not change: the processes have equal priorities, above those of
    the others that are ready, and variables and channels of their own. *)
Record players (pr : addr -> Z) (L : list addr) (f w sf sw cf cw xf xw : Z) : Prop := {
  pl_apart : f <> w /\ sf <> sw /\ cf <> cw;
  pl_nonnull : f <> NULL /\ w <> NULL /\ xf <> NULL /\ xw <> NULL;
  pl_equal : pri_gt (pr f) (pr w) = false /\ pri_gt (pr w) (pr f) = false;
  pl_first : rq_insert pr f L = f :: L /\ rq_insert pr w L = w :: L;
  pl_objects : xf + 4 <= xw \/ xw + 4 <= xf;
  pl_fresh : f ∉ L /\ w ∉ L }.

Lemma players_swap pr L f w sf sw cf cw xf xw :
  players pr L f w sf sw cf cw xf xw -> players pr L w f sw sf cw cf xw xf.
Proof. intros [[? [? ?]] [? [? [? ?]]] [? ?] [? ?] ? [? ?]]. split; by auto || lia. Qed.

Section Volley.
Context (user : code_p -> addr -> cprog unit) (t : Z) (L : list addr) (mk : sigset).
Context (pr : addr -> Z).
Notation tsteps := (rtc (tstep user t)).

Lemma players_rq pr' f w sf sw cf cw xf xw (s : sys) :
  players pr L f w sf sw cf cw xf xw -> (forall x, pr' x = pr x) ->
  rq_insert pr' f L = f :: L.
Proof. intros Hp E. rewrite (rq_insert_ext _ pr) by done. apply Hp. Qed.

(** The message from [f] to [w]. *)
Lemma net_transfer s f w sf sw cf cw xf xw v :
  players pr L f w sf sw cf cw xf xw -> at_net t L mk f w sf sw cf cw xf xw v s ->
  exists mem, transfer s xw xf 4 (int_bytes v) mem /\
    read_bytes mem xw INT_SIZE = Some (int_bytes v) /\ read_bytes mem xf INT_SIZE = Some (int_bytes v).
Proof.
  intros Hp [_ _ _ _ _ _ Hv (v' & Hw) _]. pose proof (pl_objects _ _ _ _ _ _ _ _ _ _ Hp) as Hd.
  destruct (write_bytes_total (int_bytes v) (bytes s) xw (int_bytes v') Hw) as (mem & Hm).
  assert (Ht : transfer s xw xf 4 (int_bytes v) mem).
  { split; [|lia|exact Hv|exact Hm]. rewrite andb_false_iff, !Z.ltb_ge. lia. }
  exists mem. split; [exact Ht|]. exact (transfer_result _ _ _ _ _ _ Ht).
Qed.

(** [w] gets the [int]: it goes on with [f] ready behind it. *)
Lemma net_read s f w sf sw cf cw xf xw v mf kf kw m :
  players pr L f w sf sw cf cw xf xw -> at_net t L mk f w sf sw cf cw xf xw v s ->
  (forall x, pri_of s x = pr x) -> m_saved m !! sf = Some (mf, enable;; kf) ->
  exists s', tsteps (running t (in_ cf xw 4;; kw) s m) (running t kw s' m) /\
    sched_ok t s' w [] (f :: L) /\ chan_rep s' cf Idle /\ chan_rep s' cw Idle /\
    holds_int s' xw v /\ holds_int s' xf v /\ (forall x, pri_of s' x = pr x) /\
    p_stackptr <$> procs s' !! w = Some sw /\ p_stackptr <$> procs s' !! f = Some sf /\
    uctxs (hw s') !! sf = Some Suspended /\ sigmask (hw s') !! t = Some mk /\ stdout s' = stdout s.
Proof.
  intros Hp Hn Epr Hsv. destruct (net_transfer _ _ _ _ _ _ _ _ _ _ Hp Hn) as (mem & Ht & Hmw & Hmf).
  pose proof Hn as [Hok (F & HF & Hwait & HFt & HFs) Hst Hctx Hcf Hcw Hv Hw Hmk].
  pose proof Hp as [(Hfw & Hsfw & Hcfw) (Hf0 & Hw0 & _ & Hxw0) (Hpf & Hpw) (Hrf & Hrw) _ (HfL & HwL)].
  destruct (procs s !! w) as [W|] eqn:HW; [|done]. simpl in Hst. injection Hst as HWs.
  destruct (meet_second user false t s f F w W L cf xf xw 4 (int_bytes v) mem mk kw m Hok HW HF
    Hwait HFt Hf0 Hfw HfL ltac:(congruence) ltac:(congruence) Hcf Ht Hmk mf kf ltac:(congruence))
    as (s' & Hb & Hci & Hfr & Hmask & Hstep & Hend).
  assert (Hpri : pri_gt (p_pri F) (p_pri W) = false).
  { rewrite <-(pri_of_lookup _ _ _ HF), <-(pri_of_lookup _ _ _ HW), !Epr. exact Hpf. }
  rewrite Hpri in Hend. destruct Hend as [Hrun Hok'].
  rewrite (players_rq _ f w sf sw cf cw xf xw s Hp Epr) in Hok'.
  assert (Hstk : forall x, p_stackptr <$> procs s' !! x = p_stackptr <$> procs s !! x).
  { intros x. pose proof (sp_stack _ _ Hstep x) as E. unfold stack_of in E. cbn [delivered with_chan upd_chan set_chans procs set_bytes] in E.
    destruct (procs s' !! x), (procs s !! x); simpl in *; congruence. }
  destruct (sched_step_chans _ _ Hstep) as (Ec & Em & _).
  exists s'. split_and!; try done.
  - destruct Hcw as [[n Hk] Hm Hnn]. split; [|by rewrite Em|done]. exists n. rewrite Ec. simpl.
    by rewrite lookup_alter_ne.
  - unfold holds_int. by rewrite Hb.
  - unfold holds_int. by rewrite Hb.
  - intros x. rewrite (sp_pri _ _ Hstep). apply Epr.
  - rewrite Hstk, HW. simpl. congruence.
  - rewrite Hstk, HF. simpl. congruence.
  - apply (ss_ctxs _ _ Hstep). exact Hctx.
  - rewrite (sched_step_sigmask _ _ Hstep). exact Hmk.
  - by rewrite (ss_rest _ _ Hstep).
Qed.

(** What a process does between reading and writing: its [int] is incremented
    and [txt] is printed. *)
Definition returns_ball (g : cprog unit) (x v : Z) (txt : list string) : Prop :=
  forall s, holds_int s x v -> exists mem, exec t g s (Done tt (set_stdout (stdout s ++ txt)%list (set_bytes mem s))) /\
    write_bytes (bytes s) x (int_bytes (v + 1)) = Some mem.

(** [w] writes: it waits in its turn, and [f] goes on. *)
Lemma net_write s f w sf sw cf cw xf xw v v0 mf kf kw m :
  players pr L f w sf sw cf cw xf xw -> sched_ok t s w [] (f :: L) ->
  (forall x, pri_of s x = pr x) -> chan_rep s cf Idle -> chan_rep s cw Idle ->
  holds_int s xw v -> holds_int s xf v0 ->
  p_stackptr <$> procs s !! w = Some sw -> p_stackptr <$> procs s !! f = Some sf ->
  uctxs (hw s) !! sf = Some Suspended -> sigmask (hw s) !! t = Some mk ->
  m_saved m !! sf = Some (mf, enable;; kf) ->
  exists s' mw, tsteps (running t (out cw xw 4;; kw) s m)
      (running t kf s' (with_saved sw mw (enable;; kw) m)) /\
    at_net t L mk w f sw sf cw cf xw xf v s' /\ (forall x, pri_of s' x = pr x) /\ stdout s' = stdout s.
Proof.
  intros Hp Hok Epr Hcf Hcw Hxw Hxf Hsw Hsf Hctx Hmk Hsv.
  pose proof Hp as [(Hfw & Hsfw & Hcfw) (Hf0 & Hw0 & _ & Hxw0) _ _ _ (HfL & HwL)].
  destruct (so_cpu _ _ _ _ _ Hok) as (W & q & Hcs). pose proof (cs_proc _ _ _ _ _ _ _ Hcs) as HW.
  rewrite HW in Hsw. simpl in Hsw. injection Hsw as HWs.
  destruct (procs s !! f) as [F|] eqn:HF; [|done]. simpl in Hsf. injection Hsf as HFs.
  destruct (meet_first user false t s w W [] (f :: L) q f F L cw xw 4 mf (enable;; kf) kw m Hcs
    (so_sorted _ _ _ _ _ Hok) eq_refl HF ltac:(congruence) Hcw Hxw0 ltac:(congruence) ltac:(congruence))
    as (s1 & mw & W1 & Hrun & Hok1 & Hcw1 & Hstep & _ & _ & HW1 & Hwait & Hctx1).
  destruct (sched_step_chans _ _ Hstep) as (Ec & Em & Eb).
  destruct (so_cpu _ _ _ _ _ Hok1) as (F1 & q1 & Hcs1).
  assert (HW0' : procs (deposited cw w (waits false w xw) s) !! w = Some (set_sched_state PROC_PREPARING_TO_WAIT W))
    by (simpl; by rewrite lookup_alter_eq, HW).
  assert (HF0 : procs (deposited cw w (waits false w xw) s) !! f = Some F)
    by (simpl; by rewrite lookup_alter_ne).
  pose proof (same_fields _ _ w _ _ Hstep HW0' HW1) as (_ & EW2 & EW3). simpl in EW2, EW3.
  pose proof (same_fields _ _ f _ _ Hstep HF0 (cs_proc _ _ _ _ _ _ _ Hcs1)) as (_ & _ & EF3).
  exists (masked t mk s1), mw. split_and!.
  - etransitivity; [rewrite HWs in Hrun; exact Hrun|]. apply enable_steps; [apply Hcs1|].
    by rewrite (sched_step_sigmask _ _ Hstep).
  - split.
    + by apply sched_ok_masked.
    + exists W1. split_and!; [exact HW1|exact Hwait|by rewrite EW2, (cs_pun _ _ _ _ _ _ _ Hcs)|congruence].
    + simpl. rewrite (cs_proc _ _ _ _ _ _ _ Hcs1). simpl. congruence.
    + rewrite HWs in Hctx1. exact Hctx1.
    + by apply (chan_rep_frame s1).
    + destruct Hcf as [[n Hk] Hm Hnn]. split; [|simpl; by rewrite Em|done]. exists n. simpl. rewrite Ec. simpl.
      by rewrite lookup_alter_ne.
    + unfold holds_int. simpl. by rewrite Eb.
    + exists v0. unfold holds_int. simpl. by rewrite Eb.
    + simpl. by rewrite (sched_step_sigmask _ _ Hstep).
  - intros x. change (pri_of (masked t mk s1) x) with (pri_of s1 x). rewrite (sp_pri _ _ Hstep).
    rewrite <-Epr. apply (pri_of_quiet _ (quiet_sched_state _) w (with_chan cw _ s)).
  - change (stdout (masked t mk s1)) with (stdout s1). by rewrite (ss_rest _ _ Hstep).
Qed.

(** One exchange. *)
Lemma volley s f w sf sw cf cw xf xw v txt mf kf kw g m :
  players pr L f w sf sw cf cw xf xw -> at_net t L mk f w sf sw cf cw xf xw v s ->
  (forall x, pri_of s x = pr x) -> m_saved m !! sf = Some (mf, enable;; kf) ->
  returns_ball g xw v txt ->
  exists s' mw, tsteps (running t (in_ cf xw 4;; g;; out cw xw 4;; kw) s m)
      (running t kf s' (with_saved sw mw (enable;; kw) m)) /\
    at_net t L mk w f sw sf cw cf xw xf (v + 1) s' /\ (forall x, pri_of s' x = pr x) /\
    stdout s' = (stdout s ++ txt)%list.
Proof.
  intros Hp Hn Epr Hsv Hg.
  destruct (net_read s f w sf sw cf cw xf xw v mf kf (g;; out cw xw 4;; kw) m Hp Hn Epr Hsv)
    as (s1 & Hrun1 & Hok1 & Hcf1 & Hcw1 & Hxw1 & Hxf1 & Epr1 & Hsw1 & Hsf1 & Hctx1 & Hmk1 & Eo1).
  destruct (Hg s1 Hxw1) as (mem & He & Hw). set (s2 := set_stdout _ _) in He.
  destruct (net_write s2 f w sf sw cf cw xf xw (v + 1) v mf kf kw m Hp) as (s3 & mw & Hrun3 & Hn3 & Epr3 & Eo3);
    try done.
  - by apply (sched_ok_frame t s1).
  - by apply (chan_rep_frame s1).
  - by apply (chan_rep_frame s1).
  - exact (write_bytes_read (bytes s1) xw (int_bytes (v + 1)) mem Hw).
  - unfold holds_int. rewrite <-Hxf1. apply (write_bytes_keeps _ _ _ _ _ _ Hw).
    pose proof (pl_objects _ _ _ _ _ _ _ _ _ _ Hp). rewrite length_int_bytes. unfold INT_SIZE. lia.
  - exists s3, mw. split_and!; [|done..|].
    + etransitivity; [exact Hrun1|]. etransitivity; [|exact Hrun3].
      exact (exec_done_steps user t g s1 tt s2 (fun _ => out cw xw 4;; kw) m He).
    + rewrite Eo3. unfold s2. simpl. by rewrite Eo1.
Qed.
End Volley.

(** ** The loops *)

(** One turn of a [while (true)] that reads, computes and writes. *)
Lemma forever_turn user t (p g q k : cprog unit) s m :
  tstep user t (running t (forever (p;; g;; q);; k) s m)
    (running t (p;; g;; q;; forever (p;; g;; q);; k) s m).
Proof.
  set (h := loop_k (fun _ : unit => (p;; g;; q);; ret (inl tt)) (fun b : unit => bind (Ret b) (fun _ => k))).
  assert (E : bind (bind (p;; g;; q) (fun _ => ret (inl tt))) h =
    (p;; g;; q;; forever (p;; g;; q);; k)) by by rewrite !bind_assoc.
  rewrite <-E. apply tstep_loop.
Qed.

Lemma seq_group {A} (p a b : cprog unit) (q : cprog A) : (p;; a;; b;; q) = (p;; (a;; b);; q).
Proof. f_equal. apply functional_extensionality. intros []. by rewrite bind_assoc. Qed.

(** The bodies of the loops of the two processes, with [x] the variable. *)
Definition body1 (x : addr) : cprog unit := in_ chan2 x 4;; increment x;; out chan1 x 4.
Definition body2 (x : addr) : cprog unit :=
  in_ chan1 x 4;; print_if x 100000 0 "x = " "";; increment x;; out chan2 x 4.

Lemma body2_grouped x :
  body2 x = (in_ chan1 x 4;; (print_if x 100000 0 "x = " "";; increment x);; out chan2 x 4).
Proof. apply seq_group. Qed.

Lemma returns_increment t x v :
  is_int v = true -> is_int (v + 1) = true -> returns_ball t (increment x) x v [].
Proof.
  intros Hv Hv1 s Hx. destruct (increment_done t x v s Hx Hv Hv1) as (mem & He & Hw & _).
  exists mem. split; [|exact Hw]. rewrite app_nil_r. exact He.
Qed.

Lemma returns_print_increment t x v m r b a :
  is_int v = true -> is_int (v + 1) = true ->
  returns_ball t (print_if x m r b a;; increment x) x v (printed v m r b a).
Proof.
  intros Hv Hv1 s Hx.
  destruct (increment_done t x v (set_stdout (stdout s ++ printed v m r b a)%list s) Hx Hv Hv1)
    as (mem & He & Hw & _).
  exists mem. split; [|exact Hw]. eapply exec_bind_done; [by apply print_if_done|exact He].
Qed.

Section Game.
Context (t : Z) (L : list addr) (mk : sigset) (pr : addr -> Z) (k1 k2 : cprog unit).
Context (p1 p2 s1 s2 x1 x2 : addr).
Hypothesis Hp : players pr L p1 p2 s1 s2 chan1 chan2 x1 x2.
Notation user := ring0arg2_user.
Notation mnexts := (rtc (mnext user)).

(** The second process is about to receive [v], the first waits to send it. *)
Record serving (v : Z) (so_far : list string) (m : machine) : Prop := {
  sv_net : at_net t L mk p1 p2 s1 s2 chan1 chan2 x1 x2 v (m_sys m);
  sv_pri : forall x, pri_of (m_sys m) x = pr x;
  sv_run : m_run m !! t = Some (forever (body2 x2);; k2);
  sv_saved : exists mf, m_saved m !! s1 = Some (mf, enable;; forever (body1 x1);; k1);
  sv_out : stdout (m_sys m) = so_far }.

Lemma running_self p m : m_run m !! t = Some p -> running t p (m_sys m) m = m.
Proof. intros Hr. unfold running. rewrite insert_id by done. by destruct m. Qed.

(** Both processes have had their turn. *)
Lemma round v so_far m :
  is_int v = true -> is_int (v + 2) = true -> serving v so_far m ->
  exists m', rtc (tstep user t) m m' /\ serving (v + 2) (so_far ++ printed v 100000 0 "x = " "")%list m'.
Proof.
  intros Hv Hv2 [Hn Hpr Hrun (mf & Hsv) Hout].
  assert (Hv1 : is_int (v + 1) = true).
  { unfold is_int in *. rewrite andb_true_iff, Z.leb_le, Z.ltb_lt in *. lia. }
  destruct (volley user t L mk pr (m_sys m) p1 p2 s1 s2 chan1 chan2 x1 x2 v
    (printed v 100000 0 "x = " "") mf (forever (body1 x1);; k1) (forever (body2 x2);; k2)
    (print_if x2 100000 0 "x = " "";; increment x2) m Hp Hn Hpr Hsv
    ltac:(by apply returns_print_increment)) as (sa & ma & Hra & Hna & Hpa & Hoa).
  destruct (volley user t L mk pr sa p2 p1 s2 s1 chan2 chan1 x2 x1 (v + 1) [] ma
    (forever (body2 x2);; k2) (forever (body1 x1);; k1) (increment x1)
    (with_saved s2 ma (enable;; forever (body2 x2);; k2) m) (players_swap _ _ _ _ _ _ _ _ _ _ Hp) Hna Hpa
    ltac:(apply lookup_insert_eq)
    ltac:(apply returns_increment; [done|by replace (v + 1 + 1) with (v + 2) by lia]))
    as (sb & mb & Hrb & Hnb & Hpb & Hob).
  replace (v + 1 + 1) with (v + 2) in Hnb by lia.
  pose proof (forever_turn user t (in_ chan1 x2 4) (print_if x2 100000 0 "x = " "";; increment x2)
    (out chan2 x2 4) k2 (m_sys m) m) as Hfirst.
  rewrite <-body2_grouped, (running_self _ _ Hrun) in Hfirst.
  exists (running t (forever (body2 x2);; k2) sb
    (with_saved s1 mb (enable;; forever (body1 x1);; k1) (with_saved s2 ma (enable;; forever (body2 x2);; k2) m))).
  split.
  - eapply rtc_l; [exact Hfirst|]. etransitivity; [exact Hra|].
    eapply rtc_l; [apply forever_turn|]. exact Hrb.
  - split.
    + exact Hnb.
    + exact Hpb.
    + apply lookup_insert_eq.
    + exists mb. apply lookup_insert_eq.
    + change (stdout sb = (so_far ++ printed v 100000 0 "x = " "")%list). by rewrite Hob, Hoa, Hout, app_nil_r.
Qed.

(** What [n] rounds from the value [v] print. *)
Definition rounds_printed (v : Z) (n : nat) : list string :=
  i ← seq 0 n; printed (v + 2 * Z.of_nat i) 100000 0 "x = " "".

Lemma rounds v so_far n m :
  is_int v = true -> is_int (v + 2 * Z.of_nat n) = true -> serving v so_far m ->
  exists m', rtc (tstep user t) m m' /\
    serving (v + 2 * Z.of_nat n) (so_far ++ rounds_printed v n)%list m'.
Proof.
  intros Hv. induction n as [|n IH]; intros Hvn Hm.
  - exists m. split; [done|]. replace (v + 2 * Z.of_nat 0) with v by lia. by rewrite app_nil_r.
  - assert (Hvn' : is_int (v + 2 * Z.of_nat n) = true).
    { unfold is_int in *. rewrite andb_true_iff, Z.leb_le, Z.ltb_lt in *. lia. }
    destruct (IH Hvn' Hm) as (m1 & Hm1 & Hs1).
    replace (v + 2 * Z.of_nat (S n)) with (v + 2 * Z.of_nat n + 2) in * by lia.
    destruct (round _ _ _ Hvn' Hvn Hs1) as (m2 & Hm2 & Hs2).
    exists m2. split; [by etransitivity|]. unfold rounds_printed.
    rewrite seq_S, bind_app. cbn [mbind list_bind]. by rewrite app_nil_r, app_assoc.
Qed.
End Game.

(** ** From power on *)

(** The machine when the second child is about to receive for the first time. *)
Definition serve_turns : nat := 744.
Definition served : machine :=
  match run_all ring0arg2_user serve_turns (powered 0 ring0arg2_main) with
  | Next m => m
  | _ => powered 0 ring0arg2_main
  end.

Definition ring_p1 : addr := 0x107800.
Definition ring_p2 : addr := 0x108000.
Definition ring_x1 : addr := ring_p1 + sizeof_Process.
Definition ring_x2 : addr := ring_p2 + sizeof_Process.
Definition ring_idler : addr := 0x102800.
Definition ring_pri (x : addr) : Z := pri_of (m_sys served) x.
Definition ring_mask : sigset := default sigemptyset (sigmask (hw (m_sys served)) !! 0).

(** What a child does after its function: [run_in_par]. *)
Definition after_child : cprog unit := par_barr_sync par_frame;; terminate.
Definition ring_banner : list string :=
  [line "ring0arg2: two process ping pong, no process args"; line "child1"; line "child2"].

Lemma served_runs : rtc (mnext ring0arg2_user) (powered 0 ring0arg2_main) served.
Proof.
  apply (run_all_next ring0arg2_user serve_turns). unfold served.
  destruct (run_all ring0arg2_user serve_turns (powered 0 ring0arg2_main)) as [m|w| |] eqn:E; [done|exfalso..].
  all: assert (H : match run_all ring0arg2_user serve_turns (powered 0 ring0arg2_main) with
                   | Next _ => true | _ => false end = true) by (vm_compute; reflexivity); by rewrite E in H.
Qed.

Lemma ring_players :
  players ring_pri [ring_idler] ring_p1 ring_p2 ring_p1 ring_p2 chan1 chan2 ring_x1 ring_x2.
Proof.
  split.
  - done.
  - done.
  - split; by vm_compute.
  - split; by vm_compute.
  - left. by vm_compute.
  - split; concrete_nodup.
Qed.

Lemma served_sched : sched_ok 0 (m_sys served) ring_p2 [] [ring_idler].
Proof.
  split; [|repeat constructor|].
  - eexists _, (default empty_ipq (ipQues (m_sys served) !! 0)).
    split; [|by vm_compute|by vm_compute|by vm_compute|done|concrete_nodup].
    split; [by vm_compute|by vm_compute| | |constructor|concrete_nodup].
    + exact empty_ipq_rep.
    + split; [by vm_compute|concrete_linked|concrete_forall].
  - constructor; [by vm_compute|constructor].
Qed.

Lemma served_serving :
  serving 0 [ring_idler] ring_mask ring_pri after_child after_child
    ring_p1 ring_p2 ring_p1 ring_p2 ring_x1 ring_x2 0 ring_banner served.
Proof.
  split.
  - split.
    + exact served_sched.
    + eexists. split; [by vm_compute|by vm_compute].
    + by vm_compute.
    + by vm_compute.
    + split; [exists 0; by vm_compute|by vm_compute|done].
    + split; [exists 0; by vm_compute|by vm_compute|done].
    + by vm_compute.
    + exists 0. by vm_compute.
    + by vm_compute.
  - exact (fun x => eq_refl).
  - reflexivity.
  - exists sigfillset. transitivity (Some (sigfillset, ((enable;; forever (body1 ring_x1));; after_child))).
    + reflexivity.
    + by rewrite bind_assoc.
  - by vm_compute.
Qed.

(** A variable that cannot be incremented. *)
Lemma increment_overflows c x v s :
  holds_int s x v -> is_int v = true -> is_int (v + 1) = false -> exec c (increment x) s Faulted.
Proof.
  intros Hx Hv Hv1. unfold increment. eapply exec_load_int; [exact Hx|exact Hv|].
  exists 1%nat. simpl. by rewrite Hv1.
Qed.

(** The last exchange. *)
Lemma last_round t L mk pr k1 k2 p1 p2 s1 s2 x1 x2 v so_far m :
  players pr L p1 p2 s1 s2 chan1 chan2 x1 x2 ->
  is_int v = true -> is_int (v + 1) = true -> is_int (v + 1 + 1) = false ->
  serving t L mk pr k1 k2 p1 p2 s1 s2 x1 x2 v so_far m ->
  exists m', rtc (tstep ring0arg2_user t) m m' /\ thread_step ring0arg2_user t m' = Crashed.
Proof.
  intros Hp Hv Hv1 Hv2 [Hn Hpr Hrun (mf & Hsv) _].
  destruct (volley ring0arg2_user t L mk pr (m_sys m) p1 p2 s1 s2 chan1 chan2 x1 x2 v
    (printed v 100000 0 "x = " "") mf (forever (body1 x1);; k1) (forever (body2 x2);; k2)
    (print_if x2 100000 0 "x = " "";; increment x2) m Hp Hn Hpr Hsv
    ltac:(by apply returns_print_increment)) as (sa & ma & Hra & Hna & Hpa & _).
  pose proof (forever_turn ring0arg2_user t (in_ chan1 x2 4) (print_if x2 100000 0 "x = " "";; increment x2)
    (out chan2 x2 4) k2 (m_sys m) m) as Hfirst.
  rewrite <-body2_grouped, (running_self t _ _ Hrun) in Hfirst.
  set (ms := with_saved s2 ma (enable;; forever (body2 x2);; k2) m) in *.
  destruct (net_read ring0arg2_user t L mk pr sa p2 p1 s2 s1 chan2 chan1 x2 x1 (v + 1) ma
    (forever (body2 x2);; k2) (increment x1;; out chan1 x1 4;; forever (body1 x1);; k1) ms
    (players_swap _ _ _ _ _ _ _ _ _ _ Hp) Hna Hpa ltac:(apply lookup_insert_eq))
    as (sb & Hrb & _ & _ & _ & Hx & _).
  destruct (exec_steps ring0arg2_user t (increment x1) sb Faulted
    (fun _ => out chan1 x1 4;; forever (body1 x1);; k1) ms (increment_overflows t _ _ _ Hx Hv1 Hv2))
    as (m' & Hm' & Hcrash).
  exists m'. split; [|exact Hcrash].
  eapply rtc_l; [exact Hfirst|]. etransitivity; [exact Hra|].
  eapply rtc_l; [apply forever_turn|]. etransitivity; [exact Hrb|exact Hm'].
Qed.

(** C2: ring0arg2.c, from power on.  The machine gets from [main] to the [n]-th
    exchange for every [n] whose values are [int]s: the first child waits in
    [chan1] to send [2n], the second runs and is about to receive it, the
    scheduler's invariant holds, and the output is what the code is meant to
    print, the even values that 100000 divides. *)
Theorem ping_pong n :
  2 * Z.of_nat n < 2 ^ 31 ->
  exists m, rtc (mnext ring0arg2_user) (powered 0 ring0arg2_main) m /\
    m_run m !! 0 = Some (forever (body2 ring_x2);; after_child) /\
    chan_rep (m_sys m) chan1 (Writing ring_p1 ring_x1) /\ chan_rep (m_sys m) chan2 Idle /\
    holds_int (m_sys m) ring_x1 (2 * Z.of_nat n) /\
    sched_ok 0 (m_sys m) ring_p2 [] [ring_idler] /\
    stdout (m_sys m) = (ring_banner ++ rounds_printed 0 n)%list.
Proof.
  intros Hn.
  destruct (rounds 0 [ring_idler] ring_mask ring_pri after_child after_child _ _ _ _ _ _ ring_players
    0 ring_banner n served eq_refl) as (m & Hm & [Hnet _ Hrun _ Hout]).
  - unfold is_int. rewrite andb_true_iff, Z.leb_le, Z.ltb_lt. lia.
  - exact served_serving.
  - exists m. split_and!; [|exact Hrun|apply Hnet..|exact Hout].
    etransitivity; [apply served_runs|by apply (tsteps_mnext ring0arg2_user 0)].
Qed.

(** ring0arg2.c does not run for ever: the [int] that goes back and forth
    is incremented beyond the largest [int], which is undefined behaviour. *)
Theorem ping_pong_overflows :
  exists m, rtc (mnext ring0arg2_user) (powered 0 ring0arg2_main) m /\ mstep ring0arg2_user m Crashed.
Proof.
  assert (Hn : exists n, 2 * Z.of_nat n = 2 ^ 31 - 2).
  { exists (Z.to_nat (2 ^ 30 - 1)). rewrite Z2Nat.id; lia. }
  destruct Hn as (n & Hn).
  destruct (rounds 0 [ring_idler] ring_mask ring_pri after_child after_child _ _ _ _ _ _ ring_players
    0 ring_banner n served eq_refl) as (m & Hm & Hs); [by rewrite Hn|exact served_serving|].
  rewrite Hn in Hs.
  destruct (last_round _ _ _ _ _ _ _ _ _ _ _ _ (2 ^ 31 - 2) _ m ring_players eq_refl eq_refl eq_refl Hs)
    as (m' & Hm' & Hc).
  exists m'. split.
  - etransitivity; [apply served_runs|]. apply (tsteps_mnext ring0arg2_user 0). by etransitivity.
  - by eapply step_thread.
Qed.

(** At the start, and after one exchange. *)
Lemma ping_pong_witness :
  exists m, rtc (mnext ring0arg2_user) (powered 0 ring0arg2_main) m /\
    stdout (m_sys m) = (ring_banner ++ [line "x = 0"])%list /\ holds_int (m_sys m) ring_x1 2.
Proof.
  destruct (ping_pong 1 ltac:(lia)) as (m & Hm & _ & _ & _ & Hx & _ & Hout).
  exists m. split; [exact Hm|]. split; [exact Hout|exact Hx].
Defined.
