(* ===== verification/Runs.v ===== *)
(** * Runs: the sample applications from power on to the end

    Whole runs of the machine of [Machine] with both processors, from [main]
    until [main] returns: what the applications print, and what becomes of the
    time on the second processor. *)

From S2P Require Import Prelude Prog State Fixture Linked Hardware Exec Priority Ipq.
From S2P Require Import Sched ReadyQueue Dispatch Timer TimerQueue Boot Libc Clients Machine Meeting Remote Start.

#[local] Open Scope prog_scope.
#[local] Open Scope string_scope.
#[local] Open Scope Z_scope.

(** ** Running to the end *)

Section Run.
Context (user : code_p -> addr -> cprog unit).

(** Both threads in turn, then [d] nanoseconds pass (if no timer expires
    sooner), until the program ends: the machine before its last step, and how
    it ends. *)
Fixpoint run_out (n : nat) (d : Z) (m : machine) : option (machine * string) :=
  match n with
  | O => None
  | S n =>
      match turn user 0 m with
      | Halted w => Some (m, w)
      | Crashed => None
      | r0 =>
        let m0 := match r0 with Next m' => m' | _ => m end in
        match turn user 1 m0 with
        | Halted w => Some (m0, w)
        | Crashed => None
        | r1 =>
          let m1 := match r1 with Next m' => m' | _ => m0 end in
          run_out n d (match pass_time d m1 with Next m2 => m2 | _ => m1 end)
        end
      end
  end.

Lemma turn_halted t m w : turn user t m = Halted w -> mstep user m (Halted w).
Proof.
  unfold turn. intros Ht.
  assert (Hd : forall w', deliver t m <> Halted w').
  { intros w'. unfold deliver. destruct (deliverable t m) as [[g l]|]; [|done]. by destruct (m_run m !! t). }
  assert (Hs : forall w', start_thread t m <> Halted w').
  { intros w'. unfold start_thread. destruct (pending (hw (m_sys m)) !! t); [|done]. by destruct (m_run m !! t). }
  specialize (Hd w). specialize (Hs w).
  destruct (deliver t m) as [m1|w1| |]; try done.
  all: destruct (start_thread t m) as [m2|w2| |]; try done.
  all: by eapply step_thread.
Qed.

Lemma run_out_spec n d : forall m m' w,
  run_out n d m = Some (m', w) -> rtc (mnext user) m m' /\ mstep user m' (Halted w).
Proof.
  induction n as [|n IH]; intros m m' w Hr; [done|]. cbn [run_out] in Hr.
  assert (Hlate : forall m1, rtc (mnext user) m m1 ->
    run_out n d (match pass_time d m1 with Next m2 => m2 | _ => m1 end) = Some (m', w) ->
    rtc (mnext user) m m' /\ mstep user m' (Halted w)).
  { intros m1 Hm1 H1. destruct (IH _ _ _ H1) as [Hm' Hw]. split; [|exact Hw].
    etransitivity; [exact Hm1|]. destruct (pass_time d m1) as [m2|w2| |] eqn:E2; [|exact Hm'..].
    eapply rtc_l; [by eapply step_time|exact Hm']. }
  assert (Hsecond : forall m0, rtc (mnext user) m m0 ->
    match turn user 1 m0 with
    | Halted w => Some (m0, w)
    | Crashed => None
    | r1 =>
      let m1 := match r1 with Next m' => m' | _ => m0 end in
      run_out n d (match pass_time d m1 with Next m2 => m2 | _ => m1 end)
    end = Some (m', w) -> rtc (mnext user) m m' /\ mstep user m' (Halted w)).
  { intros m0 Hm0. cbv zeta. destruct (turn user 1 m0) as [m1|w1| |] eqn:E1; intros H1; simplify_eq.
    - apply (Hlate m1); [|exact H1]. eapply rtc_r; [exact Hm0|by eapply turn_next].
    - split; [done|by eapply turn_halted].
    - by apply (Hlate m0). }
  destruct (turn user 0 m) as [m0|w0| |] eqn:E0; simplify_eq.
  - apply (Hsecond m0); [|exact Hr]. apply rtc_once. by eapply turn_next.
  - split; [done|by eapply turn_halted].
  - by apply (Hsecond m).
Qed.
End Run.

(** A run of [main] that ends with [how] and has printed [what]. *)
Definition runs (user : code_p -> addr -> cprog unit) (tid : Z) (main : cprog unit) (how : string)
    (what : list string) : Prop :=
  exists m, rtc (mnext user) (powered tid main) m /\ mstep user m (Halted how) /\ stdout (m_sys m) = what.

Lemma runs_check user n d tid main how what :
  (fun mw => (stdout (m_sys mw.1), mw.2)) <$> run_out user n d (powered tid main) = Some (what, how) ->
  runs user tid main how what.
Proof.
  destruct (run_out user n d (powered tid main)) as [[m w]|] eqn:E; [|done]. intros [= Ho ->].
  destruct (run_out_spec user n d _ _ _ E). by exists m.
Qed.

(** ** What the applications print *)

(** [n] times the two lines *)
Definition alternately (n : nat) (a b : string) : list string := concat (replicate n [line a; line b]).



(** ** The clock at a tick *)

(** Every timer that runs has at least [d] nanoseconds to go. *)
Definition next_expiry (d : Z) (h : hardware) : Prop :=
  forall i p, ptimers h !! i = Some p -> pt_value p = 0 \/ d <= pt_value p.

Lemma pass_time_next user d m :
  0 <= d -> next_expiry d (hw (m_sys m)) ->
  exists m', pass_time d m = Next m' /\ currentTime (m_sys m') = currentTime (m_sys m) /\
    cpu_key (hw (m_sys m')) = cpu_key (hw (m_sys m)) /\ timer (hw (m_sys m')) = timer (hw (m_sys m)) /\
    ptimers (hw (m_sys m')) = (fun p => (tick_timer d p).1) <$> ptimers (hw (m_sys m)) /\ mnext user m m'.
Proof.
  intros Hd Hn.
  assert (Hall : forallb (fun ip : Z * ptimer => (pt_value ip.2 =? 0) || (d <=? pt_value ip.2))
      (map_to_list (ptimers (hw (m_sys m)))) = true).
  { apply forallb_forall. intros [i p] Hip. apply list_elem_of_In, elem_of_map_to_list in Hip. simpl.
    apply orb_true_iff. rewrite Z.eqb_eq, Z.leb_le. by apply (Hn i). }
  assert (Hp : exists m', pass_time d m = Next m' /\ currentTime (m_sys m') = currentTime (m_sys m) /\
    cpu_key (hw (m_sys m')) = cpu_key (hw (m_sys m)) /\ timer (hw (m_sys m')) = timer (hw (m_sys m)) /\
    ptimers (hw (m_sys m')) = (fun p => (tick_timer d p).1) <$> ptimers (hw (m_sys m))).
  { unfold pass_time. rewrite Hall. destruct (Z.ltb_spec d 0); [lia|]. cbn [orb negb].
    eexists. split; [reflexivity|]. by split_and!. }
  destruct Hp as (m' & Hp & H). exists m'. split; [exact Hp|].
  destruct H as (? & ? & ? & ?). split_and!; try done. by eapply step_time.
Qed.

(** C36: the clock goes backwards.  When the second that the elapsed-time timer
    counts is over, the timer starts again at once, but the second is counted
    only when the interrupt's handler has run.  In between - another processor
    reads the time, or interrupts are disabled - [GetCurrentTime] returns the
    time a second earlier, although it has read [currentTime] twice and found no
    change; after the handler it is right again. *)
Theorem clock_goes_back user c m id g v :
  let s := m_sys m in
  on_cpu c s -> timer (hw s) !! (c, TIMER_ELAPSED) = Some id ->
  ptimers (hw s) !! id = Some (mkTimer g v Tick) -> 0 < v < Tick -> next_expiry v (hw s) ->
  0 <= currentTime s -> currentTime s + 2 * Tick < 2 ^ 63 ->
  let now := currentTime s + (Tick - v) in
  exec c GetCurrentTime s (Done now s) /\
  exists m', mnext user m m' /\ let s' := m_sys m' in
    exec c GetCurrentTime s' (Done (now + v - Tick) s') /\ now + v - Tick < now /\
    exec c (handle_elapsed_time_interrupt;; GetCurrentTime) s'
      (Done (now + v) (set_currentTime (currentTime s + Tick) s')).
Proof.
  intros s Hc Hid Hp Hv Hn H0 Hmax now.
  assert (Hget : forall s1 t1, on_cpu c s1 -> clock c s1 t1 -> exec c GetCurrentTime s1 (Done t1 s1)).
  { intros s1 t1 Hc1 Hk. rewrite <-(bind_ret_r GetCurrentTime).
    eapply exec_GetCurrentTime; [exact Hc1|exact Hk|apply exec_ret]. }
  destruct (pass_time_next user v m ltac:(lia) Hn) as (m' & _ & Et & Ec & Ei & Ep & Hm').
  assert (Hp' : ptimers (hw (m_sys m')) !! id = Some (mkTimer g Tick Tick)).
  { rewrite Ep, lookup_fmap. fold s. rewrite Hp. simpl. unfold tick_timer. simpl.
    destruct (Z.eqb_spec v 0); [lia|]. by rewrite Z.ltb_irrefl. }
  assert (Hc' : on_cpu c (m_sys m')) by (unfold on_cpu; by rewrite Ec).
  split; [|exists m'; cbv zeta; split_and!; [exact Hm'| |unfold now; lia|]].
  - apply Hget; [exact Hc|]. split; [|unfold now; lia]. exists id, (mkTimer g v Tick). simpl.
    split_and!; [done|done|lia|lia|done].
  - apply Hget; [exact Hc'|]. unfold now. split; [|fold s in Et; lia].
    exists id, (mkTimer g Tick Tick). simpl. rewrite Ei, Et. unfold Tick. fold s.
    split_and!; [done|exact Hp'|lia|lia|unfold Tick in *; lia].
  - eapply exec_bind_done.
    + unfold handle_elapsed_time_interrupt. rewrite <-(bind_ret_r (modify _)). apply exec_modify, exec_ret.
    + rewrite Et. fold s. rewrite (int64_small (currentTime s + Tick)) by (unfold Tick in *; lia).
      apply Hget; [exact Hc'|]. unfold now. split; [|simpl; lia].
      exists id, (mkTimer g Tick Tick). simpl. rewrite Ei.
      split_and!; [done|exact Hp'|unfold Tick; lia|unfold Tick; lia|lia].
Qed.

(** The sample state, 600 nanoseconds before the second is over. *)
Lemma clock_goes_back_witness :
  exists m', mnext (fun _ _ => ret tt) (mkMachine sample ∅ ∅) m' /\
    exec 0 GetCurrentTime sample (Done 999999400 sample) /\
    exec 0 GetCurrentTime (m_sys m') (Done 0 (m_sys m')).
Proof.
  destruct (clock_goes_back (fun _ _ => ret tt) 0 (mkMachine sample ∅ ∅) 0 41 600) as (H1 & m' & H2 & H3 & _).
  - by vm_compute.
  - by vm_compute.
  - by vm_compute.
  - by vm_compute.
  - assert (Hd : map_Forall (fun _ p => pt_value p = 0 \/ 600 <= pt_value p) (ptimers (hw sample)))
      by (apply (bool_decide_unpack _); by vm_compute).
    exact Hd.
  - done.
  - by vm_compute.
  - exists m'. split; [exact H2|]. split; [exact H1|exact H3].
Defined.
