(* ===== verification/Types.v ===== *)
(** * Types: the data is always well formed

    Arrays keep their bounds, fields their widths and ranges, enumerations their
    values, unions their tags.  [typed] says so of a state; a program is [ok]
    when each of its actions, run by any processor in any typed state, leaves a
    typed state, whatever happens between its actions.  All programs of the
    executive are. *)

From S2P Require Import Prelude Prog State Hardware Ipq Memory Timer.

#[local] Open Scope prog_scope.

(** ** Well-formed data *)

(** [m] has the indices of an array of length [n]. *)
Definition array {V} (n : Z) (m : gmap Z V) : Prop := forall i, is_Some (m !! i) <-> 0 <= i < n.
Definition array2 {V} (n k : Z) (m : gmap (Z * Z) V) : Prop :=
  forall i j, is_Some (m !! (i, j)) <-> 0 <= i < n /\ 0 <= j < k.

Definition is_uint16 (z : Z) : Prop := 0 <= z < 2 ^ 16.
Definition is_uint32 (z : Z) : Prop := 0 <= z < 2 ^ 32.
Definition is_int32 (z : Z) : Prop := - 2 ^ 31 <= z < 2 ^ 31.
Definition is_int64 (z : Z) : Prop := - 2 ^ 63 <= z < 2 ^ 63.

Record proc_ok (P : Process) : Prop := {
  py_index : 0 <= p_index P < 21;
  py_pri : is_uint16 (p_pri P);
  py_pun : is_uint16 (p_pun P);
  py_alt : p_alt_state P ∈ [ALT_NONE; ALT_ENABLING; ALT_WAITING; ALT_READY];
  py_sched : p_sched_state P ∈ [PROC_READY; PROC_PREPARING_TO_WAIT; PROC_WAITING] }.

Record queue_ok (q : IPQueue) : Prop := {
  qy_add : 0 <= nextAdd q < QSIZE;
  qy_rem : 0 <= nextRem q < QSIZE;
  qy_que : array QSIZE (que q) }.

(** The tag of a guard says what its union holds. *)
Definition guard_ok (g : Guard) : Prop :=
  (g_type g = GUARD_CHAN /\ exists ch, g_union g = UChannel ch) \/ g_type g = GUARD_SKIP \/
  (g_type g = GUARD_TIMER /\ exists t, g_union g = UTime t) \/
  (g_type g = GUARD_INTERRUPT /\ exists i, g_union g = UInterrupt i).

Record hw_ok (h : hardware) : Prop := {
  hy_cpu : map_Forall (fun _ v => 0 < v <= NPUN) (cpu_key h);
  hy_sigmask : array NPUN (sigmask h);
  hy_signo : is_int32 (next_signo h) /\ is_int32 (SIGBASE h) /\ is_int32 (sigrtmin h);
  hy_barrier : is_int32 (barrier h);
  hy_desc : array (NPUN * NINTR) (intr_desc h) /\
    map_Forall (fun _ d => is_uint16 (id_pun d) /\ is_uint16 (id_intr d)) (intr_desc h);
  hy_signal_no : array2 NPUN NINTR (signal_no h);
  hy_thread : array NPUN (thread_id h);
  hy_timer : array2 NPUN 2 (timer h);
  hy_arg : array NPUN (procArg h) /\ map_Forall (fun _ a => 0 <= a.1 < NPUN) (procArg h);
  hy_base : is_uint32 (heap_base h) }.

Record typed (s : sys) : Prop := {
  ty_hw : hw_ok (hw s);
  ty_procs : map_Forall (fun _ => proc_ok) (procs s);
  ty_current : array NPUN (current s) /\ array NPUN (current_pri s);
  ty_rdy : array NPUN (rdyQues s);
  ty_ipq : array NPUN (ipQues s) /\ map_Forall (fun _ => queue_ok) (ipQues s);
  ty_lists : array NALLOC (procmemlist s);
  ty_tail : is_uint32 (tail s) /\ is_uint32 (taillen s);
  ty_time : is_int64 (currentTime s);
  ty_tque : array NPUN (timeQue s);
  ty_tmo : map_Forall (fun _ D => td_type D ∈ [TMO_AFTER; TMO_ALTING]) (timeouts s);
  ty_guards : map_Forall (fun _ => Forall guard_ok) (guards s);
  ty_alts : map_Forall (fun _ A => is_uint16 (a_favorite A) /\ is_uint16 (a_nrGuards A)) (alts s);
  ty_bars : map_Forall (fun _ b => is_int32 (pb_children b)) (bars s);
  ty_intr : array2 NPUN NINTR (interrupts s) }.

Lemma array_insert {V} (n : Z) (m : gmap Z V) i v : array n m -> 0 <= i < n -> array n (<[i := v]> m).
Proof.
  intros Hm Hi j. rewrite lookup_insert. case_decide as E; [subst|apply Hm].
  split; [done|intros _; by eexists].
Qed.
Lemma array_set_some {V} (n : Z) (m : gmap Z V) i v w : array n m -> m !! i = Some w -> array n (<[i := v]> m).
Proof. intros Hm Hw. apply array_insert; [done|]. apply Hm. by eexists. Qed.
Lemma array_alter {V} (n : Z) (m : gmap Z V) i f : array n m -> array n (alter f i m).
Proof. intros Hm j. rewrite <-(Hm j), lookup_alter. case_decide; subst; by rewrite ?fmap_is_Some. Qed.
Lemma array2_insert {V} (n k : Z) (m : gmap (Z * Z) V) i j v :
  array2 n k m -> 0 <= i < n -> 0 <= j < k -> array2 n k (<[(i, j) := v]> m).
Proof.
  intros Hm Hi Hj i' j'. rewrite lookup_insert. case_decide as E; [|apply Hm].
  injection E as <- <-. split; [done|intros _; by eexists].
Qed.
Lemma array2_set_some {V} (n k : Z) (m : gmap (Z * Z) V) ij v w :
  array2 n k m -> m !! ij = Some w -> array2 n k (<[ij := v]> m).
Proof. destruct ij as [i j]. intros Hm Hw. apply array2_insert; [done|..]; apply (Hm i j); by eexists. Qed.
Lemma map_Forall_alter {K V} `{Countable K} (P : K -> V -> Prop) (m : gmap K V) i f :
  (forall v, P i v -> P i (f v)) -> map_Forall P m -> map_Forall P (alter f i m).
Proof.
  intros Hf Hm j v. rewrite lookup_alter. case_decide as E; [subst|apply Hm].
  destruct (m !! j) as [w|] eqn:Ej; simpl; [|done]. intros [= <-]. by apply Hf, Hm.
Qed.
(** Freshly zeroed arrays. *)
Lemma zeros_lookup {V} n (v : V) i w : zeros n v !! i = Some w <-> w = v /\ 0 <= i < Z.of_nat n.
Proof.
  unfold zeros. rewrite <-elem_of_list_to_map; [|rewrite <-list_fmap_compose; apply NoDup_fmap_2;
    [intros x y; simpl; lia|apply NoDup_seq]].
  rewrite list_elem_of_fmap. setoid_rewrite elem_of_seq. split.
  - intros (j & [= -> ->] & Hj). split; [done|lia].
  - intros [-> Hi]. exists (Z.to_nat i). rewrite Z2Nat.id by lia. split; [done|lia].
Qed.
Lemma array_zeros {V} n (v : V) : array (Z.of_nat n) (zeros n v).
Proof.
  intros i. split; [intros [w Hw]; by apply zeros_lookup in Hw as []|].
  intros Hi. exists v. by apply zeros_lookup.
Qed.
Lemma Forall_zeros {V} (P : V -> Prop) n v : P v -> map_Forall (fun _ => P) (zeros n v).
Proof. intros Hv i w Hw. by apply zeros_lookup in Hw as [-> _]. Qed.
Lemma array2_check {V} (n k : nat) (m : gmap (Z * Z) V) :
  dom m = list_to_set (i ← seq 0 n; (fun j => (Z.of_nat i, Z.of_nat j)) <$> seq 0 k) ->
  array2 (Z.of_nat n) (Z.of_nat k) m.
Proof.
  intros Hd i j. rewrite <-elem_of_dom, Hd, elem_of_list_to_set, list_elem_of_bind.
  setoid_rewrite list_elem_of_fmap. setoid_rewrite elem_of_seq. split.
  - intros (a & (b & [= -> ->] & Hb) & Ha). lia.
  - intros [Hi Hj]. exists (Z.to_nat i). split; [|lia]. exists (Z.to_nat j). rewrite !Z2Nat.id by lia. split; [done|lia].
Qed.

Lemma uint16_ok z : is_uint16 (uint16 z).
Proof. by apply Z.mod_pos_bound. Qed.
Lemma uint32_ok z : is_uint32 (uint32 z).
Proof. by apply Z.mod_pos_bound. Qed.
Lemma int32_ok z : is_int32 (int32 z).
Proof. unfold int32, wrapS, is_int32. pose proof (Z.mod_pos_bound (z + 2 ^ (32 - 1)) (2 ^ 32)). lia. Qed.
Lemma int64_ok z : is_int64 (int64 z).
Proof. unfold int64, wrapS, is_int64. pose proof (Z.mod_pos_bound (z + 2 ^ (64 - 1)) (2 ^ 64)). lia. Qed.

(** ** Programs that keep the data well formed

    [ok p Q]: each action of [p], run by any thread in any typed state, leaves a
    typed state, and a result of [p] satisfies [Q]; a loop does by an invariant
    of its variables. *)

Fixpoint ok {A} (p : cprog A) (Q : A -> Prop) {struct p} : Prop :=
  match p with
  | Ret a => Q a
  | Act f k => forall t s, typed s ->
      match f t s with Ok b s' => typed s' /\ ok (k b) Q | _ => True end
  | @Loop _ _ X B body x k => exists (J : X -> Prop) (R : B -> Prop), J x /\
      (forall x, J x -> ok (body x) (fun r => match r with inl x' => J x' | inr b => R b end)) /\
      (forall b, R b -> ok (k b) Q)
  | Switch _ _ k => ok k Q
  | Resume _ => True
  | SaveCtx _ ctx k => ok ctx (fun _ => True) /\ ok k Q
  end.
Abbreviation okT p := (ok p (fun _ => True)).

Lemma ok_bind {A B} (p : cprog A) (g : A -> cprog B) R Q :
  ok p R -> (forall a, R a -> ok (g a) Q) -> ok (bind p g) Q.
Proof.
  intros Hp Hg. induction p as [A a|A C f k IH|A X C body _ x k IH|A o n k IH|A n|A q ctx _ k IH]; cbn [bind ok] in *.
  - by apply Hg.
  - intros t s Hs. specialize (Hp t s Hs). destruct (f t s); [|done..]. destruct Hp. split; [done|]. by eapply IH.
  - destruct Hp as (J & S & HJ & Hb & Hk). exists J, S. split_and!; [done..|]. intros b Hb'. by eapply IH; [apply Hk|].
  - by eapply IH.
  - done.
  - destruct Hp as [Hc Hk]. split; [done|]. by eapply IH.
Qed.

Lemma ok_weaken {A} (p : cprog A) (Q Q' : A -> Prop) : ok p Q -> (forall a, Q a -> Q' a) -> ok p Q'.
Proof.
  intros H HQ. rewrite <-(bind_ret_r p). eapply ok_bind; [exact H|]. intros a Ha. by apply HQ.
Qed.
Lemma ok_T {A} (p : cprog A) Q : ok p Q -> okT p.
Proof. intros H. by eapply ok_weaken. Qed.
Lemma ok_loop {X B} (J : X -> Prop) (R : B -> Prop) (body : X -> cprog (X + B)) x :
  J x -> (forall x, J x -> ok (body x) (fun r => match r with inl x' => J x' | inr b => R b end)) ->
  ok (loop body x) R.
Proof. intros HJ Hb. by exists J, R. Qed.
Lemma ok_loop_T {X B} (body : X -> cprog (X + B)) x : (forall x, okT (body x)) -> okT (loop body x).
Proof.
  intros Hb. apply (ok_loop (fun _ => True)); [done|]. intros x' _. eapply ok_weaken; [apply Hb|]. by intros [].
Qed.
(** A loop that counts. *)
Lemma ok_count n (body : Z -> cprog (Z + unit)) i0 : 0 <= i0 ->
  (forall i, 0 <= i < n -> ok (body i) (fun r => match r with inl j => 0 <= j | inr _ => True end)) ->
  okT (loop (fun i => if i <? n then body i else ret (inr tt)) i0).
Proof.
  intros H0 Hb. apply (ok_loop (fun i => 0 <= i)); [done|]. intros i Hi.
  destruct (i <? n) eqn:E; [|done]. eapply ok_weaken; [apply Hb; lia|]. by intros [].
Qed.

(** A single action, and what its value satisfies. *)
Lemma ok_fetch {B} (f : sys -> option B) : ok (fetch f) (fun b => exists s, typed s /\ f s = Some b).
Proof. intros t s Hs. destruct (f s) as [b|] eqn:E; [|done]. split; [done|]. by exists s. Qed.
Lemma ok_modify f : (forall s, typed s -> typed (f s)) -> okT (modify f).
Proof. intros Hf t s Hs. split; [auto|done]. Qed.
Lemma ok_store f : (forall s s', typed s -> f s = Some s' -> typed s') -> okT (store f).
Proof. intros Hf t s Hs. destruct (f s) as [s'|] eqn:E; [|done]. split; [by eapply Hf|done]. Qed.
Lemma ok_act {B} (f : Z -> sys -> res sys B) (Q : B -> Prop) :
  (forall t s b s', typed s -> f t s = Ok b s' -> typed s' /\ Q b) -> ok (act f) Q.
Proof. intros Hf t s Hs. destruct (f t s) as [b s'| |] eqn:E; [|done..]. by eapply Hf. Qed.

Lemma ok_ret {A} (a : A) (Q : A -> Prop) : Q a -> ok (ret a) Q.
Proof. done. Qed.
Lemma ok_fault {A} Q : ok (act (fun _ _ => Fault) : cprog A) Q.
Proof. by intros t s. Qed.
Lemma ok_plotz {A} w Q : ok (plotz w : cprog A) Q.
Proof. by intros t s. Qed.

(** [ok] also names the hint database: the programs already shown [ok]. *)
Create HintDb ok.
#[export] Hint Resolve array_insert array_set_some array_alter array2_insert array2_set_some
  uint16_ok uint32_ok int32_ok int64_ok : ok.
#[export] Hint Resolve ok_fetch ok_plotz ok_fault : ok.
#[export] Hint Extern 1 (map_Forall _ ∅) => apply map_Forall_empty : ok.
#[export] Hint Extern 1 (map_Forall _ (<[_:=_]> _)) => apply map_Forall_insert_2; simpl : ok.
#[export] Hint Extern 1 (map_Forall _ (alter _ _ _)) => apply map_Forall_alter : ok.
#[export] Hint Extern 1 (map_Forall _ (delete _ _)) => apply map_Forall_delete : ok.

#[global] Arguments ok : simpl never.

(** A state that differs in some fields: those have to be looked at. *)
Ltac typed_go :=
  match goal with
  | Hs : typed ?s |- typed _ =>
      let H1 := fresh in pose proof Hs as H1;
      destruct H1 as [[] ? ? ? ? ? ? ? ? ? ? ? ? ?];
      (split; [first [assumption|split; simpl; first [assumption|idtac]]|..]); simpl;
      first [assumption|idtac]; destruct_and?; eauto with ok
  end.

(** Sequences, branches and loops without an invariant. *)
Ltac ok_call := first [solve [eauto 2 with ok]|eapply ok_T; solve [eauto 2 with ok]].
Ltac ok_step :=
  lazymatch goal with
  | |- ok (bind ?p _) _ =>
      first [eapply (ok_bind p); [solve [eauto 2 with ok]|]
            |apply (ok_bind p _ (fun _ => True))]; [..|let H := fresh "Hr" in intros ? H; cbv beta in H]
  | |- ok (ret _) _ => apply ok_ret
  | |- ok (loop _ _) (fun _ => True) => first [ok_call|apply ok_loop_T; intros ?]
  | |- ok (match ?x with _ => _ end) _ => destruct x eqn:?
  | |- ok (let _ := _ in _) _ => cbv zeta
  | |- ok _ _ => ok_call
  end.
Ltac ok_go := intros; repeat ok_step; try done.

(** One action: its definition says what it changes. *)
Ltac ok_action :=
  intros; first [apply ok_modify|apply ok_store|apply ok_act]; intros;
  repeat case_match; simplify_eq/=; try (split; [|done]); try done; try typed_go.
