(* ===== verification/Typing.v ===== *)
(** * Typing: the programs of the executive keep the data well formed

    Every function is [ok] ([Types]): in whatever state and on whatever processor
    each of its actions runs. *)

From S2P Require Import Prelude Prog State Linked Hardware Priority Ipq.
From S2P Require Import Sched Mutex Memory Timer AltState Comm Alt Interrupt Proc Par.
From S2P Require Import Handlers Boot Types.

#[local] Open Scope prog_scope.

(** ** Fields *)

Lemma ok_pget {B} p (fld : Process -> B) :
  ok (pget p fld) (fun b => exists P, proc_ok P /\ b = fld P).
Proof.
  eapply ok_weaken; [apply ok_fetch|]. intros b (s & Hs & E). destruct (procs s !! p) as [P|] eqn:EP; simplify_eq/=.
  exists P. split; [by apply (ty_procs s Hs p)|done].
Qed.
#[export] Hint Resolve ok_pget : ok.

Lemma ok_pset p f : (forall P, proc_ok P -> proc_ok (f P)) -> okT (pset p f).
Proof. ok_action. Qed.
Lemma set_next_ok v P : proc_ok P -> proc_ok (set_next v P).
Proof. by intros []. Qed.
Lemma set_stackptr_ok v P : proc_ok P -> proc_ok (set_stackptr v P).
Proof. by intros []. Qed.
Lemma set_sched_state_ok v P :
  v ∈ [PROC_READY; PROC_PREPARING_TO_WAIT; PROC_WAITING] -> proc_ok P -> proc_ok (set_sched_state v P).
Proof. by intros ? []. Qed.
Lemma set_alt_state_ok v P :
  v ∈ [ALT_NONE; ALT_ENABLING; ALT_WAITING; ALT_READY] -> proc_ok P -> proc_ok (set_alt_state v P).
Proof. by intros ? []. Qed.
#[export] Hint Resolve set_next_ok set_stackptr_ok set_sched_state_ok set_alt_state_ok : ok.
Lemma ok_pset_next p v : okT (pset p (set_next v)).
Proof. apply ok_pset. eauto with ok. Qed.
Lemma ok_pset_stackptr p v : okT (pset p (set_stackptr v)).
Proof. apply ok_pset. eauto with ok. Qed.
#[export] Hint Resolve ok_pset_next ok_pset_stackptr : ok.

Lemma ok_xchg_sched p v :
  v ∈ [PROC_READY; PROC_PREPARING_TO_WAIT; PROC_WAITING] -> okT (xchg_sched_state p v).
Proof. ok_action. Qed.
Lemma ok_cas_sched p a v :
  v ∈ [PROC_READY; PROC_PREPARING_TO_WAIT; PROC_WAITING] -> okT (cas_sched_state p a v).
Proof. ok_action. Qed.
Lemma ok_cas_alt p a v :
  v ∈ [ALT_NONE; ALT_ENABLING; ALT_WAITING; ALT_READY] -> okT (cas_alt_state p a v).
Proof. ok_action. Qed.
#[export] Hint Extern 1 (_ ∈ _) => (vm_compute; set_solver) : ok.
#[export] Hint Resolve ok_xchg_sched ok_cas_sched ok_cas_alt : ok.

(** ** Hardware *)

Lemma ok_getcpu : ok getcpu (fun c => 0 <= c < NPUN).
Proof.
  unfold getcpu. eapply (ok_bind _ _ (fun c => 0 <= c <= NPUN)).
  - apply ok_act. intros t s b s' Hs [= <- <-]. split; [done|].
    destruct (cpu_key (hw s) !! t) as [v|] eqn:E; simpl; [|done].
    pose proof (hy_cpu _ (ty_hw s Hs) t v E). simpl in *. lia.
  - intros c Hc. case_match; [apply ok_plotz|]. apply ok_ret. lia.
Qed.
#[export] Hint Resolve ok_getcpu : ok.

Lemma ok_self : okT self.
Proof. ok_action. Qed.
Lemma ok_hget {B} (f : hardware -> B) : ok (hget f) (fun b => exists h, hw_ok h /\ b = f h).
Proof.
  eapply ok_weaken; [apply ok_fetch|]. intros b (s & Hs & [= <-]). exists (hw s). split; [apply Hs|done].
Qed.
Lemma ok_hfetch {B} (f : hardware -> option B) : ok (hfetch f) (fun b => exists h, hw_ok h /\ f h = Some b).
Proof. eapply ok_weaken; [apply ok_fetch|]. intros b (s & Hs & E). exists (hw s). split; [apply Hs|done]. Qed.
Lemma typed_hw h s : hw_ok h -> typed s -> typed (set_hw h s).
Proof. intros Hh Hs. destruct Hs. by split. Qed.
Lemma ok_hset f : (forall h, hw_ok h -> hw_ok (f h)) -> okT (hset f).
Proof. intros Hf. apply ok_modify. intros s Hs. apply typed_hw; [apply Hf, Hs|done]. Qed.
Lemma ok_hstore f : (forall h h', hw_ok h -> f h = Some h' -> hw_ok h') -> okT (hstore f).
Proof.
  intros Hf. apply ok_store. intros s s' Hs. destruct (f (hw s)) as [h|] eqn:E; [|done]. intros [= <-].
  apply typed_hw; [eapply Hf; [apply Hs|done]|done].
Qed.
#[export] Hint Resolve ok_self ok_hget ok_hfetch : ok.

(** A change of the hardware. *)
Ltac hw_go :=
  intros; unfold array_set in *; simplify_option_eq; repeat (case_match; simplify_option_eq);
  match goal with Hh : hw_ok _ |- _ => destruct Hh end;
  split; simpl; first [assumption|idtac]; destruct_and?; eauto with ok.

Ltac hw_action :=
  apply ok_act; intros ? s ? ? Hs ?; repeat case_match; simplify_eq; try done;
  (split; [apply typed_hw; [pose proof (ty_hw s Hs); hw_go|done]|]);
  first [done|apply (hy_signo _ (ty_hw s Hs))|idtac].

Lemma ok_set_own_mask m : okT (set_own_mask m).
Proof. hw_action. Qed.
Lemma ok_own_mask : okT own_mask.
Proof. ok_action. Qed.
Lemma ok_save_uctx a u : okT (hset (fun h => set_uctxs (<[a := u]> (uctxs h)) h)).
Proof. apply ok_hset. hw_go. Qed.
#[export] Hint Resolve ok_set_own_mask ok_own_mask ok_save_uctx : ok.
Lemma ok_disable : okT disable.
Proof. apply ok_set_own_mask. Qed.
Lemma ok_enable : okT enable.
Proof. unfold enable. ok_go. Qed.
#[export] Hint Resolve ok_disable ok_enable : ok.

Lemma ok_define_handler intr : okT (define_handler intr).
Proof.
  unfold define_handler. eapply (ok_bind _ _ is_int32).
  - hw_action.
  - intros signo Hsig. ok_go; first [apply ok_hstore|apply ok_hset]; hw_go.
Qed.
#[export] Hint Resolve ok_define_handler : ok.
Lemma ok_build_context proc stacksize code arg1 arg2 ua :
  okT (build_context proc stacksize code arg1 arg2 ua).
Proof. unfold build_context. ok_go. Qed.
Lemma ok_restore_context p : okT (restore_context p).
Proof. done. Qed.
Lemma ok_enable_and_resume p : okT (enable_and_resume p).
Proof. unfold enable_and_resume. ok_go. Qed.
Lemma ok_switch_context p q : okT (switch_context p q).
Proof. unfold switch_context. ok_go. Qed.
Lemma ok_switch_interrupt_context p q : okT (switch_interrupt_context p q).
Proof. done. Qed.
Lemma ok_set_stack p c : okT (set_stack p c).
Proof. unfold set_stack. ok_go. Qed.
Lemma ok_acquire n : ok (acquire_memory n) is_uint32.
Proof. unfold acquire_memory. ok_go. destruct Hr as (h & Hh & ->). apply Hh. Qed.
#[export] Hint Resolve ok_build_context ok_restore_context ok_enable_and_resume ok_switch_context
  ok_switch_interrupt_context ok_set_stack ok_acquire : ok.
Lemma ok_synchronize : okT synchronize_processors.
Proof. unfold synchronize_processors. ok_go. apply ok_hset. hw_go. Qed.
Lemma ok_halt : okT halt_processor.
Proof. unfold halt_processor. ok_go. Qed.
Lemma ok_pthread_kill t g w : okT (pthread_kill t g w).
Proof. hw_action. Qed.
#[export] Hint Resolve ok_synchronize ok_halt ok_pthread_kill : ok.
Lemma ok_send_ipi pun : okT (send_interprocessor_interrupt pun).
Proof. unfold send_interprocessor_interrupt. ok_go. Qed.
Lemma ok_init_timer ty : okT (init_timer ty).
Proof. unfold init_timer. ok_go. apply ok_hstore. hw_go. Qed.
Lemma ok_timer_settime id v i w : okT (timer_settime id v i w).
Proof. hw_action. Qed.
#[export] Hint Resolve ok_send_ipi ok_init_timer ok_timer_settime : ok.
Lemma ok_set_timer_single ty t : okT (set_timer_single ty t).
Proof. unfold set_timer_single. ok_go. Qed.
Lemma ok_set_timer_repeating ty t : okT (set_timer_repeating ty t).
Proof. unfold set_timer_repeating. ok_go. Qed.
Lemma ok_read_timer ty : okT (read_timer ty).
Proof. unfold read_timer. ok_go. ok_action. Qed.
Lemma ok_send_interrupt i : okT (send_interrupt i).
Proof. unfold send_interrupt. ok_go. Qed.
Lemma ok_hardware_init : okT hardware_init.
Proof. unfold hardware_init. ok_go; apply ok_hset; hw_go. Qed.
#[export] Hint Resolve ok_set_timer_single ok_set_timer_repeating ok_read_timer ok_send_interrupt
  ok_hardware_init : ok.

(** ** Interprocessor queues *)

Lemma empty_queue_ok : queue_ok empty_ipq.
Proof. split; [done..|]. exact (array_zeros 5 NULL). Qed.
Lemma next_slot_ok i : 0 <= i < QSIZE -> 0 <= next_slot i < QSIZE.
Proof. intros Hi. rewrite next_slot_mod by done. by apply Z.mod_pos_bound. Qed.
Lemma set_nextAdd_ok v q : 0 <= v < QSIZE -> queue_ok q -> queue_ok (set_nextAdd v q).
Proof. by intros ? []. Qed.
Lemma set_nextRem_ok v q : 0 <= v < QSIZE -> queue_ok q -> queue_ok (set_nextRem v q).
Proof. by intros ? []. Qed.
Lemma set_slot_ok i v w q : que q !! i = Some w -> queue_ok q -> queue_ok (set_slot i v q).
Proof. intros Hw []. split; [done..|]. simpl. eauto with ok. Qed.
#[export] Hint Resolve empty_queue_ok next_slot_ok set_nextAdd_ok set_nextRem_ok : ok.

Lemma typed_ipq_upd pun f s q :
  ipQues s !! pun = Some q -> (queue_ok q -> queue_ok (f q)) -> typed s -> typed (ipq_upd pun f s).
Proof.
  intros Hq Hf Hs. destruct (ty_ipq s Hs) as [Ha Hm]. unfold ipq_upd. typed_go. split; [eauto with ok|].
  intros j v. rewrite lookup_alter. case_decide as E; [subst|apply Hm].
  rewrite Hq. intros [= <-]. by apply Hf, (Hm j).
Qed.

Lemma ok_ipq_get {B} pun (f : IPQueue -> option B) :
  ok (ipq_get pun f) (fun b => exists q, queue_ok q /\ f q = Some b).
Proof.
  eapply ok_weaken; [apply ok_fetch|]. intros b (s & Hs & E). apply bind_Some in E as (q & Eq & Ef).
  exists q. split; [by apply (proj2 (ty_ipq s Hs) pun)|done].
Qed.
Lemma ok_ipq_set pun f : (forall q, queue_ok q -> queue_ok (f q)) -> okT (ipq_set pun f).
Proof.
  intros Hf. apply ok_store. intros s s' Hs E. destruct (ipQues s !! pun) as [q|] eqn:Eq; simplify_eq.
  eapply typed_ipq_upd; eauto.
Qed.
Lemma ok_ipq_store pun i v : okT (ipq_store pun i v).
Proof.
  apply ok_store. intros s s' Hs E. destruct (ipQues s !! pun) as [q|] eqn:Eq; simplify_eq/=.
  destruct (que q !! i) as [w|] eqn:Ew; simplify_eq/=. eapply typed_ipq_upd; eauto using set_slot_ok.
Qed.
Lemma ok_ipq_claim pun a a1 : 0 <= a1 < QSIZE -> okT (ipq_claim pun a a1).
Proof.
  intros Ha. apply ok_act. intros t s b s' Hs E. destruct (ipQues s !! pun) as [q|] eqn:Eq; [|done].
  case_match; simplify_eq; [|done]. split; [|done]. eapply typed_ipq_upd; eauto with ok.
Qed.
#[export] Hint Resolve ok_ipq_get ok_ipq_store ok_ipq_claim : ok.

Lemma ok_ipq_room pun : ok (ipq_room pun) (fun aa => 0 <= aa.2 < QSIZE).
Proof.
  unfold ipq_room. apply (ok_loop (fun _ => True)); [done|]. intros [] _. ok_go.
  destruct Hr as (q & Hq & [= <-]). apply next_slot_ok, Hq.
Qed.
#[export] Hint Resolve ok_ipq_room : ok.
Lemma ok_ipq_add pun p : okT (ipq_add pun p).
Proof. unfold ipq_add, ipq_add_try, ipq_fill. ok_go. Qed.
Lemma ok_ipq_remove : okT ipq_remove.
Proof.
  unfold ipq_remove. ok_step. ok_step. destruct Hr0 as (q & Hq & [= <-]).
  assert (Hn : 0 <= next_slot (nextRem q) < QSIZE) by apply next_slot_ok, Hq.
  ok_go; [|by apply ok_ipq_set; eauto with ok].
  apply ok_act. intros t s b s' Hs E. destruct (ipQues s !! a) as [q'|] eqn:Eq; simplify_eq/=.
  destruct (que q' !! nextRem q) as [w|] eqn:Ew; simplify_eq/=.
  split; [|done]. eapply typed_ipq_upd; eauto using set_slot_ok.
Qed.
Lemma ok_ipq_init : okT ipq_init.
Proof.
  apply ok_count; [done|]. intros i Hi. ok_go; [|lia].
  apply ok_modify. intros s Hs. typed_go.
Qed.
#[export] Hint Resolve ok_ipq_add ok_ipq_remove ok_ipq_init : ok.

(** ** Scheduler *)

Lemma ok_rdy_head pun : okT (rdy_head pun).
Proof. unfold rdy_head. ok_go. Qed.
Lemma ok_set_rdy_head pun v : okT (set_rdy_head pun v).
Proof. ok_action. Qed.
#[export] Hint Resolve ok_rdy_head ok_set_rdy_head : ok.
Lemma ok_get_current : okT get_current.
Proof. unfold get_current. ok_go. Qed.
Lemma ok_set_current p : okT (set_current p).
Proof. unfold set_current. ok_go; apply ok_modify; intros s Hs; typed_go. Qed.
Lemma ok_PREPARE_TO_WAIT p : okT (PREPARE_TO_WAIT p).
Proof. apply ok_pset. eauto with ok. Qed.
#[export] Hint Resolve ok_get_current ok_set_current ok_PREPARE_TO_WAIT : ok.
Lemma ok_prepare_to_wait : okT prepare_to_wait.
Proof. unfold prepare_to_wait. ok_go. Qed.
Lemma ok_walk test next prev curr :
  (forall x, okT (test x)) -> (forall x, okT (next x)) -> okT (walk test next prev curr).
Proof. intros. unfold walk. ok_go. Qed.
Lemma ok_enqueue0 p : okT (enqueue0 p).
Proof.
  unfold enqueue0. ok_step. ok_step. ok_step; [apply ok_walk; ok_go|]. ok_go.
Qed.
#[export] Hint Resolve ok_prepare_to_wait ok_enqueue0 : ok.
Lemma ok_enqueue p : okT (enqueue p).
Proof. unfold enqueue. ok_go. Qed.
Lemma ok_drain_ipq f : (forall p, okT (f p)) -> okT (drain_ipq f).
Proof. intros Hf. unfold drain_ipq. ok_go. Qed.
#[export] Hint Resolve ok_enqueue ok_drain_ipq : ok.
Lemma ok_take pun : okT (take pun).
Proof. unfold take. ok_go. Qed.
Lemma ok_take1 pun : okT (take1 pun).
Proof. unfold take1. ok_go. Qed.
Lemma ok_schedule0 p : okT (schedule0 p).
Proof. unfold schedule0. ok_go. Qed.
#[export] Hint Resolve ok_take ok_take1 ok_schedule0 : ok.
Lemma ok_schedule p : okT (schedule p).
Proof. unfold schedule. ok_go. Qed.
Lemma ok_schedule_from_interrupt : okT schedule_from_interrupt.
Proof. unfold schedule_from_interrupt. ok_go. Qed.
Lemma ok_schedule_from_interrupt_single p : okT (schedule_from_interrupt_single p).
Proof. unfold schedule_from_interrupt_single. ok_go. Qed.
Lemma ok_relinquish : okT relinquish.
Proof. unfold relinquish. ok_go. Qed.
Lemma ok_relinquish_unconditional : okT relinquish_unconditional.
Proof. unfold relinquish_unconditional. ok_go. Qed.
Lemma ok_yield : okT yield.
Proof. unfold yield. ok_go. Qed.
#[export] Hint Resolve ok_schedule ok_schedule_from_interrupt ok_schedule_from_interrupt_single
  ok_relinquish ok_relinquish_unconditional ok_yield : ok.

(** ** Mutexes and memory *)

Lemma ok_xchg_claimed m v : okT (xchg_claimed m v).
Proof. ok_action. Qed.
Lemma ok_init_mutex m : okT (init_mutex m).
Proof. ok_action. Qed.
#[export] Hint Resolve ok_xchg_claimed ok_init_mutex : ok.
Lemma ok_claim_mutex m : okT (claim_mutex m).
Proof. unfold claim_mutex. ok_go. Qed.
Lemma ok_release_mutex m : okT (release_mutex m).
Proof. ok_action. Qed.
#[export] Hint Resolve ok_claim_mutex ok_release_mutex : ok.

Lemma procmemlen_valid i len :
  (if 0 <=? i then procmemlen !! Z.to_nat i else None) = Some len -> (len =? 0) = false -> 0 <= i < 21.
Proof.
  destruct (0 <=? i) eqn:E; [|done]. intros Hl Hn.
  assert (Z.to_nat i < 21)%nat; [|lia].
  pose proof (lookup_lt_Some _ _ _ Hl) as Hlt. simpl in Hlt.
  destruct (decide (Z.to_nat i = 21%nat)) as [Ei|]; [|lia]. rewrite Ei in Hl. by simplify_eq/=.
Qed.
Lemma ok_procmemlen_get i :
  ok (procmemlen_get i) (fun len => (if 0 <=? i then procmemlen !! Z.to_nat i else None) = Some len).
Proof. eapply ok_weaken; [apply ok_fetch|]. by intros len (s & _ & E). Qed.
#[export] Hint Resolve ok_procmemlen_get : ok.
Lemma ok_find_mem_index size : ok (find_mem_index size) (fun i => 0 <= i < 21).
Proof.
  unfold find_mem_index. ok_step.
  - ok_go.
  - ok_step. ok_step; [|ok_go]. apply ok_ret.
    eapply procmemlen_valid; [exact Hr0|]. by destruct (a0 =? 0).
Qed.
Lemma typed_chain a n s : typed s -> typed (upd_chain a n s).
Proof. intros Hs. unfold upd_chain, clobber. typed_go. Qed.
Lemma ok_set_list i a : okT (set_list i a).
Proof. ok_action. Qed.
Lemma ok_set_tail f : okT (modify (fun s => set_tail (uint32 (f s)) s)).
Proof. ok_action. Qed.
#[export] Hint Resolve ok_find_mem_index ok_set_list ok_set_tail typed_chain : ok.
Lemma ok_allocate_mem i : okT (allocate_mem i).
Proof. unfold allocate_mem. ok_go. Qed.
Lemma ok_release_mem i b : okT (release_mem i b).
Proof. unfold release_mem. ok_go. apply ok_modify, typed_chain. Qed.
Lemma ok_memory_init total : okT (memory_init total).
Proof.
  unfold memory_init. ok_step.
  - apply ok_count; [done|]. intros i Hi. ok_go; [|lia]. apply ok_modify. intros s Hs. typed_go.
  - ok_go; apply ok_modify; intros s Hs; typed_go.
Qed.
#[export] Hint Resolve ok_allocate_mem ok_release_mem ok_memory_init : ok.

(** ** Timer *)

Lemma ok_tget {B} d (fld : TimeoutDesc -> B) : okT (tget d fld).
Proof. unfold tget. ok_go. Qed.
Lemma typed_upd_tmo d f s :
  (forall D, td_type (f D) = td_type D) -> typed s -> typed (upd_tmo d f s).
Proof.
  intros Hf Hs. pose proof (ty_tmo s Hs). unfold upd_tmo. typed_go.
  apply map_Forall_alter; [|done]. intros D. by rewrite Hf.
Qed.
Lemma ok_tset_next d v : okT (tset d (set_td_next v)).
Proof.
  apply ok_store. intros s s' Hs E. destruct (timeouts s !! d); simplify_eq. by apply typed_upd_tmo.
Qed.
Lemma ok_new_tmo d td : td_type td ∈ [TMO_AFTER; TMO_ALTING] -> okT (new_tmo d td).
Proof. intros Ht. unfold new_tmo. ok_go. apply ok_modify. intros s Hs. typed_go. Qed.
Lemma ok_end_tmo d : okT (end_tmo d).
Proof. ok_action. Qed.
Lemma ok_tque_head pun : okT (tque_head pun).
Proof. unfold tque_head. ok_go. Qed.
Lemma ok_set_tque_head pun v : okT (set_tque_head pun v).
Proof. ok_action. Qed.
#[export] Hint Resolve ok_tget ok_tset_next ok_end_tmo ok_tque_head ok_set_tque_head : ok.
#[export] Hint Extern 1 (ok (new_tmo _ _) _) => (apply ok_new_tmo; vm_compute; set_solver) : ok.
Lemma ok_GetCurrentTime : okT GetCurrentTime.
Proof. unfold GetCurrentTime. ok_go. Qed.
#[export] Hint Resolve ok_GetCurrentTime : ok.
Lemma ok_insertInQueue q d : okT (insertInQueue q d).
Proof. unfold insertInQueue. ok_step. ok_step. ok_step; [apply ok_walk; ok_go|]. ok_go. Qed.
Lemma ok_removeFromQueue q time p : okT (removeFromQueue q time p).
Proof.
  unfold removeFromQueue. ok_step. ok_step. ok_step; [apply ok_walk; ok_go|].
  ok_step; [apply ok_walk; ok_go|]. ok_go.
Qed.
Lemma ok_removeHead q : okT (removeHead q).
Proof. unfold removeHead. ok_go. Qed.
#[export] Hint Resolve ok_insertInQueue ok_removeFromQueue ok_removeHead : ok.
Lemma ok_After d t : okT (After d t).
Proof. unfold After. ok_go. Qed.
Lemma ok_timeout_ready t : okT (timeout_ready t).
Proof. unfold timeout_ready. ok_go. Qed.
Lemma ok_enable_timeout t p : okT (enable_timeout t p).
Proof. unfold enable_timeout. ok_go. Qed.
Lemma ok_disable_timeout t p : okT (disable_timeout t p).
Proof. unfold disable_timeout. ok_go. Qed.
#[export] Hint Resolve ok_After ok_timeout_ready ok_enable_timeout ok_disable_timeout : ok.
Lemma ok_elapsed : okT handle_elapsed_time_interrupt.
Proof. unfold handle_elapsed_time_interrupt. ok_action. Qed.
Lemma ok_freeProcess p : okT (freeProcess p).
Proof. unfold freeProcess. ok_go. Qed.
Lemma ok_maybeFreeAltingProcess p : okT (maybeFreeAltingProcess p).
Proof. unfold maybeFreeAltingProcess. ok_go. Qed.
#[export] Hint Resolve ok_elapsed ok_freeProcess ok_maybeFreeAltingProcess : ok.
Lemma ok_timeout_interrupt : okT handle_timeout_interrupt.
Proof. unfold handle_timeout_interrupt. ok_go. Qed.
Lemma ok_timer_init : okT timer_init.
Proof.
  apply ok_count; [done|]. intros i Hi. ok_go; [|lia]. apply ok_modify. intros s Hs. typed_go.
Qed.
#[export] Hint Resolve ok_timeout_interrupt ok_timer_init : ok.

(** ** Channels *)

Lemma ok_cget {B} ch (fld : Channel -> B) : okT (cget ch fld).
Proof. unfold cget. ok_go. Qed.
Lemma ok_cset ch f : okT (cset ch f).
Proof. ok_action. Qed.
Lemma ok_memcpy d s len : okT (memcpy d s len).
Proof. apply ok_store. intros st st' Hs E. case_match; simplify_option_eq. typed_go. Qed.
Lemma ok_freeProcessMaybe p : okT (freeProcessMaybe p).
Proof. unfold freeProcessMaybe. ok_go. Qed.
#[export] Hint Resolve ok_cget ok_cset ok_memcpy ok_freeProcessMaybe : ok.
Lemma ok_wake p : okT (wake p).
Proof. unfold wake. ok_go. Qed.
Lemma ok_init_channel ch : okT (init_channel ch).
Proof. unfold init_channel. ok_go. ok_action. Qed.
#[export] Hint Resolve ok_wake ok_init_channel : ok.
Lemma ok_in ch d len : okT (in_ ch d len).
Proof. unfold in_. ok_go. Qed.
Lemma ok_out ch d len : okT (out ch d len).
Proof. unfold out. ok_go. Qed.
Lemma ok_try_in ch d len : okT (try_in ch d len).
Proof. unfold try_in. ok_go. Qed.
Lemma ok_chan_pending ch : okT (chan_pending ch).
Proof. unfold chan_pending. ok_go. Qed.
Lemma ok_enable_channel ch p : okT (enable_channel ch p).
Proof. unfold enable_channel. ok_go. Qed.
Lemma ok_disable_channel ch p : okT (disable_channel ch p).
Proof. unfold disable_channel. ok_go. Qed.
#[export] Hint Resolve ok_in ok_out ok_try_in ok_chan_pending ok_enable_channel ok_disable_channel : ok.

(** ** Alternation *)

Lemma ok_set_guard g f : (forall x, guard_ok x -> guard_ok (f x)) -> okT (set_guard g f).
Proof.
  intros Hf. apply ok_store. intros s s' Hs E. destruct (guards s !! g.1) as [l|] eqn:El; [|done].
  simpl in E. destruct (if 0 <=? g.2 then _ else _) as [x|] eqn:Ex; simplify_eq/=.
  pose proof (ty_guards s Hs g.1 l El) as Hl. typed_go. apply map_Forall_insert_2; [|done].
  apply Forall_insert; [done|]. apply Hf. destruct (0 <=? g.2); [|done]. exact (Forall_lookup_1 _ _ _ _ Hl Ex).
Qed.
Lemma ok_init_channel_guard g ch : okT (init_channel_guard g ch).
Proof. apply ok_set_guard. intros x _. left. split; [done|by eexists]. Qed.
Lemma ok_init_skip_guard g : okT (init_skip_guard g).
Proof. apply ok_set_guard. intros x _. right; left. done. Qed.
Lemma ok_init_timer_guard g t : okT (init_timer_guard g t).
Proof. apply ok_set_guard. intros x _. right; right; left. split; [done|by eexists]. Qed.
Lemma ok_init_interrupt_guard g i : okT (init_interrupt_guard g i).
Proof. apply ok_set_guard. intros x _. right; right; right. split; [done|by eexists]. Qed.
Lemma ok_init_alt a g n : okT (init_alt a g n).
Proof.
  apply ok_modify. intros s Hs. typed_go. apply map_Forall_insert_2; [|done].
  split; [done|apply uint16_ok].
Qed.
Lemma ok_get_guard g i : okT (get_guard g i).
Proof. unfold get_guard. ok_go. Qed.
Lemma ok_aget {B} a (fld : Alternation -> B) : okT (aget a fld).
Proof. unfold aget. ok_go. Qed.
Lemma ok_aset_favorite a v : okT (aset a (set_favorite (uint16 v))).
Proof.
  apply ok_store. intros s s' Hs E. destruct (alts s !! a); simplify_eq. unfold upd_alt. typed_go.
  apply map_Forall_alter; [|done]. intros A [_ HA]. split; [apply uint16_ok|done].
Qed.
#[export] Hint Resolve ok_init_channel_guard ok_init_skip_guard ok_init_timer_guard
  ok_init_interrupt_guard ok_init_alt ok_get_guard ok_aget ok_aset_favorite : ok.
Lemma ok_guard_channel g : okT (guard_channel g).
Proof. unfold guard_channel. ok_go. Qed.
Lemma ok_guard_time g : okT (guard_time g).
Proof. unfold guard_time. ok_go. Qed.
Lemma ok_altEnabling p : okT (altEnabling p).
Proof. apply ok_pset. eauto with ok. Qed.
Lemma ok_altFinish p : okT (altFinish p).
Proof. apply ok_pset. eauto with ok. Qed.
Lemma ok_altShouldWait p : okT (altShouldWait p).
Proof. unfold altShouldWait. ok_go. Qed.
#[export] Hint Resolve ok_guard_channel ok_guard_time ok_altEnabling ok_altFinish ok_altShouldWait : ok.
Lemma ok_enable_guard g p e : okT (enable_guard g p e).
Proof. unfold enable_guard. ok_go. Qed.
Lemma ok_disable_guard g p i e : okT (disable_guard g p i e).
Proof. unfold disable_guard. ok_go. Qed.
Lemma ok_alt_wait p e : okT (alt_wait p e).
Proof. unfold alt_wait. ok_go. Qed.
Lemma ok_save_favorite a i : okT (save_favorite a i).
Proof. unfold save_favorite. ok_go. Qed.
Lemma ok_cmod a n : okT (cmod a n).
Proof. unfold cmod. ok_go. Qed.
#[export] Hint Resolve ok_enable_guard ok_disable_guard ok_alt_wait ok_save_favorite ok_cmod : ok.
Lemma ok_pri_enable a p : okT (pri_enable a p).
Proof. unfold pri_enable, pri_enable_step. ok_go. Qed.
Lemma ok_pri_disable a p i : okT (pri_disable a p i).
Proof. unfold pri_disable, pri_disable_step. ok_go. Qed.
Lemma ok_fair_enable a p : okT (fair_enable a p).
Proof. unfold fair_enable, fair_enable_step. ok_go. Qed.
Lemma ok_fair_disable a p k i : okT (fair_disable a p k i).
Proof. unfold fair_disable, fair_disable_step. ok_go. Qed.
#[export] Hint Resolve ok_pri_enable ok_pri_disable ok_fair_enable ok_fair_disable : ok.
Lemma ok_priSelect a : okT (priSelect a).
Proof. unfold priSelect. ok_go. Qed.
Lemma ok_fairSelect a : okT (fairSelect a).
Proof. unfold fairSelect. ok_go. Qed.
#[export] Hint Resolve ok_priSelect ok_fairSelect : ok.

(** ** Interrupts, processes, parallel constructs *)

Lemma ok_interrupt_init : okT interrupt_init.
Proof.
  apply ok_count; [done|]. intros pun Hp. ok_step; [|ok_go; lia].
  apply ok_count; [done|]. intros i Hi. ok_go; [|lia]. apply ok_modify. intros s Hs. typed_go.
Qed.
Lemma ok_receive i : okT (receive i).
Proof. unfold receive. ok_go. ok_action. Qed.
Lemma ok_transmit i : okT (transmit i).
Proof. unfold transmit. ok_go. ok_action. Qed.
#[export] Hint Resolve ok_interrupt_init ok_receive ok_transmit : ok.

Lemma ok_build_process stacksize pri pun : okT (build_process stacksize pri pun).
Proof.
  unfold build_process. ok_go. apply ok_modify. intros s Hs. typed_go.
  apply map_Forall_insert_2; [|done]. split; simpl; eauto with ok.
  unfold uint16, wrapU. rewrite Z.mod_small; lia.
Qed.
#[export] Hint Resolve ok_build_process : ok.
Lemma ok_make_process code a1 a2 st pri pun ua : okT (make_process code a1 a2 st pri pun ua).
Proof. unfold make_process. ok_go. Qed.
Lemma ok_idle : okT idle.
Proof. unfold idle. ok_go. Qed.
Lemma ok_finish_termination : okT finish_termination.
Proof. unfold finish_termination. ok_go. Qed.
Lemma ok_terminate : okT terminate.
Proof. unfold terminate. ok_go. Qed.
#[export] Hint Resolve ok_make_process ok_idle ok_finish_termination ok_terminate : ok.

Lemma ok_par_barr_init b p n : okT (par_barr_init b p n).
Proof. apply ok_modify. intros s Hs. unfold upd_bar. typed_go. Qed.
Lemma ok_par_barr_sync b : okT (par_barr_sync b).
Proof.
  unfold par_barr_sync. ok_go. apply ok_act. intros t s n s' Hs E. repeat case_match; simplify_eq.
  split; [|done]. unfold upd_bar. typed_go.
Qed.
Lemma ok_end_bar b : okT (end_bar b).
Proof. ok_action. Qed.
Lemma ok_elem {B} (l : list B) i : okT (elem l i).
Proof. unfold elem. ok_go. Qed.
#[export] Hint Resolve ok_par_barr_init ok_par_barr_sync ok_end_bar ok_elem : ok.
Lemma ok_par b cs us ss n : okT (par b cs us ss n).
Proof. unfold par. ok_go. Qed.
Lemma ok_par_pri_start b n : okT (par_pri_start b n).
Proof. unfold par_pri_start. ok_go. Qed.
#[export] Hint Resolve ok_par ok_par_pri_start : ok.
Lemma ok_par_pri b cs us ss n : okT (par_pri b cs us ss n).
Proof. unfold par_pri. ok_go. Qed.
Lemma ok_place p q pun : okT (place p q pun).
Proof. unfold place. ok_go. Qed.
#[export] Hint Resolve ok_par_pri ok_place : ok.
Lemma ok_placed_par b cs us ss ps n : okT (placed_par b cs us ss ps n).
Proof. unfold placed_par. ok_go. Qed.
Lemma ok_placed_par_pri b cs us ss ps n : okT (placed_par_pri b cs us ss ps n).
Proof. unfold placed_par_pri. ok_go. Qed.
#[export] Hint Resolve ok_placed_par ok_placed_par_pri : ok.

(** ** Handlers and the start of the run *)

Lemma ok_handle_interrupt i : okT (handle_interrupt i).
Proof. unfold handle_interrupt, handle_interprocessor_interrupt, handle_user_interrupt. ok_go. Qed.
Lemma ok_define_interrupt_handlers : okT define_interrupt_handlers.
Proof. unfold define_interrupt_handlers, getTick. ok_go. Qed.
#[export] Hint Resolve ok_handle_interrupt ok_define_interrupt_handlers : ok.
Lemma ok_handle_signal g m u : okT u -> okT (handle_signal g m u).
Proof.
  intros Hu. unfold handle_signal. do 4 ok_step. eapply (ok_bind _ _ (fun _ => True)); [|intros _ _; ok_go].
  split; [|done]. ok_go.
Qed.
Lemma ok_upd_sigmask cpu f : okT (upd_sigmask cpu f).
Proof. apply ok_hstore. hw_go. Qed.
#[export] Hint Resolve ok_upd_sigmask : ok.
Lemma ok_init_processor cpu : 0 <= cpu < NPUN -> okT (init_processor cpu).
Proof.
  intros Hc. unfold init_processor. ok_go; first [apply ok_hstore; hw_go|apply ok_hset; hw_go].
  apply map_Forall_insert_2; [lia|done].
Qed.
Lemma ok_run_process pun : okT (run_process pun).
Proof.
  unfold run_process. ok_step. destruct Hr as (h & Hh & E). ok_step; [|ok_go].
  apply ok_init_processor. by apply (proj2 (hy_arg h Hh) pun).
Qed.
Lemma ok_activate_processor pun proc : 0 <= pun < NPUN -> okT (activate_processor pun proc).
Proof.
  intros Hp. unfold activate_processor. case_match; [by apply ok_init_processor|]. ok_go.
  - apply ok_hstore. hw_go.
  - hw_action.
Qed.
Lemma ok_sched_init : okT sched_init.
Proof.
  unfold sched_init. ok_step. ok_step; [|ok_go].
  apply ok_count; [done|]. intros i Hi. ok_go; [|lia]. apply ok_modify. intros s Hs. unfold upd_head. typed_go.
Qed.
#[export] Hint Resolve ok_init_processor ok_run_process ok_activate_processor ok_sched_init : ok.
Lemma ok_initialize tsize isize : okT (initialize tsize isize).
Proof.
  unfold initialize. do 7 ok_step. ok_step; [by apply ok_activate_processor|]. do 3 ok_step.
  ok_step; [|ok_go]. apply ok_count; [done|]. intros pun Hp. ok_go; [..|lia].
  all: apply ok_modify; intros s Hs; typed_go.
Qed.
#[export] Hint Resolve ok_handle_signal ok_initialize : ok.
