(* ===== verification/Typed.v ===== *)
(** * Typed: the machine never leaves the typed states

    The state at power on is typed, and every step of the machine keeps it so
    whatever the application does within the executive's interface. *)

From S2P Require Import Prelude Prog State Hardware Ipq Memory.
From S2P Require Import Comm Par Proc Handlers Boot Machine Types Typing Start.

#[local] Open Scope prog_scope.

(** ** The machine *)

(** What the machine holds is typed, and what it has still to run is [ok]. *)
Record machine_ok (m : machine) : Prop := {
  mo_sys : typed (m_sys m);
  mo_run : map_Forall (fun _ p => okT p) (m_run m);
  mo_saved : map_Forall (fun _ kp => okT kp.2) (m_saved m) }.

Lemma typed_power_on rtmin rtmax base tid :
  is_int32 rtmin -> is_uint32 base -> typed (power_on rtmin rtmax base tid).
Proof.
  intros Hr Hb. split; [split|..]; simpl; try done.
  all: first [exact (array_zeros 2 _)|exact (array_zeros 24 _)|by apply (array2_check 2 5)
             |by apply (array2_check 2 2)|exact (map_Forall_empty _)|idtac].
  - split; [apply (array_zeros 10)|by apply Forall_zeros].
  - split; [apply (array_zeros 2)|by apply Forall_zeros].
  - split; apply (array_zeros 2).
  - split; [apply (array_zeros 2)|]. apply Forall_zeros. split; [done..|apply (array_zeros 5)].
Qed.

Section Typing.
Context (user : code_p -> addr -> cprog unit) (Huser : forall code a, okT (user code a)).

Lemma ok_code_prog code arg1 arg2 ua : okT (code_prog user code arg1 arg2 ua).
Proof.
  destruct code; simpl; [apply ok_fault|apply ok_idle| |apply ok_finish_termination|apply Huser].
  unfold run_in_par. ok_go.
Qed.

Lemma machine_ok_run t p m : okT p -> machine_ok m -> machine_ok (with_run t p m).
Proof. intros Hp [H1 H2 H3]. split; [done|by apply map_Forall_insert_2|done]. Qed.
Lemma machine_ok_sys s m : typed s -> machine_ok m -> machine_ok (with_sys s m).
Proof. intros Hs [H1 H2 H3]. by split. Qed.
Lemma machine_ok_saved a k p m : okT p -> machine_ok m -> machine_ok (with_saved a k p m).
Proof. intros Hp [H1 H2 H3]. split; [done..|by apply map_Forall_insert_2]. Qed.
Lemma machine_ok_mask t k m : machine_ok m -> machine_ok (with_mask t k m).
Proof.
  intros Hm. apply machine_ok_sys; [|done]. pose proof (mo_sys m Hm) as Hs. apply typed_hw; [|done].
  pose proof (ty_hw _ Hs). hw_go.
Qed.

Lemma dispatch_ok t a m m' : dispatch user t a m = Next m' -> machine_ok m -> machine_ok m'.
Proof.
  unfold dispatch. intros E Hm. destruct (uctxs _ !! a) as [[k code a1 a2 ua|]|]; [..|done].
  - simplify_eq. apply machine_ok_mask, machine_ok_run; [apply ok_code_prog|done].
  - destruct (m_saved m !! a) as [[k p]|] eqn:Ea; simplify_eq.
    apply machine_ok_mask, machine_ok_run; [exact (mo_saved m Hm a _ Ea)|done].
Qed.

Lemma ok_unroll {X B} (body : X -> cprog (X + B)) x (k : B -> cprog unit) :
  okT (Loop body x k) -> okT (bind (body x) (loop_k body k)).
Proof.
  intros (J & R & HJ & Hb & Hk). eapply ok_bind; [by apply Hb|]. intros [x'|b] Hr; simpl.
  - by exists J, R.
  - by apply Hk.
Qed.

Lemma thread_step_ok t m m' : thread_step user t m = Next m' -> machine_ok m -> machine_ok m'.
Proof.
  unfold thread_step. intros E Hm. destruct (m_run m !! t) as [p|] eqn:Ep; [|done].
  pose proof (mo_run m Hm t p Ep) as Hp. simpl in Hp.
  destruct p as [a|B f k|X B body x k|o n k|n|a ctx k]; [done|..].
  - specialize (Hp t (m_sys m) (mo_sys m Hm)). destruct (f t (m_sys m)) as [b s| |]; simplify_eq.
    destruct Hp as [Hs Hk]. apply machine_ok_run; [done|by apply machine_ok_sys].
  - simplify_eq. apply machine_ok_run; [by apply ok_unroll|done].
  - eapply dispatch_ok; [exact E|]. by apply machine_ok_saved.
  - by eapply dispatch_ok.
  - simplify_eq. destruct Hp as [Hc Hk]. apply machine_ok_run; [done|by apply machine_ok_saved].
Qed.

Lemma mnext_ok m m' : mnext user m m' -> machine_ok m -> machine_ok m'.
Proof.
  intros Hn Hm. unfold mnext in Hn. inversion Hn as [t m0 r Hs Hb E1 E2|t m0 m1 Hd E1 E2|t m0 m1 Hst E1 E2|d m0 m1 Ht E1 E2]; subst.
  - by eapply thread_step_ok.
  - unfold deliver in Hd. destruct (deliverable t m) as [[g l]|]; [|done].
    destruct (m_run m !! t) as [p|] eqn:Ep; [|done].
    apply (f_equal (fun r => match r with Next m2 => m2 | _ => m end)) in Hd. cbv beta iota zeta in Hd. subst m'. pose proof (mo_run m Hm t p Ep) as Hp.
    apply machine_ok_mask, machine_ok_run.
    + eapply (ok_bind _ _ (fun _ => True)); [by apply ok_handle_signal|intros _ _; ok_go].
    + apply machine_ok_sys; [|done]. pose proof (mo_sys m Hm). apply typed_hw; [|done].
      pose proof (ty_hw (m_sys m) ltac:(done)). hw_go.
  - unfold start_thread in Hst. repeat case_match; simplify_eq.
    apply machine_ok_run; [apply ok_run_process|done].
  - unfold pass_time in Ht. case_match; simplify_eq. apply machine_ok_sys; [|done].
    pose proof (mo_sys m Hm). apply typed_hw; [|done]. pose proof (ty_hw (m_sys m) ltac:(done)). hw_go.
Qed.
End Typing.


(** An application: two children, each of which sends a message on the channel
    of its argument. *)
Definition sample_user (_ : code_p) (ch : addr) : cprog unit := out ch 0x900 4.
Definition sample_app : cprog unit :=
  par 0x9000 [CUser 0; CUser 1] [0x1000; 0x1010] [512; 512] 2.

